(* ===== verification/_CoqProject ===== *)
-Q . S2P
Prelude.v
MemLayout.v
FrameAlloc.v
Paging.v
Heap.v
MemInit.v
Process.v
Scheduler.v
Tasks.v
VfsTypes.v
RamFs.v
Vfs.v
PathFs.v
Syscall.v
Sha256.v
AuditTrail.v
ConfigBuffer.v
Migration.v
Sentinel.v
Sync.v
F32.v
Monitor.v
SafeTerm.v
Ipc.v
Virtio.v
Cpuid.v
Boot.v
ConfigSession.v
ConsoleIo.v
UnitTests.v
