(* ===== verification/Prelude.v ===== *)
(** * gkern: a verification development for the Golem Linux kernel

    gkern is a small x86-64 kernel in Rust.  Boot hands it a memory map; it
    brings up physical memory, page tables and a heap, replays a configuration
    that the offline Safe Mode may have staged, mounts a RAM filesystem, starts a
    round-robin scheduler and opens the system-call gate.  A trust subsystem,
    Sentinel, keeps a hash-chained audit trail and a registry of agents, hidden
    from the agents themselves.

    The development models the Rust sources under src/src/ as executable
    definitions and proves what makes each part correct.  State is passed
    explicitly, [Result] is [result], a panic is [Panic] of [outcome] (the kernel
    aborts on panic), and machine integers are integers of [Z] with the wrapping
    of the release profile written out.

    ** Files, in the order they build

    - [Prelude]: results, panics, machine words, bit and list lemmas, tactics.
    - [MemLayout]: memory/mod.rs, the page and heap constants, the memory map and
      the alignment helpers.
    - [FrameAlloc], module [Bitmap]: memory/allocator.rs, the physical frame
      bitmap, its rotating search and its population from the memory map; the
      class [FrameSource] is what page tables ask of a frame allocator.
    - [Paging]: memory/paging.rs, the four-level tables in a word-addressed
      memory, map, unmap and translate over any [FrameSource], the invalidations
      they issue and the translation cache those act on.
    - [Heap]: memory/heap.rs, the intrusive free list as headers in memory, and
      the list of blocks it represents.
    - [MemInit]: memory/mod.rs and heap.rs, bring-up from the boot hand-off.
    - [Process], module [Proc]: scheduler/process.rs and context.rs, process
      control blocks, the launch frame, the assembly of the context switch on a
      register and stack model.
    - [Scheduler], module [Sched]: scheduler/scheduler.rs and mod.rs, the queues
      and every operation on them.
    - [Tasks]: the two together with the registers and the memory, the machine on
      which tasks compute, call the scheduler and are preempted.
    - [VfsTypes], [RamFs], [Vfs]: fs/, the driver interface as a class, the inode
      table behind it, and mounts, path resolution and file handles above it.
    - [PathFs]: what the two promise a client, as a finite map from paths.
    - [Syscall]: syscall/, validation and handlers over arbitrary VFS and process
      hooks (extern symbols the repository does not define), the table, MSRs, and
      the entry trampoline instruction by instruction.
    - [Sha256], [AuditTrail]: sentinel/audit.rs, the embedded hash and the chain.
    - [ConfigBuffer], [Migration]: safemode/sentinel_config.rs (the buffer) and
      sentinel/migration.rs, the sealed page and what successive boots do with it.
    - [Sentinel], modules [Invisible] and [Handshake]: sentinel/invisible.rs and
      handshake.rs, the visibility gate and the agent registry.
    - [Sync], module [Spin]: the spin locks of memory/mod.rs and sentinel/mod.rs
      under every interleaving; it is what justifies the one-step operations of
      the other files.
    - [F32]: the binary32 operations the Rust code uses, on the standard
      library's specification floats, with their values as scaled integers.
    - [Monitor]: sentinel/monitor.rs, windows, the four signals and the tiers.
    - [SafeTerm], modules [Serial] and [SafeTerm]: safemode/mod.rs, the UART as port
      accesses, the line editor, parsers, commands and the block they publish.
    - [Ipc], [Virtio]: sentinel/ipc.rs, the registration protocol, and the driver
      below it as a tree of device accesses played against any device.
    - [Cpuid]: drivers/cpuid.rs and drivers/mod.rs.
    - [Boot]: main.rs and safemode/main.rs; the class [Subsystems] is what the entry
      point asks of the parts, and the instance [golem] fills it with the models of
      all the files above.
    - [ConfigSession]: the rest of safemode/sentinel_config.rs, the validated edits,
      the confirmation states and the console that writes the migration page, as a
      function of bytes.
    - [ConsoleIo]: the same console as accesses to the serial port.
    - [UnitTests]: the tests of the sources as programs over the models.

    ** What the theorems show

    - Memory.  Population frees exactly the whole usable frames; no frame is
      handed out twice; map and unmap change the translation of one page and
      nothing else, each error with its cause; no cached translation is ever stale;
      the heap refines first fit over a
      list of blocks, keeps allocations disjoint, aligned and inside the heap, and
      loses no byte; bring-up composes the three.
    - Tasks.  A new process starts at its entry with an aligned stack, whatever ran
      before; a suspended task resumes with its registers and stack as it left
      them, whatever the others do; stacks stay disjoint; every scheduler operation keeps the queues
      consistent and conserves tasks; a ready task runs within a stated number of
      ticks; an exiting task is reaped after the switch away from it.
    - Files.  The VFS answers every sequence of calls as a map from paths would,
      errors included; the inode table is always a tree; create, remove, rename, write and
      read do what they say on every branch; resolution picks the most specific
      mount; handles write consecutively; two appends through two handles both survive
      exactly when they do not overlap.
    - Boundary.  Every system-call number has its handler or ENOSYS; hooks see only
      checked pointers and descriptors; the trampoline preserves user state.
    - Sentinel.  A recorded trail verifies; two verifying trails with one last hash
      are equal, up to an exhibited SHA-256 collision and to where the bars cut the
      text of an entry; a staged configuration is applied by the next boot; over any
      history of calls to the gate an agent is answered as if there were nothing,
      and each call leaves one entry; registrations cannot be reset; the locks make critical sections
      atomic and do not deadlock.

    - Monitor.  Scores are finite floats between zero and one, the buffers refine the
      history of each agent whatever the window is changed to, agents below every gate are left alone, a saturated
      signal locks, a NaN gate silences (both as plain theorems).
    - Operators.  Whatever is typed, the terminal and the console neither panic nor
      keep a value out of range; decimals are read correctly rounded, and alike by
      both; the page changes only when the lines typed contain a save and its yes, and
      then governs the next boot;
      on any UART the console sends what its byte-level definition prints.
    - Channel.  Accepted requests are well formed and survive a round trip; replies
      fit; with any device, bring-up and service end in one of the stated outcomes
      with the queues consistent; a reply is stored, its descriptor, slot and index
      published, and only then the device notified.
    - Boot.  Readiness means every step succeeded in order; with the migration page
      a reserved frame of physical memory, memory bring-up never writes it, a page
      that fails verification stops the boot at migration with one entry in the
      trail and nothing else changed, and a verified one takes effect.

    Where the code departs from its comments, a theorem or an example states what
    it does (for example [Migration.later_boots_run_with_defaults] and
    [Audit.pipe_shift_undetected]).

    ** Bounds on recursion

    Loops that are not structural take fuel, and totality is proved, not assumed:
    [region_fuel] is the page count of a region, capped by the bitmap; the heap
    walk has one unit per 16-byte header the heap can hold; the mapping loop of
    bring-up has one per heap page (2048); the ancestor walk of rename has one
    per inode; SHA-256 padding has 64.
    The terminal's loop has one unit per byte typed plus one, the console's loops on
    the port one per status read plus one; polling loops of
    the virtio driver take the number of turns as an argument and answer [None]
    while still spinning; decimal printing of binary32 tries 100 places, from 10^39
    down past the smallest subnormal.

    ** Not modelled

    The boot assembly and the link map; the hlt loop; the memory ordering of the
    hardware below sequential consistency; interrupts other than the scheduler's
    tick and guard; the multiport handshake, which the source leaves as a stub; the
    Unicode tables behind trimming and lower-casing of agent output (the output hash
    is defined on ASCII, console lines on characters below 256).  In
    [Boot.golem] page tables, frames and the migration page share one physical
    memory; the bytes of heap blocks, the virtio queues and the structures of the
    later subsystems are kept beside it.

    The system-call hooks stay parameters: they are extern symbols, and no file of
    the repository connects them to the VFS or to the scheduler. *)

From Stdlib Require Import ZArith Lia.
From stdpp Require Import base list gmap strings.

Open Scope Z_scope.

(** ** Results and panics

    [result] is Rust's [Result]; [outcome] separates a normal return from a
    panic (the kernel is built with [panic = "abort"], so a panic never comes
    back to the caller). *)

Inductive result (A E : Type) : Type :=
| Ok (a : A)
| Err (e : E).
Arguments Ok {A E} _.
Arguments Err {A E} _.

#[export] Instance result_eq_dec {A E} `{EqDecision A, EqDecision E} :
  EqDecision (result A E).
Proof. solve_decision. Defined.

Inductive outcome (A : Type) : Type :=
| Ret (a : A)
| Panic.
Arguments Ret {A} _.
Arguments Panic {A}.

Declare Scope golem_scope.
Delimit Scope golem_scope with golem.
Open Scope golem_scope.

(** Rust's [?] operator on [Result]. *)
Notation "'try' x ':=' e 'in' k" :=
  (match e with Ok x => k | Err err => Err err end)
  (at level 10, x pattern, e at level 100, k at level 200) : golem_scope.

(** Rust's [.ok_or(e)?] on [Option]. *)
Notation "'try' x ':=' o 'else' e 'in' k" :=
  (match o with Some x => k | None => Err e end)
  (at level 10, x pattern, o at level 100, e at level 100, k at level 200)
  : golem_scope.

Definition is_ok {A E} (r : result A E) : bool :=
  match r with Ok _ => true | Err _ => false end.

Definition is_err {A E} (r : result A E) : bool := negb (is_ok r).

(** ** Machine words

    [u64] and [usize] values are integers in [0, 2^64).  Operators whose result
    can leave the range are the wrapping ones of the release profile; where the
    source uses a checked operator the model returns an option. *)

Definition U64 : Z := 2 ^ 64.
Definition U32 : Z := 2 ^ 32.
Definition u64_max : Z := U64 - 1.
Definition i64_max : Z := 2 ^ 63 - 1.
Definition i32_max : Z := 2 ^ 31 - 1.

Definition wrap64 (x : Z) : Z := x mod U64.
Definition wrap32 (x : Z) : Z := x mod U32.
Definition add64 (a b : Z) : Z := wrap64 (a + b).
Definition sub64 (a b : Z) : Z := wrap64 (a - b).
Definition not64 (x : Z) : Z := u64_max - x.
Definition not32 (x : Z) : Z := U32 - 1 - x.
Definition add32 (a b : Z) : Z := wrap32 (a + b).

Definition checked_add64 (a b : Z) : option Z :=
  if a + b <? U64 then Some (a + b) else None.

Definition is_u64 (x : Z) : Prop := 0 <= x < U64.
Definition is_u32 (x : Z) : Prop := 0 <= x < U32.

Arguments wrap64 : simpl never.
Arguments wrap32 : simpl never.
Arguments add64 : simpl never.
Arguments sub64 : simpl never.
Arguments not64 : simpl never.
Arguments U64 : simpl never.
Arguments U32 : simpl never.

Lemma U64_val : U64 = 18446744073709551616.
Proof. reflexivity. Qed.
Lemma U32_val : U32 = 4294967296.
Proof. reflexivity. Qed.
Lemma u64_max_val : u64_max = 18446744073709551615.
Proof. reflexivity. Qed.

(** Unfold the word vocabulary to integer literals, then call [lia]. *)
Ltac word_unfold :=
  unfold is_u64, is_u32, not64, not32, i64_max, i32_max in *;
  rewrite ?u64_max_val, ?U64_val, ?U32_val in *.
Ltac word_lia := word_unfold; lia.

Lemma wrap64_small x : is_u64 x -> wrap64 x = x.
Proof. intros H. apply Z.mod_small, H. Qed.

Lemma wrap64_range x : is_u64 (wrap64 x).
Proof. apply Z.mod_pos_bound. reflexivity. Qed.

Lemma wrap32_range x : is_u32 (wrap32 x).
Proof. apply Z.mod_pos_bound. reflexivity. Qed.

Lemma wrap32_small x : is_u32 x -> wrap32 x = x.
Proof. intros H. apply Z.mod_small, H. Qed.

Lemma add64_small a b : 0 <= a + b < U64 -> add64 a b = a + b.
Proof. intros. apply wrap64_small. exact H. Qed.

Lemma sub64_small a b : 0 <= a - b < U64 -> sub64 a b = a - b.
Proof. intros. apply wrap64_small. exact H. Qed.

(** ** Bits *)

#[global] Arguments Z.testbit : simpl never.
#[global] Arguments Z.land : simpl never.
#[global] Arguments Z.lor : simpl never.
#[global] Arguments Z.lxor : simpl never.
#[global] Arguments Z.shiftl : simpl never.
#[global] Arguments Z.shiftr : simpl never.

Create HintDb bits.

Lemma testbit_above x n i : 0 <= x < 2 ^ n -> 0 <= n -> n <= i -> Z.testbit x i = false.
Proof.
  intros Hx Hn Hi. rewrite <- (Z.mod_small x (2 ^ n)) by exact Hx.
  apply Z.mod_pow2_bits_high. lia.
Qed.

Lemma lt_pow2_of_bits x n :
  0 <= x -> 0 <= n -> (forall i, n <= i -> Z.testbit x i = false) -> x < 2 ^ n.
Proof.
  intros Hx Hn Hb. destruct (Z.eq_dec x 0) as [->|Hne]; [apply Z.pow_pos_nonneg; lia|].
  apply Z.log2_lt_pow2; [lia|].
  destruct (Z_lt_le_dec (Z.log2 x) n) as [|Hge]; [assumption|].
  specialize (Hb _ Hge). rewrite Z.bit_log2 in Hb by lia. discriminate.
Qed.

Lemma lor_range x y n : 0 <= n -> 0 <= x < 2 ^ n -> 0 <= y < 2 ^ n -> 0 <= Z.lor x y < 2 ^ n.
Proof.
  intros Hn Hx Hy. assert (0 <= Z.lor x y) by (apply Z.lor_nonneg; lia).
  split; [assumption|]. apply lt_pow2_of_bits; [assumption..|].
  intros i Hi. rewrite Z.lor_spec, (testbit_above x n), (testbit_above y n) by lia. reflexivity.
Qed.

Lemma land_range_r x y n : 0 <= n -> 0 <= y < 2 ^ n -> 0 <= Z.land x y < 2 ^ n.
Proof.
  intros Hn Hy. assert (0 <= Z.land x y) by (apply Z.land_nonneg; lia).
  split; [assumption|]. apply lt_pow2_of_bits; [assumption..|].
  intros i Hi. rewrite Z.land_spec, (testbit_above y n) by lia. apply andb_false_r.
Qed.

Lemma lxor_range x y n : 0 <= n -> 0 <= x < 2 ^ n -> 0 <= y < 2 ^ n -> 0 <= Z.lxor x y < 2 ^ n.
Proof.
  intros Hn Hx Hy. assert (0 <= Z.lxor x y) by (apply Z.lxor_nonneg; lia).
  split; [assumption|]. apply lt_pow2_of_bits; [assumption..|].
  intros i Hi. rewrite Z.lxor_spec, (testbit_above x n), (testbit_above y n) by lia. reflexivity.
Qed.

Lemma not64_spec x i :
  is_u64 x -> 0 <= i < 64 -> Z.testbit (not64 x) i = negb (Z.testbit x i).
Proof.
  intros Hx Hi. replace (not64 x) with (Z.lnot x + 1 * 2 ^ 64)
    by (unfold Z.lnot; word_lia).
  rewrite <- (Z.mod_pow2_bits_low _ 64) by lia.
  rewrite Z.mod_add by lia. rewrite Z.mod_pow2_bits_low by lia.
  apply Z.lnot_spec. lia.
Qed.

(** The mask [!(2^k - 1)] rounds down to a multiple of [2^k]. *)
Lemma land_not_mask x k :
  is_u64 x -> 0 <= k <= 64 -> Z.land x (not64 (2 ^ k - 1)) = x - x mod 2 ^ k.
Proof.
  intros Hx Hk.
  assert (H2 : 2 ^ k * 2 ^ (64 - k) = U64) by (rewrite <- Z.pow_add_r by lia; f_equal; lia).
  assert (Hp : 0 < 2 ^ k) by (apply Z.pow_pos_nonneg; lia).
  replace (not64 (2 ^ k - 1)) with (Z.shiftl (Z.ones (64 - k)) k).
  2:{ rewrite Z.shiftl_mul_pow2, Z.ones_equiv by lia. unfold Z.pred, not64, u64_max. lia. }
  apply Z.bits_inj'. intros i Hi.
  replace (x - x mod 2 ^ k) with (Z.shiftl (Z.shiftr x k) k).
  2:{ rewrite Z.shiftl_mul_pow2, Z.shiftr_div_pow2 by lia.
      pose proof (Z.div_mod x (2 ^ k)). lia. }
  rewrite Z.land_spec, !Z.shiftl_spec by lia.
  destruct (Z_lt_le_dec i k).
  - rewrite !(Z.testbit_neg_r _ (i - k)) by lia. apply andb_false_r.
  - rewrite Z.shiftr_spec by lia. replace (i - k + k) with i by lia.
    rewrite Z.testbit_ones_nonneg by lia.
    destruct (Z.ltb_spec (i - k) (64 - k)); [apply andb_true_r|].
    rewrite (testbit_above x 64) by (try exact Hx; lia). reflexivity.
Qed.

Lemma land_low_mask x k : 0 <= k -> Z.land x (2 ^ k - 1) = x mod 2 ^ k.
Proof.
  intros Hk. rewrite <- Z.land_ones by lia. f_equal. rewrite Z.ones_equiv. lia.
Qed.

(** Setting and clearing one bit. *)
Lemma set_bit_spec w b i :
  0 <= b -> 0 <= i -> Z.testbit (Z.lor w (Z.shiftl 1 b)) i = (i =? b) || Z.testbit w i.
Proof.
  intros Hb Hi. rewrite Z.lor_spec, Z.shiftl_1_l, Z.pow2_bits_eqb by lia.
  rewrite Z.eqb_sym. apply orb_comm.
Qed.

Lemma shiftl1_u64 b : 0 <= b < 64 -> is_u64 (Z.shiftl 1 b).
Proof.
  intros Hb. rewrite Z.shiftl_1_l. split; [apply Z.pow_nonneg; lia|].
  apply Z.pow_lt_mono_r; lia.
Qed.

Lemma clear_bit_spec w b i :
  0 <= b < 64 -> 0 <= i < 64 ->
  Z.testbit (Z.land w (not64 (Z.shiftl 1 b))) i = negb (i =? b) && Z.testbit w i.
Proof.
  intros Hb Hi. rewrite Z.land_spec, not64_spec by (try apply shiftl1_u64; lia).
  rewrite Z.shiftl_1_l, Z.pow2_bits_eqb by lia. rewrite Z.eqb_sym. apply andb_comm.
Qed.

(** [w & (1 << b) != 0] reads bit [b]. *)
Lemma land_bit_nonzero w b :
  0 <= b -> negb (Z.land w (Z.shiftl 1 b) =? 0) = Z.testbit w b.
Proof.
  intros Hb. destruct (Z.testbit w b) eqn:E.
  - destruct (Z.eqb_spec (Z.land w (Z.shiftl 1 b)) 0) as [H|]; [|reflexivity].
    assert (Z.testbit (Z.land w (Z.shiftl 1 b)) b = false) by (rewrite H; apply Z.bits_0).
    rewrite Z.land_spec, E, Z.shiftl_1_l, Z.pow2_bits_true in H0 by lia. discriminate.
  - replace (Z.land w (Z.shiftl 1 b)) with 0; [reflexivity|].
    symmetry. apply Z.bits_inj'. intros i Hi. rewrite Z.land_spec, Z.bits_0, Z.shiftl_1_l.
    rewrite Z.pow2_bits_eqb by lia. destruct (Z.eqb_spec b i); subst; [rewrite E|];
      auto using andb_false_r.
Qed.

(** Number of trailing zero bits ([u64::trailing_zeros] on a non-zero word). *)
Fixpoint tz_pos (p : positive) : Z :=
  match p with
  | xO q => Z.succ (tz_pos q)
  | _ => 0
  end.

Definition trailing_zeros (w : Z) : Z :=
  match w with
  | Zpos p => tz_pos p
  | _ => 64
  end.

Lemma tz_pos_nonneg p : 0 <= tz_pos p.
Proof. induction p; simpl; lia. Qed.

Lemma tz_pos_bit p : Z.testbit (Zpos p) (tz_pos p) = true.
Proof.
  induction p as [p IH|p IH|]; try reflexivity. pose proof (tz_pos_nonneg p).
  change (tz_pos (xO p)) with (Z.succ (tz_pos p)).
  rewrite Pos2Z.inj_xO. rewrite Z.double_bits_succ. exact IH.
Qed.

Lemma tz_pos_below p i : i < tz_pos p -> Z.testbit (Zpos p) i = false.
Proof.
  revert i. induction p as [p IH|p IH|]; simpl tz_pos; intros i Hi.
  - apply Z.testbit_neg_r. lia.
  - destruct (Z_lt_le_dec i 0); [apply Z.testbit_neg_r; lia|].
    rewrite Pos2Z.inj_xO. destruct (Z.eq_dec i 0) as [->|]; [apply Z.testbit_even_0|].
    replace i with (Z.succ (i - 1)) by lia. rewrite Z.double_bits_succ. apply IH. lia.
  - apply Z.testbit_neg_r. lia.
Qed.

Lemma trailing_zeros_spec w :
  0 < w < 2 ^ 64 ->
  0 <= trailing_zeros w < 64 /\ Z.testbit w (trailing_zeros w) = true /\
  forall i, i < trailing_zeros w -> Z.testbit w i = false.
Proof.
  intros Hw. destruct w as [|p|p]; [lia| |lia]. simpl.
  pose proof (tz_pos_nonneg p). pose proof (tz_pos_bit p) as Hb.
  split; [split; [lia|]|split; [exact Hb|apply tz_pos_below]].
  destruct (Z_lt_le_dec (tz_pos p) 64); [assumption|].
  rewrite (testbit_above (Zpos p) 64) in Hb by lia. discriminate.
Qed.

(** ** Lists *)

(** Sums of integers over a list. *)
Fixpoint sumZ (l : list Z) : Z :=
  match l with
  | [] => 0
  | x :: l' => x + sumZ l'
  end.

Lemma sumZ_app l1 l2 : sumZ (l1 ++ l2) = sumZ l1 + sumZ l2.
Proof. induction l1; simpl; lia. Qed.

Lemma sumZ_insert {A} (f : A -> Z) (l : list A) (i : nat) x y :
  l !! i = Some x -> sumZ (map f (<[i := y]> l)) = sumZ (map f l) - f x + f y.
Proof.
  revert i. induction l as [|a l IH]; intros [|i] H; try discriminate; simpl in *.
  - injection H as ->. lia.
  - rewrite (IH _ H). lia.
Qed.

Lemma sumZ_nonneg {A} (f : A -> Z) l : (forall x, 0 <= f x) -> 0 <= sumZ (map f l).
Proof. intros Hf. induction l as [|a l IH]; simpl; [lia|]. specialize (Hf a). lia. Qed.

Lemma sumZ_ge {A} (f : A -> Z) l i x :
  (forall x, 0 <= f x) -> l !! i = Some x -> f x <= sumZ (map f l).
Proof.
  intros Hf. revert i. induction l as [|a l IH]; intros [|i] H; try discriminate; simpl in *.
  - injection H as ->. pose proof (sumZ_nonneg f l Hf). lia.
  - specialize (IH _ H). specialize (Hf a). lia.
Qed.

Lemma sumZ_perm (l1 l2 : list Z) : l1 ≡ₚ l2 -> sumZ l1 = sumZ l2.
Proof. induction 1; simpl; lia. Qed.

(** A non-negative sum is positive exactly when some summand is. *)
Lemma sumZ_pos {A} (f : A -> Z) l :
  (forall x, 0 <= f x) -> 0 < sumZ (map f l) -> exists i x, l !! i = Some x /\ 0 < f x.
Proof.
  intros Hf. induction l as [|a l IH]; simpl; [lia|]. intros H.
  destruct (Z_lt_le_dec 0 (f a)) as [|Hle].
  - exists 0%nat, a. split; [reflexivity|assumption].
  - specialize (Hf a). destruct IH as (i & x & Hi & Hx); [lia|].
    exists (S i), x. split; assumption.
Qed.

Lemma lookup_Z_Some {A} (l : list A) (i : Z) :
  0 <= i < Z.of_nat (length l) -> exists x, l !! Z.to_nat i = Some x.
Proof.
  intros Hi. destruct (l !! Z.to_nat i) eqn:E; [eauto|].
  apply lookup_ge_None in E. lia.
Qed.

(** ** Tactics *)

(** Split every [match]/[if] in the goal or a hypothesis, keeping equations,
    then simplify. *)
Ltac split_matches :=
  repeat (case_match; simplify_eq/=; try done).

(** Turn boolean comparisons on [Z] into propositions. *)
Ltac bool_to_prop :=
  repeat match goal with
  | H : (_ && _) = true |- _ => apply andb_true_iff in H; destruct H
  | H : (_ || _) = false |- _ => apply orb_false_iff in H; destruct H
  | H : negb _ = true |- _ => apply negb_true_iff in H
  | H : negb _ = false |- _ => apply negb_false_iff in H
  | H : (_ =? _) = true |- _ => apply Z.eqb_eq in H
  | H : (_ =? _) = false |- _ => apply Z.eqb_neq in H
  | H : (_ <? _) = true |- _ => apply Z.ltb_lt in H
  | H : (_ <? _) = false |- _ => apply Z.ltb_ge in H
  | H : (_ <=? _) = true |- _ => apply Z.leb_le in H
  | H : (_ <=? _) = false |- _ => apply Z.leb_gt in H
  end.
