(* ===== verification/MemLayout.v ===== *)
(** Shared vocabulary of the memory subsystem (src/src/memory/mod.rs): page and
    heap constants, the boot memory map, initialisation errors and the two
    alignment helpers, with the arithmetic facts the allocators use. *)

From Stdlib Require Import ZArith Lia.
From stdpp Require Import base list.
From S2P Require Import Prelude.

Open Scope Z_scope.

Definition PAGE_SIZE : Z := 4096.
Definition HEAP_START : Z := 0xFFFFC00000000000.
Definition HEAP_SIZE : Z := 8 * 1024 * 1024.
Definition BOOT_HANDOFF_MAGIC : Z := 0x474C4D4D454D3031.

Inductive MemoryRegionKind := Usable | Reserved | KernelImage | Bootloader.

#[export] Instance MemoryRegionKind_eq_dec : EqDecision MemoryRegionKind.
Proof. solve_decision. Defined.

Record MemoryRegion := mkRegion {
  region_start : Z;
  region_end : Z;
  region_kind : MemoryRegionKind
}.

Inductive MemoryInitError :=
| NoUsableRegions
| BitmapTooSmall
| HeapMappingFailed
| AlreadyInitialized
| PagingNotReady.

#[export] Instance MemoryInitError_eq_dec : EqDecision MemoryInitError.
Proof. solve_decision. Defined.

(** [(addr + align - 1) & !(align - 1)] in wrapping [u64] arithmetic. *)
Definition align_up (addr align : Z) : Z :=
  Z.land (sub64 (add64 addr align) 1) (not64 (align - 1)).

(** [addr & !(align - 1)]. *)
Definition align_down (addr align : Z) : Z := Z.land addr (not64 (align - 1)).

(** [align] is a power of two that fits the word. *)
Definition pow2_align (align : Z) : Prop := exists k, 0 <= k < 64 /\ align = 2 ^ k.

Lemma pow2_align_pos a : pow2_align a -> 0 < a.
Proof. intros (k & Hk & ->). apply Z.pow_pos_nonneg; lia. Qed.

Lemma align_down_eq addr align :
  is_u64 addr -> pow2_align align -> align_down addr align = addr - addr mod align.
Proof. intros Ha (k & Hk & ->). apply land_not_mask; [assumption|lia]. Qed.

Lemma align_up_eq addr align :
  is_u64 addr -> pow2_align align -> addr + align <= U64 ->
  align_up addr align = (addr + align - 1) - (addr + align - 1) mod align.
Proof.
  intros Ha Hal Hb. pose proof (pow2_align_pos _ Hal). destruct Hal as (k & Hk & ->).
  unfold align_up, add64, sub64, wrap64.
  rewrite Zminus_mod_idemp_l.
  rewrite (Z.mod_small (addr + 2 ^ k - 1)) by word_lia.
  apply land_not_mask; [|lia]. word_lia.
Qed.

(** What rounding up means: the least multiple of [align] at or above [addr]. *)
Lemma align_up_spec addr align :
  is_u64 addr -> pow2_align align -> addr + align <= U64 ->
  let r := align_up addr align in
  r mod align = 0 /\ addr <= r < addr + align.
Proof.
  intros Ha Hal Hb r. pose proof (pow2_align_pos _ Hal) as Hp.
  unfold r. rewrite align_up_eq by assumption.
  set (y := addr + align - 1). pose proof (Z.mod_pos_bound y align Hp).
  split; [|lia].
  rewrite Zminus_mod, Z.mod_mod, Z.sub_diag by lia. apply Z.mod_0_l. lia.
Qed.

(** Rounding down: the greatest multiple of [align] at or below [addr]. *)
Lemma align_down_spec addr align :
  is_u64 addr -> pow2_align align ->
  let r := align_down addr align in
  r mod align = 0 /\ r <= addr < r + align.
Proof.
  intros Ha Hal r. pose proof (pow2_align_pos _ Hal) as Hp.
  unfold r. rewrite align_down_eq by assumption.
  pose proof (Z.mod_pos_bound addr align Hp). split; [|lia].
  rewrite Zminus_mod, Z.mod_mod, Z.sub_diag by lia. apply Z.mod_0_l. lia.
Qed.

Lemma align_up_fixed addr align :
  is_u64 addr -> pow2_align align -> addr + align <= U64 -> addr mod align = 0 ->
  align_up addr align = addr.
Proof.
  intros Ha Hal Hb Hm. destruct (align_up_spec addr align Ha Hal Hb) as [H1 H2].
  pose proof (pow2_align_pos _ Hal) as Hp.
  assert (Hd : (align_up addr align - addr) mod align = 0)
    by (rewrite Zminus_mod, H1, Hm; apply Z.mod_0_l; lia).
  rewrite Z.mod_small in Hd by lia. lia.
Qed.

Lemma page_size_pow2 : pow2_align PAGE_SIZE.
Proof. exists 12. split; [lia|reflexivity]. Qed.

#[export] Hint Resolve page_size_pow2 : core.

(** Two multiples of a page less than a page apart are equal. *)
Lemma page_aligned_close a b :
  a mod PAGE_SIZE = 0 -> b mod PAGE_SIZE = 0 -> b <= a < b + PAGE_SIZE -> a = b.
Proof. unfold PAGE_SIZE. intros. Z.div_mod_to_equations. lia. Qed.
