(* ===== verification/FrameAlloc.v ===== *)
(** The physical frame allocator (src/src/memory/allocator.rs): one bit per
    4 KiB frame packed in [u64] words, a rotating search, and population from
    the boot memory map.  The component promises the interface
    [FrameSourceLaws] to its clients (paging, heap bring-up). *)

From Stdlib Require Import ZArith Lia.
From stdpp Require Import base list.
From S2P Require Import Prelude MemLayout.

Open Scope Z_scope.

(** ** The interface other components rely on (the [FrameAllocator] trait) *)

Class FrameSource (S : Type) := {
  fs_alloc : S -> option Z * S;
  fs_free : S -> Z -> Prop;
  fs_inv : S -> Prop
}.

(** Frames are handed out page aligned, below the supported physical limit, at
    most once, and allocation only fails when nothing is free. *)
Class FrameSourceLaws (S : Type) `{FrameSource S} := {
  fs_alloc_some : forall s f s', fs_inv s -> fs_alloc s = (Some f, s') ->
    fs_free s f /\ f mod PAGE_SIZE = 0 /\ 0 <= f < 2 ^ 35 /\ fs_inv s' /\
    forall g, fs_free s' g <-> fs_free s g /\ g <> f;
  fs_alloc_none : forall s s', fs_inv s -> fs_alloc s = (None, s') ->
    s' = s /\ forall g, ~ fs_free s g
}.

Module Bitmap.

(** ** Data *)

Definition MAX_PHYSICAL_BYTES : Z := 32 * 1024 * 1024 * 1024.
Definition MAX_FRAMES : Z := MAX_PHYSICAL_BYTES / PAGE_SIZE.
Definition BITMAP_WORDS : Z := MAX_FRAMES / 64.

(** A [Frame] is its base address; [Frame::SIZE] is the page size. *)
Definition containing_address (addr : Z) : Z := Z.land addr (not64 (PAGE_SIZE - 1)).
Definition start_address (frame : Z) : Z := frame.
Definition number (frame : Z) : Z := frame / PAGE_SIZE.

Record BitmapFrameAllocator := mkAlloc {
  bitmap : list Z;
  next_search : Z;
  total_frames : Z;
  free_frames : Z
}.

(** [self.bitmap[i]]. *)
Definition word_at (bm : list Z) (i : Z) : Z := default 0 (bm !! Z.to_nat i).

Definition new : BitmapFrameAllocator :=
  mkAlloc (replicate (Z.to_nat BITMAP_WORDS) u64_max) 0 0 0.

(** ** Operations *)

Definition mark_free (a : BitmapFrameAllocator) (frame : Z) : BitmapFrameAllocator :=
  let i := number frame in
  if MAX_FRAMES <=? i then a
  else
    let word := i / 64 in
    let bit := i mod 64 in
    let w := word_at (bitmap a) word in
    if negb (Z.land w (Z.shiftl 1 bit) =? 0) then
      mkAlloc (<[Z.to_nat word := Z.land w (not64 (Z.shiftl 1 bit))]> (bitmap a))
              (next_search a) (total_frames a) (free_frames a + 1)
    else a.

Definition mark_used (a : BitmapFrameAllocator) (frame : Z) : BitmapFrameAllocator :=
  let i := number frame in
  if MAX_FRAMES <=? i then a
  else
    let word := i / 64 in
    let bit := i mod 64 in
    let w := word_at (bitmap a) word in
    if Z.land w (Z.shiftl 1 bit) =? 0 then
      mkAlloc (<[Z.to_nat word := Z.lor w (Z.shiftl 1 bit)]> (bitmap a))
              (next_search a) (total_frames a) (free_frames a - 1)
    else a.

(** The search loop [for offset in 0..BITMAP_WORDS], [n] words still to visit. *)
Fixpoint allocate_loop (a : BitmapFrameAllocator) (offset : Z) (n : nat)
  : option Z * BitmapFrameAllocator :=
  match n with
  | O => (None, a)
  | S n' =>
      let i := (next_search a + offset) mod BITMAP_WORDS in
      let word := word_at (bitmap a) i in
      if negb (word =? u64_max) then
        let bit := trailing_zeros (not64 word) in
        let frame_index := i * 64 + bit in
        (Some (frame_index * PAGE_SIZE),
         mkAlloc (<[Z.to_nat i := Z.lor word (Z.shiftl 1 bit)]> (bitmap a))
                 i (total_frames a) (free_frames a - 1))
      else allocate_loop a (offset + 1) n'
  end.

Definition allocate_frame (a : BitmapFrameAllocator) : option Z * BitmapFrameAllocator :=
  if free_frames a =? 0 then (None, a)
  else allocate_loop a 0 (Z.to_nat BITMAP_WORDS).

Definition deallocate_frame (a : BitmapFrameAllocator) (frame : Z) : BitmapFrameAllocator :=
  let a' := mark_free a frame in
  let word := number frame / 64 in
  if word <? BITMAP_WORDS
  then mkAlloc (bitmap a') word (total_frames a') (free_frames a')
  else a'.

(** *** Population from the memory map

    The module statics: the allocator and the [INITIALIZED] flag. *)
Record Statics := mkStatics {
  initialized : bool;
  frame_allocator : BitmapFrameAllocator
}.

(** The inner [while] loop over one region; [fuel] bounds its iterations, [None]
    is "fuel exhausted" and the [bool] says whether the loop finished ([true])
    or hit a frame past the bitmap ([false], [BitmapTooSmall]). *)
Fixpoint populate_region (fuel : nat) (a : BitmapFrameAllocator) (addr end_ : Z)
  : option (bool * BitmapFrameAllocator) :=
  if add64 addr PAGE_SIZE <=? end_ then
    match fuel with
    | O => None
    | S fuel' =>
        let idx := number addr in
        if MAX_FRAMES <=? idx then Some (false, a)
        else
          let w := word_at (bitmap a) (idx / 64) in
          let a' :=
            if negb (Z.land w (Z.shiftl 1 (idx mod 64)) =? 0) then
              mkAlloc (<[Z.to_nat (idx / 64) := Z.land w (not64 (Z.shiftl 1 (idx mod 64)))]> (bitmap a))
                      (next_search a) (total_frames a + 1) (free_frames a + 1)
            else a in
          populate_region fuel' a' (add64 addr PAGE_SIZE) end_
    end
  else Some (true, a).

(** Enough fuel for one region: its page count, capped by the bitmap size. *)
Definition region_fuel (start end_ : Z) : nat :=
  Z.to_nat (Z.min ((end_ - start) / PAGE_SIZE + 1) (MAX_FRAMES + 1)).

Fixpoint populate (regions : list MemoryRegion) (a : BitmapFrameAllocator) (any_usable : bool)
  : option (result unit MemoryInitError * BitmapFrameAllocator) :=
  match regions with
  | [] => Some (if any_usable then Ok tt else Err NoUsableRegions, a)
  | r :: rs =>
      if negb (bool_decide (region_kind r = Usable)) then populate rs a any_usable
      else
        let start := align_up (region_start r) PAGE_SIZE in
        let end_ := align_down (region_end r) PAGE_SIZE in
        if end_ <=? start then populate rs a any_usable
        else
          match populate_region (region_fuel start end_) a start end_ with
          | None => None
          | Some (false, a') => Some (Err BitmapTooSmall, a')
          | Some (true, a') => populate rs a' true
          end
  end.

Definition init (regions : list MemoryRegion) (s : Statics)
  : option (result unit MemoryInitError * Statics) :=
  if initialized s then Some (Err AlreadyInitialized, mkStatics true (frame_allocator s))
  else
    match populate regions (frame_allocator s) false with
    | None => None
    | Some (r, a) => Some (r, mkStatics true a)
    end.

Definition alloc_frame (s : Statics) : option Z * Statics :=
  let (f, a) := allocate_frame (frame_allocator s) in (f, mkStatics (initialized s) a).

Definition dealloc_frame (s : Statics) (frame : Z) : Statics :=
  mkStatics (initialized s) (deallocate_frame (frame_allocator s) frame).

Definition stats (s : Statics) : Z * Z :=
  (total_frames (frame_allocator s), free_frames (frame_allocator s)).

(** ** The invariant *)

(** Clear bits among the low [n] bits of a word. *)
Fixpoint count_clear (n : nat) (w : Z) : Z :=
  match n with
  | O => 0
  | S n' => (if Z.testbit w (Z.of_nat n') then 0 else 1) + count_clear n' w
  end.

(** Frame number [i] is free: in range and its bit is clear. *)
Definition free (a : BitmapFrameAllocator) (i : Z) : Prop :=
  0 <= i < MAX_FRAMES /\ Z.testbit (word_at (bitmap a) (i / 64)) (i mod 64) = false.

Record wf (a : BitmapFrameAllocator) : Prop := {
  wf_length : Z.of_nat (length (bitmap a)) = BITMAP_WORDS;
  wf_words : forall i, is_u64 (word_at (bitmap a) i);
  wf_count : free_frames a = sumZ (map (count_clear 64) (bitmap a));
  wf_next : 0 <= next_search a < BITMAP_WORDS
}.

Lemma MAX_FRAMES_val : MAX_FRAMES = 8388608. Proof. reflexivity. Qed.
Lemma BITMAP_WORDS_val : BITMAP_WORDS = 131072. Proof. reflexivity. Qed.

Ltac consts := rewrite ?MAX_FRAMES_val, ?BITMAP_WORDS_val in *; unfold PAGE_SIZE in *.

(** *** Counting clear bits *)

Lemma count_clear_nonneg n w : 0 <= count_clear n w.
Proof. induction n; simpl; [lia|]. destruct (Z.testbit _ _); lia. Qed.

Lemma count_clear_ext n w w' :
  (forall i, 0 <= i < Z.of_nat n -> Z.testbit w i = Z.testbit w' i) ->
  count_clear n w = count_clear n w'.
Proof.
  induction n as [|n IH]; intros H; simpl; [reflexivity|].
  rewrite H by lia. f_equal. apply IH. intros. apply H. lia.
Qed.

(** Clearing exactly one set bit adds one to the count. *)
Lemma count_clear_flip n w w' b :
  0 <= b < Z.of_nat n -> Z.testbit w b = true -> Z.testbit w' b = false ->
  (forall i, 0 <= i < Z.of_nat n -> i <> b -> Z.testbit w i = Z.testbit w' i) ->
  count_clear n w' = count_clear n w + 1.
Proof.
  induction n as [|n IH]; intros Hb Hw Hw' H; [lia|]. simpl.
  destruct (Z.eq_dec b (Z.of_nat n)) as [->|Hne].
  - rewrite Hw, Hw'. rewrite (count_clear_ext n w w'); [lia|]. intros; apply H; lia.
  - rewrite <- (H (Z.of_nat n)) by lia. rewrite IH; [lia|lia|assumption..|].
    intros; apply H; lia.
Qed.

Lemma count_clear_zero w :
  0 <= w < 2 ^ 64 -> (forall i, 0 <= i < 64 -> Z.testbit w i = true) -> w = u64_max.
Proof.
  intros Hw H. apply Z.bits_inj'. intros i Hi. change u64_max with (Z.ones 64).
  rewrite Z.testbit_ones_nonneg by lia. destruct (Z.ltb_spec i 64); [apply H; lia|].
  apply (testbit_above w 64); lia.
Qed.

Lemma count_clear_pos n w :
  0 < count_clear n w -> exists b, 0 <= b < Z.of_nat n /\ Z.testbit w b = false.
Proof.
  induction n as [|n IH]; simpl; [lia|].
  destruct (Z.testbit w (Z.of_nat n)) eqn:E; intros H.
  - destruct IH as (b & Hb & Hw); [lia|]. exists b. split; [lia|assumption].
  - exists (Z.of_nat n). split; [lia|assumption].
Qed.

Arguments count_clear : simpl never.

(** *** Reading a word after an update *)

Lemma word_at_insert bm i j w :
  0 <= i < Z.of_nat (length bm) -> 0 <= j ->
  word_at (<[Z.to_nat i := w]> bm) j = if j =? i then w else word_at bm j.
Proof.
  intros Hi Hj. unfold word_at. destruct (Z.eqb_spec j i) as [->|Hne].
  - rewrite list_lookup_insert_eq by lia. reflexivity.
  - rewrite list_lookup_insert_ne by lia. reflexivity.
Qed.

Lemma word_at_lookup bm i :
  0 <= i < Z.of_nat (length bm) -> bm !! Z.to_nat i = Some (word_at bm i).
Proof.
  intros Hi. unfold word_at. destruct (lookup_Z_Some bm i Hi) as [x ->]. reflexivity.
Qed.

(** Replacing one word by another word that differs in bit [b] only. *)
Lemma wf_replace a i w' d :
  wf a -> 0 <= i < BITMAP_WORDS -> is_u64 w' ->
  count_clear 64 w' = count_clear 64 (word_at (bitmap a) i) + d ->
  forall ns tf, 0 <= ns < BITMAP_WORDS ->
  wf (mkAlloc (<[Z.to_nat i := w']> (bitmap a)) ns tf (free_frames a + d)).
Proof.
  intros Hwf Hi Hw Hc ns tf Hns. pose proof (wf_length _ Hwf) as Hl. constructor; simpl.
  - rewrite length_insert. assumption.
  - intros j. destruct (Z_lt_le_dec j 0).
    + unfold word_at. replace (Z.to_nat j) with (Z.to_nat 0) by lia.
      fold (word_at (<[Z.to_nat i := w']> (bitmap a)) 0).
      rewrite word_at_insert by lia. destruct (0 =? i); [assumption|apply (wf_words _ Hwf)].
    + rewrite word_at_insert by lia. destruct (j =? i); [assumption|apply (wf_words _ Hwf)].
  - rewrite (sumZ_insert _ _ _ (word_at (bitmap a) i)) by (apply word_at_lookup; lia).
    rewrite Hc, (wf_count _ Hwf). lia.
  - assumption.
Qed.

(** The bit view of an update of one word in one bit. *)
Lemma free_update a i b w' ns tf ff (v : bool) :
  Z.of_nat (length (bitmap a)) = BITMAP_WORDS ->
  0 <= i < BITMAP_WORDS -> 0 <= b < 64 ->
  (forall j, 0 <= j < 64 ->
     Z.testbit w' j = if j =? b then v else Z.testbit (word_at (bitmap a) i) j) ->
  forall k,
    free (mkAlloc (<[Z.to_nat i := w']> (bitmap a)) ns tf ff) k <->
    (if k =? i * 64 + b then v = false else free a k).
Proof.
  intros Hl Hi Hb Hw' k. unfold free. simpl.
  destruct (Z_lt_le_dec k 0).
  { destruct (Z.eqb_spec k (i * 64 + b)); [lia|]. split; lia. }
  rewrite word_at_insert by (try lia; apply Z.div_pos; lia).
  pose proof (Z.div_mod k 64 ltac:(lia)) as Hdm.
  pose proof (Z.mod_pos_bound k 64 ltac:(lia)) as Hmb.
  destruct (Z.eqb_spec (k / 64) i) as [E|E].
  - rewrite Hw' by lia.
    destruct (Z.eqb_spec (k mod 64) b); destruct (Z.eqb_spec k (i * 64 + b)); try lia.
    + consts. split; [intros [_ H]; exact H|intros ->; split; [lia|reflexivity]].
    + rewrite E. reflexivity.
  - destruct (Z.eqb_spec k (i * 64 + b)); [|reflexivity].
    exfalso. apply E. subst k. Z.div_mod_to_equations. lia.
Qed.

Lemma number_mul i : number (i * PAGE_SIZE) = i.
Proof. unfold number, PAGE_SIZE. apply Z.div_mul. lia. Qed.

Lemma index_range i : 0 <= i < MAX_FRAMES ->
  0 <= i / 64 < BITMAP_WORDS /\ 0 <= i mod 64 < 64 /\ i = i / 64 * 64 + i mod 64.
Proof. intros. consts. Z.div_mod_to_equations. lia. Qed.

Lemma clear_word_u64 w b : is_u64 w -> is_u64 (Z.land w (not64 b)).
Proof.
  intros Hw. rewrite Z.land_comm. apply (land_range_r _ _ 64); [lia|exact Hw].
Qed.

Lemma set_word_u64 w b : is_u64 w -> 0 <= b < 64 -> is_u64 (Z.lor w (Z.shiftl 1 b)).
Proof. intros Hw Hb. apply (lor_range _ _ 64); [lia|exact Hw|apply shiftl1_u64; lia]. Qed.

(** ** Behaviour of the operations *)

Lemma word_at_replicate n i : 0 <= i < Z.of_nat n -> word_at (replicate n u64_max) i = u64_max.
Proof. intros Hi. unfold word_at. rewrite lookup_replicate_2 by lia. reflexivity. Qed.

Lemma wf_replicate n :
  Z.of_nat n = BITMAP_WORDS -> wf (mkAlloc (replicate n u64_max) 0 0 0).
Proof.
  intros Hn. constructor; cbn [bitmap next_search free_frames].
  - rewrite length_replicate. exact Hn.
  - intros i. unfold word_at.
    destruct (_ !! _) eqn:E; simpl; [|word_lia].
    apply lookup_replicate in E as [-> _]. word_lia.
  - clear Hn. induction n as [|n IH]; [reflexivity|].
    cbn [replicate map sumZ]. rewrite <- IH. reflexivity.
  - consts. lia.
Qed.

Lemma words_nat : Z.of_nat (Z.to_nat BITMAP_WORDS) = BITMAP_WORDS.
Proof. apply Z2Nat.id. consts. lia. Qed.

(** A fresh allocator satisfies the invariant and has every frame marked used. *)
Lemma wf_new : wf new.
Proof. exact (wf_replicate _ words_nat). Qed.

Lemma replicate_all_used n i :
  Z.of_nat n = BITMAP_WORDS -> ~ free (mkAlloc (replicate n u64_max) 0 0 0) i.
Proof.
  intros Hn [Hi H]. destruct (index_range i Hi) as (Hw & Hb & _).
  cbn [bitmap] in H. rewrite word_at_replicate in H by lia.
  change u64_max with (Z.ones 64) in H. rewrite Z.testbit_ones_nonneg in H by lia.
  bool_to_prop. lia.
Qed.

Lemma new_all_used i : ~ free new i.
Proof. exact (replicate_all_used _ i words_nat). Qed.

(** Clearing a set bit: shared by [mark_free] and [init]'s loop. *)
Lemma clear_step a i :
  wf a -> 0 <= i < MAX_FRAMES ->
  Z.testbit (word_at (bitmap a) (i / 64)) (i mod 64) = true ->
  let w' := Z.land (word_at (bitmap a) (i / 64)) (not64 (Z.shiftl 1 (i mod 64))) in
  forall ns tf, 0 <= ns < BITMAP_WORDS ->
  let a' := mkAlloc (<[Z.to_nat (i / 64) := w']> (bitmap a)) ns tf (free_frames a + 1) in
  wf a' /\ forall k, free a' k <-> k = i \/ free a k.
Proof.
  intros Hwf Hi Hset w' ns tf Hns a'.
  destruct (index_range i Hi) as (Hw & Hb & Hdec).
  assert (Hbits : forall j, 0 <= j < 64 -> Z.testbit w' j =
            if j =? i mod 64 then false else Z.testbit (word_at (bitmap a) (i / 64)) j).
  { intros j Hj. unfold w'. rewrite clear_bit_spec by lia. destruct (j =? i mod 64); reflexivity. }
  split.
  - apply wf_replace; [assumption..| | |assumption].
    + apply clear_word_u64, (wf_words _ Hwf).
    + apply count_clear_flip with (b := i mod 64); [lia|assumption| |].
      * rewrite Hbits, Z.eqb_refl by lia. reflexivity.
      * intros j Hj Hne. rewrite Hbits by lia. apply Z.eqb_neq in Hne. rewrite Hne. reflexivity.
  - intros k. unfold a'. rewrite (free_update a (i / 64) (i mod 64) w' _ _ _ false);
      [|apply (wf_length _ Hwf)|lia|lia|exact Hbits].
    rewrite <- Hdec. destruct (Z.eqb_spec k i); [tauto|].
    split; [tauto|]. intros [->|]; [contradiction|assumption].
Qed.

(** [mark_free] makes exactly the named frame free; it never loses count. *)
Lemma mark_free_spec a frame :
  wf a -> 0 <= frame ->
  wf (mark_free a frame) /\ bitmap (mark_free a frame) = bitmap (mark_free a frame) /\
  (forall k, free (mark_free a frame) k <->
     (k = number frame /\ number frame < MAX_FRAMES) \/ free a k) /\
  next_search (mark_free a frame) = next_search a.
Proof.
  intros Hwf Hf. unfold mark_free. set (i := number frame).
  assert (Hi0 : 0 <= i) by (apply Z.div_pos; unfold PAGE_SIZE; lia).
  destruct (Z.leb_spec MAX_FRAMES i) as [Hge|Hlt].
  { split_and!; try tauto. intros k. split; [tauto|]. intros [[-> ?]|]; [lia|assumption]. }
  rewrite land_bit_nonzero by (apply Z.mod_pos_bound; lia).
  destruct (Z.testbit _ _) eqn:E.
  - destruct (clear_step a i Hwf ltac:(lia) E (next_search a) (total_frames a) (wf_next _ Hwf)) as [H1 H2].
    split_and!; try tauto. intros k. rewrite H2. tauto.
  - split_and!; try tauto. intros k. split; [tauto|]. intros [[-> ?]|]; [|assumption].
    split; [lia|assumption].
Qed.

(** The word found by the search: some clear bit, taken at its lowest one. *)
Lemma take_bit a i :
  wf a -> 0 <= i < BITMAP_WORDS -> word_at (bitmap a) i <> u64_max ->
  let word := word_at (bitmap a) i in
  let bit := trailing_zeros (not64 word) in
  let a' := mkAlloc (<[Z.to_nat i := Z.lor word (Z.shiftl 1 bit)]> (bitmap a))
                    i (total_frames a) (free_frames a - 1) in
  let f := i * 64 + bit in
  0 <= f < MAX_FRAMES /\ free a f /\ wf a' /\ forall k, free a' k <-> free a k /\ k <> f.
Proof.
  intros Hwf Hi Hne word bit a' f.
  pose proof (wf_words _ Hwf i) as Hw.
  destruct (trailing_zeros_spec (not64 word)) as (Hbit & Htrue & _).
  { subst word. word_unfold. change (2 ^ 64) with 18446744073709551616. lia. }
  fold bit in Hbit, Htrue. rewrite not64_spec in Htrue by (assumption || lia).
  apply negb_true_iff in Htrue.
  assert (Hfr : 0 <= f < MAX_FRAMES) by (unfold f; consts; lia).
  assert (Hfi : f / 64 = i /\ f mod 64 = bit) by (unfold f; Z.div_mod_to_equations; lia).
  assert (Hff : free a f).
  { split; [assumption|]. destruct Hfi as [-> ->]. exact Htrue. }
  assert (Hbits : forall j, 0 <= j < 64 -> Z.testbit (Z.lor word (Z.shiftl 1 bit)) j =
            if j =? bit then true else Z.testbit word j).
  { intros j Hj. rewrite set_bit_spec by lia. destruct (j =? bit); reflexivity. }
  split_and!; [lia..|assumption| |].
  - apply (wf_replace a i _ (-1) Hwf Hi); [apply set_word_u64; [assumption|lia]| |assumption].
    enough (count_clear 64 word = count_clear 64 (Z.lor word (Z.shiftl 1 bit)) + 1)
      by (fold word; lia).
    apply count_clear_flip with (b := bit); [lia| |assumption|].
    + rewrite Hbits, Z.eqb_refl by lia. reflexivity.
    + intros j Hj Hj'. rewrite Hbits by lia. apply Z.eqb_neq in Hj'. rewrite Hj'. reflexivity.
  - intros k. unfold a'. rewrite (free_update a i bit _ _ _ _ true);
      [|apply (wf_length _ Hwf)|lia|lia|exact Hbits].
    fold f. destruct (Z.eqb_spec k f); [|tauto]. split; [discriminate|tauto].
Qed.

(** The rotating search visits every word: it fails only if all are full. *)
Lemma allocate_loop_spec a n offset :
  wf a -> 0 <= offset -> Z.of_nat n + offset = BITMAP_WORDS ->
  match allocate_loop a offset n with
  | (Some f, a') => exists i, f = i * PAGE_SIZE /\ 0 <= i < MAX_FRAMES /\ free a i /\ wf a' /\
                    (forall k, free a' k <-> free a k /\ k <> i)
  | (None, a') => a' = a /\ forall o, offset <= o < BITMAP_WORDS ->
                    word_at (bitmap a) ((next_search a + o) mod BITMAP_WORDS) = u64_max
  end.
Proof.
  intros Hwf. revert offset. induction n as [|n IH]; intros offset Hoff Hn; simpl.
  - split; [reflexivity|]. intros. lia.
  - set (i := (next_search a + offset) mod BITMAP_WORDS).
    assert (Hi : 0 <= i < BITMAP_WORDS) by (apply Z.mod_pos_bound; consts; lia).
    destruct (Z.eqb_spec (word_at (bitmap a) i) u64_max) as [Hfull|Hne]; simpl.
    + specialize (IH (offset + 1) ltac:(lia) ltac:(lia)).
      destruct (allocate_loop a (offset + 1) n) as [[f|] a']; [exact IH|].
      destruct IH as [-> IH]. split; [reflexivity|]. intros o Ho.
      destruct (Z.eq_dec o offset) as [->|]; [exact Hfull|apply IH; lia].
    + destruct (take_bit a i Hwf Hi Hne) as (H1 & H2 & H3 & H4). eauto 10.
Qed.

Lemma count_clear_ge_1 n w b :
  0 <= b < Z.of_nat n -> Z.testbit w b = false -> 1 <= count_clear n w.
Proof.
  induction n as [|n IH]; intros Hb Hw; [lia|]. unfold count_clear; fold count_clear.
  pose proof (count_clear_nonneg n w).
  destruct (Z.eq_dec b (Z.of_nat n)) as [->|]; [rewrite Hw; lia|].
  specialize (IH ltac:(lia) Hw). destruct (Z.testbit w (Z.of_nat n)); lia.
Qed.

(** The counter agrees with the bitmap about emptiness. *)
Lemma free_count_pos a : wf a -> (exists i, free a i) <-> 0 < free_frames a.
Proof.
  intros Hwf. rewrite (wf_count _ Hwf). pose proof (wf_length _ Hwf) as Hl. split.
  - intros (i & Hi & Hb). destruct (index_range i Hi) as (Hw & Hbi & _).
    pose proof (word_at_lookup (bitmap a) (i / 64) ltac:(lia)) as Hlk.
    apply (sumZ_ge (count_clear 64)) in Hlk; [|apply count_clear_nonneg].
    pose proof (count_clear_ge_1 64 _ (i mod 64) ltac:(lia) Hb). lia.
  - intros Hpos. apply sumZ_pos in Hpos as (j & x & Hj & Hx); [|apply count_clear_nonneg].
    apply count_clear_pos in Hx as (b & Hb & Hxb).
    pose proof (lookup_lt_Some _ _ _ Hj).
    exists (Z.of_nat j * 64 + b).
    assert (E : (Z.of_nat j * 64 + b) / 64 = Z.of_nat j /\ (Z.of_nat j * 64 + b) mod 64 = b)
      by (Z.div_mod_to_equations; lia).
    destruct E as [E1 E2]. split; [consts; lia|]. rewrite E1, E2.
    unfold word_at. rewrite Nat2Z.id, Hj. exact Hxb.
Qed.

(** Complete behaviour of [allocate_frame]. *)
Lemma allocate_frame_spec a :
  wf a ->
  match allocate_frame a with
  | (Some f, a') => exists i, f = i * PAGE_SIZE /\ 0 <= i < MAX_FRAMES /\ free a i /\ wf a' /\
                    (forall k, free a' k <-> free a k /\ k <> i)
  | (None, a') => a' = a /\ forall k, ~ free a k
  end.
Proof.
  intros Hwf. unfold allocate_frame. destruct (Z.eqb_spec (free_frames a) 0) as [H0|H0].
  - split; [reflexivity|]. intros k Hk.
    assert (0 < free_frames a) by (apply free_count_pos; eauto). lia.
  - pose proof (allocate_loop_spec a (Z.to_nat BITMAP_WORDS) 0 Hwf ltac:(lia) ltac:(consts; lia)) as H.
    destruct (allocate_loop a 0 (Z.to_nat BITMAP_WORDS)) as [[f|] a']; [exact H|].
    destruct H as [-> Hfull]. split; [reflexivity|]. intros k [Hk Hb].
    destruct (index_range k Hk) as (Hw & Hbi & _). pose proof (wf_next _ Hwf).
    specialize (Hfull ((k / 64 - next_search a) mod BITMAP_WORDS)
                      ltac:(apply Z.mod_pos_bound; consts; lia)).
    replace ((next_search a + (k / 64 - next_search a) mod BITMAP_WORDS) mod BITMAP_WORDS)
      with (k / 64) in Hfull.
    2:{ rewrite Zplus_mod_idemp_r. symmetry. rewrite <- (Z.mod_small (k / 64) BITMAP_WORDS) at 2 by lia.
        f_equal. lia. }
    rewrite Hfull in Hb. change u64_max with (Z.ones 64) in Hb.
    rewrite Z.testbit_ones_nonneg in Hb by lia. bool_to_prop. lia.
Qed.

Lemma deallocate_frame_spec a frame :
  wf a -> 0 <= frame ->
  wf (deallocate_frame a frame) /\
  forall k, free (deallocate_frame a frame) k <->
    (k = number frame /\ number frame < MAX_FRAMES) \/ free a k.
Proof.
  intros Hwf Hf. destruct (mark_free_spec a frame Hwf Hf) as (H1 & _ & H3 & _).
  unfold deallocate_frame. destruct (Z.ltb_spec (number frame / 64) BITMAP_WORDS) as [Hw|];
    [|split; assumption].
  split; [|exact H3]. destruct H1. constructor; simpl; try assumption.
  split; [|assumption]. unfold number. apply Z.div_pos; [apply Z.div_pos|]; unfold PAGE_SIZE; lia.
Qed.

(** *** Population *)

Lemma populate_region_spec fuel a addr end_ :
  wf a -> 0 <= addr <= end_ -> end_ <= U64 - PAGE_SIZE ->
  addr mod PAGE_SIZE = 0 -> end_ mod PAGE_SIZE = 0 ->
  (addr < end_ \/ end_ / PAGE_SIZE <= MAX_FRAMES) ->
  Z.min ((end_ - addr) / PAGE_SIZE + 1) (Z.max 1 (MAX_FRAMES - addr / PAGE_SIZE + 1)) <= Z.of_nat fuel ->
  exists ok a', populate_region fuel a addr end_ = Some (ok, a') /\ wf a' /\
    (ok = true <-> end_ / PAGE_SIZE <= MAX_FRAMES) /\
    total_frames a' - total_frames a = free_frames a' - free_frames a /\
    forall k, free a' k <->
      free a k \/ (addr / PAGE_SIZE <= k < end_ / PAGE_SIZE /\ k < MAX_FRAMES).
Proof.
  revert a addr. induction fuel as [|fuel IH]; intros a addr Hwf Ha He Ham Hem Hlt Hfuel.
  { exfalso. consts. revert Hfuel Hlt Ham Hem. Z.div_mod_to_equations. lia. }
  simpl. destruct (Z.eq_dec addr end_) as [->|Hne].
  - assert (Hm : end_ / PAGE_SIZE <= MAX_FRAMES) by (destruct Hlt; [lia|assumption]).
    rewrite add64_small by (consts; word_unfold; revert Hm Hem; Z.div_mod_to_equations; lia).
    destruct (Z.leb_spec (end_ + PAGE_SIZE) end_); [unfold PAGE_SIZE in *; lia|].
    exists true, a. split_and!; [reflexivity|assumption|tauto|lia|].
    intros k. split; [tauto|]. intros [|[Hk1 Hk2]]; [assumption|lia].
  - rewrite add64_small by (consts; revert Ham Hem; word_unfold; Z.div_mod_to_equations; lia).
    destruct (Z.leb_spec (addr + PAGE_SIZE) end_) as [Hle|Hc].
    2:{ exfalso. consts. revert Hc Ham Hem Hne. Z.div_mod_to_equations. lia. }
    destruct (Z.leb_spec MAX_FRAMES (number addr)) as [Hge|Hin].
    + exists false, a. split_and!; [reflexivity|assumption| |lia|].
      * split; [discriminate|]. unfold number in Hge. consts. revert Hge Ham Hem.
        Z.div_mod_to_equations. lia.
      * intros k. split; [tauto|]. intros [|[Hk1 Hk2]]; [assumption|]. unfold number in Hge. lia.
    + set (i := number addr) in *.
      assert (Hi : 0 <= i < MAX_FRAMES) by (split; [apply Z.div_pos; unfold PAGE_SIZE; lia|lia]).
      rewrite land_bit_nonzero by (apply Z.mod_pos_bound; lia).
      set (a1 := if Z.testbit _ _ then _ else _).
      assert (Ha1 : wf a1 /\ total_frames a1 - total_frames a = free_frames a1 - free_frames a /\
                    forall k, free a1 k <-> k = i \/ free a k).
      { unfold a1. destruct (Z.testbit _ _) eqn:E.
        - destruct (clear_step a i Hwf Hi E (next_search a) (total_frames a + 1) (wf_next _ Hwf)).
          split_and!; [assumption|simpl; lia|assumption].
        - split_and!; [assumption|lia|]. intros k. split; [tauto|].
          intros [->|]; [split|]; assumption. }
      destruct Ha1 as (Hwf1 & Ht1 & Hf1).
      assert (Hnext : (addr + PAGE_SIZE) / PAGE_SIZE = i + 1)
        by (unfold i, number, PAGE_SIZE; Z.div_mod_to_equations; lia).
      destruct (IH a1 (addr + PAGE_SIZE)) as (ok & a' & E & Hwf' & Hok & Ht & Hf).
      * assumption.
      * unfold PAGE_SIZE in *; lia.
      * assumption.
      * unfold PAGE_SIZE in *. revert Ham. Z.div_mod_to_equations. lia.
      * assumption.
      * destruct (Z.eq_dec (addr + PAGE_SIZE) end_) as [Heq|]; [|left; lia].
        right. rewrite <- Heq, Hnext. lia.
      * rewrite Hnext. revert Hfuel. fold i. unfold i, number. consts. Z.div_mod_to_equations. lia.
      * exists ok, a'. split_and!; [assumption..|lia|].
        intros k. rewrite Hf, Hf1, Hnext. change (addr / PAGE_SIZE) with i.
        destruct (Z.eq_dec k i) as [->|]; [|intuition lia].
        split; [intros _; right|intros _; left; left; reflexivity].
        split; [|lia]. split; [lia|]. unfold i, number. consts. revert Hle Ham Hem.
        Z.div_mod_to_equations. lia.
Qed.

(** Regions whose start can be rounded up without leaving [u64]. *)
Definition region_ok (r : MemoryRegion) : Prop :=
  0 <= region_start r <= U64 - PAGE_SIZE /\ is_u64 (region_end r).

(** Frame [k] lies wholly inside usable region [r]. *)
Definition covers (r : MemoryRegion) (k : Z) : Prop :=
  region_kind r = Usable /\
  align_up (region_start r) PAGE_SIZE <= k * PAGE_SIZE /\
  (k + 1) * PAGE_SIZE <= align_down (region_end r) PAGE_SIZE.

(** A usable region holding at least one whole page. *)
Definition region_nonempty (r : MemoryRegion) : Prop :=
  region_kind r = Usable /\
  align_up (region_start r) PAGE_SIZE < align_down (region_end r) PAGE_SIZE.

Lemma region_bounds r :
  region_ok r ->
  let s := align_up (region_start r) PAGE_SIZE in
  let e := align_down (region_end r) PAGE_SIZE in
  s mod PAGE_SIZE = 0 /\ e mod PAGE_SIZE = 0 /\ 0 <= s /\ 0 <= e <= U64 - PAGE_SIZE.
Proof.
  intros [Hs He] s e.
  destruct (align_up_spec (region_start r) PAGE_SIZE) as [Hs1 Hs2];
    [unfold PAGE_SIZE in *; word_lia|auto|lia|].
  destruct (align_down_spec (region_end r) PAGE_SIZE) as [He1 He2]; [assumption|auto|].
  fold s in Hs1, Hs2. fold e in He1, He2. split_and!; [assumption..|lia| |].
  - unfold PAGE_SIZE in *. revert He1. word_unfold. Z.div_mod_to_equations. lia.
  - unfold PAGE_SIZE in *. revert He1. word_unfold. Z.div_mod_to_equations. lia.
Qed.

Lemma populate_region_run r a :
  wf a -> region_ok r -> region_nonempty r ->
  let s := align_up (region_start r) PAGE_SIZE in
  let e := align_down (region_end r) PAGE_SIZE in
  exists ok a', populate_region (region_fuel s e) a s e = Some (ok, a') /\ wf a' /\
    (ok = true <-> e <= MAX_PHYSICAL_BYTES) /\
    total_frames a' - total_frames a = free_frames a' - free_frames a /\
    forall k, free a' k <-> free a k \/ (covers r k /\ k < MAX_FRAMES).
Proof.
  intros Hwf Hr [Hu Hne] s e. destruct (region_bounds r Hr) as (H1 & H2 & H3 & H4).
  fold s in Hne, H1, H3. fold e in Hne, H2, H4.
  destruct (populate_region_spec (region_fuel s e) a s e) as (ok & a' & E & Hwf' & Hok & Ht & Hf);
    [assumption|lia|lia|assumption..|left; assumption| |].
  { unfold region_fuel. rewrite Z2Nat.id; [|consts; Z.div_mod_to_equations; lia].
    assert (0 <= s / PAGE_SIZE) by (apply Z.div_pos; unfold PAGE_SIZE; lia). consts. lia. }
  exists ok, a'. split_and!; try assumption.
  - rewrite Hok. consts. change MAX_PHYSICAL_BYTES with 34359738368. Z.div_mod_to_equations. lia.
  - intros k. rewrite Hf. unfold covers. fold s e.
    assert (s / PAGE_SIZE <= k < e / PAGE_SIZE <-> s <= k * PAGE_SIZE /\ (k + 1) * PAGE_SIZE <= e)
      by (unfold PAGE_SIZE in *; Z.div_mod_to_equations; lia).
    tauto.
Qed.

(** What [populate] establishes, branch by branch. *)
Definition populate_post (regions : list MemoryRegion) (a : BitmapFrameAllocator) (any : bool)
    (r : result unit MemoryInitError) (a' : BitmapFrameAllocator) : Prop :=
  match r with
  | Ok _ => (any = true \/ exists x, x ∈ regions /\ region_nonempty x) /\
      forall k, free a' k <-> free a k \/ (k < MAX_FRAMES /\ exists x, x ∈ regions /\ covers x k)
  | Err NoUsableRegions => any = false /\ a' = a /\ forall x, x ∈ regions -> ~ region_nonempty x
  | Err BitmapTooSmall => exists x, x ∈ regions /\ region_nonempty x /\
      MAX_PHYSICAL_BYTES < align_down (region_end x) PAGE_SIZE
  | Err _ => False
  end.

Lemma covers_nonempty x k : covers x k -> region_nonempty x.
Proof. intros (Hu & H1 & H2). split; [assumption|]. unfold PAGE_SIZE in *. lia. Qed.

Lemma exists_cons {A} (P : A -> Prop) x l :
  (exists y, y ∈ x :: l /\ P y) <-> P x \/ exists y, y ∈ l /\ P y.
Proof. setoid_rewrite elem_of_cons. naive_solver. Qed.

(** A region without a whole usable page contributes nothing. *)
Lemma populate_post_skip x rs a any r a' :
  ~ region_nonempty x -> populate_post rs a any r a' -> populate_post (x :: rs) a any r a'.
Proof.
  intros Hn. destruct r as [|[]]; simpl; try tauto; rewrite ?exists_cons.
  - intros [H1 H2]. split; [tauto|]. intros k. rewrite H2, exists_cons.
    pose proof (covers_nonempty x k). tauto.
  - intros (H1 & H2 & H3). split_and!; try assumption. intros y Hy.
    apply elem_of_cons in Hy as [->|]; auto.
  - tauto.
Qed.

(** A populated region adds its own frames to those of the rest. *)
Lemma populate_post_take x rs a any r a1 a' :
  region_nonempty x ->
  (forall k, free a1 k <-> free a k \/ (covers x k /\ k < MAX_FRAMES)) ->
  populate_post rs a1 true r a' -> populate_post (x :: rs) a any r a'.
Proof.
  intros Hn Hf. destruct r as [|[]]; simpl; try tauto; rewrite ?exists_cons.
  - intros [_ H2]. split; [tauto|]. intros k. rewrite H2, Hf, exists_cons. tauto.
  - intros (H1 & _). discriminate.
  - tauto.
Qed.

Lemma populate_spec regions a any :
  wf a -> Forall region_ok regions ->
  exists r a', populate regions a any = Some (r, a') /\ wf a' /\
    total_frames a' - total_frames a = free_frames a' - free_frames a /\
    populate_post regions a any r a'.
Proof.
  revert a any. induction regions as [|x rs IH]; intros a any Hwf Hok; simpl.
  { eexists _, a. split; [reflexivity|]. split_and!; [assumption|lia|].
    assert (Hnil : forall P : MemoryRegion -> Prop, ~ exists y, y ∈ ([] : list MemoryRegion) /\ P y)
      by (intros P (y & Hy & _); apply elem_of_nil in Hy as []).
    destruct any; simpl.
    - split; [tauto|]. intros k. pose proof (Hnil (fun y => covers y k)). tauto.
    - split_and!; try reflexivity. intros y Hy. apply elem_of_nil in Hy as []. }
  inversion_clear Hok as [|? ? Hx Hrs].
  assert (Hskip : ~ region_nonempty x -> exists r a', populate rs a any = Some (r, a') /\ wf a' /\
    total_frames a' - total_frames a = free_frames a' - free_frames a /\
    populate_post (x :: rs) a any r a').
  { intros Hn. destruct (IH a any Hwf Hrs) as (r & a' & E & Hwf' & Ht & Hr).
    eauto 10 using populate_post_skip. }
  destruct (bool_decide_reflect (region_kind x = Usable)) as [Hu|Hu]; simpl.
  2:{ apply Hskip. intros [? _]. contradiction. }
  destruct (Z.leb_spec (align_down (region_end x) PAGE_SIZE) (align_up (region_start x) PAGE_SIZE)) as [Hle|Hlt].
  { apply Hskip. intros [_ ?]. lia. }
  destruct (populate_region_run x a Hwf Hx (conj Hu Hlt)) as (ok & a1 & -> & Hwf1 & Hok & Ht1 & Hf1).
  destruct ok.
  - destruct (IH a1 true Hwf1 Hrs) as (r & a' & E & Hwf' & Ht & Hr).
    exists r, a'. split_and!; [assumption..|lia|].
    eapply populate_post_take; [split| |]; eassumption.
  - eexists _, a1. split; [reflexivity|]. split_and!; [assumption..|].
    exists x. split_and!; [apply elem_of_cons; tauto|split; assumption|].
    destruct (Z_lt_le_dec MAX_PHYSICAL_BYTES (align_down (region_end x) PAGE_SIZE)); [assumption|].
    assert (false = true) by (apply Hok; assumption). discriminate.
Qed.

(** The statics at link time. *)
Definition boot_statics : Statics := mkStatics false new.

(** ** The interface instance *)

#[global] Instance bitmap_source : FrameSource Statics := {|
  fs_alloc := alloc_frame;
  fs_free s f := exists i, f = i * PAGE_SIZE /\ free (frame_allocator s) i;
  fs_inv s := wf (frame_allocator s)
|}.

#[global] Instance bitmap_laws : FrameSourceLaws Statics.
Proof.
  split; intros [ini a]; simpl; unfold alloc_frame; simpl.
  - intros f s' Hwf E. pose proof (allocate_frame_spec a Hwf) as Hs.
    destruct (allocate_frame a) as [o a'] eqn:Ea. simplify_eq.
    destruct Hs as (i & -> & Hi & Hf & Hwf' & Hk). split_and!.
    + eauto.
    + apply Z.mod_mul. unfold PAGE_SIZE; lia.
    + unfold PAGE_SIZE. lia.
    + consts. lia.
    + assumption.
    + intros g. simpl. setoid_rewrite Hk. split.
      * intros (j & -> & Hj & Hne). split; [eauto|]. unfold PAGE_SIZE. lia.
      * intros [(j & -> & Hj) Hne]. exists j. split_and!; [reflexivity|assumption|congruence].
  - intros s' Hwf E. pose proof (allocate_frame_spec a Hwf) as Hs.
    destruct (allocate_frame a) as [o a'] eqn:Ea. simplify_eq.
    destruct Hs as [-> Hs]. split; [reflexivity|]. intros g (i & _ & Hi). exact (Hs i Hi).
Qed.

(** ** Histories

    The allocator driven by clients that follow the documented contract of
    [dealloc_frame]: only frames they were handed and still hold are returned.
    [held] is the list of frames outstanding. *)
Inductive history : Statics -> list Z -> Prop :=
| h_init regions s' : Forall region_ok regions ->
    init regions boot_statics = Some (Ok tt, s') -> history s' []
| h_alloc s held f s' : history s held -> alloc_frame s = (Some f, s') -> history s' (f :: held)
| h_oom s held s' : history s held -> alloc_frame s = (None, s') -> history s' held
| h_dealloc s l1 f l2 : history s (l1 ++ f :: l2) -> history (dealloc_frame s f) (l1 ++ l2).

Definition history_inv (s : Statics) (held : list Z) : Prop :=
  wf (frame_allocator s) /\ NoDup held /\
  Forall (fun f => exists i, f = i * PAGE_SIZE /\ 0 <= i < MAX_FRAMES /\
                             ~ free (frame_allocator s) i) held.

Lemma history_inv_alloc s held f s' :
  history_inv s held -> alloc_frame s = (Some f, s') -> f ∉ held /\ history_inv s' (f :: held).
Proof.
  intros (Hwf & Hnd & Hh) E. pose proof (allocate_frame_spec _ Hwf) as Hs.
  unfold alloc_frame in E. destruct (allocate_frame (frame_allocator s)) as [o a'] eqn:Ea.
  simplify_eq. destruct Hs as (i & -> & Hi & Hf & Hwf' & Hk).
  assert (Hfresh : i * PAGE_SIZE ∉ held).
  { intros Hin. rewrite Forall_forall in Hh. apply list_elem_of_In in Hin.
    apply list_elem_of_In in Hin. destruct (Hh _ Hin) as (j & Hj & _ & Hn).
    apply Hn. replace j with i by (unfold PAGE_SIZE in Hj; lia). exact Hf. }
  split; [assumption|]. split_and!; simpl.
  - assumption.
  - constructor; assumption.
  - constructor.
    + exists i. split_and!; [reflexivity|lia..|]. rewrite Hk. tauto.
    + eapply Forall_impl; [exact Hh|]. intros g (j & -> & Hj & Hn). exists j.
      split_and!; [reflexivity|lia..|]. rewrite Hk. tauto.
Qed.

Lemma history_inv_dealloc s l1 f l2 :
  history_inv s (l1 ++ f :: l2) -> history_inv (dealloc_frame s f) (l1 ++ l2).
Proof.
  intros (Hwf & Hnd & Hh).
  assert (Hf : exists i, f = i * PAGE_SIZE /\ 0 <= i < MAX_FRAMES)
    by (apply Forall_app in Hh as [_ Hh]; inversion_clear Hh; naive_solver).
  destruct Hf as (i & -> & Hi).
  destruct (deallocate_frame_spec (frame_allocator s) (i * PAGE_SIZE) Hwf) as [H1 H2];
    [unfold PAGE_SIZE; lia|].
  apply NoDup_app in Hnd as (Hn1 & Hn2 & Hn3). apply NoDup_cons in Hn3 as [Hn3 Hn4].
  split_and!; simpl; [assumption| |].
  - apply NoDup_app. split_and!; [assumption| |assumption]. intros x Hx Hx'.
    apply (Hn2 x Hx). apply elem_of_cons. tauto.
  - apply Forall_app in Hh as [Ha Hb]. inversion_clear Hb as [|? ? _ Hb'].
    rewrite Forall_app. rewrite Forall_forall in Ha, Hb'.
    split; apply Forall_forall; intros g Hg;
      [destruct (Ha g Hg) as (j & -> & Hj & Hn)|destruct (Hb' g Hg) as (j & -> & Hj & Hn)];
      exists j; split_and!; try reflexivity; try lia; rewrite H2, number_mul; intros [[-> _]|]; auto.
    apply (Hn2 _ Hg). apply elem_of_cons. tauto.
Qed.

Lemma history_sound s held : history s held -> history_inv s held.
Proof.
  induction 1 as [regions s' Hok E|s held f s' _ IH E|s held s' _ IH E|s l1 f l2 _ IH].
  - unfold init in E. simpl in E.
    destruct (populate_spec regions new false wf_new Hok) as (r & a' & Ep & Hwf & _).
    rewrite Ep in E. simplify_eq. split_and!; [assumption|constructor..].
  - eapply history_inv_alloc; eassumption.
  - destruct IH as (Hwf & Hnd & Hh). pose proof (allocate_frame_spec _ Hwf) as Hs.
    unfold alloc_frame in E. destruct (allocate_frame (frame_allocator s)) as [o a'] eqn:Ea.
    simplify_eq. destruct Hs as [-> _]. split_and!; assumption.
  - apply history_inv_dealloc; assumption.
Qed.

(** ** Properties *)

Lemma init_spec regions :
  Forall region_ok regions ->
  exists r s', init regions boot_statics = Some (r, s') /\
    initialized s' = true /\ wf (frame_allocator s') /\
    total_frames (frame_allocator s') = free_frames (frame_allocator s') /\
    match r with
    | Ok _ => forall k, free (frame_allocator s') k <->
                k < MAX_FRAMES /\ exists x, x ∈ regions /\ covers x k
    | Err NoUsableRegions => forall x, x ∈ regions -> ~ region_nonempty x
    | Err BitmapTooSmall => exists x, x ∈ regions /\ region_nonempty x /\
        MAX_PHYSICAL_BYTES < align_down (region_end x) PAGE_SIZE
    | Err _ => False
    end.
Proof.
  intros Hok. destruct (populate_spec regions new false wf_new Hok) as (r & a' & E & Hwf & Ht & Hr).
  unfold init, boot_statics. cbn [initialized frame_allocator]. rewrite E.
  eexists _, _. split; [reflexivity|]. cbn [initialized frame_allocator].
  split_and!; [reflexivity|assumption| |].
  - change (total_frames new) with 0 in Ht. change (free_frames new) with 0 in Ht. lia.
  - unfold populate_post in Hr. destruct r as [|[]]; try tauto.
    destruct Hr as [_ Hr]. intros k. rewrite Hr.
    split; [intros [Hk|]; [destruct (new_all_used k Hk)|assumption]|tauto].
Qed.

(** C17. [init] on a fresh kernel with a memory map whose regions can be rounded:
    the loops terminate within the stated fuel; on success the free frames are
    exactly the frames lying wholly inside some usable region, and the
    [total_frames] and [free_frames] counters both equal the number of clear
    bits. *)
Theorem init_populates_exactly_usable_frames regions :
  Forall region_ok regions ->
  exists r s', init regions boot_statics = Some (r, s') /\
    initialized s' = true /\ wf (frame_allocator s') /\
    total_frames (frame_allocator s') = free_frames (frame_allocator s') /\
    match r with
    | Ok _ => forall k, free (frame_allocator s') k <->
                k < MAX_FRAMES /\ exists x, x ∈ regions /\ covers x k
    | Err NoUsableRegions => forall x, x ∈ regions -> ~ region_nonempty x
    | Err BitmapTooSmall => exists x, x ∈ regions /\ region_nonempty x /\
        MAX_PHYSICAL_BYTES < align_down (region_end x) PAGE_SIZE
    | Err _ => False
    end.
Proof. apply init_spec. Qed.

Definition demo_map : list MemoryRegion :=
  [mkRegion 0 0x9fc00 Reserved; mkRegion 0x100001 0x104000 Usable].

Lemma init_populates_exactly_usable_frames_witness :
  Forall region_ok demo_map /\
  exists r s', init demo_map boot_statics = Some (r, s') /\
    initialized s' = true /\ wf (frame_allocator s').
Proof.
  assert (H : Forall region_ok demo_map)
    by (repeat constructor; unfold region_ok, PAGE_SIZE; simpl; word_lia).
  split; [exact H|].
  destruct (init_populates_exactly_usable_frames demo_map H) as (r & s' & H1 & H2 & H3 & _).
  exists r, s'. split; [exact H1|split; assumption].
Defined.

(** C1. Over every history in which clients only return frames they hold, the
    bitmap counter invariant is kept, the outstanding frames are pairwise
    distinct in-range page frames marked used, and a new allocation never
    returns a frame that is still outstanding. *)
Theorem no_double_allocation s held f s' :
  history s held -> alloc_frame s = (Some f, s') ->
  f ∉ held /\ NoDup (f :: held) /\ wf (frame_allocator s') /\
  free_frames (frame_allocator s') = sumZ (map (count_clear 64) (bitmap (frame_allocator s'))) /\
  f mod PAGE_SIZE = 0 /\ 0 <= f < MAX_PHYSICAL_BYTES.
Proof.
  intros Hh E. apply history_sound in Hh.
  destruct (history_inv_alloc s held f s' Hh E) as [Hn (Hwf & Hnd & Hall)].
  pose proof (Forall_inv Hall) as (i & Hfi & Hi & _).
  refine (conj Hn (conj Hnd (conj Hwf (conj (wf_count _ Hwf) (conj _ _))))).
  - rewrite Hfi. apply Z.mod_mul. unfold PAGE_SIZE; lia.
  - change MAX_PHYSICAL_BYTES with (8388608 * 4096). consts. lia.
Qed.

Definition demo_statics : Statics :=
  match init demo_map boot_statics with Some (_, s) => s | None => boot_statics end.

Lemma demo_init : init demo_map boot_statics = Some (Ok tt, demo_statics).
Proof.
  assert (H : match init demo_map boot_statics with Some (Ok _, _) => true | _ => false end = true)
    by (vm_compute; reflexivity).
  unfold demo_statics. destruct (init demo_map boot_statics) as [[[[]|e] s]|];
    [reflexivity|discriminate..].
Qed.

Lemma no_double_allocation_witness :
  (alloc_frame demo_statics).1 = Some 0x101000 /\ (0x101000 : Z) ∉ ([] : list Z).
Proof.
  assert (E : (alloc_frame demo_statics).1 = Some 0x101000) by (vm_compute; reflexivity).
  split; [exact E|].
  apply (no_double_allocation demo_statics [] 0x101000 (alloc_frame demo_statics).2).
  - apply (h_init demo_map).
    + repeat constructor; unfold region_ok, PAGE_SIZE; simpl; word_lia.
    + exact demo_init.
  - rewrite <- E. destruct (alloc_frame demo_statics). reflexivity.
Defined.

(** [allocate_frame] is complete: it returns [None], leaving the allocator
    untouched, exactly when no frame is free, although it starts its scan at the
    rotating [next_search] word. *)
Theorem allocate_fails_only_when_full a :
  wf a ->
  ((allocate_frame a).1 = None <-> forall k, ~ free a k) /\
  ((allocate_frame a).1 = None -> (allocate_frame a).2 = a).
Proof.
  intros Hwf. pose proof (allocate_frame_spec a Hwf) as H.
  destruct (allocate_frame a) as [[f|] a']; simpl.
  - destruct H as (i & _ & _ & Hf & _). split; [split; [discriminate|]|discriminate].
    intros Hn. destruct (Hn i Hf).
  - destruct H as [-> H]. split; [split; [intros _; exact H|reflexivity]|reflexivity].
Qed.

Lemma allocate_fails_only_when_full_witness :
  (allocate_frame new).1 = None /\ (allocate_frame new).2 = new.
Proof.
  assert (E : (allocate_frame new).1 = None) by (vm_compute; reflexivity).
  split; [exact E|]. exact (proj2 (allocate_fails_only_when_full new wf_new) E).
Defined.

(** [deallocate_frame] followed by the bitmap view: exactly the named frame
    becomes free, returning it a second time changes nothing (no double count),
    and frames at or above the supported limit are ignored. *)
Theorem deallocate_exact a frame :
  wf a -> 0 <= frame ->
  wf (deallocate_frame a frame) /\
  (forall k, free (deallocate_frame a frame) k <->
     (k = number frame /\ number frame < MAX_FRAMES) \/ free a k) /\
  deallocate_frame (deallocate_frame a frame) frame = deallocate_frame a frame.
Proof.
  intros Hwf Hf. destruct (deallocate_frame_spec a frame Hwf Hf) as [H1 H2].
  split_and!; [assumption..|].
  assert (Hi0 : 0 <= number frame) by (apply Z.div_pos; unfold PAGE_SIZE; lia).
  assert (Hm : mark_free (deallocate_frame a frame) frame = deallocate_frame a frame).
  { unfold mark_free. destruct (Z.leb_spec MAX_FRAMES (number frame)) as [|Hlt]; [reflexivity|].
    rewrite land_bit_nonzero by (apply Z.mod_pos_bound; lia).
    assert (Hfr : free (deallocate_frame a frame) (number frame)) by (apply H2; tauto).
    destruct Hfr as [_ ->]. reflexivity. }
  unfold deallocate_frame at 1. rewrite Hm.
  unfold deallocate_frame. destruct (number frame / 64 <? BITMAP_WORDS); reflexivity.
Qed.

Lemma deallocate_exact_witness :
  wf (deallocate_frame new 0x5000) /\ free_frames (deallocate_frame new 0x5000) = 1.
Proof.
  split; [|vm_compute; reflexivity].
  apply (deallocate_exact new 0x5000); [exact wf_new|lia].
Defined.

(** The rounding of a region that starts in the last page of the address space
    wraps to zero, so such a region would free frames from address 0. *)
Example align_up_wraps : align_up (U64 - 1) PAGE_SIZE = 0.
Proof. reflexivity. Qed.

End Bitmap.
