(* ===== verification/Paging.v ===== *)
(** Four-level x86_64 paging (src/src/memory/paging.rs): entry bit fields, the
    walkers [next_table] and [next_table_or_create], [map], [unmap] and
    [translate], over a physical memory of 64-bit words reached through the
    bootloader's offset window.  Frames come from any [FrameSource]. *)

From Stdlib Require Import ZArith Lia.
From stdpp Require Import base list.
From S2P Require Import Prelude MemLayout FrameAlloc.

Open Scope Z_scope.

Module Paging.

(** ** Entry bit fields *)

Definition PHYS_ADDR_MASK : Z := 0x000FFFFFFFFFF000.

Definition PRESENT : Z := 2 ^ 0.
Definition WRITABLE : Z := 2 ^ 1.
Definition USER : Z := 2 ^ 2.
Definition WRITE_THROUGH : Z := 2 ^ 3.
Definition NO_CACHE : Z := 2 ^ 4.
Definition ACCESSED : Z := 2 ^ 5.
Definition DIRTY : Z := 2 ^ 6.
Definition HUGE_PAGE : Z := 2 ^ 7.
Definition GLOBAL : Z := 2 ^ 8.
Definition NO_EXECUTE : Z := 2 ^ 63.

Definition empty : Z := 0.
Definition bits (self : Z) : Z := self.
Definition from_bits_truncate (b : Z) : Z := Z.land b (not64 PHYS_ADDR_MASK).
Definition contains (self other : Z) : bool := Z.land self other =? other.
Definition bitor (a b : Z) : Z := Z.lor a b.
Definition bitor_assign (self rhs : Z) : Z := Z.lor self rhs.
Definition bitand (a b : Z) : Z := Z.land a b.

Definition pte_empty : Z := 0.
Definition is_present (e : Z) : bool := negb (Z.land e 1 =? 0).
Definition frame_addr (e : Z) : Z := Z.land e PHYS_ADDR_MASK.
Definition flags (e : Z) : Z := Z.land e (not64 PHYS_ADDR_MASK).
Definition pte_set (fa fl : Z) : Z := Z.lor (Z.land fa PHYS_ADDR_MASK) fl.
Definition pte_clear : Z := 0.

Inductive MapError := AlreadyMapped | NotMapped | OutOfFrames | HugePageConflict | NotInitialized.

#[export] Instance MapError_eq_dec : EqDecision MapError.
Proof. solve_decision. Defined.

Definition split_indices (virt : Z) : Z * Z * Z * Z * Z :=
  (Z.land (Z.shiftr virt 39) 0x1FF, Z.land (Z.shiftr virt 30) 0x1FF,
   Z.land (Z.shiftr virt 21) 0x1FF, Z.land (Z.shiftr virt 12) 0x1FF, Z.land virt 0xFFF).

(** ** State

    [mem a] is the 64-bit word at physical address [a]; a table at [pa] has its
    entry [i] at [pa + 8 * i].  A virtual address [offset + pa] denotes [pa]:
    that is the contract of [paging::init].  [tlb] lists the invalidations issued,
    latest first. *)
Inductive Flush := Invlpg (virt : Z) | ReloadCr3 (l4 : Z).

Record State (S : Type) := mkState {
  phys_mem_offset : Z;
  cr3 : Z;
  mem : Z -> Z;
  frames : S;
  tlb : list Flush
}.
Arguments mkState {S}.
Arguments phys_mem_offset {S}.
Arguments cr3 {S}.
Arguments mem {S}.
Arguments frames {S}.
Arguments tlb {S}.

Definition upd (m : Z -> Z) (a v : Z) : Z -> Z := fun x => if x =? a then v else m x.

(** [new_table_va.write(PageTable::empty())]. *)
Definition zero_table (m : Z -> Z) (pa : Z) : Z -> Z :=
  fun x => if (pa <=? x) && (x <? pa + PAGE_SIZE) then pte_empty else m x.

Section Operations.
Context {S : Type} `{FrameSource S}.

Definition set_mem (s : State S) (m : Z -> Z) : State S :=
  mkState (phys_mem_offset s) (cr3 s) m (frames s) (tlb s).
Definition set_frames (s : State S) (f : S) : State S :=
  mkState (phys_mem_offset s) (cr3 s) (mem s) f (tlb s).
Definition flush_tlb (s : State S) (virt : Z) : State S :=
  mkState (phys_mem_offset s) (cr3 s) (mem s) (frames s) (Invlpg virt :: tlb s).

(** Reading CR3 and writing the value back. *)
Definition flush_tlb_all (s : State S) : State S :=
  mkState (phys_mem_offset s) (cr3 s) (mem s) (frames s) (ReloadCr3 (cr3 s) :: tlb s).

Definition init (off : Z) (s : State S) : result unit MemoryInitError * State S :=
  if off =? u64_max then (Err PagingNotReady, s)
  else (Ok tt, mkState off (cr3 s) (mem s) (frames s) (tlb s)).

Definition phys_offset (s : State S) : result Z MapError :=
  if phys_mem_offset s =? u64_max then Err NotInitialized else Ok (phys_mem_offset s).

(** [phys_to_virt(pa)?] followed by the dereference through the window: the
    handle of a table is its physical address. *)
Definition table_ref (s : State S) (pa : Z) : result Z MapError :=
  try _ := phys_offset s in Ok pa.

Definition active_l4 (s : State S) : result Z MapError :=
  table_ref s (Z.land (cr3 s) PHYS_ADDR_MASK).

Definition next_table_or_create (s : State S) (table index parent_flags : Z)
  : result Z MapError * State S :=
  let entry := mem s (table + 8 * index) in
  if is_present entry then
    if contains (flags entry) HUGE_PAGE then (Err HugePageConflict, s)
    else (table_ref s (frame_addr entry), s)
  else
    match fs_alloc (frames s) with
    | (None, f') => (Err OutOfFrames, set_frames s f')
    | (Some new_table_pa, f') =>
        let s := set_frames s f' in
        match table_ref s new_table_pa with
        | Err e => (Err e, s)
        | Ok _ =>
            let m := zero_table (mem s) new_table_pa in
            let intermediate_flags := bitor (bitor PRESENT WRITABLE) (bitand parent_flags USER) in
            let entry := pte_set new_table_pa intermediate_flags in
            let s := set_mem s (upd m (table + 8 * index) entry) in
            (table_ref s (frame_addr entry), s)
        end
    end.

Definition next_table (s : State S) (table index : Z) : result Z MapError :=
  let entry := mem s (table + 8 * index) in
  if negb (is_present entry) then Err NotMapped
  else if contains (flags entry) HUGE_PAGE then Err HugePageConflict
  else table_ref s (frame_addr entry).

(** Sequencing of fallible state transformers: [let t = step?; k]. *)
Definition andThen {A B} (r : result A MapError * State S)
    (k : A -> State S -> result B MapError * State S) : result B MapError * State S :=
  match r with
  | (Ok x, s') => k x s'
  | (Err e, s') => (Err e, s')
  end.

Definition map_body (virt phys fl : Z) (s : State S) : result unit MapError * State S :=
  let fl := bitor fl PRESENT in
  let '(l4i, l3i, l2i, l1i, _) := split_indices virt in
  andThen (active_l4 s, s) (fun l4_table s =>
  andThen (next_table_or_create s l4_table l4i fl) (fun l3_table s =>
  andThen (next_table_or_create s l3_table l3i fl) (fun l2_table s =>
  andThen (next_table_or_create s l2_table l2i fl) (fun l1_table s =>
    if is_present (mem s (l1_table + 8 * l1i)) then (Err AlreadyMapped, s)
    else
      let s := set_mem s (upd (mem s) (l1_table + 8 * l1i) (pte_set phys fl)) in
      (Ok tt, flush_tlb s virt))))).

(** The two [assert!]s on alignment panic. *)
Definition map (virt phys fl : Z) (s : State S) : outcome (result unit MapError * State S) :=
  if negb (Z.land virt 0xFFF =? 0) then Panic
  else if negb (Z.land phys 0xFFF =? 0) then Panic
  else Ret (map_body virt phys fl s).

Definition unmap (virt : Z) (s : State S) : outcome (result Z MapError * State S) :=
  if negb (Z.land virt 0xFFF =? 0) then Panic
  else
    let '(l4i, l3i, l2i, l1i, _) := split_indices virt in
    Ret (andThen (active_l4 s, s) (fun l4_table s =>
         andThen (next_table s l4_table l4i, s) (fun l3_table s =>
         andThen (next_table s l3_table l3i, s) (fun l2_table s =>
         andThen (next_table s l2_table l2i, s) (fun l1_table s =>
           let entry := mem s (l1_table + 8 * l1i) in
           if negb (is_present entry) then (Err NotMapped, s)
           else
             let pa := frame_addr entry in
             let s := set_mem s (upd (mem s) (l1_table + 8 * l1i) pte_clear) in
             (Ok pa, flush_tlb s virt)))))).

Definition translate (s : State S) (virt : Z) : option Z :=
  let '(l4i, l3i, l2i, l1i, off) := split_indices virt in
  if phys_mem_offset s =? u64_max then None
  else
    let e4 := mem s (Z.land (cr3 s) PHYS_ADDR_MASK + 8 * l4i) in
    if negb (is_present e4) then None
    else
      let e3 := mem s (frame_addr e4 + 8 * l3i) in
      if negb (is_present e3) then None
      else if contains (flags e3) HUGE_PAGE
      then Some (Z.lor (frame_addr e3) (Z.land virt (Z.shiftl 1 30 - 1)))
      else
        let e2 := mem s (frame_addr e3 + 8 * l2i) in
        if negb (is_present e2) then None
        else if contains (flags e2) HUGE_PAGE
        then Some (Z.lor (frame_addr e2) (Z.land virt (Z.shiftl 1 21 - 1)))
        else
          let e1 := mem s (frame_addr e2 + 8 * l1i) in
          if negb (is_present e1) then None
          else Some (Z.lor (frame_addr e1) off).

End Operations.

(** ** Bit-field facts *)

Lemma mask_bits i :
  0 <= i -> Z.testbit PHYS_ADDR_MASK i = (12 <=? i) && (i <? 52).
Proof.
  intros Hi. change PHYS_ADDR_MASK with (Z.shiftl (Z.ones 40) 12).
  rewrite Z.shiftl_spec by lia. destruct (Z.leb_spec 12 i).
  - rewrite Z.testbit_ones_nonneg by lia.
    destruct (Z.ltb_spec (i - 12) 40), (Z.ltb_spec i 52); try reflexivity; lia.
  - apply Z.testbit_neg_r. lia.
Qed.

Lemma is_present_bit e : is_present e = Z.testbit e 0.
Proof. exact (land_bit_nonzero e 0 ltac:(lia)). Qed.

Lemma frame_addr_aligned e : frame_addr e mod PAGE_SIZE = 0 /\ 0 <= frame_addr e < 2 ^ 52.
Proof.
  unfold frame_addr. split; [|apply land_range_r; [lia|unfold PHYS_ADDR_MASK; lia]].
  change PAGE_SIZE with (2 ^ 12). apply Z.bits_inj'. intros i Hi. rewrite Z.bits_0.
  destruct (Z_lt_le_dec i 12).
  - rewrite Z.mod_pow2_bits_low, Z.land_spec, mask_bits by lia.
    destruct (Z.leb_spec 12 i); [lia|apply andb_false_r].
  - apply Z.mod_pow2_bits_high. lia.
Qed.

(** Page-aligned physical addresses below 2^52 survive the mask. *)
Lemma mask_id a : a mod PAGE_SIZE = 0 -> 0 <= a < 2 ^ 52 -> Z.land a PHYS_ADDR_MASK = a.
Proof.
  intros Ha Hr. apply Z.bits_inj'. intros i Hi. rewrite Z.land_spec, mask_bits by lia.
  destruct (Z.leb_spec 12 i), (Z.ltb_spec i 52); simpl; rewrite ?andb_true_r, ?andb_false_r.
  - reflexivity.
  - symmetry. apply (testbit_above a 52); lia.
  - rewrite <- (Z.mod_pow2_bits_low a 12) by lia. change (2 ^ 12) with PAGE_SIZE.
    rewrite Ha. symmetry. apply Z.bits_0.
  - lia.
Qed.

(** Flag values carry no address bits (what [from_bits_truncate] guarantees). *)
Definition flags_wf (fl : Z) : Prop := Z.land fl PHYS_ADDR_MASK = 0.

Lemma pte_set_frame_addr a fl :
  a mod PAGE_SIZE = 0 -> 0 <= a < 2 ^ 52 -> flags_wf fl -> frame_addr (pte_set a fl) = a.
Proof.
  intros Ha Hr Hfl. unfold frame_addr, pte_set. rewrite Z.land_lor_distr_l, Hfl, Z.lor_0_r.
  rewrite <- Z.land_assoc, Z.land_diag. apply mask_id; assumption.
Qed.

Lemma pte_set_present a fl : Z.testbit fl 0 = true -> is_present (pte_set a fl) = true.
Proof.
  intros Hf. rewrite is_present_bit. unfold pte_set. rewrite Z.lor_spec, Hf. apply orb_true_r.
Qed.

Lemma contains_huge e : contains (flags e) HUGE_PAGE = Z.testbit e 7.
Proof.
  unfold contains, flags. rewrite <- Z.land_assoc.
  replace (Z.land (not64 PHYS_ADDR_MASK) HUGE_PAGE) with HUGE_PAGE by reflexivity.
  destruct (Z.testbit e 7) eqn:E.
  - apply Z.eqb_eq. apply Z.bits_inj'. intros i Hi. rewrite Z.land_spec.
    unfold HUGE_PAGE. rewrite Z.pow2_bits_eqb by lia.
    destruct (Z.eqb_spec 7 i); [subst; rewrite E; reflexivity|apply andb_false_r].
  - apply Z.eqb_neq. intros Hc. apply (f_equal (fun x => Z.testbit x 7)) in Hc.
    rewrite Z.land_spec, E in Hc. discriminate.
Qed.

Lemma pte_set_huge a fl : Z.testbit (pte_set a fl) 7 = Z.testbit fl 7.
Proof.
  unfold pte_set. rewrite Z.lor_spec, Z.land_spec, mask_bits by lia.
  rewrite andb_false_r. reflexivity.
Qed.

(** ** Addresses and paths *)

(** The four table indices of an address, from the root down. *)
Definition path (virt : Z) : list Z :=
  let '(l4, l3, l2, l1, _) := split_indices virt in [l4; l3; l2; l1].

(** The 36-bit page number the walker sees. *)
Definition vpn (virt : Z) : Z := (virt / PAGE_SIZE) mod 2 ^ 36.

Definition vpath (p : list Z) : Prop := Forall (fun i => 0 <= i < 512) p.

Lemma index_mod k v : 0 <= k -> Z.land (Z.shiftr v k) 0x1FF = (v / 2 ^ k) mod 512.
Proof.
  intros Hk. rewrite Z.shiftr_div_pow2 by lia. apply (land_low_mask _ 9). lia.
Qed.

Lemma path_vpath v : vpath (path v).
Proof.
  unfold path, split_indices. rewrite !index_mod by lia.
  repeat constructor; apply Z.mod_pos_bound; lia.
Qed.

Lemma path_length v : length (path v) = 4%nat.
Proof. reflexivity. Qed.

Lemma vpn_indices v :
  vpn v = (v / 2 ^ 12) mod 512 + 512 * ((v / 2 ^ 21) mod 512) +
          512 * 512 * ((v / 2 ^ 30) mod 512) + 512 * 512 * 512 * ((v / 2 ^ 39) mod 512).
Proof.
  unfold vpn, PAGE_SIZE. change (2 ^ 12) with 4096. set (x := v / 4096).
  replace (v / 2 ^ 21) with (x / 512) by (unfold x; rewrite Z.div_div by lia; reflexivity).
  replace (v / 2 ^ 30) with (x / 512 / 512) by (unfold x; rewrite !Z.div_div by lia; reflexivity).
  replace (v / 2 ^ 39) with (x / 512 / 512 / 512)
    by (unfold x; rewrite !Z.div_div by lia; reflexivity).
  change (2 ^ 36) with (512 * (512 * (512 * 512))).
  rewrite !Z.rem_mul_r by lia. lia.
Qed.

Lemma digits_inj a b c d a' b' c' d' :
  0 <= a < 512 -> 0 <= b < 512 -> 0 <= c < 512 ->
  0 <= a' < 512 -> 0 <= b' < 512 -> 0 <= c' < 512 ->
  a + 512 * b + 512 * 512 * c + 512 * 512 * 512 * d =
  a' + 512 * b' + 512 * 512 * c' + 512 * 512 * 512 * d' ->
  a = a' /\ b = b' /\ c = c' /\ d = d'.
Proof. lia. Qed.

Lemma path_vpn v w : path v = path w <-> vpn v = vpn w.
Proof.
  rewrite !vpn_indices. unfold path, split_indices. rewrite !index_mod by lia. split.
  - intros E. simplify_eq. congruence.
  - intros E. apply digits_inj in E; try (apply Z.mod_pos_bound; lia).
    destruct E as (-> & -> & -> & ->). reflexivity.
Qed.

(** ** The table tree *)

(** The table reached from [t] along [p] through present, non-huge entries. *)
Fixpoint table_at (m : Z -> Z) (t : Z) (p : list Z) : option Z :=
  match p with
  | [] => Some t
  | i :: p' =>
      let e := m (t + 8 * i) in
      if is_present e && negb (Z.testbit e 7) then table_at m (frame_addr e) p' else None
  end.

(** The reference walk: the final entry and how many indices were left. *)
Fixpoint walk (m : Z -> Z) (t : Z) (p : list Z) : option (Z * nat) :=
  match p with
  | [] => None
  | i :: p' =>
      let e := m (t + 8 * i) in
      if is_present e then
        match p' with
        | [] => Some (e, 0%nat)
        | _ => if Z.testbit e 7 then Some (e, length p') else walk m (frame_addr e) p'
        end
      else None
  end.

Lemma table_at_app m t p q :
  table_at m t (p ++ q) = table_at m t p ≫= fun a => table_at m a q.
Proof.
  revert t. induction p as [|i p IH]; intros t; simpl; [reflexivity|].
  destruct (_ && _); [apply IH|reflexivity].
Qed.

Lemma walk_app m t p q a :
  table_at m t p = Some a -> q <> [] -> walk m t (p ++ q) = walk m a q.
Proof.
  revert t. induction p as [|i p IH]; intros t Ht Hq; simpl in *; [congruence|].
  destruct (is_present _); [|discriminate].
  destruct (Z.testbit _ 7); [discriminate|]. simpl in Ht.
  destruct (p ++ q) eqn:E; [|apply IH; assumption].
  apply app_nil in E as [_ ->]. contradiction.
Qed.

Lemma table_at_aligned m t p a :
  t mod PAGE_SIZE = 0 -> table_at m t p = Some a -> a mod PAGE_SIZE = 0.
Proof.
  revert t. induction p as [|i p IH]; intros t Ht E; simpl in E; [congruence|].
  destruct (_ && _); [|discriminate]. eapply IH; [apply frame_addr_aligned|exact E].
Qed.

(** Memories that agree on the entries read along a path give the same answers. *)
Lemma table_frame m m' t p :
  (forall pre j rest a, p = pre ++ j :: rest -> table_at m t pre = Some a ->
     m' (a + 8 * j) = m (a + 8 * j)) ->
  table_at m' t p = table_at m t p.
Proof.
  revert t. induction p as [|i p IH]; intros t Hf; simpl; [reflexivity|].
  rewrite (Hf [] i p t eq_refl eq_refl). destruct (_ && _) eqn:E; [|reflexivity].
  apply IH. intros pre j rest a -> Ha. apply (Hf (i :: pre) j rest); [reflexivity|].
  simpl. rewrite E. exact Ha.
Qed.

Lemma walk_frame m m' t p :
  (forall pre j rest a, p = pre ++ j :: rest -> table_at m t pre = Some a ->
     m' (a + 8 * j) = m (a + 8 * j)) ->
  walk m' t p = walk m t p.
Proof.
  revert t. induction p as [|i p IH]; intros t Hf; simpl; [reflexivity|].
  rewrite (Hf [] i p t eq_refl eq_refl). destruct (is_present _) eqn:E; [|reflexivity].
  destruct p as [|j p]; [reflexivity|]. destruct (Z.testbit _ 7) eqn:E7; [reflexivity|].
  apply IH. intros pre k rest a Hp Ha. apply (Hf (i :: pre) k rest); [rewrite Hp; reflexivity|].
  simpl. rewrite E, E7. exact Ha.
Qed.

Lemma entry_addr_inj t t' i j :
  t mod PAGE_SIZE = 0 -> t' mod PAGE_SIZE = 0 -> 0 <= i < 512 -> 0 <= j < 512 ->
  t + 8 * i = t' + 8 * j -> t = t' /\ i = j.
Proof. unfold PAGE_SIZE. intros. Z.div_mod_to_equations. lia. Qed.

Section Correctness.
Context {S : Type} `{HL : FrameSourceLaws S}.
Implicit Types s : State S.

Definition root (s : State S) : Z := Z.land (cr3 s) PHYS_ADDR_MASK.

(** The hierarchy is a tree: no table is reached twice, no table sits in a free
    frame, and (as the architecture requires) no top-level entry is huge. *)
Record inv (s : State S) : Prop := {
  inv_init : phys_mem_offset s <> u64_max;
  inv_frames : fs_inv (frames s);
  inv_tree : forall p q a, vpath p -> vpath q -> (length p <= 3)%nat -> (length q <= 3)%nat ->
     table_at (mem s) (root s) p = Some a -> table_at (mem s) (root s) q = Some a -> p = q;
  inv_used : forall p a, vpath p -> (length p <= 3)%nat ->
     table_at (mem s) (root s) p = Some a -> ~ fs_free (frames s) a;
  inv_top : forall i, 0 <= i < 512 -> is_present (mem s (root s + 8 * i)) = true ->
     Z.testbit (mem s (root s + 8 * i)) 7 = false
}.

Lemma root_aligned s : root s mod PAGE_SIZE = 0.
Proof. apply frame_addr_aligned. Qed.

(** [translate] is the reference walk followed by the offset computation. *)
Definition finish (virt : Z) (r : Z * nat) : Z :=
  match r with
  | (e, O) => Z.lor (frame_addr e) (Z.land virt 0xFFF)
  | (e, 1%nat) => Z.lor (frame_addr e) (Z.land virt (Z.shiftl 1 21 - 1))
  | (e, _) => Z.lor (frame_addr e) (Z.land virt (Z.shiftl 1 30 - 1))
  end.

(** The processor's own translation: it does not depend on the kernel's window. *)
Definition cpu_translate (s : State S) (virt : Z) : option Z := finish virt <$> walk (mem s) (root s) (path virt).

Lemma translate_walk s virt :
  inv s -> translate s virt = finish virt <$> walk (mem s) (root s) (path virt).
Proof.
  intros Hs. pose proof (path_vpath virt) as Hp. unfold translate, path in *.
  destruct (split_indices virt) as [[[[l4 l3] l2] l1] off] eqn:E.
  assert (Hoff : off = Z.land virt 0xFFF) by (unfold split_indices in E; congruence).
  destruct (Z.eqb_spec (phys_mem_offset s) u64_max) as [Hc|_]; [destruct (inv_init s Hs Hc)|].
  inversion_clear Hp as [|? ? Hl4 _]. pose proof (inv_top s Hs l4 Hl4) as Htop.
  simpl. unfold root in *. rewrite !contains_huge.
  destruct (is_present (mem s (Z.land (cr3 s) PHYS_ADDR_MASK + 8 * l4))); [|reflexivity].
  rewrite Htop by reflexivity. clear Htop. simpl.
  destruct (is_present (mem s (frame_addr _ + 8 * l3))); [|reflexivity]. simpl.
  destruct (Z.testbit _ 7); [reflexivity|]. simpl.
  destruct (is_present (mem s (frame_addr _ + 8 * l2))); [|reflexivity]. simpl.
  destruct (Z.testbit _ 7); [reflexivity|]. simpl.
  destruct (is_present (mem s (frame_addr _ + 8 * l1))); [|reflexivity]. simpl.
  rewrite Hoff. reflexivity.
Qed.

(** ** Extending the tree by one table *)

Lemma table_ref_ok s pa : inv s -> table_ref s pa = Ok pa.
Proof.
  intros Hs. unfold table_ref, phys_offset.
  destruct (Z.eqb_spec (phys_mem_offset s) u64_max) as [Hc|_]; [destruct (inv_init s Hs Hc)|].
  reflexivity.
Qed.

Definition intermediate (fl : Z) : Z := bitor (bitor PRESENT WRITABLE) (bitand fl USER).

Lemma intermediate_bits fl :
  flags_wf (intermediate fl) /\ Z.testbit (intermediate fl) 0 = true /\
  Z.testbit (intermediate fl) 7 = false.
Proof.
  unfold intermediate, bitor, bitand, flags_wf. split_and!.
  - apply Z.bits_inj'. intros i Hi. rewrite Z.bits_0, Z.land_spec, mask_bits by lia.
    destruct (Z.leb_spec 12 i); [|apply andb_false_r]. apply andb_false_intro1.
    rewrite !Z.lor_spec, Z.land_spec. unfold PRESENT, WRITABLE, USER.
    rewrite !Z.pow2_bits_false by lia. rewrite andb_false_r. reflexivity.
  - rewrite !Z.lor_spec. reflexivity.
  - rewrite !Z.lor_spec, Z.land_spec. unfold PRESENT, WRITABLE, USER.
    rewrite !Z.pow2_bits_false by lia. rewrite andb_false_r. reflexivity.
Qed.

(** Position of a path relative to the slot [(p, i)]. *)
Lemma prefix_cases (p : list Z) (i : Z) (q : list Z) :
  (exists r, q = p ++ i :: r) \/ (forall pre j rest, q = pre ++ j :: rest -> ~ (pre = p /\ j = i)).
Proof.
  destruct (decide (take (length p) q = p)) as [E|E].
  - destruct (drop (length p) q) as [|j r] eqn:D.
    + right. intros pre j rest -> [-> ->]. rewrite drop_app_length in D. discriminate.
    + destruct (Z.eq_dec j i) as [->|Hne].
      * left. exists r. rewrite <- E at 1. rewrite <- D. symmetry. apply take_drop.
      * right. intros pre k rest -> [-> ->]. rewrite drop_app_length in D. congruence.
  - right. intros pre j rest -> [-> ->]. apply E. apply take_app_length.
Qed.

Lemma vpath_app p q : vpath (p ++ q) <-> vpath p /\ vpath q.
Proof. apply Forall_app. Qed.

Lemma vpath_mid pre j rest : vpath (pre ++ j :: rest) -> vpath pre /\ 0 <= j < 512.
Proof. intros Hp. apply vpath_app in Hp as [H1 H2]. inversion H2. auto. Qed.

Section Create.
Context (s : State S) (Hs : inv s) (p : list Z) (i t f fl : Z) (fr' : S).
Context (Hp : vpath p) (Hi : 0 <= i < 512) (Hlen : (length p <= 2)%nat)
        (Ht : table_at (mem s) (root s) p = Some t)
        (Habs : is_present (mem s (t + 8 * i)) = false)
        (Halloc : fs_alloc (frames s) = (Some f, fr')).

Let e := pte_set f (intermediate fl).
Let m' := upd (zero_table (mem s) f) (t + 8 * i) e.
Let s' := set_mem (set_frames s fr') m'.

Lemma create_facts :
  fs_free (frames s) f /\ f mod PAGE_SIZE = 0 /\ 0 <= f < 2 ^ 35 /\ fs_inv fr' /\
  (forall g, fs_free fr' g <-> fs_free (frames s) g /\ g <> f).
Proof. exact (fs_alloc_some _ _ _ (inv_frames s Hs) Halloc). Qed.

Lemma create_entry : frame_addr e = f /\ is_present e = true /\ Z.testbit e 7 = false.
Proof.
  destruct create_facts as (_ & Ha & Hr & _). destruct (intermediate_bits fl) as (H1 & H2 & H3).
  unfold e. split_and!.
  - apply pte_set_frame_addr; [assumption|lia|assumption].
  - apply pte_set_present. assumption.
  - rewrite pte_set_huge. assumption.
Qed.

(** Entries of existing tables other than the slot are untouched. *)
Lemma create_other q j a :
  vpath q -> (length q <= 3)%nat -> 0 <= j < 512 -> table_at (mem s) (root s) q = Some a ->
  ~ (q = p /\ j = i) -> m' (a + 8 * j) = mem s (a + 8 * j).
Proof.
  intros Hq Hl Hj Ha Hne. destruct create_facts as (Hfree & Hfa & _).
  pose proof (table_at_aligned _ _ _ _ (root_aligned s) Ha) as Haa.
  pose proof (table_at_aligned _ _ _ _ (root_aligned s) Ht) as Hta.
  unfold m', upd. destruct (Z.eqb_spec (a + 8 * j) (t + 8 * i)) as [E|_].
  - apply entry_addr_inj in E as [-> ->]; try assumption. exfalso. apply Hne. split; [|reflexivity].
    apply (inv_tree s Hs q p t); try assumption. lia.
  - unfold zero_table. destruct (Z.leb_spec f (a + 8 * j)); [|reflexivity].
    destruct (Z.ltb_spec (a + 8 * j) (f + PAGE_SIZE)); [|reflexivity].
    exfalso. apply (inv_used s Hs q a Hq Hl Ha).
    replace a with f; [assumption|]. unfold PAGE_SIZE in *. Z.div_mod_to_equations. lia.
Qed.

Lemma create_new_zero j : 0 <= j < 512 -> is_present (m' (f + 8 * j)) = false.
Proof.
  intros Hj. destruct create_facts as (Hfree & Hfa & _).
  pose proof (table_at_aligned _ _ _ _ (root_aligned s) Ht) as Hta.
  unfold m', upd. destruct (Z.eqb_spec (f + 8 * j) (t + 8 * i)) as [E|_].
  - apply entry_addr_inj in E as [-> ->]; try assumption.
    exfalso. eapply (inv_used s Hs p); [eassumption|lia|eassumption|assumption].
  - unfold zero_table. replace ((f <=? f + 8 * j) && (f + 8 * j <? f + PAGE_SIZE)) with true;
      [reflexivity|]. symmetry. apply andb_true_iff. unfold PAGE_SIZE. lia.
Qed.

Lemma create_table_other q :
  vpath q -> (length q <= 3)%nat ->
  (forall pre j rest, q = pre ++ j :: rest -> ~ (pre = p /\ j = i)) ->
  table_at m' (root s) q = table_at (mem s) (root s) q.
Proof.
  intros Hq Hl Hno. apply table_frame. intros pre j rest a -> Ha.
  destruct (vpath_mid _ _ _ Hq). rewrite length_app in Hl. simpl in Hl.
  eapply create_other; [eassumption|lia|assumption|eassumption|]. eapply Hno. reflexivity.
Qed.

Lemma create_table_self : table_at m' (root s) p = Some t.
Proof.
  rewrite create_table_other; [assumption..|lia|].
  intros pre j rest Hpe [-> _]. apply (f_equal length) in Hpe. rewrite length_app in Hpe.
  simpl in Hpe. lia.
Qed.

Lemma create_slot : m' (t + 8 * i) = e.
Proof. unfold m', upd. rewrite Z.eqb_refl. reflexivity. Qed.

(** Through the new slot only the new, empty table is reachable. *)
Lemma create_table_new r :
  vpath r -> table_at m' (root s) (p ++ i :: r) = match r with [] => Some f | _ => None end.
Proof.
  intros Hr. rewrite table_at_app, create_table_self. simpl. rewrite create_slot.
  destruct create_entry as (-> & -> & ->). simpl. destruct r as [|j r]; [reflexivity|]. simpl.
  inversion_clear Hr. rewrite create_new_zero by assumption. reflexivity.
Qed.

Lemma create_no_old q : vpath q -> (length q <= 3)%nat -> table_at (mem s) (root s) q <> Some f.
Proof. intros Hq Hl E. exact (inv_used s Hs q f Hq Hl E (proj1 create_facts)). Qed.

Lemma create_inv : inv s'.
Proof.
  destruct create_facts as (Hfree & Hfa & Hfr & Hfi & Hff). constructor.
  - exact (inv_init s Hs).
  - exact Hfi.
  - change (root s') with (root s). change (mem s') with m'.
    intros q1 q2 a H1 H2 L1 L2.
    destruct (prefix_cases p i q1) as [[r1 ->]|N1], (prefix_cases p i q2) as [[r2 ->]|N2].
    + apply vpath_app in H1 as [_ H1], H2 as [_ H2]. inversion_clear H1. inversion_clear H2.
      rewrite !create_table_new by assumption.
      destruct r1, r2; try discriminate. reflexivity.
    + apply vpath_app in H1 as [_ H1]. inversion_clear H1.
      rewrite create_table_new, create_table_other by assumption.
      destruct r1; [|discriminate]. intros [= <-] E. destruct (create_no_old q2 H2 L2 E).
    + apply vpath_app in H2 as [_ H2]. inversion_clear H2.
      rewrite create_table_new, create_table_other by assumption.
      destruct r2; [|discriminate]. intros E [= <-]. destruct (create_no_old q1 H1 L1 E).
    + rewrite !create_table_other by assumption. apply (inv_tree s Hs); assumption.
  - change (root s') with (root s). change (mem s') with m'. change (frames s') with fr'.
    intros q a Hq Hl E. rewrite Hff. destruct (prefix_cases p i q) as [[r ->]|N].
    + apply vpath_app in Hq as [_ Hq]. inversion_clear Hq.
      rewrite create_table_new in E by assumption. destruct r; [|discriminate].
      injection E as ->. tauto.
    + rewrite create_table_other in E by assumption. intros [Hg _].
      exact (inv_used s Hs q a Hq Hl E Hg).
  - change (root s') with (root s). change (mem s') with m'. intros j Hj.
    destruct (decide ([] = p /\ j = i)) as [[Hpe Hje]|Hne].
    + assert (Hroot : root s = t) by (revert Ht; rewrite <- Hpe; simpl; congruence).
      rewrite Hroot, Hje, create_slot. intros _. apply create_entry.
    + rewrite (create_other [] j (root s)); [|constructor|simpl; lia|assumption|reflexivity|assumption].
      apply (inv_top s Hs). assumption.
Qed.

(** No translation changes: the slot led nowhere and still does. *)
Lemma create_walk q :
  vpath q -> length q = 4%nat -> walk m' (root s) q = walk (mem s) (root s) q.
Proof.
  intros Hq Hl. destruct (prefix_cases p i q) as [[r ->]|N].
  - apply vpath_app in Hq as [_ Hq]. inversion_clear Hq as [|? ? _ Hr].
    rewrite (walk_app m' _ _ _ t create_table_self) by discriminate.
    rewrite (walk_app _ _ _ _ t Ht) by discriminate. simpl. rewrite create_slot, Habs.
    destruct create_entry as (-> & -> & ->).
    destruct r as [|j r]; [rewrite length_app in Hl; simpl in Hl; lia|].
    simpl. inversion_clear Hr. rewrite create_new_zero by assumption. reflexivity.
  - apply walk_frame. intros pre j rest a -> Ha. destruct (vpath_mid _ _ _ Hq).
    rewrite length_app in Hl. simpl in Hl.
    eapply create_other; [eassumption|lia|assumption|eassumption|]. eapply N. reflexivity.
Qed.

End Create.

(** ** Rewriting one leaf entry *)

Section Leaf.
Context (s : State S) (Hs : inv s) (p : list Z) (i t v : Z).
Context (Hp : vpath p) (Hi : 0 <= i < 512) (Hlen : length p = 3%nat)
        (Ht : table_at (mem s) (root s) p = Some t).

Let m' := upd (mem s) (t + 8 * i) v.

Lemma leaf_other q j a :
  vpath q -> (length q <= 3)%nat -> 0 <= j < 512 -> table_at (mem s) (root s) q = Some a ->
  ~ (q = p /\ j = i) -> m' (a + 8 * j) = mem s (a + 8 * j).
Proof.
  intros Hq Hl Hj Ha Hne. unfold m', upd.
  destruct (Z.eqb_spec (a + 8 * j) (t + 8 * i)) as [E|_]; [|reflexivity].
  apply entry_addr_inj in E as [-> ->]; try assumption;
    try (eapply table_at_aligned; [apply root_aligned|eassumption]).
  exfalso. apply Hne. split; [|reflexivity].
  apply (inv_tree s Hs q p t); try assumption. lia.
Qed.

Lemma leaf_table q :
  vpath q -> (length q <= 3)%nat -> table_at m' (root s) q = table_at (mem s) (root s) q.
Proof.
  intros Hq Hl. apply table_frame. intros pre j rest a -> Ha.
  destruct (vpath_mid _ _ _ Hq). rewrite length_app in Hl. simpl in Hl.
  eapply leaf_other; [eassumption|lia|assumption|eassumption|]. intros [-> _]. lia.
Qed.

Lemma leaf_inv virt : inv (flush_tlb (set_mem s m') virt).
Proof.
  constructor; change (root (flush_tlb (set_mem s m') virt)) with (root s);
    change (mem (flush_tlb (set_mem s m') virt)) with m'.
  - exact (inv_init s Hs).
  - exact (inv_frames s Hs).
  - intros q1 q2 a H1 H2 L1 L2. rewrite !leaf_table by assumption.
    apply (inv_tree s Hs); assumption.
  - intros q a Hq Hl. rewrite leaf_table by assumption. apply (inv_used s Hs); assumption.
  - intros j Hj. rewrite (leaf_other [] j (root s)); [|constructor|simpl; lia|assumption|reflexivity|].
    + apply (inv_top s Hs). assumption.
    + intros [Hpe _]. rewrite <- Hpe in Hlen. discriminate.
Qed.

Lemma leaf_walk_self :
  walk m' (root s) (p ++ [i]) = if is_present v then Some (v, 0%nat) else None.
Proof.
  rewrite (walk_app m' _ _ _ t)
    by first [discriminate|rewrite leaf_table; [assumption|assumption|lia]].
  simpl. unfold m', upd. rewrite Z.eqb_refl. reflexivity.
Qed.

Lemma leaf_walk_other q :
  vpath q -> length q = 4%nat -> q <> p ++ [i] -> walk m' (root s) q = walk (mem s) (root s) q.
Proof.
  intros Hq Hl Hne. apply walk_frame. intros pre j rest a -> Ha. destruct (vpath_mid _ _ _ Hq).
  rewrite length_app in Hl. simpl in Hl.
  eapply leaf_other; [eassumption|lia|assumption|eassumption|].
  intros [-> ->]. apply Hne. destruct rest; [reflexivity|simpl in Hl; lia].
Qed.

End Leaf.

(** ** The walkers *)

(** Nothing observable through the tables or the TLB trace has changed. *)
Definition same_view (s s' : State S) : Prop :=
  root s' = root s /\ tlb s' = tlb s /\
  forall q, vpath q -> length q = 4%nat ->
    walk (mem s') (root s') q = walk (mem s) (root s) q.

Lemma same_view_refl s : same_view s s.
Proof. split_and!; reflexivity. Qed.

Lemma same_view_trans s1 s2 s3 : same_view s1 s2 -> same_view s2 s3 -> same_view s1 s3.
Proof.
  intros (R1 & T1 & W1) (R2 & T2 & W2). split_and!; [congruence..|].
  intros q Hq Hl. rewrite W2, W1; auto.
Qed.

(** How a failing [map] step is explained by the walk of the whole path. *)
Definition map_error_cause (s : State S) (q : list Z) (e : MapError) (s' : State S) : Prop :=
  match e with
  | AlreadyMapped => exists x, walk (mem s) (root s) q = Some (x, 0%nat)
  | HugePageConflict => exists x n, walk (mem s) (root s) q = Some (x, Datatypes.S n)
  | OutOfFrames => forall g, ~ fs_free (frames s') g
  | _ => False
  end.

Lemma next_table_or_create_spec s p i t r fl :
  inv s -> vpath p -> (length p <= 2)%nat -> 0 <= i < 512 -> r <> [] ->
  table_at (mem s) (root s) p = Some t ->
  match next_table_or_create s t i fl with
  | (Ok t', s') => inv s' /\ same_view s s' /\ table_at (mem s') (root s') (p ++ [i]) = Some t'
  | (Err e, s') => inv s' /\ same_view s s' /\ map_error_cause s (p ++ i :: r) e s'
  end.
Proof.
  intros Hs Hp Hl Hi Hr Ht. unfold next_table_or_create.
  destruct (is_present (mem s (t + 8 * i))) eqn:Epr.
  - rewrite contains_huge. destruct (Z.testbit (mem s (t + 8 * i)) 7) eqn:E7.
    + split_and!; [assumption|apply same_view_refl|].
      exists (mem s (t + 8 * i)). destruct r as [|j r]; [contradiction|]. exists (length r).
      rewrite (walk_app _ _ _ _ t Ht) by discriminate. simpl. rewrite Epr, E7. reflexivity.
    + rewrite table_ref_ok by assumption. split_and!; [assumption|apply same_view_refl|].
      rewrite table_at_app, Ht. simpl. rewrite Epr, E7. reflexivity.
  - destruct (fs_alloc (frames s)) as [[f|] fr'] eqn:Ealloc.
    + assert (Hinv := create_inv s Hs p i t f fl fr' Hp Hi Hl Ht Ealloc).
      fold (intermediate fl).
      replace (table_ref (set_frames s fr') f) with (@Ok Z MapError f)
        by (symmetry; exact (table_ref_ok s f Hs)).
      rewrite table_ref_ok by exact Hinv.
      destruct (create_entry s Hs p f fl fr' Hl Ealloc) as (Hfa & _). rewrite Hfa.
      split_and!; [exact Hinv| |].
      * split_and!; [reflexivity..|]. intros q Hq Hlq.
        exact (create_walk s Hs p i t f fl fr' Hp Hi Hl Ht Epr Ealloc q Hq Hlq).
      * exact (create_table_new s Hs p i t f fl fr' Hp Hi Hl Ht Ealloc [] ltac:(constructor)).
    + destruct (fs_alloc_none _ _ (inv_frames s Hs) Ealloc) as [-> Hnone].
      assert (E : set_frames s (frames s) = s) by (destruct s; reflexivity). rewrite E.
      split_and!; [assumption|apply same_view_refl|exact Hnone].
Qed.

Lemma map_error_cause_view s s1 q e s' :
  same_view s s1 -> vpath q -> length q = 4%nat ->
  map_error_cause s1 q e s' -> map_error_cause s q e s'.
Proof.
  intros (_ & _ & W) Hq Hl. unfold map_error_cause. rewrite (W q Hq Hl). auto.
Qed.

(** ** [map] and [unmap] against the walk *)

Lemma map_body_spec s virt phys fl :
  inv s ->
  let q := path virt in
  match map_body virt phys fl s with
  | (Ok _, s') => inv s' /\ root s' = root s /\ tlb s' = Invlpg virt :: tlb s /\
      walk (mem s) (root s) q = None /\
      walk (mem s') (root s') q = Some (pte_set phys (bitor fl PRESENT), 0%nat) /\
      (forall q', vpath q' -> length q' = 4%nat -> q' <> q ->
         walk (mem s') (root s') q' = walk (mem s) (root s) q')
  | (Err e, s') => inv s' /\ same_view s s' /\ map_error_cause s q e s'
  end.
Proof.
  intros Hs q. pose proof (path_vpath virt) as Hq. pose proof (path_length virt) as Hlq.
  fold q in Hq, Hlq. unfold map_body, q, path in *. clear q.
  destruct (split_indices virt) as [[[[l4 l3] l2] l1] off]. set (fl' := bitor fl PRESENT).
  pose proof Hq as Hv. unfold vpath in Hq. rewrite !Forall_cons in Hq.
  destruct Hq as (H4 & H3 & H2 & H1 & _).
  unfold active_l4. fold (root s). rewrite table_ref_ok by assumption. simpl andThen.
  pose proof (next_table_or_create_spec s [] l4 (root s) [l3; l2; l1] fl' Hs ltac:(constructor)
    ltac:(simpl; lia) H4 ltac:(discriminate) eq_refl) as N4.
  destruct (next_table_or_create s (root s) l4 fl') as [[t3|e] s1]; simpl andThen; [|exact N4].
  destruct N4 as (I1 & V1 & T3).
  pose proof (next_table_or_create_spec s1 [l4] l3 t3 [l2; l1] fl' I1 ltac:(repeat constructor; lia)
    ltac:(simpl; lia) H3 ltac:(discriminate) T3) as N3.
  destruct (next_table_or_create s1 t3 l3 fl') as [[t2|e] s2]; simpl andThen.
  2:{ destruct N3 as (I2 & V2 & C). eauto 10 using same_view_trans, map_error_cause_view. }
  destruct N3 as (I2 & V2 & T2).
  pose proof (next_table_or_create_spec s2 [l4; l3] l2 t2 [l1] fl' I2 ltac:(repeat constructor; lia)
    ltac:(simpl; lia) H2 ltac:(discriminate) T2) as N2.
  pose proof (same_view_trans _ _ _ V1 V2) as V12.
  destruct (next_table_or_create s2 t2 l2 fl') as [[t1|e] s3]; simpl andThen.
  2:{ destruct N2 as (I3 & V3 & C). eauto 10 using same_view_trans, map_error_cause_view. }
  destruct N2 as (I3 & V3 & T1). pose proof (same_view_trans _ _ _ V12 V3) as V.
  change ([l4; l3] ++ [l2]) with [l4; l3; l2] in T1.
  assert (Hp3 : vpath [l4; l3; l2]) by (repeat constructor; lia).
  assert (Hw3 : walk (mem s3) (root s3) [l4; l3; l2; l1] =
                if is_present (mem s3 (t1 + 8 * l1)) then Some (mem s3 (t1 + 8 * l1), 0%nat) else None).
  { change [l4; l3; l2; l1] with ([l4; l3; l2] ++ [l1]).
    rewrite (walk_app _ _ _ _ t1 T1) by discriminate. reflexivity. }
  destruct V as (Rv & Tv & Wv).
  destruct (is_present (mem s3 (t1 + 8 * l1))) eqn:Epr.
  - split_and!; [assumption|split_and!; assumption|].
    exists (mem s3 (t1 + 8 * l1)). rewrite <- (Wv _ Hv eq_refl). exact Hw3.
  - split_and!.
    + apply (leaf_inv s3 I3 [l4; l3; l2]); try assumption. reflexivity.
    + exact Rv.
    + simpl. rewrite Tv. reflexivity.
    + rewrite <- (Wv _ Hv eq_refl). exact Hw3.
    + change [l4; l3; l2; l1] with ([l4; l3; l2] ++ [l1]). cbn [mem root flush_tlb set_mem cr3].
      fold (root s3). etransitivity; [apply (leaf_walk_self s3 I3); [assumption..|reflexivity|assumption]|].
      rewrite pte_set_present; [reflexivity|]. unfold fl', bitor. rewrite Z.lor_spec. apply orb_true_r.
    + intros q' Hq'' Hl' Hne. rewrite <- (Wv _ Hq'' Hl').
      apply (leaf_walk_other s3 I3 [l4; l3; l2]); try assumption; reflexivity.
Qed.

(** [map] only ever takes frames away from the free ones. *)
Definition shrinks (s s' : State S) : Prop :=
  fs_inv (frames s) ->
  fs_inv (frames s') /\ forall g, fs_free (frames s') g -> fs_free (frames s) g.

Lemma shrinks_refl s : shrinks s s.
Proof. intros Hi. auto. Qed.

Lemma next_table_or_create_shrinks s t i fl : shrinks s (snd (next_table_or_create s t i fl)).
Proof.
  intros Hi. unfold next_table_or_create.
  destruct (is_present _); [destruct (contains _ _); simpl; auto|].
  destruct (fs_alloc (frames s)) as [[f|] fr'] eqn:E; simpl.
  - destruct (fs_alloc_some _ _ _ Hi E) as (_ & _ & _ & Hi' & Hg).
    destruct (table_ref _ _); simpl; (split; [exact Hi'|intros g Hf; apply Hg, Hf]).
  - destruct (fs_alloc_none _ _ Hi E) as [-> _]. auto.
Qed.

Lemma andThen_shrinks {A B} s (r : result A MapError * State S)
    (k : A -> State S -> result B MapError * State S) :
  shrinks s (snd r) -> (forall x s1, shrinks s1 (snd (k x s1))) -> shrinks s (snd (andThen r k)).
Proof.
  intros Hr Hk Hi. destruct r as [[x|e] s1]; simpl in *; [|auto].
  destruct (Hr Hi) as [Hi1 Hg1]. destruct (Hk x s1 Hi1) as [Hi2 Hg2]. auto.
Qed.

Lemma map_body_shrinks virt phys fl s : shrinks s (snd (map_body virt phys fl s)).
Proof.
  unfold map_body. destruct (split_indices virt) as [[[[l4 l3] l2] l1] off].
  apply andThen_shrinks; [apply shrinks_refl|]. intros t4 s1.
  apply andThen_shrinks; [apply next_table_or_create_shrinks|]. intros t3 s2.
  apply andThen_shrinks; [apply next_table_or_create_shrinks|]. intros t2 s3.
  apply andThen_shrinks; [apply next_table_or_create_shrinks|]. intros t1 s4.
  destruct (is_present _); intros Hi; simpl; auto.
Qed.

(** ** Memory outside the tables *)

(** The frame at [F] is neither free nor a table, and so not the walkers' to write. *)
Record apart (F : Z) (s : State S) : Prop := {
  ap_aligned : F mod PAGE_SIZE = 0;
  ap_used : ~ fs_free (frames s) F;
  ap_table : forall p, vpath p -> (length p <= 3)%nat -> table_at (mem s) (root s) p <> Some F
}.

Definition kept (F : Z) (s s' : State S) : Prop := forall a, F <= a < F + PAGE_SIZE -> mem s' a = mem s a.

(** A step keeps the frame apart and its contents as they are. *)
Definition spares (F : Z) (s s' : State S) : Prop := apart F s -> apart F s' /\ kept F s s'.

Lemma spares_refl F s : spares F s s.
Proof. by split. Qed.

Lemma spares_trans F s1 s2 s3 : spares F s1 s2 -> spares F s2 s3 -> spares F s1 s3.
Proof.
  intros H1 H2 Ha. destruct (H1 Ha) as [Ha1 K1]. destruct (H2 Ha1) as [Ha2 K2]. split; [exact Ha2|].
  intros a Hr. by rewrite K2, K1.
Qed.

Lemma apart_entry F s p t i a :
  apart F s -> vpath p -> (length p <= 3)%nat -> table_at (mem s) (root s) p = Some t -> 0 <= i < 512 ->
  F <= a < F + PAGE_SIZE -> a <> t + 8 * i.
Proof.
  intros [Hal _ Htab] Hp Hl Ht Hi Ha ->. apply (Htab p Hp Hl). rewrite Ht. f_equal.
  pose proof (table_at_aligned _ _ _ _ (root_aligned s) Ht). unfold PAGE_SIZE in *. Z.div_mod_to_equations. lia.
Qed.

Lemma create_spares F s p i t f fl fr' :
  inv s -> vpath p -> 0 <= i < 512 -> (length p <= 2)%nat -> table_at (mem s) (root s) p = Some t ->
  fs_alloc (frames s) = (Some f, fr') ->
  spares F s (set_mem (set_frames s fr') (upd (zero_table (mem s) f) (t + 8 * i) (pte_set f (intermediate fl)))).
Proof.
  intros Hs Hp Hi Hl Ht E Ha. destruct (create_facts s Hs f fr' E) as (Hfree & Hfa & _ & _ & Hff).
  assert (Hne : f <> F) by (intros ->; by apply (ap_used F s Ha)). split; [split|].
  - apply Ha.
  - intros Hg. by apply (ap_used F s Ha), Hff.
  - intros q Hq Hlq Ht'. cbn [mem set_mem] in Ht'. change (root _) with (root s) in Ht'.
    destruct (prefix_cases p i q) as [[r ->]|N].
    + apply vpath_app in Hq as [_ Hq]. inversion_clear Hq.
      rewrite (create_table_new s Hs p i t f fl fr') in Ht' by assumption. destruct r; [congruence|discriminate].
    + rewrite (create_table_other s Hs p i t f fl fr') in Ht' by assumption. by apply (ap_table F s Ha q).
  - intros a Hr. cbn [mem set_mem]. unfold upd, zero_table.
    rewrite (proj2 (Z.eqb_neq _ _)) by (eapply apart_entry; eauto; lia).
    destruct (Z.leb_spec f a), (Z.ltb_spec a (f + PAGE_SIZE)); try reflexivity. exfalso. apply Hne.
    pose proof (ap_aligned F s Ha). unfold PAGE_SIZE in *. Z.div_mod_to_equations. lia.
Qed.

Lemma next_table_or_create_spares F s p t i fl :
  inv s -> vpath p -> (length p <= 2)%nat -> 0 <= i < 512 -> table_at (mem s) (root s) p = Some t ->
  spares F s (snd (next_table_or_create s t i fl)).
Proof.
  intros Hs Hp Hl Hi Ht. unfold next_table_or_create.
  destruct (is_present _); [destruct (contains _ _); apply spares_refl|].
  destruct (fs_alloc (frames s)) as [[f|] fr'] eqn:E.
  - replace (table_ref (set_frames s fr') f) with (@Ok Z MapError f)
      by (symmetry; exact (table_ref_ok s f Hs)).
    by apply (create_spares F s p).
  - destruct (fs_alloc_none _ _ (inv_frames s Hs) E) as [-> _]. destruct s. apply spares_refl.
Qed.

Lemma leaf_spares F s p i t v virt :
  inv s -> vpath p -> 0 <= i < 512 -> length p = 3%nat -> table_at (mem s) (root s) p = Some t ->
  spares F s (flush_tlb (set_mem s (upd (mem s) (t + 8 * i) v)) virt).
Proof.
  intros Hs Hp Hi Hl Ht Ha. split; [split; [apply Ha|apply Ha|]|].
  - intros q Hq Hlq Ht'. cbn [mem flush_tlb set_mem] in Ht'. change (root _) with (root s) in Ht'.
    rewrite (leaf_table s Hs p i t v) in Ht' by assumption. by apply (ap_table F s Ha q).
  - intros a Hr. cbn [mem flush_tlb set_mem]. unfold upd.
    rewrite (proj2 (Z.eqb_neq _ _)); [reflexivity|]. eapply apart_entry; eauto; lia.
Qed.

(** One level of a walk: the invariant, the table reached and the spared frame. *)
Lemma next_level F s p t i (r : list Z) fl :
  inv s -> vpath p -> (length p <= 2)%nat -> 0 <= i < 512 -> r <> [] -> table_at (mem s) (root s) p = Some t ->
  let (res, s') := next_table_or_create s t i fl in
  spares F s s' /\
  match res with
  | Ok t' => inv s' /\ vpath (p ++ [i]) /\ table_at (mem s') (root s') (p ++ [i]) = Some t'
  | Err _ => True
  end.
Proof.
  intros Hs Hp Hl Hi Hr Ht. pose proof (next_table_or_create_spares F s p t i fl Hs Hp Hl Hi Ht) as Hsp.
  pose proof (next_table_or_create_spec s p i t r fl Hs Hp Hl Hi Hr Ht) as Hn.
  destruct (next_table_or_create s t i fl) as [[t'|e] s']; cbn [snd] in Hsp; (split; [exact Hsp|]); [|done].
  destruct Hn as (Hi' & _ & Ht'). split_and!; [exact Hi'| |exact Ht']. apply vpath_app. split; [exact Hp|].
  constructor; [exact Hi|constructor].
Qed.

(** [map] writes only tables and frames it takes. *)
Lemma map_body_spares F virt phys fl s : inv s -> spares F s (snd (map_body virt phys fl s)).
Proof.
  intros Hs. pose proof (path_vpath virt) as Hq. unfold map_body, path in *.
  destruct (split_indices virt) as [[[[l4 l3] l2] l1] off]. set (fl' := bitor fl PRESENT).
  unfold vpath in Hq. rewrite !Forall_cons in Hq. destruct Hq as (H4 & H3 & H2 & H1 & _).
  unfold active_l4. fold (root s). rewrite table_ref_ok by assumption. simpl andThen.
  pose proof (next_level F s [] (root s) l4 [0] fl' Hs ltac:(constructor) ltac:(simpl; lia) H4 ltac:(done) eq_refl) as N.
  destruct (next_table_or_create s (root s) l4 fl') as [[t3|e] s1]; simpl andThen; destruct N as [S1 N]; [|exact S1].
  destruct N as (I1 & P1 & T1).
  pose proof (next_level F s1 _ t3 l3 [0] fl' I1 P1 ltac:(simpl; lia) H3 ltac:(done) T1) as N.
  destruct (next_table_or_create s1 t3 l3 fl') as [[t2|e] s2]; simpl andThen; destruct N as [S2 N];
    [|by eapply spares_trans].
  destruct N as (I2 & P2 & T2).
  pose proof (next_level F s2 _ t2 l2 [0] fl' I2 P2 ltac:(simpl; lia) H2 ltac:(done) T2) as N.
  destruct (next_table_or_create s2 t2 l2 fl') as [[t1|e] s3]; simpl andThen; destruct N as [S3 N];
    [|by eauto using spares_trans].
  destruct N as (I3 & P3 & T3). destruct (is_present _); [by eauto using spares_trans|].
  apply (spares_trans F s s3); [by eauto using spares_trans|].
  exact (leaf_spares F s3 _ l1 t1 _ virt I3 P3 H1 eq_refl T3).
Qed.

(** One [next_table] step read against the walk of the rest of the path. *)
Lemma next_table_spec s p i t r :
  inv s -> r <> [] -> table_at (mem s) (root s) p = Some t ->
  match next_table s t i with
  | Ok t' => table_at (mem s) (root s) (p ++ [i]) = Some t'
  | Err NotMapped => walk (mem s) (root s) (p ++ i :: r) = None
  | Err HugePageConflict => exists x n, walk (mem s) (root s) (p ++ i :: r) = Some (x, Datatypes.S n)
  | Err _ => False
  end.
Proof.
  intros Hs Hr Ht. unfold next_table. rewrite contains_huge.
  rewrite (walk_app _ _ _ (i :: r) t Ht), table_at_app, Ht by discriminate. simpl.
  destruct (is_present (mem s (t + 8 * i))) eqn:Epr; [|reflexivity]. simpl.
  destruct (Z.testbit (mem s (t + 8 * i)) 7) eqn:E7.
  - destruct r; [contradiction|]. simpl. eauto.
  - rewrite table_ref_ok by assumption. reflexivity.
Qed.

(** What [unmap] establishes, branch by branch. *)
Definition unmap_post (s : State S) (virt : Z) (r : result Z MapError) (s' : State S) : Prop :=
  let q := path virt in
  match r with
  | Ok pa => inv s' /\ root s' = root s /\ tlb s' = Invlpg virt :: tlb s /\
      (exists x, walk (mem s) (root s) q = Some (x, 0%nat) /\ pa = frame_addr x) /\
      walk (mem s') (root s') q = None /\
      (forall q', vpath q' -> length q' = 4%nat -> q' <> q ->
         walk (mem s') (root s') q' = walk (mem s) (root s) q')
  | Err NotMapped => s' = s /\ walk (mem s) (root s) q = None
  | Err HugePageConflict => s' = s /\ exists x n, walk (mem s) (root s) q = Some (x, Datatypes.S n)
  | Err _ => False
  end.

Lemma page_offset_mask v : Z.land v 0xFFF = v mod PAGE_SIZE.
Proof. exact (land_low_mask v 12 ltac:(lia)). Qed.

Lemma unmap_spec s virt :
  inv s -> virt mod PAGE_SIZE = 0 ->
  exists r s', unmap virt s = Ret (r, s') /\ unmap_post s virt r s'.
Proof.
  intros Hs Ha. unfold unmap. rewrite page_offset_mask, Ha. simpl negb. cbv iota.
  pose proof (path_vpath virt) as Hv. unfold unmap_post, path in *.
  destruct (split_indices virt) as [[[[l4 l3] l2] l1] off].
  pose proof Hv as Hq. unfold vpath in Hq. rewrite !Forall_cons in Hq.
  destruct Hq as (H4 & H3 & H2 & H1 & _).
  unfold active_l4. fold (root s). rewrite table_ref_ok by assumption. simpl andThen.
  eexists _, _. split; [apply f_equal, surjective_pairing|].
  pose proof (next_table_spec s [] l4 (root s) [l3; l2; l1] Hs ltac:(discriminate) eq_refl) as N4.
  destruct (next_table s (root s) l4) as [t3|e]; cbn [andThen];
    [|destruct e; try contradiction; (split; [reflexivity|exact N4])].
  pose proof (next_table_spec s [l4] l3 t3 [l2; l1] Hs ltac:(discriminate) N4) as N3.
  destruct (next_table s t3 l3) as [t2|e]; cbn [andThen];
    [|destruct e; try contradiction; (split; [reflexivity|exact N3])].
  pose proof (next_table_spec s [l4; l3] l2 t2 [l1] Hs ltac:(discriminate) N3) as N2.
  destruct (next_table s t2 l2) as [t1|e]; cbn [andThen];
    [|destruct e; try contradiction; (split; [reflexivity|exact N2])].
  change (([l4] ++ [l3]) ++ [l2]) with [l4; l3; l2] in N2.
  assert (Hp3 : vpath [l4; l3; l2]) by (repeat constructor; lia).
  pose proof (walk_app _ _ _ [l1] t1 N2 ltac:(discriminate)) as Hw. simpl in Hw.
  destruct (is_present (mem s (t1 + 8 * l1))) eqn:Epr; cbn [negb fst snd].
  - split_and!.
    + apply (leaf_inv s Hs [l4; l3; l2]); try assumption. reflexivity.
    + reflexivity.
    + reflexivity.
    + exists (mem s (t1 + 8 * l1)). split; [exact Hw|reflexivity].
    + exact (leaf_walk_self s Hs [l4; l3; l2] l1 t1 pte_clear Hp3 H1 eq_refl N2).
    + intros q' Hq' Hl' Hne.
      apply (leaf_walk_other s Hs [l4; l3; l2]); try assumption; reflexivity.
  - split; [reflexivity|exact Hw].
Qed.

End Correctness.

(** ** Properties *)

Section Properties.
Context {S : Type} `{HL : FrameSourceLaws S}.
Implicit Types s : State S.

Lemma lor_page_offset a v :
  a mod PAGE_SIZE = 0 -> Z.lor a (Z.land v 0xFFF) = a + v mod PAGE_SIZE.
Proof.
  intros Ha. rewrite page_offset_mask. change PAGE_SIZE with (2 ^ 12) in *.
  rewrite Z.add_nocarry_lxor, Z.lxor_lor; [reflexivity| |];
    (apply Z.bits_inj'; intros i Hi; rewrite Z.land_spec, Z.bits_0;
     destruct (Z_lt_le_dec i 12);
     [rewrite <- (Z.mod_pow2_bits_low a 12), Ha, Z.bits_0 by lia; reflexivity
     |rewrite Z.mod_pow2_bits_high by lia; apply andb_false_r]).
Qed.

Lemma translate_same s s' :
  inv s -> inv s' -> same_view s s' -> forall v, translate s' v = translate s v.
Proof.
  intros Hs Hs' (_ & _ & W) v. rewrite !translate_walk by assumption.
  rewrite W; [reflexivity|apply path_vpath|reflexivity].
Qed.

Lemma finish_leaf v x : finish v (x, 0%nat) = frame_addr x + v mod PAGE_SIZE.
Proof. apply lor_page_offset, frame_addr_aligned. Qed.

Lemma map_spec s virt phys fl :
  inv s -> virt mod PAGE_SIZE = 0 -> phys mod PAGE_SIZE = 0 -> 0 <= phys < 2 ^ 52 -> flags_wf fl ->
  exists r s', map virt phys fl s = Ret (r, s') /\ inv s' /\
  match r with
  | Ok _ => translate s virt = None /\ tlb s' = Invlpg virt :: tlb s /\
      forall v, translate s' v =
        if decide (vpn v = vpn virt) then Some (phys + v mod PAGE_SIZE) else translate s v
  | Err e => (forall v, translate s' v = translate s v) /\
      match e with
      | AlreadyMapped | HugePageConflict => translate s virt <> None
      | OutOfFrames => forall g, ~ fs_free (frames s') g
      | _ => False
      end
  end.
Proof.
  intros Hs Hv Hp Hr Hf. unfold map. rewrite !page_offset_mask, Hv, Hp. simpl negb. cbv iota.
  pose proof (map_body_spec s virt phys fl Hs) as H0.
  destruct (map_body virt phys fl s) as [r s'].
  eexists _, _. split; [reflexivity|]. destruct r as [u|e].
  - destruct H0 as (Hs' & _ & Htlb & Hnone & Hself & Hother). split; [exact Hs'|].
    split_and!; [rewrite translate_walk, Hnone by assumption; reflexivity|exact Htlb|].
    intros v. rewrite !translate_walk by assumption. case_decide as E.
    + apply path_vpn in E. rewrite E, Hself. cbn [fmap option_fmap option_map]. rewrite finish_leaf.
      rewrite pte_set_frame_addr; [reflexivity|assumption..|].
      unfold flags_wf, bitor in *. rewrite Z.land_lor_distr_l, Hf. reflexivity.
    + rewrite Hother; [reflexivity|apply path_vpath|reflexivity|]. rewrite path_vpn. exact E.
  - destruct H0 as (Hs' & Hview & Hc). split; [exact Hs'|].
    split; [apply translate_same; assumption|].
    destruct e; try exact Hc; rewrite translate_walk by assumption.
    + destruct Hc as [x ->]. discriminate.
    + destruct Hc as (x & n & ->). discriminate.
Qed.

(** C2. [map] on a well-formed hierarchy, page-aligned arguments: it never
    panics and keeps the hierarchy a tree.  On [Ok] the page was unmapped before,
    now translates to [phys] plus the page offset, every other page translates
    as before, and the page's TLB entry is invalidated.  On [Err] no translation
    changes (even when intermediate tables were created), and the error names
    its cause. *)
Theorem map_correct s virt phys fl :
  inv s -> virt mod PAGE_SIZE = 0 -> phys mod PAGE_SIZE = 0 -> 0 <= phys < 2 ^ 52 -> flags_wf fl ->
  exists r s', map virt phys fl s = Ret (r, s') /\ inv s' /\
  match r with
  | Ok _ => translate s virt = None /\ tlb s' = Invlpg virt :: tlb s /\
      forall v, translate s' v =
        if decide (vpn v = vpn virt) then Some (phys + v mod PAGE_SIZE) else translate s v
  | Err e => (forall v, translate s' v = translate s v) /\
      match e with
      | AlreadyMapped | HugePageConflict => translate s virt <> None
      | OutOfFrames => forall g, ~ fs_free (frames s') g
      | _ => False
      end
  end.
Proof. apply map_spec. Qed.

Lemma unmap_translates s virt :
  inv s -> virt mod PAGE_SIZE = 0 ->
  exists r s', unmap virt s = Ret (r, s') /\
  match r with
  | Ok pa => inv s' /\ translate s virt = Some pa /\ tlb s' = Invlpg virt :: tlb s /\
      forall v, translate s' v = if decide (vpn v = vpn virt) then None else translate s v
  | Err NotMapped => s' = s /\ translate s virt = None
  | Err HugePageConflict => s' = s /\ translate s virt <> None
  | Err _ => False
  end.
Proof.
  intros Hs Hv. destruct (unmap_spec s virt Hs Hv) as (r & s' & E & H0).
  exists r, s'. split; [exact E|]. unfold unmap_post in H0.
  destruct r as [pa|[]]; try contradiction.
  - destruct H0 as (Hs' & _ & Htlb & (x & Hx & ->) & Hnone & Hother).
    split_and!; [assumption| |exact Htlb|].
    + rewrite translate_walk, Hx by assumption. cbn [fmap option_fmap option_map].
      rewrite finish_leaf, Hv, Z.add_0_r. reflexivity.
    + intros v. rewrite !translate_walk by assumption. case_decide as Ev.
      * apply path_vpn in Ev. rewrite Ev, Hnone. reflexivity.
      * rewrite Hother; [reflexivity|apply path_vpath|reflexivity|]. rewrite path_vpn. exact Ev.
  - destruct H0 as [-> Hn]. split; [reflexivity|]. rewrite translate_walk, Hn by assumption. reflexivity.
  - destruct H0 as (-> & x & n & Hx). split; [reflexivity|].
    rewrite translate_walk, Hx by assumption. discriminate.
Qed.

(** C18. [unmap] of a page-aligned address: on [Ok pa] the page translated to
    [pa], afterwards it has no translation, every other page is unaffected and
    the TLB entry is invalidated; [NotMapped] means there was no translation,
    [HugePageConflict] that a huge page covers it, and neither changes state. *)
Theorem unmap_correct s virt :
  inv s -> virt mod PAGE_SIZE = 0 ->
  exists r s', unmap virt s = Ret (r, s') /\
  match r with
  | Ok pa => inv s' /\ translate s virt = Some pa /\ tlb s' = Invlpg virt :: tlb s /\
      forall v, translate s' v = if decide (vpn v = vpn virt) then None else translate s v
  | Err NotMapped => s' = s /\ translate s virt = None
  | Err HugePageConflict => s' = s /\ translate s virt <> None
  | Err _ => False
  end.
Proof. apply unmap_translates. Qed.

(** ** The translations the processor caches

    A cache holds translations of some addresses.  The processor may fill it from
    the tables and evict from it at any time; INVLPG drops a page, a reload of
    CR3 everything but the pages cached as global. *)
Definition Cache := Z -> option Z.

Definition apply_flush (global : Z -> bool) (f : Flush) (c : Cache) : Cache := fun v =>
  match f with
  | Invlpg virt => if decide (vpn v = vpn virt) then None else c v
  | ReloadCr3 _ => if global (vpn v) then c v else None
  end.

(** What the processor does with the invalidations an operation issued. *)
Definition flushed (global : Z -> bool) (s s' : State S) (c : Cache) : Cache :=
  foldr (apply_flush global) c (take (length (tlb s') - length (tlb s)) (tlb s')).

Definition coherent (s : State S) (c : Cache) : Prop := forall v pa, c v = Some pa -> translate s v = Some pa.

(** The kernel's operations and the processor's own, in any order; a failed
    operation is a step as well. *)
Inductive cpu_step : State S * Cache -> State S * Cache -> Prop :=
| step_fill s c v : cpu_step (s, c) (s, fun x => if decide (x = v) then translate s x else c x)
| step_evict s c gone : cpu_step (s, c) (s, fun x => if gone (vpn x) : bool then None else c x)
| step_map s c g virt phys fl r s' :
    virt mod PAGE_SIZE = 0 -> phys mod PAGE_SIZE = 0 -> 0 <= phys < 2 ^ 52 -> flags_wf fl ->
    map virt phys fl s = Ret (r, s') -> cpu_step (s, c) (s', flushed g s s' c)
| step_unmap s c g virt r s' :
    virt mod PAGE_SIZE = 0 -> unmap virt s = Ret (r, s') -> cpu_step (s, c) (s', flushed g s s' c)
| step_flush_all s c g : cpu_step (s, c) (flush_tlb_all s, flushed g s (flush_tlb_all s) c).

Inductive cpu_run : State S * Cache -> State S * Cache -> Prop :=
| run_refl m : cpu_run m m
| run_step m m1 m2 : cpu_run m m1 -> cpu_step m1 m2 -> cpu_run m m2.

Lemma flushed_sub g s s' c v pa : flushed g s s' c v = Some pa -> c v = Some pa.
Proof.
  unfold flushed. induction (take _ _) as [|f l IH]; cbn [foldr]; [done|].
  unfold apply_flush at 1. destruct f; [case_decide|destruct (g (vpn v))]; done.
Qed.

Lemma flushed_page g s s' c virt v :
  tlb s' = Invlpg virt :: tlb s -> vpn v = vpn virt -> flushed g s s' c v = None.
Proof.
  intros Ht Hv. unfold flushed. rewrite Ht. cbn [length].
  replace (_ - _)%nat with 1%nat by lia. cbn. by rewrite decide_True.
Qed.

(** A change of the translation of one page, with that page invalidated. *)
Lemma coherent_flushed g s s' c virt :
  coherent s c -> tlb s' = Invlpg virt :: tlb s ->
  (forall v, vpn v <> vpn virt -> translate s' v = translate s v) -> coherent s' (flushed g s s' c).
Proof.
  intros Hc Ht Ho v pa E. destruct (decide (vpn v = vpn virt)) as [Hv|Hv].
  - by rewrite (flushed_page g s s' c virt v Ht Hv) in E.
  - rewrite (Ho v Hv). by eapply Hc, flushed_sub.
Qed.

Lemma coherent_same g s s' c :
  coherent s c -> (forall v, translate s' v = translate s v) -> coherent s' (flushed g s s' c).
Proof. intros Hc Ho v pa E. rewrite Ho. by eapply Hc, flushed_sub. Qed.

Local Ltac same_result :=
  match goal with E : ?x = Ret (_, ?s1), H : ?x = Ret (_, ?s') |- _ =>
    rewrite E in H; injection H as <- <- end.

Lemma cpu_step_coherent s c s' c' :
  cpu_step (s, c) (s', c') -> inv s -> coherent s c -> inv s' /\ coherent s' c'.
Proof.
  intros Hstep Hi Hc. inversion Hstep; subst.
  - split; [done|]. intros x pa. case_decide as E; [done|apply Hc].
  - split; [done|]. intros x pa. destruct (gone (vpn x)); [done|apply Hc].
  - destruct (map_spec s virt phys fl Hi) as (r' & s1 & E & Hi' & H0); try done.
    same_result. split; [done|]. destruct r as [u|e].
    + destruct H0 as (_ & Ht & Ho). apply (coherent_flushed _ _ _ _ virt); [done..|].
      intros v Hv. by rewrite Ho, decide_False.
    + apply coherent_same, H0; done.
  - destruct (unmap_translates s virt Hi) as (r' & s1 & E & H0); [done|]. same_result.
    destruct r as [pa|[]]; try done.
    + destruct H0 as (Hi' & _ & Ht & Ho). split; [done|]. apply (coherent_flushed _ _ _ _ virt); [done..|].
      intros v Hv. by rewrite Ho, decide_False.
    + destruct H0 as [-> _]. split; [done|]. by apply coherent_same.
    + destruct H0 as [-> _]. split; [done|]. by apply coherent_same.
  - split; [by destruct Hi; constructor|]. by apply coherent_same.
Qed.

(** C3. No stale translation: while the kernel maps, unmaps and flushes, and the
    processor caches and drops translations as it likes, whatever it has cached
    is what the page tables say now.  The single-page invalidations of [map] and
    [unmap] are enough for that. *)
Theorem tlb_never_stale s c s' c' :
  cpu_run (s, c) (s', c') -> inv s -> coherent s c -> inv s' /\ coherent s' c'.
Proof.
  intros Hrun Hi Hc. remember (s, c) as m eqn:Em. remember (s', c') as m' eqn:Em'.
  revert s' c' Em'. induction Hrun as [m|m m1 m2 Hrun IH Hstep]; intros; subst; [by simplify_eq|].
  destruct m1 as [s1 c1]. destruct (IH eq_refl s1 c1 eq_refl). by eapply cpu_step_coherent.
Qed.

End Properties.

(** ** A concrete hierarchy *)

(** An empty top-level table in frame 1 and three free frames. *)
Definition demo : State Bitmap.Statics :=
  mkState 0xFFFF800000000000 0x1000 (fun _ => 0) Bitmap.demo_statics [].

Lemma demo_table p a : table_at (mem demo) (root demo) p = Some a -> p = [] /\ a = 0x1000.
Proof. destruct p; [intros [= <-]; split; reflexivity|discriminate]. Qed.

Lemma demo_root_used : ~ Bitmap.free (Bitmap.frame_allocator Bitmap.demo_statics) 1.
Proof.
  intros [_ H]. revert H.
  enough (E : Z.testbit (Bitmap.word_at (Bitmap.bitmap (Bitmap.frame_allocator
    Bitmap.demo_statics)) (1 / 64)) (1 mod 64) = true) by (rewrite E; discriminate).
  vm_compute. reflexivity.
Qed.

Lemma demo_inv : inv demo.
Proof.
  constructor.
  - discriminate.
  - apply (Bitmap.history_sound Bitmap.demo_statics []).
    eapply Bitmap.h_init; [|exact Bitmap.demo_init].
    repeat constructor; unfold Bitmap.region_ok, PAGE_SIZE; simpl; word_lia.
  - intros p q a _ _ _ _ Hp Hq. apply demo_table in Hp as [-> _], Hq as [-> _]. reflexivity.
  - intros p a _ _ Hp. apply demo_table in Hp as [_ ->]. intros (i & Hi & Hf).
    apply demo_root_used. replace 1 with i by (unfold PAGE_SIZE in Hi; lia). exact Hf.
  - discriminate.
Qed.

Lemma map_correct_witness :
  exists r s', map 0x400000 0x9000 WRITABLE demo = Ret (r, s') /\ inv s'.
Proof.
  destruct (map_correct demo 0x400000 0x9000 WRITABLE demo_inv) as (r & s' & E & Hi & _);
    [reflexivity|reflexivity|lia|reflexivity|].
  exists r, s'. split; assumption.
Defined.

Lemma unmap_correct_witness :
  exists r s', unmap 0x400000 demo = Ret (r, s').
Proof.
  destruct (unmap_correct demo 0x400000 demo_inv) as (r & s' & E & _); [reflexivity|].
  exists r, s'. exact E.
Defined.

(** Map a page, let the processor cache it, unmap it: nothing stale is left. *)
Lemma tlb_never_stale_witness :
  let s1 := match map 0x400000 0x9000 WRITABLE demo with Ret (_, s) => s | Panic => demo end in
  let c1 : Cache := fun x => if decide (x = 0x400000) then translate s1 x
    else flushed (fun _ => true) demo s1 (fun _ => None) x in
  let s2 := match unmap 0x400000 s1 with Ret (_, s) => s | Panic => s1 end in
  c1 0x400000 = Some 0x9000 /\ coherent s2 (flushed (fun _ => true) s1 s2 c1).
Proof.
  intros s1 c1 s2. split; [vm_compute; reflexivity|].
  assert (E1 : exists r, map 0x400000 0x9000 WRITABLE demo = Ret (r, s1)).
  { subst s1. destruct (map _ _ _ _) as [[r s]|] eqn:E; [by exists r|discriminate E]. }
  destruct E1 as [r1 E1].
  assert (E2 : exists r, unmap 0x400000 s1 = Ret (r, s2)).
  { subst s2. clearbody c1. destruct (unmap _ s1) as [[r s]|] eqn:E; [by exists r|discriminate E]. }
  destruct E2 as [r2 E2].
  apply (tlb_never_stale demo (fun _ => None) s2); [|exact demo_inv|intros ? ?; discriminate].
  eapply run_step; [eapply run_step; [eapply run_step; [apply run_refl|]|]|].
  - apply (step_map demo _ (fun _ => true) 0x400000 0x9000 WRITABLE r1); [reflexivity|reflexivity|lia|reflexivity|exact E1].
  - apply (step_fill s1 _ 0x400000).
  - match goal with |- cpu_step (_, ?c) _ => change c with c1 end.
    apply (step_unmap s1 c1 (fun _ => true) 0x400000 r2); [reflexivity|exact E2].
Defined.

(** A page is reachable from user mode when every entry on its path allows it. *)
Definition user_accessible {S} (s : State S) (virt : Z) : bool :=
  let '(l4i, l3i, l2i, l1i, _) := split_indices virt in
  let e4 := mem s (root s + 8 * l4i) in
  let e3 := mem s (frame_addr e4 + 8 * l3i) in
  let e2 := mem s (frame_addr e3 + 8 * l2i) in
  let e1 := mem s (frame_addr e2 + 8 * l1i) in
  forallb (fun e => contains (flags e) USER) [e4; e3; e2; e1].

(** [map] for its state only. *)
Definition after_map {S} `{FrameSource S} (virt phys fl : Z) (s : State S) : State S :=
  match map virt phys fl s with Ret (Ok _, s') => s' | _ => s end.

(** Existing intermediate entries are never widened: mapping a kernel page
    and then a [USER] page under the same last-level table succeeds and
    translates, but the user page is not accessible from user mode, because
    [next_table_or_create] propagates [USER] only to tables it creates. *)
Theorem user_page_under_kernel_table_unreachable :
  let s1 := after_map 0x400000 0x9000 WRITABLE demo in
  let s2 := after_map 0x401000 0xA000 (bitor WRITABLE USER) s1 in
  translate s1 0x400000 = Some 0x9000 /\
  translate s2 0x401000 = Some 0xA000 /\ user_accessible s2 0x401000 = false /\
  user_accessible (after_map 0x401000 0xA000 (bitor WRITABLE USER) demo) 0x401000 = true.
Proof. vm_compute. repeat split. Qed.

End Paging.
