(* ===== verification/Heap.v ===== *)
(** The kernel heap (src/src/memory/heap.rs): a first-fit free list threaded
    through the heap memory itself.  The operations are modelled on a word
    memory holding the [FreeBlock] headers; [first_fit] is the abstract
    algorithm on the list of free blocks they are shown to implement. *)

From Stdlib Require Import ZArith Lia.
From stdpp Require Import base list sets.
From S2P Require Import Prelude MemLayout.

Open Scope Z_scope.

Module Heap.

(** ** The allocator on memory *)

(** [size_of::<FreeBlock>()] and [align_of::<FreeBlock>()]. *)
Definition HDR : Z := 16.
Definition HDR_ALIGN : Z := 8.
Definition isize_max : Z := 2 ^ 63 - 1.

Definition heap_align_up (addr align : Z) : Z :=
  Z.land (sub64 (add64 addr align) 1) (not64 (align - 1)).

(** [head] is the list head (0 is null); [hmem] the heap words: a free block at
    [a] has its size at [a] and its next pointer at [a + 8]. *)
Record LinkedListAllocator := mkHeap {
  head : Z;
  hmem : Z -> Z
}.

Definition hupd (m : Z -> Z) (a v : Z) : Z -> Z := fun x => if x =? a then v else m x.

Definition new : LinkedListAllocator := mkHeap 0 (fun _ => 0).

Definition add_free (h : LinkedListAllocator) (addr size : Z) : LinkedListAllocator :=
  mkHeap addr (hupd (hupd (hmem h) addr size) (addr + 8) (head h)).

Definition init (h : LinkedListAllocator) (start size : Z) : LinkedListAllocator :=
  add_free (mkHeap 0 (hmem h)) start size.

(** The cursor [prev : *mut *mut FreeBlock] is the head cell ([None]) or the
    [next] cell of a block. *)
Definition read_prev (h : LinkedListAllocator) (prev : option Z) : Z :=
  match prev with None => head h | Some r => hmem h (r + 8) end.

Definition write_prev (h : LinkedListAllocator) (prev : option Z) (v : Z) : LinkedListAllocator :=
  match prev with
  | None => mkHeap v (hmem h)
  | Some r => mkHeap (head h) (hupd (hmem h) (r + 8) v)
  end.

Fixpoint alloc_walk (fuel : nat) (h : LinkedListAllocator) (prev : option Z) (size align : Z)
  : option (Z * LinkedListAllocator) :=
  let region := read_prev h prev in
  if region =? 0 then Some (0, h)
  else
    match fuel with
    | O => None
    | S fuel' =>
        let region_end := add64 region (hmem h region) in
        let alloc_start := heap_align_up region align in
        match checked_add64 alloc_start size with
        | None => alloc_walk fuel' h (Some region) size align
        | Some alloc_end =>
            let excess := sub64 region_end alloc_end in
            let prefix := sub64 alloc_start region in
            if region_end <? alloc_end then alloc_walk fuel' h (Some region) size align
            else if (0 <? excess) && (excess <? HDR)
            then alloc_walk fuel' h (Some region) size align
            else if (0 <? prefix) && (prefix <? HDR)
            then alloc_walk fuel' h (Some region) size align
            else
              let h := write_prev h prev (hmem h (region + 8)) in
              let h := if 0 <? prefix then add_free h region prefix else h in
              let h := if 0 <? excess then add_free h alloc_end excess else h in
              Some (alloc_start, h)
        end
    end.

(** Enough fuel for any list of disjoint blocks of the heap. *)
Definition heap_fuel : nat := Z.to_nat (HEAP_SIZE / HDR).

Definition alloc_inner (h : LinkedListAllocator) (size align : Z) : option (Z * LinkedListAllocator) :=
  alloc_walk heap_fuel h None size align.

Definition dealloc_inner (h : LinkedListAllocator) (ptr size : Z) : LinkedListAllocator :=
  add_free h ptr size.

Record Layout := mkLayout { l_size : Z; l_align : Z }.

(** [align_to(8).expect(..).pad_to_align()], then at least one header. *)
Definition size_align (layout : Layout) : outcome (Z * Z) :=
  let align := Z.max (l_align layout) HDR_ALIGN in
  let padded := (l_size layout + align - 1) / align * align in
  if isize_max <? padded then Panic else Ret (Z.max padded HDR, align).

Definition alloc (h : LinkedListAllocator) (layout : Layout) : outcome (option (Z * LinkedListAllocator)) :=
  match size_align layout with
  | Panic => Panic
  | Ret (size, align) => Ret (alloc_inner h size align)
  end.

Definition dealloc (h : LinkedListAllocator) (ptr : Z) (layout : Layout) : outcome LinkedListAllocator :=
  match size_align layout with
  | Panic => Panic
  | Ret (size, _) => Ret (dealloc_inner h ptr size)
  end.

(** ** The abstract algorithm *)

Definition block : Type := Z * Z.

(** Where an allocation would start in block [b], if the block is acceptable. *)
Definition fit (b : block) (size align : Z) : option Z :=
  let (a, sz) := b in
  let start := heap_align_up a align in
  let excess := a + sz - (start + size) in
  let prefix := start - a in
  if (0 <=? excess) && negb ((0 <? excess) && (excess <? HDR)) &&
     negb ((0 <? prefix) && (prefix <? HDR))
  then Some start else None.

(** The first acceptable block, with the blocks before and after it. *)
Fixpoint first_fit (l : list block) (size align : Z)
  : option (list block * block * list block * Z) :=
  match l with
  | [] => None
  | b :: l' =>
      match fit b size align with
      | Some start => Some ([], b, l', start)
      | None =>
          match first_fit l' size align with
          | Some (pre, b', post, start) => Some (b :: pre, b', post, start)
          | None => None
          end
      end
  end.

(** The pieces of a split block that go back on the list, newest first. *)
Definition pieces (b : block) (start size : Z) : list block :=
  let (a, sz) := b in
  let excess := a + sz - (start + size) in
  let prefix := start - a in
  (if 0 <? excess then [(start + size, excess)] else []) ++
  (if 0 <? prefix then [(a, prefix)] else []).

Definition alloc_list (l : list block) (size align : Z) : Z * list block :=
  match first_fit l size align with
  | Some (pre, b, post, start) => (start, pieces b start size ++ pre ++ post)
  | None => (0, l)
  end.

(** ** Blocks *)

Definition HEAP_END : Z := HEAP_START + HEAP_SIZE.

Record wf_block (b : block) : Prop := {
  wfb_lo : HEAP_START <= b.1;
  wfb_hi : b.1 + b.2 <= HEAP_END;
  wfb_addr : b.1 mod 8 = 0;
  wfb_size : b.2 mod 8 = 0;
  wfb_min : HDR <= b.2
}.

Definition disj (b c : block) : Prop := b.1 + b.2 <= c.1 \/ c.1 + c.2 <= b.1.

Fixpoint pairwise (l : list block) : Prop :=
  match l with
  | [] => True
  | b :: l' => Forall (disj b) l' /\ pairwise l'
  end.

(** A request as [size_align] produces it, with an alignment small enough that
    rounding an address of the heap up stays inside the address space. *)
Record wf_request (size align : Z) : Prop := {
  wfr_size : HDR <= size;
  wfr_size8 : size mod 8 = 0;
  wfr_align : exists k, 3 <= k <= 45 /\ align = 2 ^ k
}.

Lemma disj_sym b c : disj b c -> disj c b.
Proof. unfold disj. tauto. Qed.

Lemma pairwise_app l1 l2 :
  pairwise (l1 ++ l2) <-> pairwise l1 /\ pairwise l2 /\ Forall (fun b => Forall (disj b) l2) l1.
Proof.
  induction l1 as [|b l1 IH]; simpl.
  - split; [intros H; split_and!; [exact I|exact H|constructor]|tauto].
  - rewrite IH, Forall_app, Forall_cons. tauto.
Qed.

#[global] Instance pairwise_perm : Proper ((≡ₚ) ==> iff) pairwise.
Proof.
  intros l l' Hp. induction Hp as [|b l l' Hp IH|b c l|l1 l2 l3 _ IH1 _ IH2]; simpl.
  - tauto.
  - rewrite IH, Hp. tauto.
  - rewrite !Forall_cons. pose proof (disj_sym b c). pose proof (disj_sym c b). tauto.
  - tauto.
Qed.

Ltac heap_consts :=
  change HEAP_START with 18446673704965373952 in *;
  change HEAP_END with 18446673704973762560 in *; unfold HDR in *.

(** Rounding inside the heap does not wrap. *)
Lemma heap_align_up_spec a align :
  HEAP_START <= a <= HEAP_END -> (exists k, 3 <= k <= 45 /\ align = 2 ^ k) ->
  let r := heap_align_up a align in r mod align = 0 /\ a <= r < a + align.
Proof.
  intros Ha (k & Hk & ->). apply (align_up_spec a (2 ^ k)).
  - heap_consts. word_lia.
  - exists k. split; [lia|reflexivity].
  - assert (2 ^ k <= 2 ^ 45) by (apply Z.pow_le_mono_r; lia). heap_consts. word_lia.
Qed.

Lemma pow2_mod8 k x : 3 <= k -> x mod 2 ^ k = 0 -> x mod 8 = 0.
Proof.
  intros Hk Hx. apply Z.mod_divide in Hx; [|apply Z.pow_nonzero; lia].
  apply Z.mod_divide; [lia|]. apply Z.divide_trans with (2 ^ k); [|assumption].
  exists (2 ^ (k - 3)). change 8 with (2 ^ 3). rewrite <- Z.pow_add_r by lia. f_equal. lia.
Qed.

(** ** The free list in memory *)

(** The list of blocks reached from pointer [a] is [l]. *)
Fixpoint chain (m : Z -> Z) (a : Z) (l : list block) : Prop :=
  match l with
  | [] => a = 0
  | b :: l' => a = b.1 /\ m b.1 = b.2 /\ chain m (m (b.1 + 8)) l'
  end.

(** [h] holds the free list [l]. *)
Definition repr (h : LinkedListAllocator) (l : list block) : Prop := chain (hmem h) (head h) l.

(** Address [x] is in block [b]. *)
Definition inside (x : Z) (b : block) : Prop := b.1 <= x < b.1 + b.2.

(** The two memories agree everywhere but in the blocks [l]. *)
Definition same_outside (l : list block) (m m' : Z -> Z) : Prop :=
  forall x, Forall (fun b => ~ inside x b) l -> m' x = m x.

Lemma same_outside_refl l m : same_outside l m m.
Proof. intros x _. reflexivity. Qed.

Lemma same_outside_trans l m1 m2 m3 :
  same_outside l m1 m2 -> same_outside l m2 m3 -> same_outside l m1 m3.
Proof. intros H1 H2 x Hx. rewrite H2, H1 by assumption. reflexivity. Qed.

Lemma same_outside_mono l l' m m' :
  (forall x b, b ∈ l -> inside x b -> Exists (inside x) l') ->
  same_outside l m m' -> same_outside l' m m'.
Proof.
  intros Hs H x Hx. apply H, Forall_forall. intros b Hb Hin.
  specialize (Hs x b Hb Hin). apply Exists_exists in Hs as (c & Hc & Hi).
  rewrite Forall_forall in Hx. exact (Hx c Hc Hi).
Qed.

(** Writing inside block [b] keeps every chain of blocks disjoint from [b]. *)
Lemma chain_frame m m' b l a :
  same_outside [b] m m' -> Forall wf_block l -> Forall (disj b) l -> chain m a l -> chain m' a l.
Proof.
  intros Hm. revert a. induction l as [|c l IH]; intros a Hw Hd; simpl; [auto|].
  inversion Hw as [|? ? Hc Hw']; subst. inversion Hd as [|? ? Hdc Hd']; subst.
  destruct Hc as [? ? ? ? Hmin]. unfold HDR in Hmin. intros (-> & Hs & Hn).
  assert (Hout : forall x, x = c.1 \/ x = c.1 + 8 -> m' x = m x).
  { intros x Hx. apply Hm. constructor; [|constructor]. unfold inside, disj in *. lia. }
  rewrite !Hout by auto. split_and!; auto.
Qed.

Lemma hupd_same m a v : hupd m a v a = v.
Proof. unfold hupd. rewrite Z.eqb_refl. reflexivity. Qed.

Lemma hupd_other m a v x : x <> a -> hupd m a v x = m x.
Proof. unfold hupd. intros H. destruct (Z.eqb_spec x a); [contradiction|reflexivity]. Qed.

(** Pushing a block writes only its header, and conses it on the list. *)
Lemma add_free_repr h b l :
  repr h l -> wf_block b -> Forall wf_block l -> Forall (disj b) l ->
  repr (add_free h b.1 b.2) (b :: l) /\ same_outside [b] (hmem h) (hmem (add_free h b.1 b.2)).
Proof.
  intros Hr Hb Hl Hd. destruct Hb as [? ? ? ? Hmin]. unfold HDR in Hmin.
  assert (Hso : same_outside [b] (hmem h) (hmem (add_free h b.1 b.2))).
  { intros x Hx. inversion Hx as [|? ? Hx' _]; subst. unfold inside in Hx'.
    simpl. rewrite !hupd_other by lia. reflexivity. }
  split; [|exact Hso]. unfold repr. simpl.
  rewrite hupd_other, !hupd_same by lia. split_and!; [reflexivity..|].
  apply (chain_frame (hmem h) _ b); assumption.
Qed.

(** The cursor left by a walk over the blocks [pre]. *)
Definition cursor (pre : list block) : option Z := option_map fst (last pre).

Lemma cursor_snoc pre b : cursor (pre ++ [b]) = Some b.1.
Proof. unfold cursor. rewrite last_snoc. reflexivity. Qed.

(** A chain through [pre] reads, at the cursor, the start of the rest. *)
Lemma chain_cursor h pre rest :
  repr h (pre ++ rest) -> chain (hmem h) (read_prev h (cursor pre)) rest.
Proof.
  unfold repr. induction pre as [|b pre _] using rev_ind; [auto|].
  rewrite cursor_snoc. simpl. rewrite <- app_assoc. simpl. generalize (head h) as a.
  induction pre as [|c pre IH]; simpl; intros a; [tauto|]. intros (_ & _ & H). eapply IH; eauto.
Qed.

(** Replacing the tail of a chain by writing its last [next] cell. *)
Lemma chain_splice m pre b rest rest' v a :
  chain m a (pre ++ b :: rest) -> Forall wf_block (pre ++ [b]) -> pairwise (pre ++ [b]) ->
  chain (hupd m (b.1 + 8) v) v rest' ->
  chain (hupd m (b.1 + 8) v) a (pre ++ b :: rest').
Proof.
  intros Hc Hw Hp Hrest. revert a Hc. induction pre as [|c pre IH]; intros a; simpl in *.
  - intros (-> & Hs & _). rewrite hupd_same, hupd_other by lia. auto.
  - inversion Hw as [|? ? Hwc Hw']; subst. destruct Hp as [Hd Hp].
    rewrite Forall_app in Hd, Hw'. destruct Hd as [_ Hd]. destruct Hw' as [Hw1 Hw2].
    inversion Hd as [|? ? Hcb _]; subst. inversion Hw2 as [|? ? Hwb _]; subst.
    destruct Hwc as [? ? ? ? Hm1], Hwb as [? ? ? ? Hm2]. unfold disj, HDR in *.
    intros (-> & Hs & Hn). rewrite !hupd_other by lia. split_and!; auto.
    apply IH; auto. apply Forall_app; auto.
Qed.

(** Unlinking the block after [pre]. *)
Lemma unlink_repr h pre b post :
  repr h (pre ++ b :: post) -> Forall wf_block (pre ++ b :: post) -> pairwise (pre ++ b :: post) ->
  let h' := write_prev h (cursor pre) (hmem h (b.1 + 8)) in
  repr h' (pre ++ post) /\ same_outside pre (hmem h) (hmem h').
Proof.
  intros Hr Hw Hp h'.
  pose proof (chain_cursor _ _ _ Hr) as (_ & _ & Htail). unfold h'. clear h'.
  induction pre as [|c pre _] using rev_ind.
  - unfold cursor. simpl. split; [exact Htail|apply same_outside_refl].
  - rewrite cursor_snoc. simpl. unfold repr in *. simpl.
    rewrite <- !app_assoc in *. simpl in *.
    rewrite Forall_app, !Forall_cons in Hw. destruct Hw as (Hw1 & Hwc & Hwb & Hwp).
    change (c :: b :: post) with ([c] ++ b :: post) in Hp. rewrite app_assoc in Hp.
    rewrite pairwise_app in Hp. destruct Hp as (Hp1 & [_ Hp2] & Hp3).
    rewrite Forall_app, !Forall_cons in Hp3. destruct Hp3 as (_ & (_ & Hcp) & _).
    assert (Hso : forall v, same_outside [c] (hmem h) (hupd (hmem h) (c.1 + 8) v)).
    { intros v x Hx. inversion Hx as [|? ? Hx' _]; subst. destruct Hwc. unfold inside, HDR in *.
      apply hupd_other. lia. }
    split.
    + apply chain_splice with (rest := b :: post); [exact Hr|rewrite Forall_app; auto|exact Hp1|].
      apply (chain_frame (hmem h) _ c); auto.
    + eapply same_outside_mono; [|apply Hso].
      intros x d Hd Hin. apply list_elem_of_singleton in Hd as ->.
      apply Exists_app. right. constructor. exact Hin.
Qed.

(** ** One block *)

Definition sizes (l : list block) : Z := sumZ (map snd l).

Definition subblock (b c : block) : Prop := b.1 <= c.1 /\ c.1 + c.2 <= b.1 + b.2.

(** An accepted block splits exactly into the allocation and well-formed
    pieces. *)
Record splits (b : block) (start size align : Z) : Prop := {
  sp_align : start mod align = 0;
  sp_wf : Forall wf_block ((start, size) :: pieces b start size);
  sp_sub : Forall (subblock b) ((start, size) :: pieces b start size);
  sp_disj : pairwise ((start, size) :: pieces b start size);
  sp_sum : size + sizes (pieces b start size) = b.2
}.

Lemma mod8_sub x y : x mod 8 = 0 -> y mod 8 = 0 -> (x - y) mod 8 = 0.
Proof. intros. Z.div_mod_to_equations. lia. Qed.

Lemma mod8_add x y : x mod 8 = 0 -> y mod 8 = 0 -> (x + y) mod 8 = 0.
Proof. intros. Z.div_mod_to_equations. lia. Qed.

Lemma fit_splits b size align start :
  wf_block b -> wf_request size align -> fit b size align = Some start -> splits b start size align.
Proof.
  intros [Hlo Hhi Ha8 Hs8 Hmin] [Hsz Hsz8 Hal] Hfit. destruct b as [a sz]. unfold fit in Hfit.
  simpl in *. destruct (heap_align_up_spec a align) as [Hmod Hr]; [heap_consts; lia|exact Hal|].
  set (r := heap_align_up a align) in *. clearbody r.
  assert (Hr8 : r mod 8 = 0).
  { destruct Hal as (k & Hk & ->). apply pow2_mod8 with k; [lia|exact Hmod]. }
  destruct (_ && _) eqn:E; inversion Hfit; subst start; clear Hfit.
  bool_to_prop. unfold pieces, HDR in *.
  pose proof (mod8_sub _ _ Hr8 Ha8) as Hp8.
  pose proof (mod8_sub _ _ (mod8_add _ _ Ha8 Hs8) (mod8_add _ _ Hr8 Hsz8)) as He8.
  pose proof (mod8_add _ _ Hr8 Hsz8) as He8'.
  split; unfold pieces; [exact Hmod|..];
    destruct (Z.ltb_spec 0 (a + sz - (r + size))), (Z.ltb_spec 0 (r - a)); simpl;
    rewrite ?Forall_cons, ?Forall_nil; repeat (apply conj); try exact I;
    unfold subblock, disj, sizes; simpl; try lia;
    split; unfold HDR; simpl; first [lia|assumption].
Qed.

(** What the walk does to the memory when it takes block [b] at [start]. *)
Definition take_block (h : LinkedListAllocator) (prev : option Z) (b : block) (start size : Z)
  : LinkedListAllocator :=
  let h := write_prev h prev (hmem h (b.1 + 8)) in
  let h := if 0 <? start - b.1 then add_free h b.1 (start - b.1) else h in
  if 0 <? b.1 + b.2 - (start + size)
  then add_free h (start + size) (b.1 + b.2 - (start + size)) else h.

(** One iteration of the loop, with the word arithmetic resolved. *)
Lemma alloc_walk_step fuel h prev b size align :
  read_prev h prev = b.1 -> hmem h b.1 = b.2 -> wf_block b -> wf_request size align ->
  alloc_walk (S fuel) h prev size align =
  match fit b size align with
  | Some start => Some (start, take_block h prev b start size)
  | None => alloc_walk fuel h (Some b.1) size align
  end.
Proof.
  intros Hrd Hsz [Hlo Hhi _ _ Hmin] [Hs _ Hal]. destruct b as [a sz]. cbn [fst snd] in *.
  destruct (heap_align_up_spec a align) as [_ Hr]; [heap_consts; lia|exact Hal|].
  destruct Hal as (k & Hk & ->).
  assert (2 ^ k <= 2 ^ 45) by (apply Z.pow_le_mono_r; lia).
  cbn [alloc_walk]. cbv zeta. rewrite Hrd, Hsz. unfold fit, take_block, checked_add64. cbn [fst snd].
  set (r := heap_align_up a (2 ^ k)) in *. clearbody r. heap_consts.
  rewrite (proj2 (Z.eqb_neq a 0)), (add64_small a sz), (sub64_small r a) by word_lia.
  destruct (Z.ltb_spec (r + size) U64) as [Hlt|Hge].
  - destruct (Z.ltb_spec (a + sz) (r + size)) as [Hout|Hin].
    + destruct (Z.leb_spec 0 (a + sz - (r + size))); [lia|reflexivity].
    + rewrite (proj2 (Z.leb_le 0 (a + sz - (r + size)))), (sub64_small (a + sz) (r + size)) by word_lia.
      cbn [andb]. destruct (_ && _); [reflexivity|]. cbn [negb andb].
      destruct (_ && _); reflexivity.
  - destruct (Z.leb_spec 0 (a + sz - (r + size))); [word_lia|reflexivity].
Qed.

Lemma disj_sub b c d : subblock b c -> disj b d -> disj c d.
Proof. unfold subblock, disj. lia. Qed.

Lemma disj_sub_all b l l' :
  Forall (subblock b) l' -> Forall (disj b) l -> Forall (fun c => Forall (disj c) l) l'.
Proof.
  intros Hs Hd. eapply Forall_impl; [exact Hs|]. intros c Hc. eapply Forall_impl; [exact Hd|].
  intros d. apply disj_sub, Hc.
Qed.

Lemma pairwise_middle pre b post :
  pairwise (pre ++ b :: post) <-> Forall (disj b) (pre ++ post) /\ pairwise (pre ++ post).
Proof. rewrite <- Permutation_middle. reflexivity. Qed.

(** Putting the pieces of a split block back on the list. *)
Lemma republish_repr h l b start size align :
  splits b start size align -> repr h l -> Forall wf_block l -> Forall (disj b) l ->
  let h1 := if 0 <? start - b.1 then add_free h b.1 (start - b.1) else h in
  let h2 := if 0 <? b.1 + b.2 - (start + size)
            then add_free h1 (start + size) (b.1 + b.2 - (start + size)) else h1 in
  repr h2 (pieces b start size ++ l) /\ same_outside [b] (hmem h) (hmem h2).
Proof.
  intros [_ Hwf Hsub Hpw _] Hr Hl Hd. destruct b as [a sz]. cbn [fst snd].
  unfold pieces in *.
  assert (Hpush : forall h0 c l0, repr h0 l0 -> wf_block c -> subblock (a, sz) c ->
    Forall wf_block l0 -> Forall (disj c) l0 ->
    repr (add_free h0 c.1 c.2) (c :: l0) /\ same_outside [(a, sz)] (hmem h0) (hmem (add_free h0 c.1 c.2))).
  { intros h0 c l0 Hr0 Hc Hsc Hl0 Hd0. destruct (add_free_repr h0 c l0) as [H1 H2]; auto.
    split; [exact H1|]. eapply same_outside_mono; [|exact H2].
    intros x d ->%list_elem_of_singleton Hin. constructor. unfold inside, subblock in *. simpl in *. lia. }
  pose proof (fun c (Hc : subblock (a, sz) c) => Forall_impl _ (disj c) _ Hd (fun d => disj_sub _ c d Hc))
    as Hdl.
  destruct (Z.ltb_spec 0 (start - a)), (Z.ltb_spec 0 (a + sz - (start + size)));
    cbn [app] in *; rewrite !Forall_cons in Hwf, Hsub; cbn [pairwise] in Hpw;
    rewrite ?Forall_cons in Hpw; destruct_and?.
  - destruct (Hpush h (a, start - a) l) as [Hr1 Ho1]; auto.
    destruct (Hpush (add_free h a (start - a)) (start + size, a + sz - (start + size))
      ((a, start - a) :: l)) as [Hr2 Ho2]; auto; [apply Forall_cons; auto..|].
    split; [exact Hr2|eapply same_outside_trans; [exact Ho1|exact Ho2]].
  - apply (Hpush h (a, start - a) l); auto.
  - apply (Hpush h (start + size, a + sz - (start + size)) l); auto.
  - split; [exact Hr|apply same_outside_refl].
Qed.

Lemma first_fit_split l size align pre b post start :
  first_fit l size align = Some (pre, b, post, start) ->
  l = pre ++ b :: post /\ fit b size align = Some start.
Proof.
  revert pre. induction l as [|c l IH]; simpl; intros pre H; [discriminate|].
  destruct (fit c size align) eqn:E; [injection H as <- <- <- <-; auto|].
  destruct (first_fit l size align) as [[[[pre' b'] post'] s']|]; [|discriminate].
  injection H as <- <- <- <-. destruct (IH pre') as [-> ?]; auto.
Qed.

Lemma first_fit_none l size align :
  first_fit l size align = None <-> Forall (fun b => fit b size align = None) l.
Proof.
  induction l as [|b l IH]; simpl; [split; auto|]. rewrite Forall_cons, <- IH.
  destruct (fit b size align); [split; [discriminate|intros [? _]; discriminate]|].
  destruct (first_fit l size align) as [[[[? ?] ?] ?]|]; split; try tauto; try discriminate.
  intros [_ ?]; discriminate.
Qed.

(** Taking a block turns a memory representing the list into one representing
    the list without the block and with its pieces in front. *)
Lemma take_block_repr h pre b post start size align :
  repr h (pre ++ b :: post) -> Forall wf_block (pre ++ b :: post) -> pairwise (pre ++ b :: post) ->
  splits b start size align ->
  let h' := take_block h (cursor pre) b start size in
  repr h' (pieces b start size ++ pre ++ post) /\
  same_outside (pre ++ b :: post) (hmem h) (hmem h').
Proof.
  intros Hr Hw Hp Hsp h'. destruct (unlink_repr h pre b post Hr Hw Hp) as [Hr1 Ho1].
  rewrite pairwise_middle in Hp. destruct Hp as [Hd _].
  rewrite Forall_app, Forall_cons in Hw. destruct Hw as (Hw1 & _ & Hw2).
  destruct (republish_repr _ (pre ++ post) b start size align Hsp Hr1) as [Hr2 Ho2];
    [apply Forall_app; auto|exact Hd|]. split; [exact Hr2|].
  eapply same_outside_trans; [eapply same_outside_mono; [|exact Ho1]
                             |eapply same_outside_mono; [|exact Ho2]];
    intros x d Hd' Hin; apply Exists_exists; exists d; (split; [|exact Hin]); set_solver.
Qed.

Lemma alloc_walk_refines rest size align : wf_request size align -> forall pre fuel h,
  repr h (pre ++ rest) -> Forall wf_block (pre ++ rest) -> pairwise (pre ++ rest) ->
  (length rest <= fuel)%nat ->
  exists h', alloc_walk fuel h (cursor pre) size align =
    Some (fst (alloc_list rest size align), h') /\
    repr h' (match first_fit rest size align with
             | Some (p, b, q, start) => pieces b start size ++ (pre ++ p) ++ q
             | None => pre ++ rest
             end) /\
    same_outside (pre ++ rest) (hmem h) (hmem h').
Proof.
  intros Hreq. unfold alloc_list. induction rest as [|b rest IH]; intros pre fuel h Hr Hw Hp Hfuel.
  - pose proof (chain_cursor _ _ _ Hr) as Hc. simpl in Hc. exists h. simpl.
    destruct fuel; simpl; rewrite Hc; (split_and!; [reflexivity|exact Hr|apply same_outside_refl]).
  - destruct fuel as [|fuel]; [simpl in Hfuel; lia|].
    pose proof (chain_cursor _ _ _ Hr) as (Hc & Hs & _).
    assert (Hwb : wf_block b) by (rewrite Forall_app, Forall_cons in Hw; apply Hw).
    rewrite (alloc_walk_step _ _ _ b) by assumption. cbn [first_fit].
    destruct (fit b size align) as [start|] eqn:Hfit.
    + pose proof (fit_splits b size align start Hwb Hreq Hfit) as Hsp.
      destruct (take_block_repr h pre b rest start size align Hr Hw Hp Hsp) as [H1 H2].
      eexists. split_and!; [reflexivity| |exact H2]. rewrite app_nil_r. exact H1.
    + rewrite <- (cursor_snoc pre b). replace (pre ++ b :: rest) with ((pre ++ [b]) ++ rest) in *
        by (rewrite <- app_assoc; reflexivity).
      destruct (IH (pre ++ [b]) fuel h Hr Hw Hp) as (h' & H1 & H2 & H3); [simpl in Hfuel; lia|].
      exists h'. rewrite H1.
      destruct (first_fit rest size align) as [[[[p b'] q] s]|]; simpl;
        rewrite <- ?app_assoc in *; auto.
Qed.

(** A list of disjoint blocks of the heap is shorter than the fuel. *)
Lemma sizes_app l1 l2 : sizes (l1 ++ l2) = sizes l1 + sizes l2.
Proof. unfold sizes. rewrite map_app, sumZ_app. reflexivity. Qed.

#[global] Instance sizes_perm : Proper ((≡ₚ) ==> eq) sizes.
Proof. intros l l' H. unfold sizes. apply sumZ_perm. rewrite H. reflexivity. Qed.

Lemma sizes_length l : Forall wf_block l -> HDR * Z.of_nat (length l) <= sizes l.
Proof.
  induction 1 as [|b l [_ _ _ _ Hm] _ IH]; unfold sizes in *; simpl length; simpl map; simpl sumZ;
    unfold HDR in *; lia.
Qed.

Lemma heap_fuel_enough l :
  Forall wf_block l -> sizes l <= HEAP_SIZE -> (length l <= heap_fuel)%nat.
Proof.
  intros Hw Hs. pose proof (sizes_length l Hw) as Hl.
  assert (Hfuel : Z.of_nat heap_fuel = 524288) by (vm_compute; reflexivity).
  change HEAP_SIZE with 8388608 in Hs. unfold HDR in Hl. lia.
Qed.

(** ** The heap over time *)

(** Free and live blocks tile the heap: well formed, disjoint, and adding up to
    its size. *)
Record tiles (l live : list block) : Prop := {
  tl_wf : Forall wf_block (l ++ live);
  tl_disj : pairwise (l ++ live);
  tl_sum : sizes (l ++ live) = HEAP_SIZE
}.

Definition inv (h : LinkedListAllocator) (live : list block) : Prop :=
  exists l, repr h l /\ tiles l live.

(** A [Layout] with an alignment below 2^46. *)
Record wf_layout (layout : Layout) : Prop := {
  wfl_size : 0 <= l_size layout;
  wfl_align : exists k, 0 <= k <= 45 /\ l_align layout = 2 ^ k
}.

(** The kernel's use of the heap: it starts from [init], allocates, frees live
    blocks with the layout they were allocated with, and writes inside live
    blocks. *)
Inductive reach : LinkedListAllocator -> list block -> Prop :=
| reach_init h0 : reach (init h0 HEAP_START HEAP_SIZE) []
| reach_alloc h live layout size align p h' :
    reach h live -> wf_layout layout -> size_align layout = Ret (size, align) ->
    alloc h layout = Ret (Some (p, h')) ->
    reach h' (if p =? 0 then live else (p, size) :: live)
| reach_dealloc h live1 live2 layout size align p h' :
    reach h (live1 ++ (p, size) :: live2) -> size_align layout = Ret (size, align) ->
    dealloc h p layout = Ret h' ->
    reach h' (live1 ++ live2)
| reach_write h live b x v :
    reach h live -> b ∈ live -> inside x b ->
    reach (mkHeap (head h) (hupd (hmem h) x v)) live.

Lemma padded_spec size align :
  0 <= size -> 0 < align ->
  let p := (size + align - 1) / align * align in p mod align = 0 /\ size <= p.
Proof.
  intros Hs Ha p. unfold p. split; [apply Z.mod_mul; lia|].
  pose proof (Z.div_mod (size + align - 1) align ltac:(lia)).
  pose proof (Z.mod_pos_bound (size + align - 1) align ltac:(lia)). lia.
Qed.

(** [size_align] asks for enough, suitably aligned memory. *)
Lemma size_align_spec layout size align :
  wf_layout layout -> size_align layout = Ret (size, align) ->
  wf_request size align /\ l_size layout <= size /\
  (forall x, x mod align = 0 -> x mod l_align layout = 0).
Proof.
  intros [Hs (k & Hk & Hal)] H. unfold size_align in H. rewrite Hal in *.
  assert (Hmax : exists k', 3 <= k' <= 45 /\ k <= k' /\ Z.max (2 ^ k) HDR_ALIGN = 2 ^ k').
  { unfold HDR_ALIGN. change 8 with (2 ^ 3). destruct (Z_le_gt_dec 3 k) as [Hle|Hgt].
    - exists k. split_and!; [lia..|]. apply Z.max_l, Z.pow_le_mono_r; lia.
    - exists 3. split_and!; [lia..|]. apply Z.max_r, Z.pow_le_mono_r; lia. }
  destruct Hmax as (k' & Hk' & Hkk & Hm). rewrite Hm in H.
  assert (Hpos : 0 < 2 ^ k') by (apply Z.pow_pos_nonneg; lia).
  destruct (padded_spec (l_size layout) (2 ^ k') Hs Hpos) as [Hp1 Hp2].
  set (p := (l_size layout + 2 ^ k' - 1) / 2 ^ k' * 2 ^ k') in *. clearbody p.
  destruct (Z.ltb_spec isize_max p) as [|_]; inversion H; subst; clear H.
  assert (Hp8 : p mod 8 = 0) by (apply pow2_mod8 with k'; [lia|exact Hp1]).
  split; [split|split].
  - unfold HDR. lia.
  - unfold HDR. destruct (Z.max_spec p 16) as [[_ ->]|[_ ->]]; [reflexivity|exact Hp8].
  - exists k'. split; [lia|reflexivity].
  - lia.
  - intros x Hx. apply Z.mod_divide in Hx; [|lia]. apply Z.mod_divide; [apply Z.pow_nonzero; lia|].
    apply Z.divide_trans with (2 ^ k'); [|exact Hx].
    exists (2 ^ (k' - k)). rewrite <- Z.pow_add_r by lia. f_equal. lia.
Qed.

Lemma tiles_perm l l' live live' : l ++ live ≡ₚ l' ++ live' -> tiles l live -> tiles l' live'.
Proof.
  intros Hp [H1 H2 H3]. split; [rewrite <- Hp; exact H1|rewrite <- Hp; exact H2|].
  rewrite <- Hp. exact H3.
Qed.

Lemma sizes_nonneg l : Forall wf_block l -> 0 <= sizes l.
Proof. intros H. pose proof (sizes_length l H). unfold HDR in *. lia. Qed.

Lemma tiles_free l live : tiles l live -> Forall wf_block l /\ pairwise l /\ sizes l <= HEAP_SIZE.
Proof.
  intros [H1 H2 H3]. rewrite Forall_app in H1. destruct H1 as [H1 H1'].
  rewrite pairwise_app in H2. rewrite sizes_app in H3. pose proof (sizes_nonneg live H1').
  split_and!; [exact H1|apply H2|lia].
Qed.

(** Splitting a block in the list keeps the tiling, the allocation being live. *)
Lemma tiles_split pre b post live start size align :
  tiles (pre ++ b :: post) live -> splits b start size align ->
  tiles (pieces b start size ++ pre ++ post) ((start, size) :: live).
Proof.
  intros Ht [_ Hw Hsub Hp Hsum].
  apply (tiles_perm _ (b :: pre ++ post) _ live) in Ht.
  2: { rewrite <- Permutation_middle. reflexivity. }
  destruct Ht as [H1 H2 H3]. simpl in H1, H2. rewrite Forall_cons in H1. destruct H2 as [Hd H2].
  apply (tiles_perm (((start, size) :: pieces b start size) ++ pre ++ post) _ live).
  { simpl. rewrite <- Permutation_middle. reflexivity. }
  split; rewrite <- ?(app_assoc (_ :: _)).
  - apply Forall_app. split; [exact Hw|apply H1].
  - apply pairwise_app. split_and!; [exact Hp|exact H2|]. apply disj_sub_all with b; assumption.
  - rewrite sizes_app. rewrite <- H3. unfold sizes in *. simpl in *. lia.
Qed.

(** The allocator refines [alloc_list] on any tiling. *)
Lemma alloc_inner_refines h l live size align :
  repr h l -> tiles l live -> wf_request size align ->
  exists h', alloc_inner h size align = Some (fst (alloc_list l size align), h') /\
    repr h' (snd (alloc_list l size align)) /\ same_outside l (hmem h) (hmem h').
Proof.
  intros Hr Ht Hreq. destruct (tiles_free l live Ht) as (Hw & Hp & Hs).
  destruct (alloc_walk_refines l size align Hreq [] heap_fuel h) as (h' & H1 & H2 & H3);
    [assumption..|apply heap_fuel_enough; assumption|].
  exists h'. split_and!; [exact H1| |exact H3]. unfold alloc_list.
  destruct (first_fit l size align) as [[[[p b] q] s]|]; exact H2.
Qed.

(** What one allocation does to a heap whose free list is [l]. *)
Lemma alloc_inner_outcome h l live size align :
  repr h l -> tiles l live -> wf_request size align ->
  exists p h', alloc_inner h size align = Some (p, h') /\ same_outside l (hmem h) (hmem h') /\
    ((p = 0 /\ repr h' l /\ Forall (fun b => fit b size align = None) l) \/
     (p <> 0 /\ p mod align = 0 /\
      exists l', repr h' l' /\ tiles l' ((p, size) :: live))).
Proof.
  intros Hr Ht Hreq. destruct (alloc_inner_refines h l live size align Hr Ht Hreq) as (h' & Ha & Hr' & Ho).
  exists (fst (alloc_list l size align)), h'. split_and!; [exact Ha|exact Ho|]. unfold alloc_list in *.
  destruct (first_fit l size align) as [[[[pre b] post] start]|] eqn:E; simpl in *.
  - right. destruct (first_fit_split _ _ _ _ _ _ _ E) as [-> Hfit].
    assert (Hwb : wf_block b).
    { destruct (tiles_free _ _ Ht) as (Hw & _). rewrite Forall_app, Forall_cons in Hw. apply Hw. }
    pose proof (fit_splits _ _ _ _ Hwb Hreq Hfit) as Hsp.
    pose proof Hsp as [Hmod Hw _ _ _]. rewrite Forall_cons in Hw. destruct Hw as [[Hlo _ _ _ _] _].
    split_and!; [simpl in Hlo; heap_consts; lia|exact Hmod|].
    eexists. split; [exact Hr'|eapply tiles_split; eassumption].
  - left. split_and!; [reflexivity|exact Hr'|]. apply first_fit_none. exact E.
Qed.

(** Writing in a live block leaves the free list alone. *)
Lemma live_write_repr m m' a l live b :
  tiles l live -> b ∈ live -> same_outside [b] m m' -> chain m a l -> chain m' a l.
Proof.
  intros [Hw Hp _] Hb Hso. rewrite Forall_app in Hw. rewrite pairwise_app in Hp.
  apply (chain_frame m m' b); [exact Hso|apply Hw|].
  destruct Hp as (_ & _ & Hd). apply Forall_forall. intros c Hc.
  rewrite Forall_forall in Hd. specialize (Hd c Hc). rewrite Forall_forall in Hd.
  apply disj_sym, Hd, Hb.
Qed.

Lemma tiles_whole : tiles [(HEAP_START, HEAP_SIZE)] [].
Proof.
  split; simpl.
  - repeat constructor; cbv; congruence.
  - repeat constructor.
  - reflexivity.
Qed.

(** Freeing a live block. *)
Lemma dealloc_inner_inv h l live1 live2 p size :
  repr h l -> tiles l (live1 ++ (p, size) :: live2) ->
  repr (dealloc_inner h p size) ((p, size) :: l) /\ tiles ((p, size) :: l) (live1 ++ live2).
Proof.
  intros Hr Ht. apply (tiles_perm _ ((p, size) :: l) _ (live1 ++ live2)) in Ht.
  2: { rewrite <- !Permutation_middle. reflexivity. }
  split; [|exact Ht]. destruct Ht as [Hw [Hd _] _]. simpl in *.
  rewrite Forall_cons, Forall_app in Hw. rewrite Forall_app in Hd.
  apply (add_free_repr h (p, size) l); tauto.
Qed.

Lemma reach_inv h live : reach h live -> inv h live.
Proof.
  induction 1 as [h0|h live layout size align p h' _ (l & Hr & Ht) Hl Hsa Ha
                 |h live1 live2 layout size align p h' _ (l & Hr & Ht) Hsa Hd
                 |h live b x v _ (l & Hr & Ht) Hb Hx].
  - exists [(HEAP_START, HEAP_SIZE)]. split; [|exact tiles_whole].
    apply (add_free_repr (mkHeap 0 (hmem h0)) (HEAP_START, HEAP_SIZE) []); [reflexivity| |constructor..].
    destruct tiles_whole as [Hw _ _]. inversion Hw. assumption.
  - unfold alloc in Ha. rewrite Hsa in Ha. injection Ha as Ha.
    destruct (size_align_spec _ _ _ Hl Hsa) as [Hreq _].
    destruct (alloc_inner_outcome h l live size align Hr Ht Hreq)
      as (p' & h'' & Ha' & _ & [(-> & Hr' & _)|(Hp & _ & l' & Hr' & Ht')]);
      rewrite Ha in Ha'; injection Ha' as -> ->.
    + exists l. auto.
    + rewrite (proj2 (Z.eqb_neq p' 0) Hp). exists l'. auto.
  - unfold dealloc in Hd. rewrite Hsa in Hd. injection Hd as <-.
    exists ((p, size) :: l). apply dealloc_inner_inv; assumption.
  - exists l. split; [|exact Ht]. unfold repr in *. simpl.
    apply (live_write_repr (hmem h) _ _ _ live b); auto.
    intros y Hy. inversion Hy as [|? ? Hy' _]; subst. apply hupd_other. intros ->. contradiction.
Qed.

Lemma tiles_live_outside l live x b :
  tiles l live -> b ∈ live -> inside x b -> Forall (fun c => ~ inside x c) l.
Proof.
  intros [_ Hp _] Hb Hx. rewrite pairwise_app in Hp. destruct Hp as (_ & _ & Hd).
  eapply Forall_impl; [exact Hd|]. intros c Hc Hin. rewrite Forall_forall in Hc.
  specialize (Hc b Hb). unfold inside, disj in *. lia.
Qed.

(** The only multiple of [m] in a window of length [m] that starts at one. *)
Lemma multiple_unique m a r : 0 < m -> r mod m = 0 -> a mod m = 0 -> a <= r < a + m -> r = a.
Proof.
  intros Hm Hr Ha H. apply Z.mod_divide in Hr as [q2 ->]; [|lia].
  apply Z.mod_divide in Ha as [q1 ->]; [|lia]. assert (q1 = q2) by nia. subst. reflexivity.
Qed.

(** ** Properties *)

(** C4. The memory-level allocator implements the abstract first-fit list: on
    any free list that tiles the heap together with the live blocks, the walk
    terminates within its fuel, returns the start of the first acceptable block,
    and leaves in memory exactly the list with that block replaced by its
    pieces, writing nothing outside free blocks. *)
Theorem alloc_inner_implements_first_fit h l live size align :
  repr h l -> tiles l live -> wf_request size align ->
  exists h', alloc_inner h size align = Some (fst (alloc_list l size align), h') /\
    repr h' (snd (alloc_list l size align)) /\ same_outside l (hmem h) (hmem h').
Proof. apply alloc_inner_refines. Qed.

(** C19. In every state the kernel can reach, an allocation terminates; it
    returns null only when no free block is acceptable, and otherwise a pointer
    aligned as asked to a block inside the heap, at least as large as asked and
    disjoint from every live allocation, whose contents it does not touch. *)
Theorem alloc_sound h live layout size align :
  reach h live -> wf_layout layout -> size_align layout = Ret (size, align) ->
  exists p h' l, alloc h layout = Ret (Some (p, h')) /\ repr h l /\
    (forall b x, b ∈ live -> inside x b -> hmem h' x = hmem h x) /\
    ((p = 0 /\ Forall (fun b => fit b size align = None) l) \/
     (p mod l_align layout = 0 /\ l_size layout <= size /\
      HEAP_START <= p /\ p + size <= HEAP_END /\ Forall (disj (p, size)) live)).
Proof.
  intros Hreach Hl Hsa. destruct (reach_inv _ _ Hreach) as (l & Hr & Ht).
  destruct (size_align_spec _ _ _ Hl Hsa) as (Hreq & Hsz & Hal).
  destruct (alloc_inner_outcome h l live size align Hr Ht Hreq) as (p & h' & Ha & Ho & Hcase).
  exists p, h', l. unfold alloc. rewrite Hsa, Ha. split_and!; [reflexivity|exact Hr| |].
  - intros b x Hb Hx. apply Ho, (tiles_live_outside l live x b); assumption.
  - destruct Hcase as [(-> & _ & Hnone)|(_ & Hmod & l' & _ & [Hw Hp _])]; [left; auto|right].
    rewrite Forall_app, Forall_cons in Hw. destruct Hw as (_ & [Hlo Hhi _ _ _] & _).
    rewrite pairwise_middle, Forall_app in Hp. simpl in *. split_and!; [auto..|apply Hp].
Qed.

(** C16. No allocation and no free loses or duplicates memory: in every reachable
    state the free list in memory and the live blocks are pairwise disjoint
    blocks of the heap whose sizes add up to exactly its size. *)
Theorem heap_conserves_memory h live :
  reach h live ->
  exists l, repr h l /\ Forall wf_block (l ++ live) /\ pairwise (l ++ live) /\
    sizes l + sizes live = HEAP_SIZE.
Proof.
  intros Hreach. destruct (reach_inv _ _ Hreach) as (l & Hr & [Hw Hp Hs]).
  exists l. rewrite <- sizes_app. auto.
Qed.

(** Freeing a live block and allocating the same layout again returns the
    same pointer: the freed block is at the head of the list and fits exactly. *)
Theorem dealloc_then_alloc_reuses h live1 live2 layout size align p h' :
  reach h (live1 ++ (p, size) :: live2) -> wf_layout layout ->
  size_align layout = Ret (size, align) -> p mod align = 0 ->
  dealloc h p layout = Ret h' ->
  exists h'', alloc h' layout = Ret (Some (p, h'')).
Proof.
  intros Hreach Hl Hsa Hmod Hd. destruct (reach_inv _ _ Hreach) as (l & Hr & Ht).
  unfold dealloc in Hd. rewrite Hsa in Hd. injection Hd as <-.
  destruct (dealloc_inner_inv h l live1 live2 p size Hr Ht) as [Hr' Ht'].
  destruct (size_align_spec _ _ _ Hl Hsa) as [Hreq _].
  destruct (alloc_inner_refines _ _ _ size align Hr' Ht' Hreq) as (h'' & Ha & _).
  exists h''. unfold alloc. rewrite Hsa, Ha. do 3 f_equal. unfold alloc_list, first_fit.
  destruct Ht' as [Hw _ _]. inversion Hw as [|? ? [Hlo Hhi _ _ Hmin] _]; subst. simpl in Hlo, Hhi, Hmin.
  destruct Hreq as [Hs _ Halign].
  destruct (heap_align_up_spec p align) as [Hm' Hr'']; [heap_consts; lia|exact Halign|].
  assert (Hpos : 0 < align) by (destruct Halign as (k & ? & ->); apply Z.pow_pos_nonneg; lia).
  assert (Heq : heap_align_up p align = p).
  { apply (multiple_unique align); assumption. }
  unfold fit. rewrite Heq. replace (p + size - (p + size)) with 0 by lia.
  rewrite Z.sub_diag. reflexivity.
Qed.

(** ** Witnesses *)

Definition demo_layout : Layout := mkLayout 100 16.
Definition demo0 : LinkedListAllocator := init new HEAP_START HEAP_SIZE.
Definition demo1 : LinkedListAllocator :=
  mkHeap (HEAP_START + 112)
    (hupd (hupd (hmem demo0) (HEAP_START + 112) (HEAP_SIZE - 112)) (HEAP_START + 112 + 8) 0).

Lemma demo_layout_wf : wf_layout demo_layout.
Proof. split; [simpl; lia|exists 4; split; [lia|reflexivity]]. Qed.

Lemma demo_alloc : alloc demo0 demo_layout = Ret (Some (HEAP_START, demo1)).
Proof. vm_compute. reflexivity. Qed.

Lemma demo_reach : reach demo1 [(HEAP_START, 112)].
Proof.
  apply (reach_alloc demo0 [] demo_layout 112 16 HEAP_START demo1);
    [apply reach_init|exact demo_layout_wf|reflexivity|exact demo_alloc].
Qed.

Lemma alloc_inner_implements_first_fit_witness :
  exists h', alloc_inner demo0 112 16 = Some (HEAP_START, h') /\
    repr h' [(HEAP_START + 112, HEAP_SIZE - 112)].
Proof.
  destruct (alloc_inner_implements_first_fit demo0 [(HEAP_START, HEAP_SIZE)] [] 112 16)
    as (h' & H1 & H2 & _).
  - split_and!; vm_compute; reflexivity.
  - exact tiles_whole.
  - split; [cbv; congruence|reflexivity|exists 4; split; [lia|reflexivity]].
  - exists h'. split; [exact H1|exact H2].
Defined.

Lemma alloc_sound_witness :
  exists p h' l, alloc demo1 demo_layout = Ret (Some (p, h')) /\ repr demo1 l /\
    hmem h' HEAP_START = hmem demo1 HEAP_START.
Proof.
  destruct (alloc_sound demo1 [(HEAP_START, 112)] demo_layout 112 16 demo_reach demo_layout_wf eq_refl)
    as (p & h' & l & H1 & H2 & H3 & _).
  exists p, h', l. split; [exact H1|]. split; [exact H2|].
  apply (H3 (HEAP_START, 112)); [apply list_elem_of_singleton; reflexivity|].
  unfold inside. simpl. lia.
Defined.

Lemma heap_conserves_memory_witness :
  exists l, repr demo1 l /\ sizes l + 112 = HEAP_SIZE.
Proof.
  destruct (heap_conserves_memory demo1 [(HEAP_START, 112)] demo_reach) as (l & H1 & _ & _ & H2).
  exists l. split; [exact H1|exact H2].
Defined.

Lemma dealloc_then_alloc_reuses_witness :
  exists h'', alloc (dealloc_inner demo1 HEAP_START 112) demo_layout = Ret (Some (HEAP_START, h'')).
Proof.
  apply (dealloc_then_alloc_reuses demo1 [] [] demo_layout 112 16 HEAP_START);
    [exact demo_reach|exact demo_layout_wf|reflexivity..].
Defined.

(** An alignment of 2^47 makes [align_up] wrap past the top of the address
    space to 0: instead of failing for lack of room, the walk publishes a free
    block outside the heap and returns null. *)
Example huge_alignment_escapes_heap :
  match alloc demo0 (mkLayout 16 (2 ^ 47)) with
  | Ret (Some (p, h)) => p = 0 /\ head h = 2 ^ 47 /\ head h < HEAP_START
  | _ => False
  end.
Proof. vm_compute. auto. Qed.

End Heap.
