(* ===== verification/MemInit.v ===== *)
(** Memory bring-up (src/src/memory/mod.rs [init], [init_from_info] and
    src/src/memory/heap.rs [init]): the boot handoff is validated, paging is
    given its window, the frame allocator is populated, and every page of the
    kernel heap is mapped before the heap gets its first free block. *)

From Stdlib Require Import ZArith Lia.
From stdpp Require Import base list strings.
From S2P Require Import Prelude MemLayout FrameAlloc Paging Heap.

Open Scope Z_scope.

Module MemInit.

(** ** Operations *)

(** The static state of the memory subsystem. *)
Record Machine (S : Type) := mkMachine {
  pg : Paging.State S;
  kheap : Heap.LinkedListAllocator
}.
Arguments mkMachine {S}.
Arguments pg {S}.
Arguments kheap {S}.

Definition HEAP_FLAGS : Z :=
  Paging.bitor (Paging.bitor Paging.PRESENT Paging.WRITABLE) Paging.NO_EXECUTE.

Section HeapInit.
Context {S : Type} `{HL : FrameSourceLaws S}.

(** The mapping loop of [heap::init]. *)
Fixpoint heap_map (fuel : nat) (mapped : Z) (s : Paging.State S)
  : option (outcome (result unit MemoryInitError * Paging.State S)) :=
  if mapped <? HEAP_SIZE then
    match fuel with
    | O => None
    | Datatypes.S fuel' =>
        let virt := HEAP_START + mapped in
        match fs_alloc (Paging.frames s) with
        | (None, f') => Some (Ret (Err HeapMappingFailed, Paging.set_frames s f'))
        | (Some frame, f') =>
            match Paging.map virt (Bitmap.start_address frame) HEAP_FLAGS (Paging.set_frames s f') with
            | Panic => Some Panic
            | Ret (Err _, s') => Some (Ret (Err HeapMappingFailed, s'))
            | Ret (Ok _, s') => heap_map fuel' (mapped + PAGE_SIZE) s'
            end
        end
    end
  else Some (Ret (Ok tt, s)).

Definition map_fuel : nat := Z.to_nat (HEAP_SIZE / PAGE_SIZE).

Definition heap_init (m : Machine S) : option (outcome (result unit MemoryInitError * Machine S)) :=
  match heap_map map_fuel 0 (pg m) with
  | None => None
  | Some Panic => Some Panic
  | Some (Ret (Err e, s')) => Some (Ret (Err e, mkMachine s' (kheap m)))
  | Some (Ret (Ok _, s')) =>
      Some (Ret (Ok tt, mkMachine s' (Heap.init (kheap m) HEAP_START HEAP_SIZE)))
  end.

End HeapInit.

Record MemoryInfo := mkInfo {
  physical_memory_offset : Z;
  regions : list MemoryRegion
}.

(** The three steps in order, each one stopping the bring-up on error. *)
Definition init_from_info (info : MemoryInfo) (m : Machine Bitmap.Statics)
  : option (outcome (result unit MemoryInitError * Machine Bitmap.Statics)) :=
  match Paging.init (physical_memory_offset info) (pg m) with
  | (Err e, s) => Some (Ret (Err e, mkMachine s (kheap m)))
  | (Ok _, s) =>
      match Bitmap.init (regions info) (Paging.frames s) with
      | None => None
      | Some (Err e, f) => Some (Ret (Err e, mkMachine (Paging.set_frames s f) (kheap m)))
      | Some (Ok _, f) => heap_init (mkMachine (Paging.set_frames s f) (kheap m))
      end
  end.

Definition memory_init_error_str (err : MemoryInitError) : string :=
  match err with
  | NoUsableRegions => "memory::init: no usable RAM regions in the memory map"
  | BitmapTooSmall => "memory::init: physical RAM exceeds MAX_PHYSICAL_BYTES; raise the cap"
  | HeapMappingFailed => "memory::init: failed to map the kernel heap (out of frames?)"
  | AlreadyInitialized => "memory::init: memory subsystem already initialised"
  | PagingNotReady => "memory::init: invalid physical_memory_offset in boot handoff"
  end.

(** [h_regions] is the raw array pointer: [None] is null. *)
Record BootHandoff := mkHandoff {
  h_magic : Z;
  h_physical_memory_offset : Z;
  h_region_count : nat;
  h_regions : option (nat -> MemoryRegion)
}.

Definition from_raw_parts (p : nat -> MemoryRegion) (n : nat) : list MemoryRegion :=
  map p (seq 0 n).

(** The argument is the raw handoff pointer: [None] is null. *)
Definition init (memory_map : option BootHandoff) (m : Machine Bitmap.Statics)
  : option (outcome (result unit string * Machine Bitmap.Statics)) :=
  match memory_map with
  | None => Some (Ret (Err "memory::init: null boot handoff pointer"%string, m))
  | Some handoff =>
      if negb (h_magic handoff =? BOOT_HANDOFF_MAGIC)
      then Some (Ret (Err "memory::init: bad boot handoff magic"%string, m))
      else
        let run regions :=
          match init_from_info (mkInfo (h_physical_memory_offset handoff) regions) m with
          | None => None
          | Some Panic => Some Panic
          | Some (Ret (Err e, m')) => Some (Ret (Err (memory_init_error_str e), m'))
          | Some (Ret (Ok _, m')) => Some (Ret (Ok tt, m'))
          end in
        if (h_region_count handoff =? 0)%nat then run []
        else
          match h_regions handoff with
          | None => Some (Ret (Err "memory::init: null region array with non-zero count"%string, m))
          | Some p => run (from_raw_parts p (h_region_count handoff))
          end
  end.

(** ** Mapping the heap *)

Definition heap_page (j : Z) : Z := HEAP_START + j * PAGE_SIZE.
Definition HEAP_PAGES : Z := HEAP_SIZE / PAGE_SIZE.

(** [v] lies in heap page [j]. *)
Definition in_page (v j : Z) : Prop := Paging.vpn v = Paging.vpn (heap_page j).

#[global] Instance in_page_dec v j : Decision (in_page v j).
Proof. unfold in_page. apply _. Defined.

Lemma heap_page_vpn j : 0 <= j < HEAP_PAGES -> Paging.vpn (heap_page j) = 51539607552 + j.
Proof.
  change HEAP_PAGES with 2048. intros Hj. unfold Paging.vpn, heap_page, PAGE_SIZE, HEAP_START.
  rewrite Z.div_add by lia. change (0xFFFFC00000000000 / 4096) with (65535 * 2 ^ 36 + 51539607552).
  rewrite <- Z.add_assoc, Z.add_comm, Z.mod_add by lia. apply Z.mod_small. lia.
Qed.

Lemma in_page_inj v i j :
  0 <= i < HEAP_PAGES -> 0 <= j < HEAP_PAGES -> in_page v i -> in_page v j -> i = j.
Proof.
  unfold in_page. intros Hi Hj -> H. rewrite !heap_page_vpn in H by assumption. lia.
Qed.

Lemma heap_flags_wf : Paging.flags_wf HEAP_FLAGS.
Proof. reflexivity. Qed.

Section Mapping.
Context {S : Type} `{HL : FrameSourceLaws S}.
Implicit Types s : Paging.State S.

Lemma inv_set_frames s f :
  Paging.inv s -> fs_inv f -> (forall g, fs_free f g -> fs_free (Paging.frames s) g) ->
  Paging.inv (Paging.set_frames s f).
Proof.
  intros [H1 H2 H3 H4 H5] Hf Hg. split; [exact H1|exact Hf|exact H3| |exact H5].
  intros p a Hp Hl Ht Hfree. apply (H4 p a Hp Hl Ht), Hg, Hfree.
Qed.

(** Taking a free frame spares every frame that was not free. *)
Lemma taken_spares s F f f' :
  (forall g, fs_free f' g <-> fs_free (Paging.frames s) g /\ g <> f) -> Paging.spares F s (Paging.set_frames s f').
Proof.
  intros Hg [Hal Hu Ht]. split; [|done]. split; [exact Hal| |exact Ht]. intros Hf. apply Hu, Hg, Hf.
Qed.

(** What mapping the pages [k ..] of the heap achieves. *)
Record mapped_from (k : Z) (s s' : Paging.State S) (fr : Z -> Z) : Prop := {
  mf_translate : forall j v, k <= j < HEAP_PAGES -> in_page v j ->
    Paging.translate s' v = Some (fr j + v mod PAGE_SIZE);
  mf_fresh : forall j, k <= j < HEAP_PAGES ->
    fs_free (Paging.frames s) (fr j) /\ ~ fs_free (Paging.frames s') (fr j) /\
    fr j mod PAGE_SIZE = 0;
  mf_inj : forall i j, k <= i < HEAP_PAGES -> k <= j < HEAP_PAGES -> fr i = fr j -> i = j
}.

(** The state after a run of the loop from page [k]. *)
Record loop_post (k : Z) (s : Paging.State S) (r : result unit MemoryInitError)
    (s' : Paging.State S) : Prop := {
  lp_inv : Paging.inv s';
  lp_spares : forall F, Paging.spares F s s';
  lp_shrinks : forall g, fs_free (Paging.frames s') g -> fs_free (Paging.frames s) g;
  lp_other : forall v, (forall j, k <= j < HEAP_PAGES -> ~ in_page v j) ->
    Paging.translate s' v = Paging.translate s v;
  lp_result : match r with
    | Ok _ => exists fr, mapped_from k s s' fr
    | Err e => e = HeapMappingFailed /\ forall g, ~ fs_free (Paging.frames s') g
    end
}.

(** One iteration: a fresh frame is mapped at page [k], or the frames are gone. *)
Lemma heap_map_iter s k :
  Paging.inv s -> 0 <= k < HEAP_PAGES -> Paging.translate s (heap_page k) = None ->
  match fs_alloc (Paging.frames s) with
  | (None, f') => Paging.set_frames s f' = s /\ forall g, ~ fs_free (Paging.frames s) g
  | (Some f, f') => exists r s',
      Paging.map (heap_page k) (Bitmap.start_address f) HEAP_FLAGS (Paging.set_frames s f') =
        Ret (r, s') /\ Paging.inv s' /\ (forall F, Paging.spares F s s') /\
      fs_free (Paging.frames s) f /\ f mod PAGE_SIZE = 0 /\ ~ fs_free (Paging.frames s') f /\
      (forall g, fs_free (Paging.frames s') g -> fs_free (Paging.frames s) g) /\
      match r with
      | Ok _ => forall v, Paging.translate s' v =
          if decide (in_page v k) then Some (f + v mod PAGE_SIZE) else Paging.translate s v
      | Err _ => (forall v, Paging.translate s' v = Paging.translate s v) /\
          forall g, ~ fs_free (Paging.frames s') g
      end
  end.
Proof.
  intros Hs Hk Hnone. destruct (fs_alloc (Paging.frames s)) as [[f|] f'] eqn:E.
  - destruct (fs_alloc_some _ _ _ (Paging.inv_frames s Hs) E) as (Hff & Hal & Hr & Hf' & Hg).
    assert (Hs1 : Paging.inv (Paging.set_frames s f')).
    { apply inv_set_frames; [assumption..|]. intros g Hfree. apply Hg, Hfree. }
    assert (Hva : heap_page k mod PAGE_SIZE = 0).
    { unfold heap_page. rewrite Z.mod_add by (unfold PAGE_SIZE; lia). reflexivity. }
    destruct (Paging.map_spec _ (heap_page k) f HEAP_FLAGS Hs1 Hva Hal) as (r & s' & Em & Hs' & Hpost);
      [lia|exact heap_flags_wf|].
    pose proof (Paging.map_body_shrinks (heap_page k) f HEAP_FLAGS (Paging.set_frames s f') Hf') as [_ Hsh].
    unfold Paging.map in Em.
    destruct (negb _); [discriminate|]. destruct (negb _) eqn:En in Em; [discriminate|].
    injection Em as Em. rewrite Em in Hsh. simpl in Hsh.
    exists r, s'. unfold Paging.map, Bitmap.start_address.
    rewrite !Paging.page_offset_mask, Hva, Hal. simpl negb. cbv iota. rewrite Em.
    split_and!; [reflexivity|exact Hs'| |exact Hff|reflexivity| | |].
    + intros F. eapply Paging.spares_trans; [by apply (taken_spares s F f f')|].
      pose proof (Paging.map_body_spares F (heap_page k) f HEAP_FLAGS _ Hs1) as Hsp. by rewrite Em in Hsp.
    + intros Hc. apply Hsh, Hg in Hc. destruct Hc as [_ Hc]. exact (Hc eq_refl).
    + intros g Hg'. apply Hsh, Hg in Hg'. apply Hg'.
    + destruct r as [u|e].
      * intros v. apply Hpost.
      * destruct Hpost as [Hsame Hcause]. split; [exact Hsame|].
        destruct e; try contradiction; try exact Hcause; exfalso; apply Hcause; exact Hnone.
  - destruct (fs_alloc_none _ _ (Paging.inv_frames s Hs) E) as [-> Hn].
    split; [destruct s; reflexivity|exact Hn].
Qed.

Lemma heap_map_done fuel s : heap_map fuel (HEAP_PAGES * PAGE_SIZE) s = Some (Ret (Ok tt, s)).
Proof. destruct fuel; reflexivity. Qed.

Lemma heap_map_unfold fuel k s :
  k < HEAP_PAGES ->
  heap_map (Datatypes.S fuel) (k * PAGE_SIZE) s =
  match fs_alloc (Paging.frames s) with
  | (None, f') => Some (Ret (Err HeapMappingFailed, Paging.set_frames s f'))
  | (Some frame, f') =>
      match Paging.map (heap_page k) (Bitmap.start_address frame) HEAP_FLAGS
              (Paging.set_frames s f') with
      | Panic => Some Panic
      | Ret (Err _, s') => Some (Ret (Err HeapMappingFailed, s'))
      | Ret (Ok _, s') => heap_map fuel ((k + 1) * PAGE_SIZE) s'
      end
  end.
Proof.
  intros Hk. cbn [heap_map].
  assert (Hlt : (k * PAGE_SIZE <? HEAP_SIZE) = true).
  { apply Z.ltb_lt. change HEAP_PAGES with 2048 in Hk. change HEAP_SIZE with (2048 * PAGE_SIZE).
    unfold PAGE_SIZE. lia. }
  rewrite Hlt. replace (k * PAGE_SIZE + PAGE_SIZE) with ((k + 1) * PAGE_SIZE) by lia. reflexivity.
Qed.

(** Adding the frame of page [k] to a mapping of the pages after it. *)
Lemma mapped_from_step k s s1 s' fr f :
  0 <= k < HEAP_PAGES ->
  (forall v, Paging.translate s1 v =
     if decide (in_page v k) then Some (f + v mod PAGE_SIZE) else Paging.translate s v) ->
  fs_free (Paging.frames s) f -> f mod PAGE_SIZE = 0 -> ~ fs_free (Paging.frames s1) f ->
  (forall g, fs_free (Paging.frames s1) g -> fs_free (Paging.frames s) g) ->
  (forall g, fs_free (Paging.frames s') g -> fs_free (Paging.frames s1) g) ->
  (forall v, (forall j, k + 1 <= j < HEAP_PAGES -> ~ in_page v j) ->
     Paging.translate s' v = Paging.translate s1 v) ->
  mapped_from (k + 1) s1 s' fr ->
  mapped_from k s s' (fun j => if j =? k then f else fr j).
Proof.
  intros Hk Ht1 Hff Hal Hnf Hsh1 Hsh2 Hother [M1 M2 M3]. split.
  - intros j v Hj Hv. destruct (Z.eqb_spec j k) as [->|Hne]; [|apply M1; [lia|exact Hv]].
    rewrite Hother, Ht1, decide_True by first [exact Hv|
      intros i Hi Hi'; assert (i = k) by (apply (in_page_inj v); [lia..|exact Hi'|exact Hv]); lia].
    reflexivity.
  - intros j Hj. destruct (Z.eqb_spec j k) as [->|Hne]; [split_and!; [assumption|intros Hc; apply Hnf, Hsh2, Hc|assumption]|].
    destruct (M2 j) as (H1 & H2 & H3); [lia|]. auto.
  - intros i j Hi Hj. destruct (Z.eqb_spec i k) as [->|Hi'], (Z.eqb_spec j k) as [->|Hj']; intros E.
    + reflexivity.
    + destruct (M2 j) as (H1 & _); [lia|]. rewrite <- E in H1. contradiction.
    + destruct (M2 i) as (H1 & _); [lia|]. rewrite E in H1. contradiction.
    + apply M3; [lia..|exact E].
Qed.

Lemma heap_map_spec n : forall fuel k s,
  Paging.inv s -> 0 <= k -> k + Z.of_nat n = HEAP_PAGES -> (n <= fuel)%nat ->
  (forall j, k <= j < HEAP_PAGES -> Paging.translate s (heap_page j) = None) ->
  exists r s', heap_map fuel (k * PAGE_SIZE) s = Some (Ret (r, s')) /\ loop_post k s r s'.
Proof.
  induction n as [|n IH]; intros fuel k s Hs Hk Hn Hf Hunmapped.
  - assert (k = HEAP_PAGES) as -> by lia. exists (Ok tt), s. rewrite heap_map_done.
    split; [reflexivity|]. split; [assumption|intros; apply Paging.spares_refl|auto|auto|].
    exists (fun _ => 0). split; lia.
  - destruct fuel as [|fuel]; [lia|]. rewrite heap_map_unfold by lia.
    pose proof (heap_map_iter s k Hs ltac:(lia) (Hunmapped k ltac:(lia))) as Hit.
    destruct (fs_alloc (Paging.frames s)) as [[f|] f'].
    + destruct Hit as (r & s1 & -> & Hs1 & Hsp & Hff & Hal & Hnf & Hsh & Hr). destruct r as [u|e].
      * destruct (IH fuel (k + 1) s1 Hs1) as (r & s' & E & [P1 P0 P2 P3 P4]); [lia..| |].
        { intros j Hj. rewrite Hr, decide_False; [apply Hunmapped; lia|].
          intros Hin. assert (j = k) by (apply (in_page_inj (heap_page j)); [lia..|reflexivity|exact Hin]). lia. }
        exists r, s'. split; [exact E|]. split; [exact P1|eauto using Paging.spares_trans|auto| |].
        { intros v Hv. rewrite P3, Hr, decide_False by (intros; apply Hv; lia). reflexivity. }
        destruct r as [u'|e]; [|exact P4]. destruct P4 as [fr Hfr].
        eexists. eapply mapped_from_step; eauto. lia.
      * destruct Hr as [Hsame Hnone]. eexists _, s1. split; [reflexivity|].
        split; [assumption|exact Hsp|exact Hsh|auto|]. split; [reflexivity|exact Hnone].
    + destruct Hit as [-> Hnone]. eexists _, s. split; [reflexivity|].
      split; [assumption|intros; apply Paging.spares_refl|auto|auto|]. split; [reflexivity|exact Hnone].
Qed.

Lemma heap_init_spec (m : Machine S) :
  Paging.inv (pg m) ->
  (forall j, 0 <= j < HEAP_PAGES -> Paging.translate (pg m) (heap_page j) = None) ->
  exists r m', heap_init m = Some (Ret (r, m')) /\ loop_post 0 (pg m) r (pg m') /\
    kheap m' = match r with
               | Ok _ => Heap.init (kheap m) HEAP_START HEAP_SIZE
               | Err _ => kheap m
               end.
Proof.
  intros Hs Hun.
  destruct (heap_map_spec (Z.to_nat HEAP_PAGES) map_fuel 0 (pg m) Hs) as (r & s' & E & Hp);
    [lia|vm_compute; reflexivity|apply Nat.le_refl|assumption|].
  change (0 * PAGE_SIZE) with 0 in E. unfold heap_init. rewrite E.
  destruct r as [[]|e]; eexists _, _; (split; [reflexivity|split; [exact Hp|reflexivity]]).
Qed.

End Mapping.

(** ** The whole bring-up *)

(** The machine the boot stub hands over: statics as linked, page tables a tree
    that lies outside the usable regions, and the heap range unmapped. *)
Record boot_ok (info : MemoryInfo) (m : Machine Bitmap.Statics) : Prop := {
  bo_statics : Paging.frames (pg m) = Bitmap.boot_statics;
  bo_regions : Forall Bitmap.region_ok (regions info);
  bo_tree : forall p q a, Paging.vpath p -> Paging.vpath q ->
    (length p <= 3)%nat -> (length q <= 3)%nat ->
    Paging.table_at (Paging.mem (pg m)) (Paging.root (pg m)) p = Some a ->
    Paging.table_at (Paging.mem (pg m)) (Paging.root (pg m)) q = Some a -> p = q;
  bo_tables : forall p i, Paging.vpath p -> (length p <= 3)%nat ->
    Paging.table_at (Paging.mem (pg m)) (Paging.root (pg m)) p = Some (i * PAGE_SIZE) ->
    forall r, r ∈ regions info -> ~ Bitmap.covers r i;
  bo_top : forall i, 0 <= i < 512 ->
    Paging.is_present (Paging.mem (pg m) (Paging.root (pg m) + 8 * i)) = true ->
    Z.testbit (Paging.mem (pg m) (Paging.root (pg m) + 8 * i)) 7 = false;
  bo_heap : forall j off, 0 <= j < HEAP_PAGES ->
    Paging.translate (Paging.mkState off (Paging.cr3 (pg m)) (Paging.mem (pg m))
      (Paging.frames (pg m)) (Paging.tlb (pg m))) (heap_page j) = None
}.

(** The paging state once the window and the frame allocator are in place. *)
Definition staged (off : Z) (f : Bitmap.Statics) (s : Paging.State Bitmap.Statics) :=
  Paging.mkState off (Paging.cr3 s) (Paging.mem s) f (Paging.tlb s).

Lemma staged_inv info m f :
  boot_ok info m -> physical_memory_offset info <> u64_max ->
  Bitmap.wf (Bitmap.frame_allocator f) ->
  (forall k, Bitmap.free (Bitmap.frame_allocator f) k <->
     k < Bitmap.MAX_FRAMES /\ exists x, x ∈ regions info /\ Bitmap.covers x k) ->
  Paging.inv (staged (physical_memory_offset info) f (pg m)).
Proof.
  intros [_ _ Htree Htab Htop _] Hoff Hwf Hfree. split; [exact Hoff|exact Hwf|exact Htree| |exact Htop].
  intros p a Hp Hl Ht (i & -> & Hi). apply Hfree in Hi as (_ & r & Hr & Hc).
  exact (Htab p i Hp Hl Ht r Hr Hc).
Qed.

(** C20. Memory bring-up on a machine as the boot stub hands it over terminates
    without a panic.  On success every address of the heap translates into its
    own fresh frame taken from a usable region, no other translation changed,
    and the heap holds exactly one free block covering the whole range.  Each
    error is returned for its own cause, and the heap stays unarmed. *)
Theorem init_from_info_correct info m :
  boot_ok info m ->
  exists r m', init_from_info info m = Some (Ret (r, m')) /\
  match r with
  | Ok _ =>
      Heap.repr (kheap m') [(HEAP_START, HEAP_SIZE)] /\
      (exists fr, forall j v, 0 <= j < HEAP_PAGES -> in_page v j ->
         Paging.translate (pg m') v = Some (fr j + v mod PAGE_SIZE) /\
         (exists x, x ∈ regions info /\ Bitmap.covers x (fr j / PAGE_SIZE)) /\
         ~ fs_free (Paging.frames (pg m')) (fr j) /\
         forall i, 0 <= i < HEAP_PAGES -> fr i = fr j -> i = j) /\
      (forall v, (forall j, 0 <= j < HEAP_PAGES -> ~ in_page v j) ->
         Paging.translate (pg m') v =
         Paging.translate (staged (physical_memory_offset info) (Paging.frames (pg m)) (pg m)) v)
  | Err e => kheap m' = kheap m /\
      match e with
      | PagingNotReady => physical_memory_offset info = u64_max
      | NoUsableRegions => forall x, x ∈ regions info -> ~ Bitmap.region_nonempty x
      | BitmapTooSmall => exists x, x ∈ regions info /\ Bitmap.region_nonempty x /\
          Bitmap.MAX_PHYSICAL_BYTES < align_down (region_end x) PAGE_SIZE
      | HeapMappingFailed => forall g, ~ fs_free (Paging.frames (pg m')) g
      | AlreadyInitialized => False
      end
  end.
Proof.
  intros Hb. pose proof Hb as [Hst Hok _ _ _ Hun]. unfold init_from_info, Paging.init.
  destruct (Z.eqb_spec (physical_memory_offset info) u64_max) as [Hoff|Hoff].
  { eexists _, _. split; [reflexivity|]. split; [reflexivity|exact Hoff]. }
  simpl Paging.frames. rewrite Hst.
  destruct (Bitmap.init_spec (regions info) Hok) as (r & f & E & _ & Hwf & _ & Hr). rewrite E.
  destruct r as [u|e].
  2:{ eexists _, _. split; [reflexivity|]. split; [reflexivity|]. destruct e; try contradiction; exact Hr. }
  pose proof (staged_inv info m f Hb Hoff Hwf Hr) as Hinv.
  destruct (heap_init_spec (mkMachine (staged (physical_memory_offset info) f (pg m)) (kheap m)))
    as (r & m' & E' & [_ _ _ Hother Hres] & Hheap); [exact Hinv|exact (fun j => Hun j _)|].
  exists r, m'. split; [exact E'|]. destruct r as [u'|e].
  - split; [|split; [|exact Hother]].
    + rewrite Hheap. split_and!; vm_compute; reflexivity.
    + destruct Hres as (fr & [M1 M2 M3]). exists fr. intros j v Hj Hv.
      destruct (M2 j Hj) as ((i & Hi & Hf) & Hnf & _).
      split_and!; [apply M1; assumption| |exact Hnf|intros i' Hi' Heq; apply M3; assumption].
      rewrite Hi, Z.div_mul by (unfold PAGE_SIZE; lia). apply Hr in Hf as [_ Hf]. exact Hf.
  - destruct Hres as [-> Hnone]. split; [exact Hheap|exact Hnone].
Qed.

(** ** What bring-up leaves alone *)

(** The memory information a handoff pointer carries, [None] if it is refused. *)
Definition handoff_info (memory_map : option BootHandoff) : option MemoryInfo :=
  match memory_map with
  | None => None
  | Some h =>
      if negb (h_magic h =? BOOT_HANDOFF_MAGIC) then None
      else if (h_region_count h =? 0)%nat then Some (mkInfo (h_physical_memory_offset h) [])
      else (fun p => mkInfo (h_physical_memory_offset h) (from_raw_parts p (h_region_count h))) <$> h_regions h
  end.

Lemma init_handoff memory_map m :
  match handoff_info memory_map with
  | None => exists e, init memory_map m = Some (Ret (Err e, m))
  | Some info => forall r m', init_from_info info m = Some (Ret (r, m')) ->
      init memory_map m =
        Some (Ret (match r with Ok _ => Ok tt | Err e => Err (memory_init_error_str e) end, m'))
  end.
Proof.
  unfold init, handoff_info. destruct memory_map as [h|]; [|by eexists].
  destruct (negb _); [by eexists|]. destruct (_ =? 0)%nat; [by intros [|] m' ->|].
  destruct (h_regions h); cbn [fmap option_fmap option_map]; [by intros [|] m' ->|by eexists].
Qed.

(** The frame at [F] is set aside: in no usable region, and not a page table. *)
Record set_aside (info : MemoryInfo) (m : Machine Bitmap.Statics) (F : Z) : Prop := {
  sa_aligned : F mod PAGE_SIZE = 0;
  sa_regions : forall x, x ∈ regions info -> ~ Bitmap.covers x (F / PAGE_SIZE);
  sa_table : forall p, Paging.vpath p -> (length p <= 3)%nat ->
    Paging.table_at (Paging.mem (pg m)) (Paging.root (pg m)) p <> Some F
}.

(** What bring-up keeps: the words of the frame and the translations off the heap. *)
Record undisturbed (F : Z) (ok : bool) (m m' : Machine Bitmap.Statics) : Prop := {
  un_kept : Paging.kept F (pg m) (pg m');
  un_translate : ok = true -> forall v, (forall j, 0 <= j < HEAP_PAGES -> ~ in_page v j) ->
    Paging.cpu_translate (pg m') v = Paging.cpu_translate (pg m) v
}.

Lemma undisturbed_refl F ok m : undisturbed F ok m m.
Proof. by split. Qed.

Lemma init_from_info_undisturbed info m F :
  boot_ok info m -> set_aside info m F ->
  exists r m', init_from_info info m = Some (Ret (r, m')) /\ undisturbed F (is_ok r) m m'.
Proof.
  intros Hb [Hal Hreg Htab]. pose proof Hb as [Hst Hok _ _ _ Hun]. unfold init_from_info, Paging.init.
  destruct (Z.eqb_spec (physical_memory_offset info) u64_max) as [Hoff|Hoff].
  { eexists _, _. split; [reflexivity|by split]. }
  simpl Paging.frames. rewrite Hst.
  destruct (Bitmap.init_spec (regions info) Hok) as (r & f & E & _ & Hwf & _ & Hr). rewrite E.
  destruct r as [u|e]; [|eexists _, _; split; [reflexivity|by split]].
  set (s := staged (physical_memory_offset info) f (pg m)).
  pose proof (staged_inv info m f Hb Hoff Hwf Hr) as Hinv. fold s in Hinv.
  destruct (heap_init_spec (mkMachine s (kheap m)))
    as (r & m' & E' & [Hinv' Hsp _ Hother _] & _); [exact Hinv|exact (fun j => Hun j _)|].
  exists r, m'. split; [exact E'|].
  assert (Ha : Paging.apart F s).
  { split; [exact Hal| |exact Htab]. intros (i & -> & Hi). apply Hr in Hi as (_ & x & Hx & Hc).
    apply (Hreg x Hx). rewrite Z.div_mul by (unfold PAGE_SIZE; lia). exact Hc. }
  split; [exact (proj2 (Hsp F Ha))|]. intros _ v Hv. specialize (Hother v Hv).
  by rewrite !Paging.translate_walk in Hother.
Qed.

Lemma init_undisturbed memory_map m F :
  (forall info, handoff_info memory_map = Some info -> boot_ok info m /\ set_aside info m F) ->
  exists r m', init memory_map m = Some (Ret (r, m')) /\ undisturbed F (is_ok r) m m'.
Proof.
  intros H. pose proof (init_handoff memory_map m) as Hi. destruct (handoff_info memory_map) as [info|].
  - destruct (H info eq_refl) as [Hb Hs]. destruct (init_from_info_undisturbed info m F Hb Hs) as (r & m' & E & U).
    rewrite (Hi r m' E). eexists _, _. split; [reflexivity|]. by destruct r.
  - destruct Hi as [e ->]. eexists _, _. split; [reflexivity|apply undisturbed_refl].
Qed.

(** ** A concrete boot *)

Definition boot_map : list MemoryRegion :=
  [mkRegion 0 0x9fc00 Reserved; mkRegion 0x100000 0x1000000 Usable].
Definition boot_info : MemoryInfo := mkInfo 0xFFFF800000000000 boot_map.
Definition boot_machine : Machine Bitmap.Statics :=
  mkMachine (Paging.mkState u64_max 0x1000 (fun _ => 0) Bitmap.boot_statics []) Heap.new.

Lemma boot_table p a :
  Paging.table_at (Paging.mem (pg boot_machine)) (Paging.root (pg boot_machine)) p = Some a ->
  p = [] /\ a = 0x1000.
Proof. destruct p; [intros [= <-]; split; reflexivity|discriminate]. Qed.

Lemma boot_machine_ok : boot_ok boot_info boot_machine.
Proof.
  split.
  - reflexivity.
  - repeat constructor; unfold Bitmap.region_ok, PAGE_SIZE; simpl; word_lia.
  - intros p q a _ _ _ _ Hp Hq. apply boot_table in Hp as [-> _], Hq as [-> _]. reflexivity.
  - intros p i _ _ Hp r Hr. apply boot_table in Hp as [_ Hi].
    assert (i = 1) as -> by (unfold PAGE_SIZE in Hi; lia).
    apply elem_of_cons in Hr as [->|Hr%list_elem_of_singleton]; [intros (? & _); discriminate|].
    subst r. intros (_ & H & _). vm_compute in H. congruence.
  - discriminate.
  - intros j off _. unfold Paging.translate. destruct (Paging.split_indices (heap_page j)) as [[[[? ?] ?] ?] ?].
    simpl. destruct (off =? u64_max); reflexivity.
Qed.

Lemma init_from_info_correct_witness :
  exists r m', init_from_info boot_info boot_machine = Some (Ret (r, m')).
Proof.
  destruct (init_from_info_correct boot_info boot_machine boot_machine_ok) as (r & m' & E & _).
  exists r, m'. exact E.
Defined.

(** A handoff whose magic is wrong, or whose region array is missing, is refused
    before any state changes. *)
Example bad_handoff_refused :
  init (Some (mkHandoff 0 0 0 None)) boot_machine =
    Some (Ret (Err "memory::init: bad boot handoff magic"%string, boot_machine)) /\
  init (Some (mkHandoff BOOT_HANDOFF_MAGIC 0 3 None)) boot_machine =
    Some (Ret (Err "memory::init: null region array with non-zero count"%string, boot_machine)).
Proof. split; reflexivity. Qed.

(** A source that hands out consecutive frames below 2^35, for running the loop. *)
Definition counter_source : FrameSource Z := {|
  fs_alloc n := if n <? 2 ^ 23 then (Some (n * PAGE_SIZE), n + 1) else (None, n);
  fs_free n f := exists i, f = i * PAGE_SIZE /\ n <= i < 2 ^ 23;
  fs_inv n := 0 <= n
|}.

(** The last two iterations of the loop succeed and back the last heap byte. *)
Example last_heap_pages :
  match @heap_map Z counter_source 2 (2046 * PAGE_SIZE)
          (Paging.mkState 0xFFFF800000000000 0x1000 (fun _ => 0) 16 []) with
  | Some (Ret (Ok _, s)) => Paging.translate s (HEAP_START + HEAP_SIZE - 1) = Some 0x14FFF
  | _ => False
  end.
Proof. vm_compute. reflexivity. Qed.

End MemInit.
