(* ===== verification/Process.v ===== *)
(** Processes and the context switch (src/src/scheduler/process.rs and
    src/src/scheduler/context.rs): PID allocation, the process control block, the
    launch frame written on a new kernel stack, and the assembly routine that
    moves the CPU from one kernel stack to another. *)

From Stdlib Require Import ZArith Lia.
From stdpp Require Import base list strings.
From S2P Require Import Prelude.

Open Scope Z_scope.

Module Proc.

(** ** Process control blocks *)

Definition PID_BOOTSTRAP : Z := 0.
Definition PID_IDLE : Z := 1.
(** The initial value of the static [NEXT_PID]. *)
Definition NEXT_PID : Z := 2.

(** [alloc_pid] on the counter: the PID and the counter after [fetch_add]. *)
Definition alloc_pid (next : Z) : outcome Z * Z :=
  (if next =? u64_max then Panic else Ret next, add64 next 1).

Inductive ProcessState := Ready | Running | Blocked | Zombie.

#[global] Instance ProcessState_eq_dec : EqDecision ProcessState.
Proof. solve_decision. Defined.

(** The kernel stack is the allocation [stack_base .. stack_base + stack_size). *)
Record Process := mkProcess {
  kernel_rsp : Z;
  pid : Z;
  owner : Z;
  name : string;
  state : ProcessState;
  stack_base : Z;
  stack_size : Z;
  time_slice_remaining : Z;
  default_time_slice : Z
}.

(** ** The machine

    The callee-saved registers, the stack pointer, the instruction pointer, the
    interrupt flag, and memory as 64-bit words by byte address. *)
Record Cpu := mkCpu {
  rsp : Z; rbp : Z; rbx : Z; r12 : Z; r13 : Z; r14 : Z; r15 : Z;
  rip : Z; intf : bool
}.

Definition memory : Type := Z -> Z.
Definition store (m : memory) (a v : Z) : memory := fun x => if x =? a then v else m x.

(** ** The launch frame *)

(** [sp = sp.sub(1); sp.write(v)]. *)
Definition push_word (sm : Z * memory) (v : Z) : Z * memory :=
  let sp := sub64 (fst sm) 8 in (sp, store (snd sm) sp v).

Definition init_kernel_stack (trampoline : Z) (m : memory) (base size entry : Z) : Z * memory :=
  let top := add64 base size in
  let top_aligned := Z.land top (not64 0xF) in
  let sm := push_word (top_aligned, m) 0 in
  let sm := push_word sm trampoline in
  let saved := [0; 0; entry; 0; 0; 0] in
  fold_left push_word saved sm.

Definition new_with_pid (trampoline : Z) (m : memory) (pid : Z) (name : string) (owner entry : Z)
    (base size time_slice : Z) : Process * memory :=
  let (rsp, m') := init_kernel_stack trampoline m base size entry in
  (mkProcess rsp pid owner name Ready base size time_slice time_slice, m').

(** [Process::new]: the PID comes from [alloc_pid], whose panic ends the kernel. *)
Definition new (trampoline : Z) (m : memory) (next : Z) (name : string) (owner entry : Z)
    (base size time_slice : Z) : outcome (Process * memory) * Z :=
  match alloc_pid next with
  | (Panic, next') => (Panic, next')
  | (Ret p, next') => (Ret (new_with_pid trampoline m p name owner entry base size time_slice), next')
  end.

Definition bootstrap (owner : Z) : Process :=
  mkProcess 0 PID_BOOTSTRAP owner "<bootstrap>" Running 0 0 0 0.

(** ** The context switch *)

Definition set_rsp (c : Cpu) (v : Z) : Cpu :=
  mkCpu v (rbp c) (rbx c) (r12 c) (r13 c) (r14 c) (r15 c) (rip c) (intf c).

Definition pushq (cm : Cpu * memory) (v : Z) : Cpu * memory :=
  let (c, m) := cm in
  let sp := sub64 (rsp c) 8 in (set_rsp c sp, store m sp v).

Definition popq (c : Cpu) (m : memory) : Z * Cpu := (m (rsp c), set_rsp c (add64 (rsp c) 8)).

(** [call context_switch] has left the return address on top of the stack.  The
    result is the value stored through [prev_rsp_save], and the machine after
    [ret]. *)
Definition context_switch (c : Cpu) (m : memory) (next_rsp : Z) : Z * (Cpu * memory) :=
  let cm := pushq (c, m) (rbp c) in
  let cm := pushq cm (rbx c) in
  let cm := pushq cm (r12 c) in
  let cm := pushq cm (r13 c) in
  let cm := pushq cm (r14 c) in
  let (c, m) := pushq cm (r15 c) in
  let saved := rsp c in
  let c := set_rsp c next_rsp in
  let (v15, c) := popq c m in
  let (v14, c) := popq c m in
  let (v13, c) := popq c m in
  let (v12, c) := popq c m in
  let (vbx, c) := popq c m in
  let (vbp, c) := popq c m in
  let (ra, c) := popq c m in
  (saved, (mkCpu (rsp c) vbp vbx v12 v13 v14 v15 ra (intf c), m)).

(** [sti; jmpq *%r12]. *)
Definition process_entry_trampoline (c : Cpu) : Cpu :=
  mkCpu (rsp c) (rbp c) (rbx c) (r12 c) (r13 c) (r14 c) (r15 c) (r12 c) true.

(** ** Frames *)

(** The seven words a suspended task leaves on its stack, lowest first. *)
Definition frame (m : memory) (sp : Z) : list Z :=
  [m sp; m (sp + 8); m (sp + 16); m (sp + 24); m (sp + 32); m (sp + 40); m (sp + 48)].

(** What a suspended task will find in the CPU when it is resumed. *)
Record Resume := mkResume {
  rs_rsp : Z; rs_rbp : Z; rs_rbx : Z; rs_r12 : Z; rs_r13 : Z; rs_r14 : Z; rs_r15 : Z; rs_rip : Z
}.

Definition resume_of (m : memory) (sp : Z) : Resume :=
  mkResume (sp + 56) (m (sp + 40)) (m (sp + 32)) (m (sp + 24)) (m (sp + 16)) (m (sp + 8)) (m sp)
    (m (sp + 48)).

Definition cpu_view (c : Cpu) : Resume :=
  mkResume (rsp c) (rbp c) (rbx c) (r12 c) (r13 c) (r14 c) (r15 c) (rip c).

(** The state the caller of [context_switch] expects to continue in. *)
Definition continuation (c : Cpu) (m : memory) : Resume :=
  mkResume (rsp c + 8) (rbp c) (rbx c) (r12 c) (r13 c) (r14 c) (r15 c) (m (rsp c)).

Lemma store_same m a v : store m a v a = v.
Proof. unfold store. rewrite Z.eqb_refl. reflexivity. Qed.

Lemma store_other m a v x : x <> a -> store m a v x = m x.
Proof. unfold store. intros H. destruct (Z.eqb_spec x a); [contradiction|reflexivity]. Qed.

(** Reading back through a tower of stores at distinct concrete offsets. *)
Ltac read_stores :=
  unfold store;
  repeat match goal with
  | |- context [?a =? ?b] =>
      first [rewrite (proj2 (Z.eqb_eq a b)) by lia | rewrite (proj2 (Z.eqb_neq a b)) by lia]
  end; cbv iota.

Lemma pushq_eq sp a b d e f g ip fl m v :
  8 <= sp < U64 ->
  pushq (mkCpu sp a b d e f g ip fl, m) v =
    (mkCpu (sp - 8) a b d e f g ip fl, store m (sp - 8) v).
Proof. intros H. unfold pushq, set_rsp. simpl. rewrite sub64_small by word_lia. reflexivity. Qed.

Lemma popq_eq sp a b d e f g ip fl m :
  0 <= sp -> sp + 8 < U64 ->
  popq (mkCpu sp a b d e f g ip fl) m = (m sp, mkCpu (sp + 8) a b d e f g ip fl).
Proof. intros H H'. unfold popq, set_rsp. simpl. rewrite add64_small by word_lia. reflexivity. Qed.

(** Memory after the six pushes below [sp + 48]. *)
Definition spilled (c : Cpu) (m : memory) (sp : Z) : memory :=
  store (store (store (store (store (store m (sp + 40) (rbp c)) (sp + 32) (rbx c))
    (sp + 24) (r12 c)) (sp + 16) (r13 c)) (sp + 8) (r14 c)) sp (r15 c).

(** [context_switch] in one step: spill, store the stack pointer, resume. *)
Lemma context_switch_eq c m n :
  48 <= rsp c < U64 -> 0 <= n -> n + 56 < U64 ->
  context_switch c m n =
    (rsp c - 48,
     (let m' := spilled c m (rsp c - 48) in
      mkCpu (n + 56) (m' (n + 40)) (m' (n + 32)) (m' (n + 24)) (m' (n + 16)) (m' (n + 8)) (m' n)
        (m' (n + 48)) (intf c), spilled c m (rsp c - 48))).
Proof.
  intros Hr Hn Hn'. destruct c as [sp vbp vbx v12 v13 v14 v15 ip fl]. cbn [rsp] in Hr.
  unfold context_switch. cbn [rbp rbx r12 r13 r14 r15].
  rewrite !pushq_eq by word_lia. cbv beta iota zeta. cbn [rsp].
  unfold set_rsp at 1. cbn [rbp rbx r12 r13 r14 r15 rip intf].
  rewrite popq_eq by word_lia. do 6 (rewrite popq_eq by word_lia).
  cbn [rsp rbp rbx r12 r13 r14 r15 rip intf]. unfold spilled.
  cbn [rsp rbp rbx r12 r13 r14 r15 rip intf].
  rewrite <- !Z.add_assoc. rewrite <- !Z.sub_add_distr. cbn [Z.add Pos.add Pos.succ Pos.add_carry].
  replace (sp - 48 + 40) with (sp - 8) by lia. replace (sp - 48 + 32) with (sp - 16) by lia.
  replace (sp - 48 + 24) with (sp - 24) by lia. replace (sp - 48 + 16) with (sp - 32) by lia.
  replace (sp - 48 + 8) with (sp - 40) by lia. reflexivity.
Qed.

Lemma context_switch_resumes c m n :
  48 <= rsp c < U64 -> 0 <= n -> n + 56 < U64 ->
  let '(saved, (c', m')) := context_switch c m n in
  saved = rsp c - 48 /\ m' = spilled c m saved /\
  cpu_view c' = resume_of m' n /\ intf c' = intf c.
Proof. intros H1 H2 H3. rewrite context_switch_eq by assumption. split_and!; reflexivity. Qed.

(** The spilled frame describes the caller's continuation. *)
Lemma spilled_resume c m sp : sp = rsp c - 48 -> resume_of (spilled c m sp) sp = continuation c m.
Proof.
  intros ->. unfold resume_of, spilled, continuation. read_stores.
  replace (rsp c - 48 + 48) with (rsp c) by lia. f_equal. lia.
Qed.

Lemma spilled_outside c m sp x : x < sp \/ sp + 48 <= x -> spilled c m sp x = m x.
Proof. intros H. unfold spilled. read_stores. reflexivity. Qed.

(** The launch frame: where it lies, what it holds, and what it leaves alone. *)
Record launch_frame (tr : Z) (m : memory) (base size entry : Z) (sp : Z) (m' : memory) : Prop := {
  lf_lo : base <= sp;
  lf_hi : sp + 64 <= base + size;
  lf_align : sp mod 16 = 0;
  lf_frame : resume_of m' sp = mkResume (sp + 56) 0 0 entry 0 0 0 tr;
  lf_outside : forall x, x < base \/ base + size <= x -> m' x = m x
}.

Lemma top_aligned_spec top :
  0 <= top < U64 -> let t := Z.land top (not64 0xF) in t mod 16 = 0 /\ top - 16 < t <= top.
Proof.
  intros Ht t. change 0xF with (2 ^ 4 - 1) in t. unfold t. rewrite land_not_mask by word_lia.
  change (2 ^ 4) with 16. Z.div_mod_to_equations. lia.
Qed.

Lemma push_word_eq sp m v : 8 <= sp < U64 -> push_word (sp, m) v = (sp - 8, store m (sp - 8) v).
Proof. intros H. unfold push_word. simpl. rewrite sub64_small by word_lia. reflexivity. Qed.

Lemma init_kernel_stack_spec tr m base size entry :
  0 <= base -> 80 <= size -> base + size < U64 ->
  let (sp, m') := init_kernel_stack tr m base size entry in launch_frame tr m base size entry sp m'.
Proof.
  intros Hb Hs Hfit. unfold init_kernel_stack. rewrite add64_small by word_lia.
  destruct (top_aligned_spec (base + size)) as [Ht16 Ht]; [word_lia|].
  set (t := Z.land (base + size) (not64 15)) in *. clearbody t.
  cbn [fold_left]. rewrite !push_word_eq by word_lia. rewrite <- !Z.sub_add_distr.
  cbn [Z.add Pos.add Pos.succ Pos.add_carry]. split.
  - lia.
  - lia.
  - Z.div_mod_to_equations. lia.
  - unfold resume_of. read_stores. reflexivity.
  - intros x Hx. read_stores. reflexivity.
Qed.

(** ** Properties *)

(** The first switch into a new process: whatever the CPU state of the task
    switched away from (its own stack being disjoint from the new one),
    [context_switch] lands in the trampoline with the entry point in [r12], the
    other callee-saved registers zero and the stack pointer inside the new stack
    at 8 mod 16, as the ABI wants at a function's entry; the trampoline then
    enables interrupts and jumps to the entry. *)
Theorem first_switch_enters_entry tr m base size entry c :
  0 <= base -> 80 <= size -> base + size < U64 -> 48 <= rsp c < U64 ->
  rsp c <= base \/ base + size <= rsp c - 48 ->
  let (sp, m1) := init_kernel_stack tr m base size entry in
  let '(_, (c1, _)) := context_switch c m1 sp in
  rip c1 = tr /\ r12 c1 = entry /\ rbp c1 = 0 /\ rbx c1 = 0 /\
  rsp c1 mod 16 = 8 /\ base <= rsp c1 < base + size /\
  rip (process_entry_trampoline c1) = entry /\ intf (process_entry_trampoline c1) = true.
Proof.
  intros Hb Hs Hfit Hr Hdis. pose proof (init_kernel_stack_spec tr m base size entry Hb Hs Hfit) as H.
  destruct (init_kernel_stack tr m base size entry) as [sp m1]. destruct H as [Hlo Hhi Hal Hfr _].
  rewrite context_switch_eq by word_lia. unfold resume_of in Hfr.
  injection Hfr as F1 F2 F3 F4 F5 F6 F7. cbn [rip r12 rbp rbx rsp intf process_entry_trampoline].
  rewrite !spilled_outside by lia. split_and!; try assumption; try lia; try reflexivity.
  Z.div_mod_to_equations. lia.
Qed.

Definition demo_cpu : Cpu := mkCpu 0x9000 1 2 3 4 5 6 0x1234 false.

Lemma first_switch_enters_entry_witness :
  let (sp, m1) := init_kernel_stack 0x777 (fun _ => 0) 0x20000 4096 0xABC in
  let '(_, (c1, _)) := context_switch demo_cpu m1 sp in rip c1 = 0x777 /\ r12 c1 = 0xABC.
Proof.
  pose proof (first_switch_enters_entry 0x777 (fun _ => 0) 0x20000 4096 0xABC demo_cpu
    ltac:(lia) ltac:(lia) ltac:(word_lia) ltac:(simpl; word_lia) ltac:(simpl; lia)) as H.
  destruct (init_kernel_stack 0x777 (fun _ => 0) 0x20000 4096 0xABC) as [sp m1].
  destruct (context_switch demo_cpu m1 sp) as [sv [c1 m2]].
  destruct H as (H1 & H2 & _). split; assumption.
Defined.

(** A task does not notice being switched out: if its saved frame is intact
    when some other task, running on another stack, switches to the pointer that
    was saved for it, it continues after its own call with its stack pointer,
    callee-saved registers and return address as it left them. *)
Theorem context_switch_round_trip c m n cB mB :
  56 <= rsp c -> rsp c + 8 < U64 -> 0 <= n -> n + 56 < U64 -> 48 <= rsp cB < U64 ->
  let '(saved, (_, m')) := context_switch c m n in
  (forall x, saved <= x < saved + 56 -> mB x = m' x) ->
  rsp cB <= saved \/ saved + 56 <= rsp cB - 48 ->
  let '(_, (cA, _)) := context_switch cB mB saved in
  cpu_view cA = continuation c m.
Proof.
  intros Hr Hr' Hn Hn' HrB. rewrite context_switch_eq by word_lia. intros Hfr Hdis.
  pose proof (context_switch_resumes cB mB (rsp c - 48)) as H.
  destruct (context_switch cB mB (rsp c - 48)) as [s2 [cA m2]].
  destruct H as (-> & -> & Hv & _); [word_lia..|].
  rewrite Hv, <- (spilled_resume c m (rsp c - 48) eq_refl). unfold resume_of.
  rewrite !(spilled_outside cB) by lia. rewrite !Hfr by lia. reflexivity.
Qed.

Definition demo_cpu2 : Cpu := mkCpu 0x30000 10 20 30 40 50 60 0x4321 false.

Lemma context_switch_round_trip_witness :
  let mB := spilled demo_cpu (fun _ => 7) (0x9000 - 48) in
  let '(_, (cA, _)) := context_switch demo_cpu2 mB (0x9000 - 48) in
  cpu_view cA = mkResume 0x9008 1 2 3 4 5 6 7.
Proof.
  intros mB. pose proof (context_switch_round_trip demo_cpu (fun _ => 7) 0x20000 demo_cpu2 mB) as H.
  rewrite context_switch_eq in H by (simpl; word_lia).
  apply H; simpl; [lia|word_lia..|reflexivity|lia].
Defined.

(** The PID counter from boot: [n] allocations. *)
Fixpoint alloc_pids (n : nat) (next : Z) : list (outcome Z) :=
  match n with
  | O => []
  | S n' => let (p, next') := alloc_pid next in p :: alloc_pids n' next'
  end.

(** PIDs handed out since boot are consecutive from 2, so pairwise distinct
    and never those of the bootstrap thread or of idle, and the counter never
    wraps without a panic: the allocation that would use the last value panics. *)
Theorem alloc_pids_fresh n :
  Z.of_nat n <= u64_max - NEXT_PID ->
  alloc_pids n NEXT_PID = map (fun k => Ret (NEXT_PID + Z.of_nat k)) (seq 0 n) /\
  fst (alloc_pid u64_max) = Panic.
Proof.
  intros Hn. split; [|reflexivity].
  assert (H : forall k, Z.of_nat (k + n) <= u64_max - NEXT_PID ->
    alloc_pids n (NEXT_PID + Z.of_nat k) = map (fun k => Ret (NEXT_PID + Z.of_nat k)) (seq k n)).
  { clear Hn. induction n as [|n IH]; intros k Hk; [reflexivity|]. simpl. unfold NEXT_PID in *.
    rewrite (proj2 (Z.eqb_neq (2 + Z.of_nat k) u64_max)), add64_small by word_lia.
    f_equal. rewrite <- (IH (S k)) by word_lia. f_equal. lia. }
  apply (H 0%nat). exact Hn.
Qed.

Lemma alloc_pids_fresh_witness : alloc_pids 3 NEXT_PID = [Ret 2; Ret 3; Ret 4].
Proof. apply (alloc_pids_fresh 3). vm_compute; congruence. Defined.

End Proc.
