(* ===== verification/Scheduler.v ===== *)
(** The round-robin scheduler (src/src/scheduler/scheduler.rs and the wrappers
    of src/src/scheduler/mod.rs).  [schedule] is modelled up to its call of
    [context_switch]: it yields the scheduler state the incoming task sees, with
    the outgoing stack pointer already in the outgoing task's save slot, and the
    stack pointer switched to. *)

From Stdlib Require Import ZArith Lia.
From stdpp Require Import base list strings sets.
From S2P Require Import Prelude Process.

Open Scope Z_scope.

Module Sched.
Import Proc.

(** ** State *)

Definition DEFAULT_TIME_SLICE : Z := 10.
Definition IDLE_STACK_SIZE : Z := 4096.
Definition KERNEL_OWNER : Z := 0.

Inductive SchedError := NotInitialized | AlreadyInitialized | NoSuchBlockedPid.

Record Scheduler := mkScheduler {
  initialized : bool;
  ready : list Process;
  current : option Process;
  idle : option Process;
  blocked : list Process;
  defunct : list Process
}.

Definition new : Scheduler := mkScheduler false [] None None [] [].

Definition set_state (p : Process) (st : ProcessState) : Process :=
  mkProcess (kernel_rsp p) (pid p) (owner p) (name p) st (stack_base p) (stack_size p)
    (time_slice_remaining p) (default_time_slice p).
Definition set_slice (p : Process) (n : Z) : Process :=
  mkProcess (kernel_rsp p) (pid p) (owner p) (name p) (state p) (stack_base p) (stack_size p)
    n (default_time_slice p).
Definition set_rsp (p : Process) (v : Z) : Process :=
  mkProcess v (pid p) (owner p) (name p) (state p) (stack_base p) (stack_size p)
    (time_slice_remaining p) (default_time_slice p).

Definition set_current (s : Scheduler) (c : option Process) : Scheduler :=
  mkScheduler (initialized s) (ready s) c (idle s) (blocked s) (defunct s).

(** ** Operations *)

(** [Scheduler::init]; the launch frame of idle is written in memory. *)
Definition init (trampoline : Z) (m : memory) (s : Scheduler)
    (bootstrap_owner idle_base idle_size idle_entry : Z)
  : result unit SchedError * (Scheduler * memory) :=
  if initialized s then (Err AlreadyInitialized, (s, m))
  else
    let (idle, m') := new_with_pid trampoline m PID_IDLE "idle" bootstrap_owner idle_entry
                        idle_base idle_size DEFAULT_TIME_SLICE in
    (Ok tt, (mkScheduler true (ready s) (Some (bootstrap bootstrap_owner)) (Some idle)
               (blocked s) (defunct s), m')).

Definition spawn (s : Scheduler) (proc : Process) : Z * Scheduler :=
  let proc := set_slice (set_state proc Ready) (default_time_slice proc) in
  (pid proc, mkScheduler (initialized s) (ready s ++ [proc]) (current s) (idle s) (blocked s) (defunct s)).

Definition is_running (c : option Process) : bool :=
  match c with Some p => bool_decide (state p = Running) | None => false end.

(** Reclassify the outgoing task and stash it where it belongs. *)
Definition stash (s : Scheduler) (curr : Process) : Scheduler :=
  match state curr with
  | Running =>
      let curr := set_slice (set_state curr Ready) (default_time_slice curr) in
      if pid curr =? PID_IDLE
      then mkScheduler (initialized s) (ready s) None (Some curr) (blocked s) (defunct s)
      else mkScheduler (initialized s) (ready s ++ [curr]) None (idle s) (blocked s) (defunct s)
  | Ready => mkScheduler (initialized s) (ready s ++ [curr]) None (idle s) (blocked s) (defunct s)
  | Blocked => mkScheduler (initialized s) (ready s) None (idle s) (blocked s ++ [curr]) (defunct s)
  | Zombie => mkScheduler (initialized s) (ready s) None (idle s) (blocked s) (defunct s ++ [curr])
  end.

(** [saved] is the stack pointer [context_switch] stores for the outgoing task.
    The second component is the stack pointer switched to, if there is a switch. *)
Definition schedule (saved : Z) (s : Scheduler) : Scheduler * option Z :=
  let s := mkScheduler (initialized s) (ready s) (current s) (idle s) (blocked s) [] in
  let picked :=
    match ready s with
    | n :: rest =>
        Some (n, mkScheduler (initialized s) rest (current s) (idle s) (blocked s) (defunct s))
    | [] =>
        if is_running (current s) then None
        else
          match idle s with
          | Some i => Some (i, mkScheduler (initialized s) [] (current s) None (blocked s) (defunct s))
          | None => None
          end
    end in
  match picked with
  | None => (s, None)
  | Some (next, s) =>
      let next_rsp := kernel_rsp next in
      let s := match current s with
               | Some curr => stash s (set_rsp curr saved)
               | None => s
               end in
      (set_current s (Some (set_slice (set_state next Running) (default_time_slice next))),
       Some next_rsp)
  end.

Definition tick (saved : Z) (s : Scheduler) : Scheduler * option Z :=
  match current s with
  | Some curr =>
      if bool_decide (state curr = Running) then
        let rem := if 0 <? time_slice_remaining curr then time_slice_remaining curr - 1
                   else time_slice_remaining curr in
        let s := set_current s (Some (set_slice curr rem)) in
        if rem =? 0 then schedule saved s else (s, None)
      else (s, None)
  | None => (s, None)
  end.

Definition yield_now (saved : Z) (s : Scheduler) : Scheduler * option Z := schedule saved s.

(** Without a switch, [exit_current] runs into [unreachable!]. *)
Definition exit_current (saved : Z) (s : Scheduler) : outcome (Scheduler * Z) :=
  let s := match current s with
           | Some curr => set_current s (Some (set_slice (set_state curr Zombie) 0))
           | None => s
           end in
  match schedule saved s with
  | (s', Some n) => Ret (s', n)
  | (_, None) => Panic
  end.

Definition block_current (saved : Z) (s : Scheduler) : Scheduler * option Z :=
  let s := match current s with
           | Some curr => set_current s (Some (set_state curr Blocked))
           | None => s
           end in
  schedule saved s.

(** [Iterator::position] and [Vec::swap_remove]. *)
Fixpoint position (p : Z) (l : list Process) : option nat :=
  match l with
  | [] => None
  | x :: l' => if pid x =? p then Some O else option_map S (position p l')
  end.

Definition swap_remove (l : list Process) (i : nat) : outcome (Process * list Process) :=
  match l !! i, last l with
  | Some x, Some z => Ret (x, take (length l - 1) (<[i := z]> l))
  | _, _ => Panic
  end.

Definition unblock (s : Scheduler) (p : Z) : outcome (result unit SchedError * Scheduler) :=
  match position p (blocked s) with
  | None => Ret (Err NoSuchBlockedPid, s)
  | Some idx =>
      match swap_remove (blocked s) idx with
      | Panic => Panic
      | Ret (proc, rest) =>
          let proc := set_slice (set_state proc Ready) (default_time_slice proc) in
          Ret (Ok tt, mkScheduler (initialized s) (ready s ++ [proc]) (current s) (idle s) rest (defunct s))
      end
  end.

Definition current_pid (s : Scheduler) : option Z := option_map pid (current s).

(** ** The interrupt guard *)

(** RFLAGS.IF is all the guard touches: [IrqGuard::new] returns what it saved. *)
Definition IrqGuard_new (intf : bool) : bool * bool := (intf, false).
Definition IrqGuard_drop (saved_flags : bool) (intf : bool) : bool := saved_flags.

(** [GlobalScheduler::with] for a closure that returns. *)
Definition with_ {R} (intf : bool) (s : Scheduler) (f : bool -> Scheduler -> R * Scheduler)
  : R * (bool * Scheduler) :=
  let (guard, intf) := IrqGuard_new intf in
  let (r, s) := f intf s in
  (r, (IrqGuard_drop guard intf, s)).

(** ** The module's entry points *)

(** The kernel state [mod.rs] works on: the global scheduler, the PID counter,
    memory and the interrupt flag. *)
Record Kernel := mkKernel {
  k_sched : Scheduler;
  k_next_pid : Z;
  k_mem : memory;
  k_intf : bool
}.

Section EntryPoints.
Context (trampoline idle_loop : Z).

Definition init_with (k : Kernel) (bootstrap_owner idle_base idle_size idle_entry : Z)
  : result unit SchedError * Kernel :=
  let '(r, (intf, (s, m))) :=
    let (guard, intf) := IrqGuard_new (k_intf k) in
    let '(r, (s, m)) := init trampoline (k_mem k) (k_sched k) bootstrap_owner idle_base idle_size idle_entry in
    (r, (IrqGuard_drop guard intf, (s, m))) in
  (r, mkKernel s (k_next_pid k) m intf).

(** [stack] is the address of the boxed idle stack. *)
Definition mod_init (k : Kernel) (stack : Z) : result unit SchedError * Kernel :=
  init_with k KERNEL_OWNER stack IDLE_STACK_SIZE idle_loop.

Definition mod_spawn (k : Kernel) (name : string) (owner entry base size : Z) : outcome (Z * Kernel) :=
  match Proc.new trampoline (k_mem k) (k_next_pid k) name owner entry base size DEFAULT_TIME_SLICE with
  | (Panic, _) => Panic
  | (Ret (proc, m), next) =>
      let '(p, (intf, s)) := with_ (k_intf k) (k_sched k) (fun _ s => spawn s proc) in
      Ret (p, mkKernel s next m intf)
  end.
End EntryPoints.

(** ** Invariant *)

(** Every process the scheduler owns, and what never changes about one. *)
Definition opt_list {A} (o : option A) : list A := match o with Some x => [x] | None => [] end.

Definition alive (s : Scheduler) : list Process :=
  opt_list (current s) ++ opt_list (idle s) ++ ready s ++ blocked s.

Definition ident (p : Process) : Z * Z * string * Z * Z * Z :=
  (pid p, owner p, name p, stack_base p, stack_size p, default_time_slice p).

Definition slice_ok (p : Process) : Prop := 0 <= time_slice_remaining p <= default_time_slice p.

Record inv (s : Scheduler) : Prop := {
  inv_init : initialized s = true;
  inv_current : exists c, current s = Some c /\ state c = Running /\
    (idle s = None -> pid c = PID_IDLE);
  inv_idle : forall i, idle s = Some i -> pid i = PID_IDLE /\ state i = Ready;
  inv_ready : Forall (fun p => state p = Ready) (ready s);
  inv_blocked : Forall (fun p => state p = Blocked) (blocked s);
  inv_defunct : Forall (fun p => state p = Zombie) (defunct s);
  inv_pids : NoDup (map pid (alive s ++ defunct s));
  inv_slices : Forall slice_ok (alive s)
}.

Inductive op :=
| OpTick (saved : Z)
| OpYield (saved : Z)
| OpExit (saved : Z)
| OpBlock (saved : Z)
| OpUnblock (p : Z)
| OpSpawn (proc : Process).

Definition exec (o : op) (s : Scheduler) : outcome Scheduler :=
  match o with
  | OpTick saved => Ret (fst (tick saved s))
  | OpYield saved => Ret (fst (yield_now saved s))
  | OpExit saved => match exit_current saved s with Ret (s', _) => Ret s' | Panic => Panic end
  | OpBlock saved => Ret (fst (block_current saved s))
  | OpUnblock p => match unblock s p with Ret (_, s') => Ret s' | Panic => Panic end
  | OpSpawn proc => Ret (snd (spawn s proc))
  end.

(** The callers' contract: the idle task neither exits nor blocks, and a spawned
    process has a fresh PID. *)
Definition legal (s : Scheduler) (o : op) : Prop :=
  match o with
  | OpExit _ | OpBlock _ => current_pid s <> Some PID_IDLE
  | OpSpawn proc => (pid proc ∉ map pid (alive s ++ defunct s)) /\ 0 <= default_time_slice proc
  | _ => True
  end.

(** The state [schedule] is called in: the outgoing task may already be marked
    Blocked or Zombie, and then the idle task is available. *)
Record pre (s : Scheduler) (c : Process) : Prop := {
  pre_init : initialized s = true;
  pre_current : current s = Some c;
  pre_state : state c <> Ready;
  pre_idle_slot : idle s = None -> pid c = PID_IDLE /\ state c = Running;
  pre_idle : forall i, idle s = Some i -> pid i = PID_IDLE /\ state i = Ready;
  pre_ready : Forall (fun p => state p = Ready) (ready s);
  pre_blocked : Forall (fun p => state p = Blocked) (blocked s);
  pre_pids : NoDup (map pid (alive s));
  pre_slices : Forall slice_ok (alive s)
}.

Lemma map_pid_ident l : map pid l = map (fun x => x.1.1.1.1.1) (map ident l).
Proof. rewrite map_map. reflexivity. Qed.

Lemma ident_perm_pids l l' : map ident l ≡ₚ map ident l' -> map pid l ≡ₚ map pid l'.
Proof. intros H. rewrite !map_pid_ident, H. reflexivity. Qed.

(** The idle task is not duplicated: while it runs its slot is empty. *)
Lemma pre_idle_excl s c : pre s c -> pid c = PID_IDLE -> idle s = None.
Proof.
  intros [_ Hc _ _ Hi _ _ Hnd _] Hpid. destruct (idle s) as [i|] eqn:E; [|reflexivity].
  destruct (Hi i eq_refl) as [Hpi _]. unfold alive in Hnd. rewrite Hc, E in Hnd. simpl in Hnd.
  rewrite Hpid, Hpi in Hnd. inversion Hnd as [|? ? Hn _]. destruct Hn. constructor.
Qed.

(** The outgoing task, with its stack pointer saved, as it is put away. *)
Definition put_away (saved : Z) (c : Process) : Process :=
  match state c with
  | Running => set_slice (set_state (set_rsp c saved) Ready) (default_time_slice c)
  | _ => set_rsp c saved
  end.

Definition dispatched (n : Process) : Process :=
  set_slice (set_state n Running) (default_time_slice n).

(** The two shapes of a switch: from the queue, or to idle when it is empty. *)
Lemma schedule_queue saved s c n rest :
  pre s c -> ready s = n :: rest ->
  schedule saved s =
  (let c' := put_away saved c in
   match state c with
   | Running => if pid c =? PID_IDLE
       then mkScheduler true rest (Some (dispatched n)) (Some c') (blocked s) []
       else mkScheduler true (rest ++ [c']) (Some (dispatched n)) (idle s) (blocked s) []
   | Blocked => mkScheduler true rest (Some (dispatched n)) (idle s) (blocked s ++ [c']) []
   | _ => mkScheduler true rest (Some (dispatched n)) (idle s) (blocked s) [c']
   end, Some (kernel_rsp n)).
Proof.
  intros [Hi Hc Hst _ _ _ _ _ _] Hr. unfold schedule, stash, put_away. simpl. rewrite Hr, Hc, Hi.
  destruct (state c) eqn:E; simpl; rewrite ?E; try contradiction; try reflexivity.
  destruct (pid c =? PID_IDLE); reflexivity.
Qed.

Lemma schedule_idle saved s c i :
  pre s c -> ready s = [] -> state c <> Running -> idle s = Some i ->
  schedule saved s =
  (let c' := put_away saved c in
   match state c with
   | Blocked => mkScheduler true [] (Some (dispatched i)) None (blocked s ++ [c']) []
   | _ => mkScheduler true [] (Some (dispatched i)) None (blocked s) [c']
   end, Some (kernel_rsp i)).
Proof.
  intros [Hi Hc Hst _ _ _ _ _ _] Hr Hnr Hidle. unfold schedule, stash, put_away. simpl.
  rewrite Hr, Hc, Hi, Hidle. simpl. rewrite bool_decide_eq_false_2 by assumption.
  destruct (state c) eqn:E; simpl; rewrite ?E; try contradiction; reflexivity.
Qed.

Lemma schedule_stays saved s c :
  pre s c -> ready s = [] -> state c = Running ->
  schedule saved s = (mkScheduler true [] (Some c) (idle s) (blocked s) [], None).
Proof.
  intros [Hi Hc Hst _ _ _ _ _ _] Hr Hrun. unfold schedule. simpl. rewrite Hr, Hc, Hi. simpl.
  rewrite bool_decide_eq_true_2 by assumption. reflexivity.
Qed.

Lemma slice_dispatched n : slice_ok n -> slice_ok (dispatched n).
Proof. unfold slice_ok. simpl. lia. Qed.

Lemma slice_put_away saved c : slice_ok c -> slice_ok (put_away saved c).
Proof. unfold slice_ok, put_away. destruct (state c); simpl; lia. Qed.

Lemma ident_put_away saved c : ident (put_away saved c) = ident c.
Proof. unfold put_away. destruct (state c); reflexivity. Qed.

(** Assemble [inv] for a state whose identities are those of [s]. *)
Lemma inv_from_perm s s' cur :
  NoDup (map pid (alive s)) -> map ident (alive s' ++ defunct s') ≡ₚ map ident (alive s) ->
  initialized s' = true -> current s' = Some cur -> state cur = Running ->
  (idle s' = None -> pid cur = PID_IDLE) ->
  (forall i, idle s' = Some i -> pid i = PID_IDLE /\ state i = Ready) ->
  Forall (fun p => state p = Ready) (ready s') -> Forall (fun p => state p = Blocked) (blocked s') ->
  Forall (fun p => state p = Zombie) (defunct s') -> Forall slice_ok (alive s') -> inv s'.
Proof.
  intros Hnd Hperm Hi Hc Hrun Hidle1 Hidle2 Hr Hb Hd Hsl.
  split; [assumption|eauto|assumption..| |assumption].
  rewrite (ident_perm_pids _ _ Hperm). exact Hnd.
Qed.

Lemma schedule_perm saved s c :
  pre s c ->
  let s' := fst (schedule saved s) in
  map ident (alive s' ++ defunct s') ≡ₚ map ident (alive s).
Proof.
  intros Hp s'. unfold s'. clear s'. pose proof Hp as [Hi Hc Hst Hslot Hidle _ _ _ _].
  pose proof (pre_idle_excl s c Hp) as Hexcl. unfold alive at 2. rewrite Hc.
  destruct (ready s) as [|n rest] eqn:Hr.
  - destruct (decide (state c = Running)) as [Hrun|Hnr].
    + rewrite (schedule_stays saved s c) by assumption. unfold alive. simpl.
      rewrite app_nil_r. reflexivity.
    + destruct (idle s) as [i|] eqn:Hid; [|destruct (Hslot eq_refl); contradiction].
      rewrite (schedule_idle saved s c i) by assumption. unfold alive.
      destruct (state c) eqn:E; try contradiction; simpl; rewrite !map_app; simpl;
        rewrite ident_put_away; change (ident (dispatched i)) with (ident i); solve_Permutation.
  - rewrite (schedule_queue saved s c n rest) by assumption. unfold alive.
    destruct (state c) eqn:E; try contradiction; [destruct (Z.eqb_spec (pid c) PID_IDLE) as [Hpid|]|..];
      simpl; [rewrite (Hexcl Hpid)|..];
      rewrite !map_app; simpl; rewrite !map_app; simpl; rewrite ident_put_away;
      change (ident (dispatched n)) with (ident n); solve_Permutation.
Qed.

Lemma put_away_ready saved c : state c = Running -> state (put_away saved c) = Ready.
Proof. intros H. unfold put_away. rewrite H. reflexivity. Qed.

Lemma put_away_same saved c : state c <> Running -> state (put_away saved c) = state c.
Proof. intros H. unfold put_away. destruct (state c) eqn:E; simpl; congruence. Qed.

Lemma put_away_pid saved c : pid (put_away saved c) = pid c.
Proof. unfold put_away. destruct (state c); reflexivity. Qed.

#[local] Hint Resolve slice_dispatched slice_put_away put_away_ready : core.

Lemma schedule_inv saved s c : pre s c -> inv (fst (schedule saved s)).
Proof.
  intros Hp. pose proof (schedule_perm saved s c Hp) as Hperm. simpl in Hperm.
  pose proof Hp as [Hi Hc Hst Hslot Hidle Hrd Hbl Hnd Hsl].
  unfold alive in Hsl. rewrite Hc, !Forall_app in Hsl. destruct Hsl as (Hslc & Hsli & Hslr & Hslb).
  apply Forall_inv in Hslc.
  destruct (ready s) as [|n rest] eqn:Hr.
  - destruct (decide (state c = Running)) as [Hrun|Hnr].
    + rewrite (schedule_stays saved s c) in * by assumption.
      apply (inv_from_perm s _ c); simpl; auto; [intros E; apply Hslot, E|].
      unfold alive. simpl. rewrite Forall_cons, Forall_app. auto.
    + destruct (idle s) as [i|] eqn:Hid; [|destruct (Hslot eq_refl); contradiction].
      destruct (Hidle i eq_refl) as [Hpi _]. apply Forall_inv in Hsli.
      rewrite (schedule_idle saved s c i) in * by assumption.
      destruct (state c) eqn:E; try contradiction;
      apply (inv_from_perm s _ (dispatched i)); simpl in *; auto; try discriminate; unfold alive; simpl;
        rewrite ?Forall_cons, ?Forall_app, ?Forall_cons; split_and?;
        rewrite ?put_away_same by congruence; auto.
  - rewrite (schedule_queue saved s c n rest) in * by assumption.
    inversion Hrd as [|? ? Hn Hrest]; subst. inversion Hslr as [|? ? Hsn Hsrest]; subst.
    destruct (state c) eqn:E; try contradiction;
      [destruct (Z.eqb_spec (pid c) PID_IDLE) as [Hpid|Hpid]|..];
      apply (inv_from_perm s _ (dispatched n)); simpl in *; auto; unfold alive; simpl;
        rewrite ?Forall_cons, ?Forall_app, ?Forall_cons; split_and?;
        rewrite ?put_away_same by congruence; auto.
    all: try (intros E'; destruct (Hslot E'); congruence).
    1: discriminate.
    intros i [= <-]. rewrite put_away_pid. auto.
Qed.

(** ** Every operation keeps the invariant *)

Lemma inv_pre s : inv s -> exists c, pre s c /\ state c = Running /\ current s = Some c.
Proof.
  intros [Hi (c & Hc & Hrun & Hslot) Hidle Hr Hb _ Hnd Hsl]. exists c. split; [|auto].
  split; auto; [congruence|].
  rewrite map_app in Hnd. apply NoDup_app in Hnd. apply Hnd.
Qed.

(** Marking the outgoing task Blocked or Zombie, or charging a tick to it. *)
Lemma pre_mark s c st n :
  pre s c -> state c = Running -> (st <> Running -> pid c <> PID_IDLE) -> st <> Ready ->
  0 <= n <= default_time_slice c ->
  pre (set_current s (Some (set_slice (set_state c st) n))) (set_slice (set_state c st) n).
Proof.
  intros [Hi Hc Hst Hslot Hidle Hr Hb Hnd Hsl] Hrun Hnot Hst' Hn.
  unfold alive in Hnd, Hsl. rewrite Hc in Hnd, Hsl.
  split; simpl; auto.
  - intros E. destruct (Hslot E) as [H1 _]. split; [exact H1|].
    destruct (decide (st = Running)) as [|Hne]; [assumption|]. destruct (Hnot Hne H1).
  - unfold alive. simpl in *. inversion Hsl; subst. constructor; [exact Hn|assumption].
Qed.

Lemma set_slice_id c st : set_slice (set_state c st) (time_slice_remaining c) = set_state c st.
Proof. reflexivity. Qed.

Lemma set_state_id c : set_state c (state c) = c.
Proof. destruct c; reflexivity. Qed.

(** [swap_remove] at the position found. *)
Lemma position_spec p l i : position p l = Some i -> exists x, l !! i = Some x /\ pid x = p.
Proof.
  revert i. induction l as [|y l IH]; simpl; intros i H; [discriminate|].
  destruct (Z.eqb_spec (pid y) p) as [<-|]; [injection H as <-; exists y; auto|].
  destruct (position p l) as [j|]; [|discriminate]. injection H as <-. apply IH. reflexivity.
Qed.

Lemma position_none p l : position p l = None <-> p ∉ map pid l.
Proof.
  induction l as [|y l IH]; simpl; [split; [intros _ H; inversion H|reflexivity]|].
  rewrite not_elem_of_cons, <- IH. destruct (Z.eqb_spec (pid y) p) as [<-|Hne].
  - split; [discriminate|tauto].
  - destruct (position p l); simpl; split; [discriminate|intros [_ ?]; discriminate|auto|auto].
Qed.

Lemma replace_perm {A} (l : list A) i x z : l !! i = Some x -> z :: l ≡ₚ x :: <[i := z]> l.
Proof.
  revert i. induction l as [|y l IH]; intros [|i] Hx; simpl in *; try discriminate.
  - injection Hx as ->. apply Permutation_swap.
  - rewrite (Permutation_swap y z), (IH i Hx). apply Permutation_swap.
Qed.

Lemma swap_remove_spec l i x :
  l !! i = Some x -> exists rest, swap_remove l i = Ret (x, rest) /\ l ≡ₚ x :: rest.
Proof.
  intros Hx. unfold swap_remove. rewrite Hx.
  destruct (last l) as [z|] eqn:Hz; [|apply last_None in Hz as ->; discriminate].
  eexists. split; [reflexivity|]. apply last_Some in Hz as [l' ->].
  rewrite length_app, Nat.add_sub. simpl length.
  destruct (decide (i = length l')) as [->|Hne].
  - assert (x = z) as -> by (rewrite list_lookup_middle in Hx by reflexivity; congruence).
    rewrite insert_app_r_alt, Nat.sub_diag by lia. simpl.
    rewrite take_app_length. rewrite Permutation_app_comm. reflexivity.
  - assert (Hi : (i < length l')%nat).
    { apply lookup_lt_Some in Hx. rewrite length_app in Hx. simpl in Hx. lia. }
    rewrite insert_app_l, take_app_le, take_ge by (rewrite ?length_insert; lia).
    rewrite lookup_app_l in Hx by exact Hi.
    rewrite Permutation_app_comm. simpl. apply replace_perm, Hx.
Qed.

(** What an operation does to the set of processes: [spawn] adds one, and a run
    of [schedule] drops exactly the tasks that had exited before it. *)
Definition conserves (o : op) (s s' : Scheduler) : Prop :=
  let before := map ident (alive s ++ defunct s) in
  let after := map ident (alive s' ++ defunct s') in
  match o with
  | OpSpawn p => after ≡ₚ ident p :: before
  | OpUnblock _ => after ≡ₚ before
  | OpTick _ => after ≡ₚ before \/ after ≡ₚ map ident (alive s)
  | OpYield _ | OpBlock _ | OpExit _ => after ≡ₚ map ident (alive s)
  end.

Lemma alive_set_current s c c' :
  current s = Some c -> ident c' = ident c ->
  map ident (alive (set_current s (Some c'))) = map ident (alive s).
Proof. intros Hc Hid. unfold alive. rewrite Hc. simpl. rewrite Hid. reflexivity. Qed.

(** Marking the current task and scheduling. *)
Lemma mark_schedule saved s c st n :
  inv s -> current s = Some c -> (st <> Running -> pid c <> PID_IDLE) -> st <> Ready ->
  0 <= n <= default_time_slice c ->
  let s1 := set_current s (Some (set_slice (set_state c st) n)) in
  pre s1 (set_slice (set_state c st) n) /\ inv (fst (schedule saved s1)) /\
  map ident (alive (fst (schedule saved s1)) ++ defunct (fst (schedule saved s1))) ≡ₚ
    map ident (alive s).
Proof.
  intros Hs Hc Hnot Hst Hn s1. destruct (inv_pre s Hs) as (c' & Hp & Hrun & Hc').
  assert (c' = c) as -> by congruence.
  pose proof (pre_mark s c st n Hp Hrun Hnot Hst Hn) as Hp1.
  split_and!; [exact Hp1|eapply schedule_inv; exact Hp1|].
  rewrite (schedule_perm saved s1 _ Hp1). unfold s1. rewrite (alive_set_current s c) by auto.
  reflexivity.
Qed.

Lemma schedule_switches saved s c :
  pre s c -> state c <> Running -> exists s' n, schedule saved s = (s', Some n).
Proof.
  intros Hp Hnr. destruct (ready s) as [|n rest] eqn:Hr.
  - destruct (idle s) as [i|] eqn:Hid.
    + rewrite (schedule_idle saved s c i) by assumption. eauto.
    + destruct (pre_idle_slot s c Hp Hid). contradiction.
  - rewrite (schedule_queue saved s c n rest) by assumption. eauto.
Qed.

Lemma inv_current_slice s c : inv s -> current s = Some c -> slice_ok c.
Proof.
  intros Hs Hc. pose proof (inv_slices s Hs) as H. unfold alive in H. rewrite Hc in H.
  inversion H. assumption.
Qed.

Lemma tick_spec saved s c :
  inv s -> current s = Some c ->
  let rem := Z.max 0 (time_slice_remaining c - 1) in
  let s1 := set_current s (Some (set_slice (set_state c Running) rem)) in
  tick saved s = (if rem =? 0 then schedule saved s1 else (s1, None)).
Proof.
  intros Hs Hc rem s1. destruct (inv_pre s Hs) as (c' & _ & Hrun & Hc').
  assert (c' = c) as -> by congruence. pose proof (inv_current_slice s c Hs Hc) as Hsl.
  unfold tick, s1. rewrite Hc, bool_decide_eq_true_2 by assumption.
  replace (set_state c Running) with c by (rewrite <- Hrun; symmetry; apply set_state_id).
  assert (E : (if 0 <? time_slice_remaining c then time_slice_remaining c - 1 else time_slice_remaining c) = rem).
  { unfold rem, slice_ok in *. destruct (Z.ltb_spec 0 (time_slice_remaining c)); lia. }
  rewrite E. reflexivity.
Qed.

Lemma pre_inv s c : pre s c -> state c = Running -> Forall (fun p => state p = Zombie) (defunct s) ->
  NoDup (map pid (alive s ++ defunct s)) -> inv s.
Proof.
  intros [Hi Hc _ Hslot Hidle Hr Hb _ Hsl] Hrun Hd Hnd. split; auto.
  exists c. split_and!; auto. intros E. apply Hslot, E.
Qed.

Lemma tick_inv saved s : inv s ->
  inv (fst (tick saved s)) /\ conserves (OpTick saved) s (fst (tick saved s)).
Proof.
  intros Hs. destruct (inv_pre s Hs) as (c & Hp & Hrun & Hc).
  pose proof (inv_current_slice s c Hs Hc) as Hsl. unfold slice_ok in Hsl.
  rewrite (tick_spec saved s c Hs Hc).
  set (rem := Z.max 0 (time_slice_remaining c - 1)).
  destruct (mark_schedule saved s c Running rem Hs Hc) as (Hp1 & Hi1 & Hperm);
    [congruence|congruence|lia|].
  destruct (rem =? 0); simpl; [split; [exact Hi1|right; exact Hperm]|].
  assert (E : map ident (alive (set_current s (Some (set_slice (set_state c Running) rem))) ++ defunct s)
              = map ident (alive s ++ defunct s)).
  { rewrite !map_app, (alive_set_current s c) by auto. reflexivity. }
  split; [|left; apply reflexive_eq, E].
  apply (pre_inv _ _ Hp1); [reflexivity|exact (inv_defunct s Hs)|].
  rewrite map_pid_ident. cbn [defunct set_current]. rewrite E, <- map_pid_ident. apply (inv_pids s Hs).
Qed.

Lemma unblock_spec s p : inv s ->
  exists r s', unblock s p = Ret (r, s') /\ inv s' /\ conserves (OpUnblock p) s s' /\
  match r with
  | Ok _ => exists x, x ∈ blocked s /\ pid x = p /\ blocked s ≡ₚ x :: blocked s' /\
      ready s' = ready s ++ [set_slice (set_state x Ready) (default_time_slice x)]
  | Err e => e = NoSuchBlockedPid /\ (p ∉ map pid (blocked s)) /\ s' = s
  end.
Proof.
  intros Hs. unfold unblock. destruct (position p (blocked s)) as [i|] eqn:Hpos.
  2:{ eexists _, s. split; [reflexivity|]. apply position_none in Hpos.
      split_and!; [exact Hs|simpl; reflexivity|reflexivity|exact Hpos|reflexivity]. }
  destruct (position_spec p _ i Hpos) as (x & Hx & Hpx).
  destruct (swap_remove_spec _ i x Hx) as (rest & -> & Hperm).
  eexists _, _. split; [reflexivity|].
  pose proof Hs as [Hi (c & Hc & Hrun & Hslot) Hidle Hr Hb Hd Hnd Hsl].
  assert (Hcons : forall s', current s' = current s -> idle s' = idle s -> defunct s' = defunct s ->
    blocked s' = rest -> ready s' = ready s ++ [set_slice (set_state x Ready) (default_time_slice x)] ->
    map ident (alive s' ++ defunct s') ≡ₚ map ident (alive s ++ defunct s)).
  { intros s' E0 E1 E2 E3 E4. unfold alive. rewrite E0, E1, E2, E3, E4, Hperm.
    rewrite !map_app. simpl. change (ident (set_slice (set_state x Ready) (default_time_slice x))) with (ident x).
    solve_Permutation. }
  assert (Hslx : slice_ok x /\ Forall slice_ok rest).
  { unfold alive in Hsl. rewrite Hperm, !Forall_app, Forall_cons in Hsl. tauto. }
  split_and!.
  - split; simpl.
    + exact Hi.
    + exists c. auto.
    + exact Hidle.
    + apply Forall_app. split; [exact Hr|repeat constructor].
    + rewrite Hperm, Forall_cons in Hb. apply Hb.
    + exact Hd.
    + rewrite (ident_perm_pids _ (alive s ++ defunct s)); [exact Hnd|].
      apply (Hcons (mkScheduler _ _ _ _ _ _)); reflexivity.
    + unfold alive in *. simpl. rewrite !Forall_app in *. destruct Hslx as [[Hx1 Hx2] Hx3].
      split_and!; try apply Hsl; [|exact Hx3]. repeat constructor; simpl; lia.
  - apply Hcons; reflexivity.
  - exists x. split_and!; [eapply list_elem_of_lookup_2; exact Hx|exact Hpx|exact Hperm|reflexivity].
Qed.

Lemma spawn_inv s p : inv s -> legal s (OpSpawn p) ->
  inv (snd (spawn s p)) /\ conserves (OpSpawn p) s (snd (spawn s p)).
Proof.
  intros Hs [Hfresh Hds]. pose proof Hs as [Hi (c & Hc & Hrun & Hslot) Hidle Hr Hb Hd Hnd Hsl].
  assert (Hcons : conserves (OpSpawn p) s (snd (spawn s p))).
  { unfold conserves, alive, spawn. simpl. rewrite !map_app. simpl.
    change (ident (set_slice (set_state p Ready) (default_time_slice p))) with (ident p). solve_Permutation. }
  split; [|exact Hcons]. split; simpl.
  - exact Hi.
  - exists c. auto.
  - exact Hidle.
  - apply Forall_app. split; [exact Hr|repeat constructor].
  - exact Hb.
  - exact Hd.
  - rewrite (ident_perm_pids _ (p :: alive s ++ defunct s)); [|exact Hcons].
    constructor; assumption.
  - unfold alive in *. simpl. rewrite !Forall_app in *.
    split_and!; try apply Hsl. repeat constructor; simpl; lia.
Qed.

Lemma exec_spec o s :
  inv s -> legal s o -> exists s', exec o s = Ret s' /\ inv s' /\ conserves o s s'.
Proof.
  intros Hs Hl. destruct (inv_pre s Hs) as (c & Hp & Hrun & Hc).
  pose proof (inv_current_slice s c Hs Hc) as Hsl. unfold slice_ok in Hsl.
  destruct o as [saved|saved|saved|saved|p|p]; simpl exec.
  - eexists. split; [reflexivity|]. apply tick_inv, Hs.
  - eexists. split; [reflexivity|]. split; [eapply schedule_inv, Hp|].
    apply (schedule_perm saved s c Hp).
  - assert (Hne : pid c <> PID_IDLE).
    { intros E. apply Hl. unfold current_pid. rewrite Hc. simpl. rewrite E. reflexivity. }
    unfold exit_current. rewrite Hc.
    destruct (mark_schedule saved s c Zombie 0 Hs Hc) as (Hp1 & Hi1 & Hperm); [auto|discriminate|lia|].
    destruct (schedule_switches saved _ _ Hp1) as (s' & n & E); [discriminate|].
    rewrite E in *. exists s'. auto.
  - assert (Hne : pid c <> PID_IDLE).
    { intros E. apply Hl. unfold current_pid. rewrite Hc. simpl. rewrite E. reflexivity. }
    unfold block_current. rewrite Hc.
    destruct (mark_schedule saved s c Blocked (time_slice_remaining c) Hs Hc) as (Hp1 & Hi1 & Hperm);
      [auto|discriminate|lia|]. rewrite set_slice_id in *. eauto.
  - destruct (unblock_spec s p Hs) as (r & s' & -> & Hi' & Hcons & _). eauto.
  - eexists. split; [reflexivity|]. apply spawn_inv; assumption.
Qed.

(** ** Waiting times *)

(** Process [p] is [k] places behind the front of the queue. *)
Definition waiting (s : Scheduler) (p : Z) (k : nat) : Prop :=
  exists x, ready s !! k = Some x /\ pid x = p.

(** All time slices are at most [D]. *)
Definition bounded (D : Z) (s : Scheduler) : Prop :=
  Forall (fun x => default_time_slice x <= D) (alive s ++ defunct s).

Lemma bounded_ident D l :
  Forall (fun x => default_time_slice x <= D) l <-> Forall (fun i => i.2 <= D) (map ident l).
Proof. rewrite Forall_map. reflexivity. Qed.

Lemma bounded_exec D o s s' :
  bounded D s -> (forall q, o = OpSpawn q -> default_time_slice q <= D) -> conserves o s s' ->
  bounded D s'.
Proof.
  unfold bounded. rewrite !bounded_ident. intros Hb Hq Hc.
  assert (Ha : Forall (fun i => i.2 <= D) (map ident (alive s))).
  { rewrite map_app, Forall_app in Hb. apply Hb. }
  destruct o; simpl in Hc; [destruct Hc as [Hc|Hc]|..]; rewrite Hc; try assumption.
  constructor; [apply (Hq proc eq_refl)|assumption].
Qed.

(** One pass through [schedule] brings a waiting process one place forward, or
    onto the CPU. *)
Lemma schedule_wait saved s c p k :
  pre s c -> waiting s p k ->
  exists c', current (fst (schedule saved s)) = Some c' /\
    time_slice_remaining c' = default_time_slice c' /\
    match k with
    | O => pid c' = p
    | S k' => waiting (fst (schedule saved s)) p k'
    end.
Proof.
  intros Hp (x & Hx & Hpx). destruct (ready s) as [|n rest] eqn:Hr; [discriminate|].
  rewrite (schedule_queue saved s c n rest) by assumption. exists (dispatched n).
  assert (Hcur : current (fst (let c' := put_away saved c in
     match state c with
     | Running => if pid c =? PID_IDLE
         then mkScheduler true rest (Some (dispatched n)) (Some c') (blocked s) []
         else mkScheduler true (rest ++ [c']) (Some (dispatched n)) (idle s) (blocked s) []
     | Blocked => mkScheduler true rest (Some (dispatched n)) (idle s) (blocked s ++ [c']) []
     | _ => mkScheduler true rest (Some (dispatched n)) (idle s) (blocked s) [c']
     end, Some (kernel_rsp n))) = Some (dispatched n)).
  { simpl. destruct (state c); try reflexivity. destruct (pid c =? PID_IDLE); reflexivity. }
  split; [exact Hcur|]. split; [reflexivity|]. destruct k as [|k]; simpl in Hx.
  - injection Hx as ->. exact Hpx.
  - exists x. split; [|exact Hpx]. simpl.
    destruct (state c); [|destruct (pid c =? PID_IDLE)|..]; simpl; try exact Hx;
      apply lookup_app_l_Some; exact Hx.
Qed.

Definition is_tick (o : op) : bool := match o with OpTick _ => true | _ => false end.
Definition ticks (ops : list op) : Z := Z.of_nat (length (filter is_tick ops)).

(** The ticks process [p] can still have to wait. *)
Definition patience (D : Z) (k : nat) (c : Process) : Z :=
  D * Z.of_nat k + Z.max 1 (time_slice_remaining c).

Lemma unblock_frame s p r s' :
  unblock s p = Ret (r, s') -> current s' = current s /\ exists l, ready s' = ready s ++ l.
Proof.
  unfold unblock. destruct (position p (blocked s)) as [i|].
  - destruct (swap_remove (blocked s) i) as [[x rest]|]; intros [= <- <-]. simpl. eauto.
  - intros [= <- <-]. split; [reflexivity|exists []; symmetry; apply app_nil_r].
Qed.

Lemma waiting_app s s' p k l : ready s' = ready s ++ l -> waiting s p k -> waiting s' p k.
Proof. intros E (x & Hx & Hp). exists x. rewrite E. split; [apply lookup_app_l_Some, Hx|exact Hp]. Qed.

Lemma set_current_id s c : current s = Some c -> set_current s (Some c) = s.
Proof. intros H. destruct s; simpl in *. subst. reflexivity. Qed.

(** Marking the current task and switching brings a waiting process forward. *)
Lemma switch_wait D saved s c st n p k :
  bounded D s -> 1 <= D -> current s = Some c -> waiting s p k ->
  let s1 := set_current s (Some (set_slice (set_state c st) n)) in
  let s' := fst (schedule saved s1) in
  pre s1 (set_slice (set_state c st) n) ->
  current_pid s' = Some p \/
  exists k' c', waiting s' p k' /\ current s' = Some c' /\ patience D k' c' + 1 <= patience D k c.
Proof.
  intros Hb HD Hc Hw s1 s' Hp1.
  destruct (schedule_wait saved _ _ p k Hp1) as (c' & Hc' & Hrem & Hk); [exact Hw|]. fold s' in Hc', Hk.
  destruct k as [|k]; [left; unfold current_pid; rewrite Hc'; simpl; congruence|right].
  exists k, c'. split_and!; [exact Hk|exact Hc'|]. unfold patience.
  assert (Hbs : bounded D s').
  { unfold bounded, s' in *. rewrite bounded_ident in *.
    rewrite (schedule_perm saved _ _ Hp1). unfold s1. rewrite (alive_set_current s c) by auto.
    rewrite map_app, Forall_app in Hb. apply Hb. }
  unfold bounded, alive in Hbs. rewrite Hc' in Hbs. inversion Hbs. lia.
Qed.

(** After one operation the process is on the CPU or still waiting, with a
    patience that a tick has made smaller. *)
Lemma exec_wait D o s s' p k c :
  inv s -> legal s o -> bounded D s -> 1 <= D -> current s = Some c -> waiting s p k ->
  exec o s = Ret s' ->
  current_pid s' = Some p \/
  exists k' c', waiting s' p k' /\ current s' = Some c' /\
    patience D k' c' + (if is_tick o then 1 else 0) <= patience D k c.
Proof.
  intros Hs Hl Hb HD Hc Hw He. destruct (inv_pre s Hs) as (c0 & Hp & Hrun & Hc0).
  assert (c0 = c) as -> by congruence.
  pose proof (inv_current_slice s c Hs Hc) as Hsl. unfold slice_ok in Hsl.
  pose proof (fun saved st n => switch_wait D saved s c st n p k Hb HD Hc Hw) as Hsw.
  assert (Hid : set_slice (set_state c Running) (time_slice_remaining c) = c)
    by (rewrite set_slice_id, <- Hrun; apply set_state_id).
  assert (Hkeep : forall l, ready s' = ready s ++ l -> current s' = current s ->
    exists k' c', waiting s' p k' /\ current s' = Some c' /\ patience D k' c' + 0 <= patience D k c).
  { intros l El Ec. exists k, c. split_and!; [eapply waiting_app; eassumption|congruence|lia]. }
  destruct o as [saved|saved|saved|saved|q|q]; simpl exec in He; simpl is_tick; cbv iota.
  - rewrite (tick_spec saved s c Hs Hc) in He.
    set (rem := Z.max 0 (time_slice_remaining c - 1)) in *.
    destruct (mark_schedule saved s c Running rem Hs Hc) as (Hp1 & _); [congruence|congruence|lia|].
    destruct (Z.eqb_spec rem 0) as [E|E]; injection He as <-.
    + apply Hsw, Hp1.
    + right. exists k, (set_slice (set_state c Running) rem). split_and!; [exact Hw|reflexivity|].
      unfold patience. simpl. lia.
  - injection He as <-. specialize (Hsw saved Running (time_slice_remaining c)).
    rewrite Hid, set_current_id in Hsw by assumption.
    destruct (Hsw Hp) as [|(k' & c' & H1 & H2 & H3)]; [auto|]. right. exists k', c'. split_and!; auto; lia.
  - unfold exit_current in He. rewrite Hc in He.
    destruct (mark_schedule saved s c Zombie 0 Hs Hc) as (Hp1 & _); [|discriminate|lia|].
    { intros _ E. apply Hl. unfold current_pid. rewrite Hc. simpl. congruence. }
    specialize (Hsw saved Zombie 0 Hp1).
    destruct (schedule saved _) as [s1 [n|]] eqn:E; [|discriminate]. injection He as ->.
    destruct Hsw as [|(k' & c' & H1 & H2 & H3)]; [auto|]. right. exists k', c'. split_and!; auto; lia.
  - unfold block_current in He. rewrite Hc in He. injection He as <-.
    destruct (mark_schedule saved s c Blocked (time_slice_remaining c) Hs Hc) as (Hp1 & _);
      [|discriminate|lia|].
    { intros _ E. apply Hl. unfold current_pid. rewrite Hc. simpl. congruence. }
    destruct (Hsw saved Blocked (time_slice_remaining c) Hp1) as [|(k' & c' & H1 & H2 & H3)]; [auto|]. right. exists k', c'. split_and!; auto; lia.
  - right. destruct (unblock s q) as [[r s1]|] eqn:E; [|discriminate]. injection He as ->.
    destruct (unblock_frame s q r s' E) as [Ec [l El]]. eauto.
  - right. injection He as <-. eapply Hkeep; reflexivity.
Qed.

(** The operations of a run, each within the callers' contract when its turn
    comes, with time slices at most [D]. *)
Fixpoint legal_run (D : Z) (s : Scheduler) (ops : list op) : Prop :=
  match ops with
  | [] => True
  | o :: ops' => legal s o /\ (forall q, o = OpSpawn q -> default_time_slice q <= D) /\
      forall s', exec o s = Ret s' -> legal_run D s' ops'
  end.

Fixpoint run (ops : list op) (s : Scheduler) : outcome Scheduler :=
  match ops with
  | [] => Ret s
  | o :: ops' => match exec o s with Ret s' => run ops' s' | Panic => Panic end
  end.

Lemma wait_run D p ops : 1 <= D -> forall s k c,
  inv s -> bounded D s -> legal_run D s ops -> current s = Some c -> waiting s p k ->
  patience D k c <= ticks ops ->
  exists ops1 ops2 s1, ops = ops1 ++ ops2 /\ run ops1 s = Ret s1 /\ current_pid s1 = Some p.
Proof.
  intros HD. induction ops as [|o ops IH]; intros s k c Hs Hb Hl Hc Hw Ht.
  { unfold patience, ticks in Ht. simpl in Ht. lia. }
  destruct Hl as (Hlo & Hq & Hrest). destruct (exec_spec o s Hs Hlo) as (s' & He & Hs' & Hcons).
  destruct (exec_wait D o s s' p k c Hs Hlo Hb HD Hc Hw He) as [Hdone|(k' & c' & Hw' & Hc' & Hpat)].
  - exists [o], ops, s'. simpl. rewrite He. auto.
  - destruct (IH s' k' c' Hs' (bounded_exec D o s s' Hb Hq Hcons) (Hrest s' He) Hc' Hw')
      as (ops1 & ops2 & s1 & -> & Hr & Hp).
    + unfold ticks in *. rewrite filter_cons in Ht. destruct (is_tick o); simpl in Ht; lia.
    + exists (o :: ops1), ops2, s1. simpl. rewrite He. auto.
Qed.

(** ** Properties *)

(** C21. Every operation, used within its contract, returns without a panic and
    keeps the scheduler consistent: one Running current task, Ready tasks in the
    queue, Blocked and Zombie ones in their lists, the idle task either in its
    slot or on the CPU and nowhere else, PIDs unique, slices in range.  No process
    is lost or duplicated, and none ever changes owner or stack: only tasks that
    exited before a run of [schedule] disappear. *)
Theorem exec_keeps_invariant o s :
  inv s -> legal s o -> exists s', exec o s = Ret s' /\ inv s' /\ conserves o s s'.
Proof. apply exec_spec. Qed.

(** C22. Bounded waiting: a process [k] places behind the front of the ready
    queue gets the CPU within [D * (k + 1)] timer ticks, [D] bounding the time
    slices, whatever spawns, yields, blocks, wake-ups and exits happen between
    the ticks. *)
Theorem ready_process_runs_within D s ops p k :
  1 <= D -> inv s -> bounded D s -> legal_run D s ops -> waiting s p k ->
  D * (Z.of_nat k + 1) <= ticks ops ->
  exists ops1 ops2 s1, ops = ops1 ++ ops2 /\ run ops1 s = Ret s1 /\ current_pid s1 = Some p.
Proof.
  intros HD Hs Hb Hl Hw Ht. destruct (inv_pre s Hs) as (c & _ & _ & Hc).
  apply (wait_run D p ops HD s k c); auto.
  pose proof (inv_current_slice s c Hs Hc) as Hsl. unfold slice_ok, patience in *.
  unfold bounded, alive in Hb. rewrite Hc in Hb. inversion Hb. lia.
Qed.

(** A task that exits always leaves the CPU (the [unreachable!] is not
    reached), is in no live list afterwards, is parked alone in [defunct] so that
    its stack outlives the switch, and is gone after the next [schedule]. *)
Theorem exit_current_reaps s c saved saved' :
  inv s -> current s = Some c -> pid c <> PID_IDLE ->
  exists s' n, exit_current saved s = Ret (s', n) /\
    map ident (defunct s') = [ident c] /\ (pid c ∉ map pid (alive s')) /\
    current_pid s' <> Some (pid c) /\
    (pid c ∉ map pid (alive (fst (schedule saved' s')) ++ defunct (fst (schedule saved' s')))).
Proof.
  intros Hs Hc Hne. destruct (inv_pre s Hs) as (c0 & _ & Hrun & Hc0).
  assert (c0 = c) as -> by congruence.
  pose proof (inv_current_slice s c Hs Hc) as Hsl. unfold slice_ok in Hsl.
  destruct (mark_schedule saved s c Zombie 0 Hs Hc) as (Hp1 & Hi1 & _); [auto|discriminate|lia|].
  destruct (schedule_switches saved _ _ Hp1) as (s' & n & E); [discriminate|].
  unfold exit_current. rewrite Hc, E in *. exists s', n. split; [reflexivity|].
  assert (Hd : map ident (defunct s') = [ident c]).
  { destruct (ready s) as [|x rest] eqn:Hr.
    - destruct (idle s) as [i|] eqn:Hid; [|destruct (pre_idle_slot _ _ Hp1 Hid); discriminate].
      rewrite (schedule_idle saved _ _ i Hp1 Hr ltac:(discriminate) Hid) in E. simpl in E.
      injection E as <- _. reflexivity.
    - rewrite (schedule_queue saved _ _ x rest Hp1 Hr) in E. simpl in E. injection E as <- _. reflexivity. }
  assert (Hout : pid c ∉ map pid (alive s')).
  { pose proof (inv_pids s' Hi1) as Hnd. rewrite map_app in Hnd. apply NoDup_app in Hnd as (_ & Hdis & _).
    intros Hin. apply (Hdis _ Hin). rewrite (map_pid_ident (defunct s')), Hd. constructor. }
  split_and!; [exact Hd|exact Hout| |].
  - unfold current_pid, alive in *. destruct (current s'); simpl in *; [|discriminate].
    intros [= Heq]. apply Hout. rewrite Heq. constructor.
  - destruct (inv_pre s' Hi1) as (c' & Hp' & _).
    rewrite (ident_perm_pids _ _ (schedule_perm saved' s' c' Hp')). exact Hout.
Qed.

(** ** A concrete kernel *)

Definition boot_sched : Scheduler := fst (snd (init 0x777 (fun _ => 0) new KERNEL_OWNER 0x10000 IDLE_STACK_SIZE 0x500)).

Definition demo_proc (p : Z) : Process := mkProcess 0x20000 p 7 "task" Ready 0x20000 4096 10 10.

(** The bootstrap thread running with two tasks queued. *)
Definition demo : Scheduler := snd (spawn (snd (spawn boot_sched (demo_proc 2))) (demo_proc 3)).

Lemma boot_inv : inv boot_sched.
Proof.
  split; simpl.
  - reflexivity.
  - eexists. split_and!; [reflexivity..|discriminate].
  - intros i [= <-]. auto.
  - constructor.
  - constructor.
  - constructor.
  - apply (bool_decide_unpack _). vm_compute. exact I.
  - repeat constructor; simpl; unfold DEFAULT_TIME_SLICE; lia.
Qed.

Lemma sched_demo_inv : inv demo.
Proof.
  apply spawn_inv; [apply spawn_inv; [exact boot_inv|]|]; (split; [|simpl; lia]);
    apply (bool_decide_unpack _); vm_compute; exact I.
Qed.

Lemma exec_keeps_invariant_witness : exists s', exec (OpExit 0x8000) demo = Ret s' /\ inv s'.
Proof.
  destruct (exec_keeps_invariant (OpExit 0x8000) demo sched_demo_inv) as (s' & E & Hi & _).
  - vm_compute. congruence.
  - exists s'. split; assumption.
Defined.

Lemma demo_legal_run n s : legal_run 10 s (repeat (OpTick 0x8000) n).
Proof. revert s. induction n; simpl; intros s; [exact I|]. split_and!; [exact I|discriminate|auto]. Qed.

Lemma ready_process_runs_within_witness :
  exists ops1 ops2 s1, repeat (OpTick 0x8000) 20 = ops1 ++ ops2 /\ run ops1 demo = Ret s1 /\
    current_pid s1 = Some 3.
Proof.
  apply (ready_process_runs_within 10 demo (repeat (OpTick 0x8000) 20) 3 1).
  - lia.
  - exact sched_demo_inv.
  - repeat constructor; simpl; unfold DEFAULT_TIME_SLICE; lia.
  - apply demo_legal_run.
  - eexists. split; reflexivity.
  - vm_compute. congruence.
Defined.

Lemma exit_current_reaps_witness :
  exists s' n, exit_current 0x8000 demo = Ret (s', n) /\
    (0 ∉ map pid (alive s')) /\ current_pid s' <> Some 0.
Proof.
  destruct (exit_current_reaps demo (bootstrap KERNEL_OWNER) 0x8000 0x9000 sched_demo_inv)
    as (s' & n & H1 & _ & H2 & H3 & _); [reflexivity|discriminate|].
  exists s', n. split; [exact H1|]. split; assumption.
Defined.

(** The idle task is not always kept out of the ready queue: if it blocks
    and is woken, [unblock] appends it like any other task, and until it runs
    again the idle slot is empty and a task that blocks on an empty queue stays
    on the CPU in state Blocked. *)
Theorem woken_idle_is_enqueued :
  let idle_runs := fst (block_current 0x8000 boot_sched) in
  let woken0 := match unblock idle_runs 0 with Ret (_, s) => s | Panic => new end in
  let idle_blocked := fst (block_current 0x8100 woken0) in
  let woken := match unblock idle_blocked PID_IDLE with Ret (_, s) => s | Panic => new end in
  current_pid idle_runs = Some PID_IDLE /\
  map pid (ready woken) = [PID_IDLE] /\ idle woken = None /\
  current_pid (fst (block_current 0x8200 idle_blocked)) = Some 0 /\
  snd (block_current 0x8200 idle_blocked) = None /\
  option_map state (current (fst (block_current 0x8200 idle_blocked))) = Some Blocked.
Proof. vm_compute. repeat split. Qed.

End Sched.
