(* ===== verification/Tasks.v ===== *)
(** The scheduler on the machine: scheduler/scheduler.rs, mod.rs and context.rs
    put together.  A machine is the kernel state of [Sched] and the registers of
    [Proc]; the stack pointer that [schedule] stores for the outgoing task and
    the one it switches to are here those of [context_switch] itself, and the
    running task computes in between.  The theorems say that tasks do not notice
    each other. *)

From Stdlib Require Import ZArith Lia.
From stdpp Require Import base list strings sets.
From S2P Require Import Prelude Process Scheduler.

Open Scope Z_scope.

Module Tasks.
Import Proc Sched.

(** ** The machine *)

Record Machine := mkMachine { kern : Kernel; cpu : Cpu }.

Definition sched (M : Machine) : Scheduler := k_sched (kern M).
Definition mem (M : Machine) : memory := k_mem (kern M).

Definition set_sched (M : Machine) (s : Scheduler) : Machine :=
  mkMachine (mkKernel s (k_next_pid (kern M)) (mem M) (k_intf (kern M))) (cpu M).

(** What [context_switch] stores through [prev_rsp_save] depends on the outgoing
    task alone. *)
Definition saved_by (M : Machine) : Z := fst (context_switch (cpu M) (mem M) 0).

(** The end of [schedule]: the call of [context_switch], if it is reached. *)
Definition finish (M : Machine) (r : Scheduler * option Z) : Machine :=
  match r with
  | (s, None) => set_sched M s
  | (s, Some n) =>
      let '(_, (c, m)) := context_switch (cpu M) (mem M) n in
      mkMachine (mkKernel s (k_next_pid (kern M)) m (k_intf (kern M))) c
  end.

(** What can happen next: the timer, the module's entry points called by the
    running task, or the running task computing on its own. *)
Inductive act :=
| Tick
| Yield
| Exit
| Block
| Unblock (p : Z)
| Spawn (name : string) (owner entry base size : Z)
| Compute (c : Cpu) (m : memory).

Section Machine.
Context (trampoline : Z) (boot_stack : Z * Z).

Definition perform (a : act) (M : Machine) : outcome Machine :=
  let saved := saved_by M in
  match a with
  | Tick => Ret (finish M (tick saved (sched M)))
  | Yield => Ret (finish M (yield_now saved (sched M)))
  | Exit =>
      match exit_current saved (sched M) with
      | Ret (s, n) => Ret (finish M (s, Some n))
      | Panic => Panic
      end
  | Block => Ret (finish M (block_current saved (sched M)))
  | Unblock p =>
      match unblock (sched M) p with Ret (_, s) => Ret (set_sched M s) | Panic => Panic end
  | Spawn name owner entry base size =>
      match mod_spawn trampoline (kern M) name owner entry base size with
      | Ret (_, k) => Ret (mkMachine k (cpu M))
      | Panic => Panic
      end
  | Compute c m =>
      Ret (mkMachine (mkKernel (sched M) (k_next_pid (kern M)) m (k_intf (kern M))) c)
  end.

(** ** Stacks *)

(** The bytes of a task's kernel stack; the bootstrap thread runs on the stack
    the boot code set up, which its control block does not record. *)
Definition stack_of (p : Process) : Z * Z :=
  if pid p =? PID_BOOTSTRAP then boot_stack else (stack_base p, stack_base p + stack_size p).

Definition on_stack (p : Process) (a : Z) : Prop := fst (stack_of p) <= a < snd (stack_of p).

Definition apart (a b : Z * Z) : Prop := snd a <= fst b \/ snd b <= fst a.

Definition owned (s : Scheduler) : list Process := alive s ++ defunct s.

(** Stacks are within memory and disjoint, and every PID has been handed out. *)
Record laid_out (next : Z) (l : list Process) : Prop := {
  lo_range : forall p, p ∈ l -> 0 <= fst (stack_of p) /\ snd (stack_of p) < U64;
  lo_apart : forall p q, p ∈ l -> q ∈ l -> pid p <> pid q -> apart (stack_of p) (stack_of q);
  lo_pids : forall p, p ∈ l -> pid p < next
}.

(** A task that is not running has its frame on its own stack. *)
Definition framed (p : Process) : Prop :=
  fst (stack_of p) <= kernel_rsp p /\ kernel_rsp p + 56 <= snd (stack_of p).

Record good (M : Machine) : Prop := {
  g_inv : inv (sched M);
  g_next : 2 <= k_next_pid (kern M) < U64;
  g_layout : laid_out (k_next_pid (kern M)) (owned (sched M));
  g_frames : forall p, p ∈ alive (sched M) -> current_pid (sched M) <> Some (pid p) -> framed p
}.

(** The running task is about to call [context_switch] on its own stack, with
    room for the six registers below the return address. *)
Definition calls_on_stack (M : Machine) : Prop :=
  forall c, current (sched M) = Some c ->
    fst (stack_of c) + 48 <= rsp (cpu M) /\ rsp (cpu M) + 8 <= snd (stack_of c).

(** The contract of each step.  A computing task leaves the stacks of the
    others alone; the stack of a new task is a fresh allocation. *)
Definition allowed (a : act) (M : Machine) : Prop :=
  match a with
  | Tick | Yield => calls_on_stack M
  | Exit | Block => calls_on_stack M /\ current_pid (sched M) <> Some PID_IDLE
  | Unblock _ => True
  | Spawn _ _ _ base size =>
      0 <= base /\ 80 <= size /\ base + size < U64 /\
      forall p, p ∈ owned (sched M) -> apart (stack_of p) (base, base + size)
  | Compute _ m =>
      forall p x, p ∈ alive (sched M) -> current_pid (sched M) <> Some (pid p) ->
        on_stack p x -> m x = mem M x
  end.

(** Task [p] is suspended: resumed now it would continue with [r], and its
    stack holds what [snap] holds. *)
Definition suspended (p : Z) (r : Resume) (snap : memory) (M : Machine) : Prop :=
  current_pid (sched M) <> Some p /\
  exists x, x ∈ alive (sched M) /\ pid x = p /\ resume_of (mem M) (kernel_rsp x) = r /\
    forall a, on_stack x a -> mem M a = snap a.

(** A stretch of execution during which [p] never has the CPU. *)
Inductive away (p : Z) : Machine -> Machine -> Prop :=
| away_refl M : current_pid (sched M) <> Some p -> away p M M
| away_step M M1 a M2 : away p M M1 -> allowed a M1 -> perform a M1 = Ret M2 ->
    current_pid (sched M2) <> Some p -> away p M M2.

(** ** What an operation of the scheduler does to the other tasks *)

(** [s] is the state before an operation called by [c], [s'] the one after it.
    Without a switch only [c] is touched.  With a switch to [n], a suspended task
    becomes current, [c] is put away with [saved] as its stack pointer, unless it
    is leaving for good, and the others stay as they are. *)
Definition switched (leaves : bool) (s : Scheduler) (c : Process) (saved : Z)
    (s' : Scheduler) (on : option Z) : Prop :=
  match on with
  | None => exists c', current s' = Some c' /\ ident c' = ident c /\
      (forall p, p ∈ alive s' -> p = c' \/ (p ∈ alive s /\ pid p <> pid c)) /\
      (forall p, p ∈ alive s -> pid p <> pid c -> p ∈ alive s')
  | Some n => exists nx, nx ∈ alive s /\ pid nx <> pid c /\ kernel_rsp nx = n /\
      current s' = Some (dispatched nx) /\
      (forall p, p ∈ alive s' ->
         p = dispatched nx \/ (ident p = ident c /\ kernel_rsp p = saved) \/ (p ∈ alive s /\ pid p <> pid c)) /\
      (forall p, p ∈ alive s -> pid p <> pid c -> pid p <> pid nx -> p ∈ alive s') /\
      (leaves = false -> exists p, p ∈ alive s' /\ ident p = ident c /\ kernel_rsp p = saved)
  end.

Lemma put_away_rsp saved c : kernel_rsp (put_away saved c) = saved.
Proof. unfold put_away. destruct (state c); reflexivity. Qed.

Lemma alive_current s c : current s = Some c -> alive s = c :: opt_list (idle s) ++ ready s ++ blocked s.
Proof. intros H. unfold alive. rewrite H. reflexivity. Qed.

Lemma alive_set s c : alive (set_current s (Some c)) = c :: opt_list (idle s) ++ ready s ++ blocked s.
Proof. reflexivity. Qed.

(** PIDs are distinct, so the outgoing task is the only one with its PID. *)
Lemma others_differ s c p :
  NoDup (map pid (alive s)) -> current s = Some c ->
  p ∈ opt_list (idle s) ++ ready s ++ blocked s -> pid p <> pid c.
Proof.
  intros Hnd Hc Hp E. rewrite (alive_current s c Hc) in Hnd. simpl in Hnd.
  apply NoDup_cons in Hnd as [Hn _]. apply Hn. rewrite <- E. apply list_elem_of_fmap_2, Hp.
Qed.

(** A switch to [nx] that was one of the suspended tasks; [keep] is what else
    remains. *)
Lemma switched_intro leaves s c saved s' nx keep :
  NoDup (map pid (alive s)) -> current s = Some c ->
  opt_list (idle s) ++ ready s ++ blocked s ≡ₚ nx :: keep ->
  current s' = Some (dispatched nx) ->
  alive s' ≡ₚ dispatched nx :: (if leaves : bool then [] else [put_away saved c]) ++ keep ->
  switched leaves s c saved s' (Some (kernel_rsp nx)).
Proof.
  intros Hnd Hc Hperm Hc' Hal.
  assert (Hoth : forall p, p ∈ nx :: keep -> pid p <> pid c).
  { intros p Hp. apply (others_differ s c p Hnd Hc). rewrite Hperm. exact Hp. }
  assert (Hold : forall p, p ∈ alive s <-> p = c \/ p ∈ nx :: keep).
  { intros p. rewrite (alive_current s c Hc), elem_of_cons, Hperm. reflexivity. }
  exists nx. split_and!; [apply Hold; right; constructor|apply Hoth; constructor|reflexivity|exact Hc'|..].
  - intros p. rewrite Hal. intros Hp. apply elem_of_cons in Hp as [->|Hp]; [auto|].
    apply elem_of_app in Hp as [Hp|Hp].
    + destruct leaves; [inversion Hp|]. apply list_elem_of_singleton in Hp as ->.
      right; left. split; [apply ident_put_away|apply put_away_rsp].
    + right; right. split; [apply Hold|apply Hoth]; auto using list_elem_of_further.
  - intros p Hp Hne Hnn. rewrite Hal. apply Hold in Hp as [->|Hp]; [congruence|].
    apply elem_of_cons in Hp as [->|Hp]; [congruence|]. apply elem_of_cons; right. apply elem_of_app; auto.
  - intros ->. exists (put_away saved c). split_and!; [|apply ident_put_away|apply put_away_rsp].
    rewrite Hal. right. left.
Qed.

Lemma schedule_switched saved s c :
  pre s c ->
  switched (bool_decide (state c = Zombie)) s c saved (fst (schedule saved s)) (snd (schedule saved s)).
Proof.
  intros Hp. pose proof Hp as [_ Hc Hst Hslot _ _ _ Hnd _]. pose proof (pre_idle_excl s c Hp) as Hexcl.
  destruct (ready s) as [|n rest] eqn:Hr.
  - destruct (decide (state c = Running)) as [Hrun|Hnr].
    + rewrite (schedule_stays saved s c) by assumption.
      assert (E : alive (mkScheduler true [] (Some c) (idle s) (blocked s) []) = alive s).
      { unfold alive. rewrite Hc, Hr. reflexivity. }
      exists c. simpl fst. rewrite E. split_and!; [reflexivity..| |auto].
      intros p Hin. pose proof (alive_current s c Hc) as Ha. rewrite Ha in Hin.
      apply elem_of_cons in Hin as [->|Hin]; [auto|]. right.
      split; [rewrite Ha; right; exact Hin|apply (others_differ s c); assumption].
    + destruct (idle s) as [i|] eqn:Hid; [|destruct (Hslot eq_refl); contradiction].
      rewrite (schedule_idle saved s c i) by assumption.
      apply (switched_intro _ _ _ _ _ i (blocked s) Hnd Hc); [rewrite Hid, Hr; reflexivity|..];
        destruct (state c) eqn:E; try contradiction; try reflexivity; unfold alive; simpl; solve_Permutation.
  - rewrite (schedule_queue saved s c n rest) by assumption.
    apply (switched_intro _ _ _ _ _ n (opt_list (idle s) ++ rest ++ blocked s) Hnd Hc);
      [rewrite Hr; solve_Permutation|..];
      destruct (state c) eqn:E; try contradiction; try reflexivity; unfold alive; simpl;
      try destruct (Z.eqb_spec (pid c) PID_IDLE) as [Hpid|]; try reflexivity; simpl;
      try rewrite (Hexcl Hpid); solve_Permutation.
Qed.
(** Charging a tick to the current task, or marking it, first. *)
Lemma switched_mark leaves s c c1 saved s' on :
  current s = Some c -> ident c1 = ident c ->
  NoDup (map pid (alive s)) ->
  switched leaves (set_current s (Some c1)) c1 saved s' on -> switched leaves s c saved s' on.
Proof.
  intros Hc Hid Hnd. assert (Hpid : pid c1 = pid c) by (injection Hid; auto).
  assert (Hold : forall p, pid p <> pid c -> p ∈ alive (set_current s (Some c1)) <-> p ∈ alive s).
  { intros p Hne. rewrite (alive_current s c Hc), alive_set, !elem_of_cons. simpl.
    split; (intros [->|?]; [congruence|auto]). }
  unfold switched. rewrite Hid, Hpid. destruct on as [n|].
  - intros (nx & H1 & H2 & H3 & H4 & H5 & H6 & H7). exists nx. split_and!; auto; [apply Hold; auto| |].
    + intros p Hp. destruct (H5 p Hp) as [|[|[H H']]]; auto. right; right. rewrite <- Hold by auto. auto.
    + intros p Hp Hne Hnn. apply H6; auto. apply Hold; auto.
  - intros (c' & H1 & H2 & H3 & H4). exists c'. split_and!; auto.
    + intros p Hp. destruct (H3 p Hp) as [|[H H']]; auto. right. rewrite <- Hold by auto. auto.
    + intros p Hp Hne. apply H4; auto. apply Hold; auto.
Qed.

Definition is_switch (a : act) : bool :=
  match a with Tick | Yield | Exit | Block => true | _ => false end.
Definition is_exit (a : act) : bool := match a with Exit => true | _ => false end.

Definition op_of (a : act) (saved : Z) : op :=
  match a with
  | Tick => OpTick saved
  | Exit => OpExit saved
  | Block => OpBlock saved
  | _ => OpYield saved
  end.

(** The owners and stacks of the tasks kept are those of tasks there before. *)
Definition kept (s s' : Scheduler) : Prop :=
  forall i, i ∈ map ident (owned s') -> i ∈ map ident (owned s).

Lemma conserves_kept o s s' :
  conserves o s s' -> (forall q, o <> OpSpawn q) -> kept s s'.
Proof.
  intros H Hns i. unfold owned.
  assert (Hsub : i ∈ map ident (alive s) -> i ∈ map ident (alive s ++ defunct s))
    by (rewrite map_app, elem_of_app; auto).
  destruct o; simpl in H; [destruct H as [H|H]|..]; try (rewrite H; auto; fail).
  destruct (Hns proc eq_refl).
Qed.

Lemma switch_cases a M c :
  inv (sched M) -> current (sched M) = Some c -> is_switch a = true ->
  ((a = Exit \/ a = Block) -> current_pid (sched M) <> Some PID_IDLE) ->
  exists s' on, perform a M = Ret (finish M (s', on)) /\
    switched (is_exit a) (sched M) c (saved_by M) s' on /\ inv s' /\ kept (sched M) s'.
Proof.
  intros Hs Hc Hsw Hlegal. set (sv := saved_by M).
  assert (Hl : legal (sched M) (op_of a sv)) by (destruct a; try discriminate; simpl; auto).
  destruct (exec_spec (op_of a sv) (sched M) Hs Hl) as (s' & He & Hi & Hcons).
  assert (Hk : kept (sched M) s') by (apply (conserves_kept _ _ _ Hcons); destruct a; discriminate).
  destruct (inv_pre _ Hs) as (c0 & Hp & Hrun & Hc0). assert (c0 = c) as -> by congruence.
  pose proof (pre_pids _ _ Hp) as Hnd. pose proof (inv_current_slice _ _ Hs Hc) as Hsl. unfold slice_ok in Hsl.
  assert (Hnot : (a = Exit \/ a = Block) -> pid c <> PID_IDLE).
  { intros Ha E. apply (Hlegal Ha). unfold current_pid. rewrite Hc. simpl. congruence. }
  assert (Hmark : forall st n, (st <> Running -> pid c <> PID_IDLE) -> st <> Ready ->
    0 <= n <= default_time_slice c ->
    let r := schedule sv (set_current (sched M) (Some (set_slice (set_state c st) n))) in
    switched (bool_decide (st = Zombie)) (sched M) c sv (fst r) (snd r)).
  { intros st n H1 H2 H3 r. eapply switched_mark; [exact Hc| |exact Hnd|].
    2: apply (schedule_switched sv _ _ (pre_mark _ _ _ _ Hp Hrun H1 H2 H3)). reflexivity. }
  destruct a; try discriminate; simpl in He; unfold perform; fold sv.
  - injection He as <-. rewrite (tick_spec sv _ c Hs Hc) in *.
    set (rem := Z.max 0 (time_slice_remaining c - 1)) in *.
    destruct (Z.eqb_spec rem 0) as [E|E].
    + eexists _, _. split; [rewrite <- surjective_pairing; reflexivity|]. split; [|auto].
      apply (Hmark Running); [congruence|congruence|lia].
    + eexists _, None. split; [reflexivity|]. split; [|auto].
      apply (switched_mark _ _ _ (set_slice (set_state c Running) rem) _ _ _ Hc eq_refl Hnd).
      exists (set_slice (set_state c Running) rem). split_and!; [reflexivity..| |auto].
      intros p Hin. rewrite alive_set in Hin.
      apply elem_of_cons in Hin as [->|Hin]; [auto|]. right.
      split; [rewrite alive_set; right; exact Hin|].
      apply (others_differ _ c p Hnd Hc Hin).
  - injection He as <-. eexists _, _. split; [rewrite <- surjective_pairing; reflexivity|]. split; [|auto].
    pose proof (schedule_switched sv _ _ Hp) as H. rewrite Hrun in H. exact H.
  - unfold exit_current in *. rewrite Hc in *.
    pose proof (Hmark Zombie 0 ltac:(auto) ltac:(discriminate) ltac:(lia)) as H. simpl in H.
    destruct (schedule sv _) as [s1 [n|]]; [|discriminate]. injection He as <-. exists s1, (Some n). auto.
  - injection He as <-. unfold block_current in *. rewrite Hc in *.
    pose proof (Hmark Blocked (time_slice_remaining c) ltac:(auto) ltac:(discriminate) ltac:(lia)) as H.
    rewrite set_slice_id in H. eexists _, _. split; [rewrite <- surjective_pairing; reflexivity|]. auto.
Qed.

(** ** Stacks under the operations *)

Lemma stack_of_ident p q : ident p = ident q -> stack_of p = stack_of q.
Proof. unfold ident, stack_of. intros [= -> _ _ -> -> _]. reflexivity. Qed.

Lemma pid_ident p q : ident p = ident q -> pid p = pid q.
Proof. unfold ident. intros [= -> _ _ _ _ _]. reflexivity. Qed.

Lemma laid_out_ident next l l' :
  (forall i, i ∈ map ident l' -> i ∈ map ident l) -> laid_out next l -> laid_out next l'.
Proof.
  intros Hsub [Hr Ha Hp].
  assert (H : forall p, p ∈ l' -> exists q, q ∈ l /\ ident p = ident q).
  { intros p Hin. apply (list_elem_of_fmap_2 ident), Hsub, list_elem_of_fmap in Hin as (q & E & Hq). eauto. }
  split.
  - intros p Hin. destruct (H p Hin) as (q & Hq & E). rewrite (stack_of_ident p q E). auto.
  - intros p q Hin Hin' Hne. destruct (H p Hin) as (p' & Hp' & E), (H q Hin') as (q' & Hq' & E').
    rewrite (stack_of_ident p p' E), (stack_of_ident q q' E'). apply Ha; auto.
    rewrite <- (pid_ident p p' E), <- (pid_ident q q' E'). exact Hne.
  - intros p Hin. destruct (H p Hin) as (q & Hq & E). rewrite (pid_ident p q E). auto.
Qed.

Lemma alive_owned s p : p ∈ alive s -> p ∈ owned s.
Proof. unfold owned. rewrite elem_of_app. auto. Qed.

Lemma same_pid s p q : inv s -> p ∈ alive s -> q ∈ alive s -> pid p = pid q -> p = q.
Proof.
  intros Hs Hp Hq E. pose proof (inv_pids s Hs) as Hnd. rewrite map_app in Hnd.
  apply NoDup_app in Hnd as (Hnd & _ & _).
  apply list_elem_of_lookup in Hp as [i Hi], Hq as [j Hj].
  assert (i = j) as ->; [|congruence].
  apply (proj1 (NoDup_alt _) Hnd _ _ (pid p)); apply list_lookup_fmap_Some; eauto.
Qed.

Lemma current_alive s c : current s = Some c -> c ∈ alive s /\ current_pid s = Some (pid c).
Proof. intros H. rewrite (alive_current s c H). unfold current_pid. rewrite H. split; [left|reflexivity]. Qed.

(** Reading a frame that lies on a stack two memories agree on. *)
Lemma resume_agree m m' x :
  framed x -> (forall a, on_stack x a -> m' a = m a) -> resume_of m' (kernel_rsp x) = resume_of m (kernel_rsp x).
Proof.
  intros [Hlo Hhi] H. unfold resume_of, on_stack in *. rewrite !H by lia. reflexivity.
Qed.

(** The registers are spilled on the outgoing task's own stack. *)
Lemma spill_in_own_stack M c x a :
  good M -> calls_on_stack M -> current (sched M) = Some c -> x ∈ alive (sched M) -> pid x <> pid c ->
  on_stack x a -> spilled (cpu M) (mem M) (rsp (cpu M) - 48) a = mem M a.
Proof.
  intros Hg Hcall Hc Hx Hne Ha. apply spilled_outside. destruct (current_alive _ _ Hc) as [Hca _].
  destruct (Hcall c Hc) as [H1 H2].
  pose proof (lo_apart _ _ (g_layout M Hg) x c (alive_owned _ _ Hx) (alive_owned _ _ Hca) Hne) as Hap.
  unfold on_stack, apart in *. lia.
Qed.

(** [context_switch] to a suspended task, in terms of [spilled] and [resume_of]. *)
Lemma finish_switch M c nx s' :
  good M -> calls_on_stack M -> current (sched M) = Some c -> nx ∈ alive (sched M) -> pid nx <> pid c ->
  saved_by M = rsp (cpu M) - 48 /\
  let M' := finish M (s', Some (kernel_rsp nx)) in
  sched M' = s' /\ k_next_pid (kern M') = k_next_pid (kern M) /\
  mem M' = spilled (cpu M) (mem M) (rsp (cpu M) - 48) /\
  cpu_view (cpu M') = resume_of (mem M') (kernel_rsp nx).
Proof.
  intros Hg Hcall Hc Hnx Hne. destruct (current_alive _ _ Hc) as [Hca Hcp]. destruct (Hcall c Hc) as [H1 H2].
  pose proof (lo_range _ _ (g_layout M Hg)) as Hrange.
  destruct (Hrange c (alive_owned _ _ Hca)) as [Hr1 Hr2], (Hrange nx (alive_owned _ _ Hnx)) as [Hr3 Hr4].
  destruct (g_frames M Hg nx Hnx) as [Hf1 Hf2]; [rewrite Hcp; congruence|].
  unfold saved_by, finish. rewrite !context_switch_eq by word_lia.
  split_and!; reflexivity.
Qed.

Lemma finish_good M c leaves s' on :
  good M -> calls_on_stack M -> current (sched M) = Some c ->
  switched leaves (sched M) c (saved_by M) s' on -> inv s' -> kept (sched M) s' ->
  good (finish M (s', on)).
Proof.
  intros Hg Hcall Hc Hsw Hi Hk.
  assert (Hlay : laid_out (k_next_pid (kern M)) (owned s')) by (eapply laid_out_ident; [exact Hk|apply Hg]).
  destruct (current_alive _ _ Hc) as [_ Hcp].
  assert (Hold : forall p, p ∈ alive (sched M) -> pid p <> pid c -> framed p).
  { intros p Hp Hne. apply (g_frames M Hg p Hp). rewrite Hcp. congruence. }
  destruct on as [n|].
  - destruct Hsw as (nx & Hnx & Hne & <- & Hc' & Hall & _).
    destruct (finish_switch M c nx s' Hg Hcall Hc Hnx Hne) as (Hsv & Es & En & _).
    split; rewrite ?Es, ?En; [exact Hi|apply Hg|exact Hlay|].
    intros p Hp. unfold current_pid. rewrite Hc'. simpl.
    destruct (Hall p Hp) as [->|[[Eid Ersp]|[Hp' Hne']]]; [intros []; reflexivity| |auto].
    intros _. unfold framed. rewrite Ersp, Hsv, (stack_of_ident p c Eid). destruct (Hcall c Hc). lia.
  - destruct Hsw as (c' & Hc' & Eid & Hall & _). split; [exact Hi|apply Hg|exact Hlay|].
    intros p Hp. unfold current_pid. cbn [finish sched set_sched kern k_sched] in *. rewrite Hc'. simpl.
    destruct (Hall p Hp) as [->|[Hp' Hne']]; [intros []; reflexivity|auto].
Qed.

(** [unblock] changes no task's identity or stack pointer. *)
Definition frame_id (p : Process) := (ident p, kernel_rsp p).

Lemma frame_id_spec p q : frame_id p = frame_id q -> ident p = ident q /\ kernel_rsp p = kernel_rsp q.
Proof. unfold frame_id. intros [=]; auto. unfold ident. split; congruence. Qed.

Lemma unblock_frames s p r s' :
  unblock s p = Ret (r, s') -> current s' = current s /\ map frame_id (alive s') ≡ₚ map frame_id (alive s).
Proof.
  unfold unblock. destruct (position p (blocked s)) as [i|] eqn:Hpos; [|intros [= <- <-]; auto].
  destruct (position_spec p _ i Hpos) as (x & Hx & _).
  destruct (swap_remove_spec _ i x Hx) as (rest & -> & Hperm). intros [= <- <-].
  split; [reflexivity|]. unfold alive. simpl. rewrite Hperm, !map_app. simpl.
  change (frame_id (set_slice (set_state x Ready) (default_time_slice x))) with (frame_id x).
  solve_Permutation.
Qed.

Lemma framed_id p q : frame_id p = frame_id q -> framed p -> framed q.
Proof.
  intros E. apply frame_id_spec in E as [E1 E2]. unfold framed.
  rewrite (stack_of_ident p q E1), E2. auto.
Qed.

(** [spawn]: the new task's control block and its launch frame. *)
Lemma spawn_spec M name owner entry base size :
  good M -> allowed (Spawn name owner entry base size) M -> k_next_pid (kern M) <> u64_max ->
  exists p k', mod_spawn trampoline (kern M) name owner entry base size = Ret (k_next_pid (kern M), k') /\
    pid p = k_next_pid (kern M) /\ stack_base p = base /\ stack_size p = size /\
    launch_frame trampoline (mem M) base size entry (kernel_rsp p) (k_mem k') /\
    k_next_pid k' = k_next_pid (kern M) + 1 /\ current (k_sched k') = current (sched M) /\
    alive (k_sched k') ≡ₚ p :: alive (sched M) /\ defunct (k_sched k') = defunct (sched M) /\
    inv (k_sched k').
Proof.
  intros Hg (Hb & Hsz & Hfit & _) Hmax. pose proof (g_next M Hg) as Hn. unfold sched, mem in *.
  destruct M as [[s next m fl] c]. cbn [kern k_sched k_next_pid k_mem] in *. unfold mod_spawn, Proc.new, alloc_pid.
  cbn [k_sched k_next_pid k_mem k_intf]. rewrite (proj2 (Z.eqb_neq _ _) Hmax).
  pose proof (init_kernel_stack_spec trampoline m base size entry Hb Hsz Hfit) as Hl.
  unfold new_with_pid. destruct (init_kernel_stack trampoline m base size entry) as [sp m'].
  set (p := mkProcess sp next owner name Ready base size DEFAULT_TIME_SLICE DEFAULT_TIME_SLICE).
  assert (Hlegal : legal s (OpSpawn p)).
  { split; [|simpl; unfold DEFAULT_TIME_SLICE; lia]. intros Hin.
    apply list_elem_of_fmap in Hin as (q & E & Hq). pose proof (lo_pids _ _ (g_layout _ Hg) q Hq) as Hlt.
    unfold sched in Hlt. simpl in *. lia. }
  destruct (spawn_inv s p (g_inv _ Hg) Hlegal) as [Hi _].
  eexists (set_slice (set_state p Ready) (default_time_slice p)), _. split; [reflexivity|].
  split_and!; try reflexivity; [exact Hl|simpl; rewrite add64_small by word_lia; reflexivity| |exact Hi].
  unfold alive. simpl. solve_Permutation.
Qed.


Lemma perform_good a M :
  good M -> allowed a M ->
  match perform a M with
  | Ret M' => good M'
  | Panic => (exists name owner entry base size, a = Spawn name owner entry base size) /\
      k_next_pid (kern M) = u64_max
  end.
Proof.
  intros Hg Ha. destruct (inv_pre _ (g_inv M Hg)) as (c & _ & _ & Hc).
  destruct (is_switch a) eqn:Esw.
  { destruct (switch_cases a M c (g_inv M Hg) Hc Esw) as (s' & on & -> & Hsw & Hi & Hk).
    - destruct a; try discriminate; intros [?|?]; try discriminate; apply Ha.
    - eapply finish_good; eauto. destruct a; try discriminate; apply Ha. }
  destruct a as [| | | |p|name owner entry base size|c' m']; try discriminate; simpl.
  - destruct (unblock_spec (sched M) p (g_inv M Hg)) as (r & s' & E & Hi & Hcons & _). rewrite E.
    pose proof (conserves_kept _ _ _ Hcons ltac:(discriminate)) as Hk.
    destruct (unblock_frames _ _ _ _ E) as [Ec Hperm].
    split; [exact Hi|apply Hg|eapply laid_out_ident; [exact Hk|apply Hg]|].
    intros q Hq. unfold current_pid. cbn [sched set_sched kern k_sched] in *. rewrite Ec. intros Hne.
    apply (list_elem_of_fmap_2 frame_id) in Hq. rewrite Hperm in Hq.
    apply list_elem_of_fmap in Hq as (q' & E' & Hq').
    apply (framed_id q' q); [congruence|]. apply (g_frames M Hg q' Hq').
    apply frame_id_spec in E' as [E' _]. rewrite <- (pid_ident q q' E'). exact Hne.
  - destruct (decide (k_next_pid (kern M) = u64_max)) as [Emax|Hmax].
    { unfold mod_spawn, Proc.new, alloc_pid. rewrite Emax. simpl. split; [eauto 6|reflexivity]. }
    destruct (spawn_spec M name owner entry base size Hg Ha Hmax)
      as (p & k' & -> & Hp & Hb & Hsz & Hl & Hn & Ec & Hal & Hd & Hi).
    pose proof (g_next M Hg) as Hnx. destruct Ha as (Hb0 & Hs0 & Hfit & Hfresh).
    assert (Est : stack_of p = (base, base + size)).
    { unfold stack_of. rewrite Hp, Hb, Hsz, (proj2 (Z.eqb_neq _ _)) by (unfold PID_BOOTSTRAP; lia). reflexivity. }
    assert (Hown : forall q, q ∈ owned (k_sched k') -> q = p \/ q ∈ owned (sched M)).
    { intros q. unfold owned. rewrite Hal, Hd. simpl. rewrite elem_of_cons. auto. }
    pose proof (g_layout M Hg) as [Hr Hap Hpids].
    split; cbn [sched kern k_sched]; [exact Hi|rewrite Hn; word_lia| |].
    + rewrite Hn. split.
      * intros q Hq. destruct (Hown q Hq) as [->|Hq']; [rewrite Est; simpl; lia|auto].
      * intros q q' Hq Hq' Hne. destruct (Hown q Hq) as [->|H1], (Hown q' Hq') as [->|H2]; auto; [congruence| |].
        -- rewrite Est. destruct (Hfresh _ H2); [right|left]; assumption.
        -- rewrite Est. apply Hfresh, H1.
      * intros q Hq. destruct (Hown q Hq) as [->|Hq']; [lia|]. pose proof (Hpids q Hq'). lia.
    + intros q Hq. unfold current_pid, sched. cbn [kern]. rewrite Ec. intros Hne.
      change (q ∈ alive (k_sched k')) in Hq. rewrite Hal in Hq.
      apply elem_of_cons in Hq as [->|Hq]; [|apply (g_frames M Hg q Hq Hne)].
      unfold framed. rewrite Est. destruct Hl as [Hlo Hhi _ _ _]. simpl. lia.
  - split; [apply Hg|apply Hg|apply Hg|]. intros p Hp Hne. apply (g_frames M Hg p Hp Hne).
Qed.

(** ** Suspended tasks *)

Lemma is_switch_other a M M' :
  perform a M = Ret M' -> is_switch a = false -> current_pid (sched M') = current_pid (sched M).
Proof.
  intros H Hsw. destruct a as [| | | |p|name owner entry base size|c m]; try discriminate; simpl in H.
  - destruct (unblock (sched M) p) as [[r s]|] eqn:E; [|discriminate]. injection H as <-.
    apply unblock_frames in E as [E _]. unfold current_pid.
    cbn [sched set_sched kern k_sched]. rewrite E. reflexivity.
  - unfold mod_spawn in H. destruct (Proc.new _ _ _ _ _ _ _ _ _) as [[[proc m]|] n]; [|discriminate].
    injection H as <-. reflexivity.
  - injection H as <-. reflexivity.
Qed.

(** One step of the others: [p] stays as it is, or gets the CPU back as it was. *)
Lemma step_suspended a M M' p r snap :
  good M -> allowed a M -> perform a M = Ret M' -> suspended p r snap M ->
  suspended p r snap M' \/
  (current_pid (sched M') = Some p /\ cpu_view (cpu M') = r /\
   exists x, current (sched M') = Some x /\ forall b, on_stack x b -> mem M' b = snap b).
Proof.
  intros Hg Ha Hp (Hcp & x & Hx & <- & Hr & Hs).
  destruct (inv_pre _ (g_inv M Hg)) as (c & _ & _ & Hc). destruct (current_alive _ _ Hc) as [Hca Hcur].
  assert (Hne : pid x <> pid c) by congruence.
  assert (Hfx : framed x) by (apply (g_frames M Hg x Hx); congruence).
  (* when [x] is still there and its stack is untouched *)
  assert (Hstay : forall y, y ∈ alive (sched M') -> frame_id y = frame_id x ->
    current_pid (sched M') <> Some (pid x) -> (forall b, on_stack x b -> mem M' b = mem M b) ->
    suspended (pid x) r snap M').
  { intros y Hy Ey Hc' Hm. destruct (frame_id_spec y x Ey) as [Ei Er]. split; [exact Hc'|]. exists y.
    split_and!; [exact Hy|apply (pid_ident y x Ei)| |].
    - rewrite Er, (resume_agree (mem M)); auto.
    - intros b Hb. unfold on_stack in *. rewrite (stack_of_ident y x Ei) in Hb. rewrite Hm; auto. }
  destruct (is_switch a) eqn:Esw.
  - assert (Hcall : calls_on_stack M) by (destruct a; try discriminate; apply Ha).
    destruct (switch_cases a M c (g_inv M Hg) Hc Esw) as (s' & on & E & Hsw & Hi & _).
    { destruct a; try discriminate; intros [?|?]; try discriminate; apply Ha. }
    assert (M' = finish M (s', on)) as -> by congruence. destruct on as [n|].
    + destruct Hsw as (nx & Hnx & Hnn & <- & Hc' & _ & Hrest & _).
      destruct (finish_switch M c nx s' Hg Hcall Hc Hnx Hnn) as (_ & Es & _ & Em & Ev).
      assert (Hmem : forall b, on_stack x b -> mem (finish M (s', Some (kernel_rsp nx))) b = mem M b).
      { intros b Hb. rewrite Em. apply (spill_in_own_stack M c x); assumption. }
      destruct (decide (pid nx = pid x)) as [Enx|Hnx'].
      * right. apply (same_pid _ _ _ (g_inv M Hg) Hnx Hx) in Enx as ->. rewrite Ev, Es.
        split_and!; [unfold current_pid; rewrite Hc'; reflexivity| |].
        -- rewrite (resume_agree (mem M)); auto.
        -- exists (dispatched x). split; [exact Hc'|]. intros b Hb. rewrite Hmem; auto.
      * left. apply (Hstay x); rewrite ?Es; auto. unfold current_pid. rewrite Hc'. simpl. congruence.
    + destruct Hsw as (c' & Hc' & Ei & _ & Hrest). left.
      apply (Hstay x); [exact (Hrest x Hx Hne)|reflexivity| |reflexivity].
      unfold current_pid. cbn [finish sched set_sched kern k_sched]. rewrite Hc'. simpl.
      rewrite (pid_ident c' c Ei). congruence.
  - left. pose proof (is_switch_other a M M' Hp Esw) as Hcur'. rewrite <- Hcur' in Hcp.
    destruct a as [| | | |q|name owner entry base size|c' m']; try discriminate; simpl in Hp.
    + destruct (unblock (sched M) q) as [[r' s']|] eqn:E; [|discriminate]. injection Hp as <-.
      destruct (unblock_frames _ _ _ _ E) as [_ Hperm].
      apply (list_elem_of_fmap_2 frame_id) in Hx. rewrite <- Hperm in Hx.
      apply list_elem_of_fmap in Hx as (y & Ey & Hy). apply (Hstay y); auto.
    + destruct (decide (k_next_pid (kern M) = u64_max)) as [Emax|Hmax].
      { unfold mod_spawn, Proc.new, alloc_pid in Hp. rewrite Emax in Hp. discriminate. }
      destruct (spawn_spec M name owner entry base size Hg Ha Hmax)
        as (pr & k' & E & _ & _ & _ & Hl & _ & _ & Hal & _). rewrite E in Hp. injection Hp as <-.
      apply (Hstay x); auto; [unfold sched; simpl; rewrite Hal; right; exact Hx|].
      intros b Hb. apply (lf_outside _ _ _ _ _ _ _ Hl). destruct Ha as (_ & _ & _ & Hfresh).
      destruct (Hfresh x (alive_owned _ _ Hx)); unfold on_stack in Hb; simpl in *; lia.
    + injection Hp as <-. apply (Hstay x); auto. intros b Hb. apply (Ha x b Hx); [congruence|exact Hb].
Qed.

Lemma away_good p M M' : good M -> away p M M' -> good M'.
Proof.
  intros Hg. induction 1 as [|M M1 a M2 _ IH Ha Hp _]; [exact Hg|].
  pose proof (perform_good a M1 (IH Hg) Ha) as H. rewrite Hp in H. exact H.
Qed.

Lemma away_suspended p r snap M M' :
  good M -> suspended p r snap M -> away p M M' -> suspended p r snap M'.
Proof.
  intros Hg Hs. induction 1 as [|M M1 a M2 Haw IH Ha Hp Hcp]; [exact Hs|].
  destruct (step_suspended a M1 M2 p r snap (away_good p M M1 Hg Haw) Ha Hp (IH Hg Hs)) as [|[H _]];
    [assumption|contradiction].
Qed.

(** A suspended task that gets the CPU back, after any time away. *)
Lemma comes_back p r snap M2 M3 b M4 :
  good M2 -> suspended p r snap M2 -> away p M2 M3 -> allowed b M3 -> perform b M3 = Ret M4 ->
  current_pid (sched M4) = Some p ->
  cpu_view (cpu M4) = r /\
  exists x, current (sched M4) = Some x /\ forall a, on_stack x a -> mem M4 a = snap a.
Proof.
  intros Hg Hs Haw Hb Hp Hcur. pose proof (away_suspended p r snap M2 M3 Hg Hs Haw) as H3.
  destruct (step_suspended b M3 M4 p r snap (away_good p M2 M3 Hg Haw) Hb Hp H3) as [[H _]|(_ & H)];
    [contradiction|exact H].
Qed.

(** The running task is switched out, other than by exiting. *)
Lemma switched_out a M M' c :
  good M -> allowed a M -> perform a M = Ret M' -> current (sched M) = Some c -> a <> Exit ->
  current_pid (sched M') <> Some (pid c) ->
  suspended (pid c) (continuation (cpu M) (mem M)) (mem M') M' /\
  mem M' = spilled (cpu M) (mem M) (rsp (cpu M) - 48).
Proof.
  intros Hg Ha Hp Hc Hnx Hcp. destruct (current_alive _ _ Hc) as [_ Hcur].
  destruct (is_switch a) eqn:Esw.
  2:{ pose proof (is_switch_other a M M' Hp Esw) as H. congruence. }
  assert (Hcall : calls_on_stack M) by (destruct a; try discriminate; apply Ha).
  destruct (switch_cases a M c (g_inv M Hg) Hc Esw) as (s' & on & E & Hsw & Hi & _).
  { destruct a; try discriminate; intros [?|?]; try discriminate; apply Ha. }
  assert (M' = finish M (s', on)) as -> by congruence. destruct on as [n|].
  - destruct Hsw as (nx & Hnxt & Hnn & <- & _ & _ & _ & Hkeep).
    destruct (finish_switch M c nx s' Hg Hcall Hc Hnxt Hnn) as (Hsv & Es & _ & Em & _).
    destruct Hkeep as (y & Hy & Ei & Er); [destruct a; try reflexivity; congruence|].
    split; [|exact Em]. split; [exact Hcp|]. exists y. rewrite Es.
    split_and!; [exact Hy|apply (pid_ident y c Ei)| |reflexivity].
    rewrite Er, Hsv, Em. apply spilled_resume. reflexivity.
  - destruct Hsw as (c' & Hc' & Ei & _). destruct Hcp. unfold current_pid.
    cbn [finish sched set_sched kern k_sched]. rewrite Hc'. simpl. rewrite (pid_ident c' c Ei). reflexivity.
Qed.

(** ** Properties *)

(** C6. Kernel stacks never overlap, and the CPU never runs on a freed one: in
    every reachable machine each live task, and each task that has exited and is
    not yet reaped, owns a stack disjoint from the others, and the frame of every
    task that waits lies on its own stack.  Each step keeps this, and returns
    without a panic, unless the PID counter is exhausted. *)
Theorem stacks_stay_disjoint a M :
  good M -> allowed a M ->
  match perform a M with
  | Ret M' => good M'
  | Panic => (exists name owner entry base size, a = Spawn name owner entry base size) /\
      k_next_pid (kern M) = u64_max
  end.
Proof. apply perform_good. Qed.

(** C5. Tasks do not notice each other: a task that calls into the scheduler or
    is preempted and loses the CPU, gets it back, however many switches, spawns,
    wake-ups, exits and computations of other tasks later, exactly after its own
    call, with its stack pointer, callee-saved registers and return address, and
    with every word of its stack above the call as it left it. *)
Theorem task_survives_suspension a b M1 M2 M3 M4 c :
  good M1 -> current (sched M1) = Some c -> allowed a M1 -> a <> Exit -> perform a M1 = Ret M2 ->
  away (pid c) M2 M3 -> allowed b M3 -> perform b M3 = Ret M4 ->
  current_pid (sched M4) = Some (pid c) ->
  cpu_view (cpu M4) = continuation (cpu M1) (mem M1) /\
  exists c', current (sched M4) = Some c' /\
    forall x, on_stack c' x -> rsp (cpu M1) <= x -> mem M4 x = mem M1 x.
Proof.
  intros Hg Hc Ha Hne Hp Haw Hb Hp' Hcur.
  pose proof (perform_good a M1 Hg Ha) as Hg2. rewrite Hp in Hg2.
  assert (Hout : current_pid (sched M2) <> Some (pid c)) by (clear -Haw; induction Haw; assumption).
  destruct (switched_out a M1 M2 c Hg Ha Hp Hc Hne Hout) as [Hs Em].
  destruct (comes_back _ _ _ _ _ _ _ Hg2 Hs Haw Hb Hp' Hcur) as (Hv & c' & Hc' & Hst).
  split; [exact Hv|]. exists c'. split; [exact Hc'|]. intros x Hx Hge.
  rewrite (Hst x Hx), Em. apply spilled_outside. lia.
Qed.

(** C39. A spawned task starts where it was told to: the first time it gets the
    CPU, whatever happened since, it is in the trampoline with its entry point in
    [r12], the other registers zero and its stack pointer inside its own stack,
    aligned as at a function's entry; the trampoline enables interrupts and jumps
    to the entry. *)
Theorem spawned_task_starts_at_entry name owner entry base size b M1 M2 M3 M4 :
  good M1 -> allowed (Spawn name owner entry base size) M1 ->
  perform (Spawn name owner entry base size) M1 = Ret M2 ->
  away (k_next_pid (kern M1)) M2 M3 -> allowed b M3 -> perform b M3 = Ret M4 ->
  current_pid (sched M4) = Some (k_next_pid (kern M1)) ->
  let c := cpu M4 in
  rip c = trampoline /\ r12 c = entry /\ rbp c = 0 /\ rbx c = 0 /\ r13 c = 0 /\ r14 c = 0 /\ r15 c = 0 /\
  base <= rsp c < base + size /\ rsp c mod 16 = 8 /\
  rip (process_entry_trampoline c) = entry /\ intf (process_entry_trampoline c) = true.
Proof.
  intros Hg Ha Hp Haw Hb Hp' Hcur.
  pose proof (perform_good _ M1 Hg Ha) as Hg2. rewrite Hp in Hg2.
  assert (Hout : current_pid (sched M2) <> Some (k_next_pid (kern M1)))
    by (clear -Haw; induction Haw; assumption).
  assert (Hmax : k_next_pid (kern M1) <> u64_max).
  { intros E. simpl in Hp. unfold mod_spawn, Proc.new, alloc_pid in Hp. rewrite E in Hp. discriminate. }
  destruct (spawn_spec M1 name owner entry base size Hg Ha Hmax)
    as (p & k' & E & Epid & _ & _ & Hl & _ & _ & Hal & _).
  simpl in Hp. rewrite E in Hp. injection Hp as <-.
  assert (Hs : suspended (pid p) (mkResume (kernel_rsp p + 56) 0 0 entry 0 0 0 trampoline) (k_mem k')
                 (mkMachine k' (cpu M1))).
  { split; [congruence|]. exists p. split_and!; [|reflexivity|apply Hl|reflexivity].
    unfold sched. simpl. rewrite Hal. left. }
  rewrite <- Epid in *.
  destruct (comes_back _ _ _ _ _ _ _ Hg2 Hs Haw Hb Hp' Hcur) as [Hv _].
  cbv zeta. unfold process_entry_trampoline. cbn [rip intf].
  unfold cpu_view in Hv. injection Hv as Ersp -> -> -> -> -> -> ->. rewrite Ersp.
  destruct Hl as [Hlo Hhi Hal16 _ _]. split_and!; try reflexivity; [lia..|].
  Z.div_mod_to_equations. lia.
Qed.

End Machine.

(** ** A concrete machine *)

(** The bootstrap thread, just after [scheduler::init], on a boot stack. *)
Definition tr0 : Z := 0x777.
Definition boot_stack0 : Z * Z := (0x80000, 0x90000).
Definition boot_machine : Machine :=
  mkMachine (snd (mod_init tr0 0x500 (mkKernel Sched.new NEXT_PID (fun _ => 0) false) 0x10000))
    (mkCpu 0x8F000 1 2 3 4 5 6 0x1234 false).

Definition after (a : act) (M : Machine) : Machine :=
  match perform tr0 a M with Ret M' => M' | Panic => M end.

Definition spawn0 : act := Spawn "task" 7 0xABC 0x20000 4096.
Definition M_spawned : Machine := after spawn0 boot_machine.
Definition M_task : Machine := after Yield M_spawned.
(** The task runs: it moves its stack pointer and writes on its own stack. *)
Definition work0 : act :=
  Compute (mkCpu 0x20900 9 9 9 9 9 9 0x5678 true) (store (mem M_task) 0x20800 99).
Definition M_worked : Machine := after work0 M_task.
Definition M_back : Machine := after Yield M_worked.

(** The tasks of a machine, read off. *)
Ltac each_task H :=
  match type of H with _ ∈ ?l => let l' := eval vm_compute in l in change l with l' in H end;
  repeat (apply elem_of_cons in H as [->|H]); try (apply elem_of_nil in H; contradiction).

Lemma boot_good : good boot_stack0 boot_machine.
Proof.
  split.
  - exact boot_inv.
  - vm_compute. split; congruence.
  - split.
    + intros p Hp. each_task Hp; vm_compute; split; congruence.
    + intros p q Hp Hq. each_task Hp; each_task Hq; intros Hne; try (destruct (Hne eq_refl)); vm_compute;
        first [left; congruence|right; congruence].
    + intros p Hp. each_task Hp; reflexivity.
  - intros p Hp. each_task Hp; intros Hne; vm_compute in Hne |- *; [congruence|]. split; congruence.
Qed.

Lemma spawn0_allowed : allowed boot_stack0 spawn0 boot_machine.
Proof.
  split_and!; [vm_compute; congruence..|]. intros p Hp.
  each_task Hp; vm_compute; first [left; congruence|right; congruence].
Qed.

Lemma yield_allowed M lo hi : option_map (stack_of boot_stack0) (current (sched M)) = Some (lo, hi) ->
  lo + 48 <= rsp (cpu M) -> rsp (cpu M) + 8 <= hi -> allowed boot_stack0 Yield M.
Proof.
  intros Hc Hlo Hhi c E. rewrite E in Hc. injection Hc as Hc. rewrite Hc. split; assumption.
Qed.

Lemma work0_allowed : allowed boot_stack0 work0 M_task.
Proof.
  intros p x Hp. each_task Hp; intros Hne Hx; [destruct Hne; reflexivity|..];
    (match type of Hx with on_stack ?b ?p _ =>
       let s := eval vm_compute in (stack_of b p) in change (fst s <= x < snd s) in Hx end);
    simpl in Hx; apply store_other; lia.
Qed.

Lemma spawned_good : good boot_stack0 M_spawned.
Proof. exact (perform_good tr0 boot_stack0 spawn0 boot_machine boot_good spawn0_allowed). Qed.

Lemma stacks_stay_disjoint_witness : good boot_stack0 (after spawn0 boot_machine).
Proof. exact (stacks_stay_disjoint tr0 boot_stack0 spawn0 boot_machine boot_good spawn0_allowed). Defined.

Lemma task_survives_suspension_witness :
  cpu_view (cpu M_back) = mkResume 0x8F008 1 2 3 4 5 6 0.
Proof.
  refine (proj1 (task_survives_suspension tr0 boot_stack0 Yield Yield M_spawned M_task M_worked M_back
    (bootstrap KERNEL_OWNER) spawned_good _ _ _ _ _ _ _ _)).
  - reflexivity.
  - apply (yield_allowed _ 0x80000 0x90000); vm_compute; congruence.
  - discriminate.
  - reflexivity.
  - apply away_step with (M1 := M_task) (a := work0);
      [apply away_refl; vm_compute; congruence|exact work0_allowed|reflexivity|vm_compute; congruence].
  - apply (yield_allowed _ 0x20000 0x21000); vm_compute; congruence.
  - reflexivity.
  - reflexivity.
Defined.

Lemma spawned_task_starts_at_entry_witness :
  rip (cpu M_task) = tr0 /\ r12 (cpu M_task) = 0xABC.
Proof.
  assert (H := spawned_task_starts_at_entry tr0 boot_stack0 "task" 7 0xABC 0x20000 4096 Yield
    boot_machine M_spawned M_spawned M_task boot_good spawn0_allowed eq_refl).
  destruct H as (H1 & H2 & _).
  - apply away_refl. vm_compute. congruence.
  - apply (yield_allowed _ 0x80000 0x90000); vm_compute; congruence.
  - reflexivity.
  - reflexivity.
  - split; assumption.
Defined.

End Tasks.
