(* ===== verification/VfsTypes.v ===== *)
(** The vocabulary of the filesystem layer (the types of src/src/fs/vfs.rs) and
    the driver interface [FileSystem] as a class over the driver's state. *)

From Stdlib Require Import ZArith Lia.
From stdpp Require Import base list strings.
From S2P Require Import Prelude.

Open Scope Z_scope.

Inductive FileType := Regular | Directory | Symlink | CharDevice | BlockDevice | Fifo | Socket.

#[global] Instance FileType_eq_dec : EqDecision FileType.
Proof. solve_decision. Defined.

Record Metadata := mkMetadata {
  md_inode : Z;
  md_file_type : FileType;
  md_size : Z;
  md_mode : Z;
  md_uid : Z;
  md_gid : Z;
  md_nlink : Z;
  md_atime : Z;
  md_mtime : Z;
  md_ctime : Z
}.

Record DirEntry := mkDirEntry {
  de_name : string;
  de_inode : Z;
  de_file_type : FileType
}.

Inductive FsError :=
| NotFound
| AlreadyExists
| NotADirectory
| IsADirectory
| NotEmpty
| InvalidPath
| InvalidArgument
| InvalidOffset
| PermissionDenied
| NoSpace
| ReadOnly
| Io
| Unsupported
| BadDescriptor
| CrossDevice.

#[global] Instance FsError_eq_dec : EqDecision FsError.
Proof. solve_decision. Defined.

Definition FsError_fmt (e : FsError) : string :=
  match e with
  | NotFound => "no such file or directory"
  | AlreadyExists => "file exists"
  | NotADirectory => "not a directory"
  | IsADirectory => "is a directory"
  | NotEmpty => "directory not empty"
  | InvalidPath => "invalid path"
  | InvalidArgument => "invalid argument"
  | InvalidOffset => "invalid offset"
  | PermissionDenied => "permission denied"
  | NoSpace => "no space left on device"
  | ReadOnly => "read-only filesystem"
  | Io => "i/o error"
  | Unsupported => "operation not supported"
  | BadDescriptor => "bad file descriptor"
  | CrossDevice => "cross-device link"
  end.

Definition FsResult (A : Type) : Type := result A FsError.

Record OpenFlags := mkOpenFlags {
  of_read : bool;
  of_write : bool;
  of_append : bool;
  of_create : bool;
  of_truncate : bool;
  of_exclusive : bool
}.

Definition read_only : OpenFlags := mkOpenFlags true false false false false false.
Definition write_only : OpenFlags := mkOpenFlags false true false false false false.
Definition read_write : OpenFlags := mkOpenFlags true true false false false false.

Inductive SeekFrom := Start (p : Z) | End_ (d : Z) | Current (d : Z).

(** The driver contract.  A driver's interior mutability is explicit: an
    operation that changes the driver returns its new state.  [read] takes the
    caller's buffer and returns it as left by the call.  Growing a file can
    panic (the allocation behind it), so [write] and [truncate] have an
    outcome; a [rename] that does not return is [None]. *)
Class FileSystem (F : Type) := {
  fs_name : F -> string;
  root_inode : F -> Z;
  fs_metadata : F -> Z -> FsResult Metadata;
  fs_lookup : F -> Z -> string -> FsResult Z;
  fs_readdir : F -> Z -> FsResult (list DirEntry);
  fs_read : F -> Z -> Z -> list Z -> FsResult (Z * list Z);
  fs_write : F -> Z -> Z -> list Z -> outcome (FsResult Z * F);
  fs_create : F -> Z -> string -> FileType -> Z -> FsResult Z * F;
  fs_unlink : F -> Z -> string -> FsResult unit * F;
  fs_rmdir : F -> Z -> string -> FsResult unit * F;
  fs_rename : F -> Z -> string -> Z -> string -> option (FsResult unit * F);
  fs_truncate : F -> Z -> Z -> outcome (FsResult unit * F);
  fs_sync : F -> FsResult unit;
  fs_readlink : F -> Z -> FsResult string;
  fs_symlink : F -> Z -> string -> string -> FsResult Z * F
}.
