(* ===== verification/RamFs.v ===== *)
(** The in-memory filesystem (src/src/fs/ramfs.rs): the inode table, every
    operation of the driver, and the proof that the table always describes a
    tree of named nodes rooted at inode 1. *)

From Stdlib Require Import ZArith Lia Ascii.
From stdpp Require Import base list gmap strings sorting.
From S2P Require Import Prelude VfsTypes.

Open Scope Z_scope.

Module RamFs.

(** ** Data *)

Definition ROOT_INODE : Z := 1.
Definition isize_max : Z := 2 ^ 63 - 1.

Inductive NodeKind :=
| KFile (data : list Z)
| KDirectory (entries : gmap string Z)
| KSymlink (target : string).

Definition file_type (k : NodeKind) : FileType :=
  match k with
  | KFile _ => Regular
  | KDirectory _ => Directory
  | KSymlink _ => Symlink
  end.

Record Node := mkNode {
  parent : Z;
  kind : NodeKind;
  mode : Z;
  uid : Z;
  gid : Z;
  atime : Z;
  mtime : Z;
  ctime : Z
}.

Record Inner := mkInner {
  nodes : gmap Z Node;
  next_inode : Z
}.

(** Mode 493 is 0o755. *)
Definition new : Inner :=
  mkInner {[ROOT_INODE := mkNode ROOT_INODE (KDirectory ∅) 493 0 0 0 0 0]} (ROOT_INODE + 1).

Definition set_kind (n : Node) (k : NodeKind) : Node :=
  mkNode (parent n) k (mode n) (uid n) (gid n) (atime n) (mtime n) (ctime n).
Definition set_parent (n : Node) (p : Z) : Node :=
  mkNode p (kind n) (mode n) (uid n) (gid n) (atime n) (mtime n) (ctime n).

(** ** Operations *)

Definition contains_slash (s : string) : bool :=
  existsb (fun a => bool_decide (a = "/"%char)) (String.list_ascii_of_string s).

Definition validate_name (name : string) : FsResult unit :=
  if bool_decide (name = ""%string) || bool_decide (name = "."%string) ||
     bool_decide (name = ".."%string) || contains_slash name
  then Err InvalidArgument else Ok tt.

Definition is_dir (k : NodeKind) : bool :=
  match k with KDirectory _ => true | _ => false end.

Definition dir_at (i : gmap Z Node) (x : Z) : bool :=
  match i !! x with Some n => is_dir (kind n) | None => false end.

(** [entries.len()], [data.len()] and [s.len()]. *)
Definition kind_size (k : NodeKind) : Z :=
  match k with
  | KFile b => Z.of_nat (length b)
  | KDirectory d => Z.of_nat (size d)
  | KSymlink s => Z.of_nat (String.length s)
  end.

Definition metadata (s : Inner) (inode : Z) : FsResult Metadata :=
  try node := nodes s !! inode else NotFound in
  let nlink :=
    match kind node with
    | KDirectory d =>
        2 + Z.of_nat (length (filter (fun e => dir_at (nodes s) e.2) (map_to_list d)))
    | _ => 1
    end in
  Ok (mkMetadata inode (file_type (kind node)) (kind_size (kind node)) (mode node) (uid node) (gid node)
        (wrap32 nlink) (atime node) (mtime node) (ctime node)).

Definition lookup (s : Inner) (p : Z) (name : string) : FsResult Z :=
  try node := nodes s !! p else NotFound in
  match kind node with
  | KDirectory entries =>
      if bool_decide (name = "."%string) then Ok p
      else if bool_decide (name = ".."%string) then Ok (parent node)
      else try c := entries !! name else NotFound in Ok c
  | _ => Err NotADirectory
  end.

(** A [BTreeMap<String, _>] iterates in byte order of its keys. *)
Definition key_le (a b : string * Z) : Prop := String.leb a.1 b.1 = true.
#[global] Instance key_le_dec a b : Decision (key_le a b).
Proof. unfold key_le. apply _. Defined.

Definition in_order (d : gmap string Z) : list (string * Z) := merge_sort key_le (map_to_list d).

Definition readdir (s : Inner) (inode : Z) : FsResult (list DirEntry) :=
  try node := nodes s !! inode else NotFound in
  match kind node with
  | KDirectory entries =>
      let child e :=
        mkDirEntry e.1 e.2
          (match nodes s !! e.2 with Some n => file_type (kind n) | None => Regular end) in
      Ok (mkDirEntry "." inode Directory :: mkDirEntry ".." (parent node) Directory ::
          map child (in_order entries))
  | _ => Err NotADirectory
  end.

(** [buf[..n].copy_from_slice(..)]: the buffer after the call. *)
Definition read (s : Inner) (inode offset : Z) (buf : list Z) : FsResult (Z * list Z) :=
  try node := nodes s !! inode else NotFound in
  match kind node with
  | KFile data =>
      if Z.of_nat (length data) <=? offset then Ok (0, buf)
      else
        let n := Nat.min (length buf) (length data - Z.to_nat offset) in
        Ok (Z.of_nat n, take n (drop (Z.to_nat offset) data) ++ drop n buf)
  | KDirectory _ => Err IsADirectory
  | KSymlink _ => Err InvalidArgument
  end.

Definition set_node (s : Inner) (i : Z) (n : Node) : Inner :=
  mkInner (<[i := n]> (nodes s)) (next_inode s).

(** [Vec::resize(len, 0)]: panics when the capacity exceeds [isize::MAX]. *)
Definition vec_resize (data : list Z) (len : Z) : outcome (list Z) :=
  if isize_max <? len then Panic
  else Ret (take (Z.to_nat len) data ++ replicate (Z.to_nat len - length data) 0).

(** [data[off..end].copy_from_slice(buf)]. *)
Definition splice (data : list Z) (off : nat) (buf : list Z) : list Z :=
  take off data ++ buf ++ drop (off + length buf) data.

Definition write (s : Inner) (inode offset : Z) (buf : list Z) : outcome (FsResult Z * Inner) :=
  match nodes s !! inode with
  | None => Ret (Err NotFound, s)
  | Some node =>
      match kind node with
      | KFile data =>
          match checked_add64 offset (Z.of_nat (length buf)) with
          | None => Ret (Err NoSpace, s)
          | Some end_ =>
              match (if Z.of_nat (length data) <? end_ then vec_resize data end_ else Ret data) with
              | Panic => Panic
              | Ret data =>
                  Ret (Ok (Z.of_nat (length buf)),
                       set_node s inode (set_kind node (KFile (splice data (Z.to_nat offset) buf))))
              end
          end
      | KDirectory _ => Ret (Err IsADirectory, s)
      | KSymlink _ => Ret (Err InvalidArgument, s)
      end
  end.

Definition truncate (s : Inner) (inode size : Z) : outcome (FsResult unit * Inner) :=
  match nodes s !! inode with
  | None => Ret (Err NotFound, s)
  | Some node =>
      match kind node with
      | KFile data =>
          match vec_resize data size with
          | Panic => Panic
          | Ret data => Ret (Ok tt, set_node s inode (set_kind node (KFile data)))
          end
      | KDirectory _ => Ret (Err IsADirectory, s)
      | KSymlink _ => Ret (Err InvalidArgument, s)
      end
  end.

(** [if let Some(p) = nodes.get_mut(&i) { if let Directory(entries) = &mut p.kind
    { f(entries) } }]. *)
Definition update_dir (m : gmap Z Node) (i : Z) (f : gmap string Z -> gmap string Z) : gmap Z Node :=
  match m !! i with
  | Some p =>
      match kind p with
      | KDirectory entries => <[i := set_kind p (KDirectory (f entries))]> m
      | _ => m
      end
  | None => m
  end.

(** Insert a fresh node below [p]: the tail shared by [create] and [symlink]. *)
Definition add_node (s : Inner) (p : Z) (name : string) (k : NodeKind) (mode : Z)
  : FsResult Z * Inner :=
  let inum := next_inode s in
  match checked_add64 (next_inode s) 1 with
  | None => (Err NoSpace, s)
  | Some next =>
      let m := <[inum := mkNode p k mode 0 0 0 0 0]> (nodes s) in
      (Ok inum, mkInner (update_dir m p (fun entries => <[name := inum]> entries)) next)
  end.

(** The parent check shared by [create] and [symlink]. *)
Definition check_parent (s : Inner) (p : Z) (name : string) : FsResult unit :=
  try node := nodes s !! p else NotFound in
  match kind node with
  | KDirectory entries => if bool_decide (is_Some (entries !! name)) then Err AlreadyExists else Ok tt
  | _ => Err NotADirectory
  end.

Definition create (s : Inner) (p : Z) (name : string) (ft : FileType) (mode : Z) : FsResult Z * Inner :=
  match validate_name name with
  | Err e => (Err e, s)
  | Ok _ =>
      match check_parent s p name with
      | Err e => (Err e, s)
      | Ok _ =>
          match ft with
          | Regular => add_node s p name (KFile []) mode
          | Directory => add_node s p name (KDirectory ∅) mode
          | Symlink => add_node s p name (KSymlink "") mode
          | _ => (Err Unsupported, s)
          end
      end
  end.

(** Mode 511 is 0o777. *)
Definition symlink (s : Inner) (p : Z) (name target : string) : FsResult Z * Inner :=
  match validate_name name with
  | Err e => (Err e, s)
  | Ok _ =>
      match check_parent s p name with
      | Err e => (Err e, s)
      | Ok _ => add_node s p name (KSymlink target) 511
      end
  end.

(** [*entries.get(name)?] below directory [p]. *)
Definition find_entry (s : Inner) (p : Z) (name : string) : FsResult Z :=
  try node := nodes s !! p else NotFound in
  match kind node with
  | KDirectory entries => try c := entries !! name else NotFound in Ok c
  | _ => Err NotADirectory
  end.

Definition remove_entry (s : Inner) (p : Z) (name : string) (inum : Z) : Inner :=
  mkInner (base.delete inum (update_dir (nodes s) p (base.delete name))) (next_inode s).

Definition unlink (s : Inner) (p : Z) (name : string) : FsResult unit * Inner :=
  match find_entry s p name with
  | Err e => (Err e, s)
  | Ok inum =>
      match nodes s !! inum with
      | None => (Err NotFound, s)
      | Some target =>
          if is_dir (kind target) then (Err IsADirectory, s)
          else (Ok tt, remove_entry s p name inum)
      end
  end.

Definition rmdir (s : Inner) (p : Z) (name : string) : FsResult unit * Inner :=
  match find_entry s p name with
  | Err e => (Err e, s)
  | Ok inum =>
      match nodes s !! inum with
      | None => (Err NotFound, s)
      | Some target =>
          match kind target with
          | KDirectory entries =>
              if bool_decide (entries = ∅) then (Ok tt, remove_entry s p name inum)
              else (Err NotEmpty, s)
          | _ => (Err NotADirectory, s)
          end
      end
  end.

(** The loop that looks for the moved directory among the ancestors of its
    destination; [None] is fuel run out. *)
Fixpoint ancestor_check (fuel : nat) (m : gmap Z Node) (inum cur : Z) : option (FsResult unit) :=
  if cur =? inum then Some (Err InvalidArgument)
  else
    match m !! cur with
    | None => Some (Err NotFound)
    | Some n =>
        if parent n =? cur then Some (Ok tt)
        else
          match fuel with
          | O => None
          | S fuel' => ancestor_check fuel' m inum (parent n)
          end
    end.

(** The three mutations that end [rename]. *)
Definition relink (m : gmap Z Node) (old_parent : Z) (old_name : string) (new_parent : Z)
    (new_name : string) (inum : Z) : gmap Z Node :=
  let m := update_dir m old_parent (base.delete old_name) in
  let m := update_dir m new_parent (fun entries => <[new_name := inum]> entries) in
  match m !! inum with
  | Some child => <[inum := set_parent child new_parent]> m
  | None => m
  end.

Definition entry_at (m : gmap Z Node) (p : Z) (name : string) : option Z :=
  match m !! p with
  | Some n => match kind n with KDirectory entries => entries !! name | _ => None end
  | None => None
  end.

Definition rename (s : Inner) (old_parent : Z) (old_name : string) (new_parent : Z) (new_name : string)
  : option (FsResult unit * Inner) :=
  match validate_name new_name with
  | Err e => Some (Err e, s)
  | Ok _ =>
  match find_entry s old_parent old_name with
  | Err e => Some (Err e, s)
  | Ok inum =>
      if negb (dir_at (nodes s) new_parent) then Some (Err NotADirectory, s)
      else
        let src_is_dir := dir_at (nodes s) inum in
        match (if src_is_dir then ancestor_check (size (nodes s)) (nodes s) inum new_parent
               else Some (Ok tt)) with
        | None => None
        | Some (Err e) => Some (Err e, s)
        | Some (Ok _) =>
            let finish m :=
              Some (Ok tt, mkInner (relink m old_parent old_name new_parent new_name inum) (next_inode s)) in
            match entry_at (nodes s) new_parent new_name with
            | None => finish (nodes s)
            | Some eid =>
                if eid =? inum then Some (Ok tt, s)
                else
                  let dst_is_dir := dir_at (nodes s) eid in
                  if negb (Bool.eqb src_is_dir dst_is_dir)
                  then Some (Err (if dst_is_dir then IsADirectory else NotADirectory), s)
                  else if dst_is_dir &&
                          match nodes s !! eid with
                          | Some n => match kind n with
                                      | KDirectory entries => negb (bool_decide (entries = ∅))
                                      | _ => false
                                      end
                          | None => false
                          end
                  then Some (Err NotEmpty, s)
                  else finish (update_dir (base.delete eid (nodes s)) new_parent (base.delete new_name))
            end
        end
  end
  end.

Definition sync (s : Inner) : FsResult unit := Ok tt.

Definition readlink (s : Inner) (inode : Z) : FsResult string :=
  try node := nodes s !! inode else NotFound in
  match kind node with
  | KSymlink target => Ok target
  | _ => Err InvalidArgument
  end.

(** ** Trees of named edges

    The abstract content of the inode table: [par] gives every node its parent,
    [edge p n c] says that directory [p] calls node [c] by name [n]. *)

Inductive reach (par : Z -> option Z) : Z -> Prop :=
| reach_root : reach par ROOT_INODE
| reach_step i p : par i = Some p -> i <> ROOT_INODE -> reach par p -> reach par i.

(** The root is reached from [i] without passing through [x]. *)
Inductive reach_avoiding (par : Z -> option Z) (x : Z) : Z -> Prop :=
| ra_root : ROOT_INODE <> x -> reach_avoiding par x ROOT_INODE
| ra_step i p : par i = Some p -> i <> ROOT_INODE -> i <> x -> reach_avoiding par x p ->
    reach_avoiding par x i.

Record tree (par : Z -> option Z) (edge : Z -> string -> Z -> Prop) (next : Z) : Prop := {
  t_root : par ROOT_INODE = Some ROOT_INODE;
  t_range : forall i p, par i = Some p -> ROOT_INODE <= i < next;
  t_child : forall p n c, edge p n c -> par c = Some p /\ c <> ROOT_INODE /\ is_Some (par p);
  t_entry : forall c p, par c = Some p -> c <> ROOT_INODE -> exists n, edge p n c;
  t_uniq : forall p n n' c, edge p n c -> edge p n' c -> n = n';
  t_fun : forall p n c c', edge p n c -> edge p n c' -> c = c';
  t_reach : forall i, is_Some (par i) -> reach par i
}.

(** Reachability only depends on the parents met on the way. *)
Lemma reach_avoiding_reach par par' x i :
  (forall j, j <> x -> par' j = par j) -> reach_avoiding par x i -> reach par' i.
Proof.
  intros Heq. induction 1 as [|i p Hp Hr Hx _ IH]; [constructor|].
  apply (reach_step _ i p); [rewrite Heq; assumption|assumption..].
Qed.

Lemma reach_frame par par' x i :
  (forall j, j <> x -> par' j = par j) -> reach par' x -> reach par i -> reach par' i.
Proof.
  intros Heq Hx. induction 1 as [|i p Hp Hr _ IH]; [constructor|].
  destruct (Z.eq_dec i x) as [->|Hne]; [exact Hx|].
  apply (reach_step _ i p); [rewrite Heq; assumption|assumption..].
Qed.

Definition set_par (par : Z -> option Z) (i : Z) (v : option Z) : Z -> option Z :=
  fun j => if j =? i then v else par j.

Lemma set_par_same par i v : set_par par i v i = v.
Proof. unfold set_par. rewrite Z.eqb_refl. reflexivity. Qed.

Lemma set_par_other par i v j : j <> i -> set_par par i v j = par j.
Proof. unfold set_par. intros H. destruct (Z.eqb_spec j i); [contradiction|reflexivity]. Qed.

Ltac par_cases :=
  unfold set_par in *;
  repeat match goal with
  | H : context [?a =? ?b] |- _ => destruct (Z.eqb_spec a b); subst
  | |- context [?a =? ?b] => destruct (Z.eqb_spec a b); subst
  end.

(** A new leaf under an existing node. *)
Lemma tree_add par edge next p name :
  tree par edge next -> is_Some (par p) -> (forall c, ~ edge p name c) ->
  tree (set_par par next (Some p))
    (fun a n c => edge a n c \/ (a = p /\ n = name /\ c = next)) (next + 1).
Proof.
  intros [Hroot Hrange Hchild Hentry Huniq Hfun Hreach] [q Hp] Hnew.
  pose proof (Hrange _ _ Hroot) as Hr1. pose proof (Hrange _ _ Hp) as Hrp.
  assert (Hnone : par next = None).
  { destruct (par next) as [r|] eqn:E; [|reflexivity]. apply Hrange in E. lia. }
  split.
  - rewrite set_par_other by lia. exact Hroot.
  - intros i r H. par_cases; [lia|]. apply Hrange in H. lia.
  - intros a n c [H|(-> & -> & ->)].
    + destruct (Hchild _ _ _ H) as (H1 & H2 & r & H3). pose proof (Hrange _ _ H1). pose proof (Hrange _ _ H3).
      rewrite !set_par_other by lia. eauto.
    + rewrite set_par_same, set_par_other by lia. split_and!; [reflexivity|lia|eauto].
  - intros c r H Hc. par_cases; [injection H as <-; eauto|].
    destruct (Hentry c r H Hc) as [n' Hn']. eauto.
  - intros a n n' c [H|(-> & -> & ->)] [H'|(E1 & E2 & E3)]; subst; eauto;
      [destruct (Hchild _ _ _ H) as [H1 _]|destruct (Hchild _ _ _ H') as [H1 _]]; congruence.
  - intros a n c c' [H|(-> & -> & ->)] [H'|(E1 & E2 & E3)]; subst; eauto; exfalso; eapply Hnew; eauto.
  - assert (Hold : forall i, is_Some (par i) -> reach (set_par par next (Some p)) i).
    { intros i Hi. eapply (reach_frame par _ next i); [intros; apply set_par_other; assumption| |auto].
      apply (reach_step _ next p); [apply set_par_same|lia|].
      assert (Hav : forall j, reach par j -> reach_avoiding par next j).
      { induction 1 as [|j r Hj Hjr _ IH]; [constructor; lia|].
        apply (ra_step _ _ j r); [assumption..|apply Hrange in Hj; lia|exact IH]. }
      eapply reach_avoiding_reach; [|apply Hav, Hreach; eauto].
      intros j Hj. apply set_par_other, Hj. }
    intros i [r Hi]. unfold set_par in Hi. destruct (Z.eqb_spec i next) as [->|Hne]; [|apply Hold; eauto].
    apply (reach_step _ next p); [apply set_par_same|lia|apply Hold; eauto].
Qed.

(** Removing a leaf. *)
Lemma tree_remove par edge next p name x :
  tree par edge next -> edge p name x -> (forall n c, ~ edge x n c) ->
  tree (set_par par x None) (fun a n c => edge a n c /\ c <> x) next.
Proof.
  intros [Hroot Hrange Hchild Hentry Huniq Hfun Hreach] Hx Hleaf.
  destruct (Hchild _ _ _ Hx) as (Hpx & Hxr & _).
  assert (Hnp : forall i r, par i = Some r -> i <> ROOT_INODE -> r <> x).
  { intros i r Hi Hir ->. destruct (Hentry i x Hi Hir) as [n Hn]. exact (Hleaf n i Hn). }
  split.
  - rewrite set_par_other by congruence. exact Hroot.
  - intros i r H. par_cases; [discriminate|eauto].
  - intros a n c [H Hc]. destruct (Hchild _ _ _ H) as (H1 & H2 & H3).
    assert (a <> x) by (intros ->; exact (Hleaf n c H)).
    rewrite !set_par_other by assumption. auto.
  - intros c r H Hc. par_cases; [discriminate|]. destruct (Hentry c r H Hc) as [n' Hn']. eauto.
  - intros a n n' c [H _] [H' _]. eauto.
  - intros a n c c' [H _] [H' _]. eauto.
  - intros i [r Hi]. unfold set_par in Hi. destruct (Z.eqb_spec i x) as [->|Hne]; [discriminate|].
    assert (Hav : forall j, reach par j -> j <> x -> reach_avoiding par x j).
    { induction 1 as [|j q Hj Hjr _ IH]; intros Hjx; [constructor; congruence|].
      apply (ra_step _ _ j q); eauto. }
    eapply reach_avoiding_reach; [|apply Hav; [apply Hreach; eauto|exact Hne]].
    intros j Hj. apply set_par_other, Hj.
Qed.

(** Moving a node below one that it is not an ancestor of. *)
Lemma tree_move par edge next p name x np nn :
  tree par edge next -> edge p name x -> is_Some (par np) -> reach_avoiding par x np ->
  (forall c, c <> x -> ~ edge np nn c) ->
  tree (set_par par x (Some np))
    (fun a n c => (edge a n c /\ c <> x) \/ (a = np /\ n = nn /\ c = x)) next.
Proof.
  intros [Hroot Hrange Hchild Hentry Huniq Hfun Hreach] Hx [q Hnp] Hav Hfree.
  destruct (Hchild _ _ _ Hx) as (Hpx & Hxr & _).
  assert (Hsome : forall j, is_Some (par j) -> is_Some (set_par par x (Some np) j)).
  { intros j Hj. unfold set_par. destruct (j =? x); eauto. }
  assert (Hother : forall j, j <> x -> set_par par x (Some np) j = par j)
    by (intros; apply set_par_other; assumption).
  assert (Hrx : reach (set_par par x (Some np)) x).
  { apply (reach_step _ x np); [apply set_par_same|assumption|].
    eapply reach_avoiding_reach; [exact Hother|exact Hav]. }
  split.
  - rewrite Hother by congruence. exact Hroot.
  - intros i r H. par_cases; eauto.
  - intros a n c [[H Hc]|(-> & -> & ->)].
    + destruct (Hchild _ _ _ H) as (H1 & H2 & H3). rewrite (Hother c) by assumption. auto.
    + rewrite set_par_same. eauto.
  - intros c r H Hc. unfold set_par in H. destruct (Z.eqb_spec c x) as [->|Hne].
    + injection H as <-. eauto.
    + destruct (Hentry c r H Hc) as [n Hn]. eauto.
  - intros a n n' c [[H Hc]|(-> & -> & ->)] [[H' Hc']|(E1 & E2 & E3)]; subst; eauto; contradiction.
  - intros a n c c' [[H Hc]|(-> & -> & ->)] [[H' Hc']|(E1 & E2 & E3)]; subst; eauto;
      exfalso; eapply Hfree; eauto.
  - intros i [r Hi]. eapply (reach_frame par _ x i); [exact Hother|exact Hrx|].
    apply Hreach. unfold set_par in Hi. destruct (Z.eqb_spec i x) as [->|]; eauto.
Qed.

Lemma reach_ext par par' i : (forall j, par' j = par j) -> reach par i -> reach par' i.
Proof.
  intros Heq. induction 1 as [|i p Hp Hr _ IH]; [constructor|].
  apply (reach_step _ i p); [rewrite Heq; assumption|assumption..].
Qed.

Lemma tree_ext par par' edge edge' next :
  (forall i, par' i = par i) -> (forall p n c, edge' p n c <-> edge p n c) ->
  tree par edge next -> tree par' edge' next.
Proof.
  intros Hp He [Hroot Hrange Hchild Hentry Huniq Hfun Hreach].
  split; intros; rewrite ?Hp in *; try setoid_rewrite He; repeat match goal with H : edge' _ _ _ |- _ => apply He in H end; eauto.
  apply (reach_ext par); auto.
Qed.

(** ** The tree of an inode table *)

Definition parf (m : gmap Z Node) (i : Z) : option Z := parent <$> m !! i.
Definition edge (m : gmap Z Node) (p : Z) (n : string) (c : Z) : Prop := entry_at m p n = Some c.

Record wf (s : Inner) : Prop := {
  wf_tree : tree (parf (nodes s)) (edge (nodes s)) (next_inode s);
  wf_next : next_inode s < U64;
  wf_root : dir_at (nodes s) ROOT_INODE = true;
  wf_names : forall p n c, edge (nodes s) p n c -> validate_name n = Ok tt
}.

Lemma dir_at_entries m i :
  dir_at m i = true <-> exists n es, m !! i = Some n /\ kind n = KDirectory es.
Proof.
  unfold dir_at, is_dir. split.
  - destruct (m !! i) as [n|]; [|discriminate]. intros H. exists n.
    destruct (kind n) eqn:E; try discriminate. eauto.
  - intros (n & es & -> & ->). reflexivity.
Qed.

Lemma update_dir_par m i f j : parf (update_dir m i f) j = parf m j.
Proof.
  unfold update_dir, parf. destruct (m !! i) as [n|] eqn:E; [|reflexivity].
  destruct (kind n); try reflexivity. destruct (decide (j = i)) as [->|].
  - rewrite lookup_insert_eq, E. reflexivity.
  - rewrite lookup_insert_ne by congruence. reflexivity.
Qed.

Lemma update_dir_kind m i f j : dir_at (update_dir m i f) j = dir_at m j.
Proof.
  unfold update_dir, dir_at. destruct (m !! i) as [n|] eqn:E; [|reflexivity].
  destruct (kind n) eqn:K; try reflexivity. destruct (decide (j = i)) as [->|].
  - rewrite lookup_insert_eq, E, K. reflexivity.
  - rewrite lookup_insert_ne by congruence. reflexivity.
Qed.

Lemma update_dir_insert m i name c p n :
  dir_at m i = true ->
  entry_at (update_dir m i (fun es => <[name := c]> es)) p n =
  if decide (p = i /\ n = name) then Some c else entry_at m p n.
Proof.
  intros (nd & es & E & K)%dir_at_entries. unfold update_dir, entry_at. rewrite E, K.
  destruct (decide (p = i)) as [->|Hp].
  - rewrite lookup_insert_eq, E, K. simpl. destruct (decide (n = name)) as [->|Hn].
    + rewrite lookup_insert_eq, decide_True by auto. reflexivity.
    + rewrite lookup_insert_ne, decide_False by naive_solver. reflexivity.
  - rewrite lookup_insert_ne, decide_False by naive_solver. reflexivity.
Qed.

Lemma update_dir_delete m i name p n :
  entry_at (update_dir m i (base.delete name)) p n =
  if decide (p = i /\ n = name) then None else entry_at m p n.
Proof.
  unfold update_dir, entry_at. destruct (m !! i) as [nd|] eqn:E.
  - destruct (kind nd) eqn:K; destruct (decide (p = i)) as [->|Hp];
      rewrite ?lookup_insert_eq, ?lookup_insert_ne, ?E, ?K by congruence; simpl;
      try (rewrite decide_False by naive_solver; reflexivity);
      destruct (decide (n = name)) as [->|Hn];
      rewrite ?decide_True, ?decide_False, ?lookup_delete_eq, ?lookup_delete_ne by naive_solver; reflexivity.
  - destruct (decide (p = i /\ n = name)) as [[-> ->]|]; [rewrite E|]; reflexivity.
Qed.

Lemma delete_par m x i : parf (base.delete x m) i = set_par (parf m) x None i.
Proof.
  unfold parf, set_par. destruct (Z.eqb_spec i x) as [->|Hne].
  - rewrite lookup_delete_eq. reflexivity.
  - rewrite lookup_delete_ne by congruence. reflexivity.
Qed.

Lemma delete_entry m x p n :
  entry_at (base.delete x m) p n = if decide (p = x) then None else entry_at m p n.
Proof.
  unfold entry_at. destruct (decide (p = x)) as [->|Hne].
  - rewrite lookup_delete_eq. reflexivity.
  - rewrite lookup_delete_ne by congruence. reflexivity.
Qed.

Lemma insert_par m i nd j : parf (<[i := nd]> m) j = set_par (parf m) i (Some (parent nd)) j.
Proof.
  unfold parf, set_par. destruct (Z.eqb_spec j i) as [->|Hne].
  - rewrite lookup_insert_eq. reflexivity.
  - rewrite lookup_insert_ne by congruence. reflexivity.
Qed.

(** Inserting a node with no entries of its own. *)
Lemma insert_entry_leaf m i nd p n :
  m !! i = None -> (forall es, kind nd = KDirectory es -> es = ∅) ->
  entry_at (<[i := nd]> m) p n = entry_at m p n.
Proof.
  intros Hi Hk. unfold entry_at. destruct (decide (p = i)) as [->|Hne].
  - rewrite lookup_insert_eq, Hi. destruct (kind nd) eqn:K; try reflexivity.
    rewrite (Hk _ eq_refl). apply lookup_empty.
  - rewrite lookup_insert_ne by congruence. reflexivity.
Qed.

(** Changing a node's parent pointer or file contents keeps the entries. *)
Lemma insert_entry_same m i nd nd' p n :
  m !! i = Some nd -> kind nd' = kind nd \/ (is_dir (kind nd) = false /\ is_dir (kind nd') = false) ->
  entry_at (<[i := nd']> m) p n = entry_at m p n.
Proof.
  intros Hi Hk. unfold entry_at. destruct (decide (p = i)) as [->|Hne].
  - rewrite lookup_insert_eq, Hi. destruct Hk as [->|[H1 H2]]; [reflexivity|].
    destruct (kind nd), (kind nd'); try discriminate; reflexivity.
  - rewrite lookup_insert_ne by congruence. reflexivity.
Qed.

(** ** Every operation keeps the tree *)

Lemma wf_new_ramfs : wf new.
Proof.
  assert (Hn : forall i, i <> ROOT_INODE -> nodes new !! i = None)
    by (intros i Hi; apply lookup_singleton_ne; congruence).
  assert (He : forall p n c, ~ edge (nodes new) p n c).
  { intros p n c. unfold edge, entry_at. destruct (decide (p = ROOT_INODE)) as [->|Hp].
    - simpl. rewrite lookup_singleton_eq. simpl. rewrite lookup_empty. discriminate.
    - rewrite (Hn p Hp). discriminate. }
  split; [split|..].
  - reflexivity.
  - intros i p Hi. unfold parf in Hi. destruct (decide (i = ROOT_INODE)) as [->|Hne].
    + simpl. unfold ROOT_INODE. lia.
    + rewrite (Hn i Hne) in Hi. discriminate.
  - intros p n c H. destruct (He _ _ _ H).
  - intros c p Hc Hne. unfold parf in Hc. rewrite (Hn c Hne) in Hc. discriminate.
  - intros p n n' c H. destruct (He _ _ _ H).
  - intros p n c c' H. destruct (He _ _ _ H).
  - intros i [p Hi]. unfold parf in Hi. destruct (decide (i = ROOT_INODE)) as [->|Hne]; [constructor|].
    rewrite (Hn i Hne) in Hi. discriminate.
  - reflexivity.
  - reflexivity.
  - intros p n c H. destruct (He _ _ _ H).
Qed.

Lemma check_parent_ok s p name :
  check_parent s p name = Ok tt -> dir_at (nodes s) p = true /\ entry_at (nodes s) p name = None.
Proof.
  unfold check_parent, dir_at, entry_at. destruct (nodes s !! p) as [n|]; [|discriminate].
  destruct (kind n); try discriminate. case_bool_decide as E; [discriminate|].
  intros _. split; [reflexivity|]. destruct (entries !! name); [|reflexivity]. destruct E. eauto.
Qed.

Lemma wf_fresh s : wf s -> nodes s !! next_inode s = None.
Proof.
  intros [[_ Hrange _ _ _ _ _] _ _ _]. destruct (nodes s !! next_inode s) as [n|] eqn:E; [|reflexivity].
  specialize (Hrange (next_inode s) (parent n)). unfold parf in Hrange. rewrite E in Hrange.
  specialize (Hrange eq_refl). lia.
Qed.

Lemma dir_at_some m i : dir_at m i = true -> is_Some (m !! i).
Proof. unfold dir_at. destruct (m !! i); [eauto|discriminate]. Qed.

Lemma parf_some m i : is_Some (m !! i) -> is_Some (parf m i).
Proof. unfold parf. intros [n ->]. simpl. eauto. Qed.

(** The table after adding a node: the tree gains one leaf. *)
Lemma add_node_edges s p name k md c0 n0 p0 :
  wf s -> dir_at (nodes s) p = true -> (forall es, k = KDirectory es -> es = ∅) ->
  let m := update_dir (<[next_inode s := mkNode p k md 0 0 0 0 0]> (nodes s)) p
             (fun es => <[name := next_inode s]> es) in
  entry_at (nodes s) p name = None ->
  (edge m p0 n0 c0 <-> edge (nodes s) p0 n0 c0 \/ (p0 = p /\ n0 = name /\ c0 = next_inode s)).
Proof.
  intros Hwf Hd Hk m Hnone. pose proof (wf_fresh s Hwf) as Hfresh.
  assert (Hpn : p <> next_inode s).
  { intros ->. apply dir_at_some in Hd as [? Hd]. congruence. }
  unfold edge, m. rewrite update_dir_insert.
  2:{ unfold dir_at in *. rewrite lookup_insert_ne by congruence. exact Hd. }
  rewrite insert_entry_leaf by (simpl; assumption).
  destruct (decide (p0 = p /\ n0 = name)) as [[-> ->]|Hne]; [|tauto].
  rewrite Hnone. split; [intros [= <-]; auto|intros [H|(_ & _ & ->)]; [discriminate|reflexivity]].
Qed.

Lemma add_node_wf s p name k md :
  wf s -> validate_name name = Ok tt -> check_parent s p name = Ok tt ->
  (forall es, k = KDirectory es -> es = ∅) -> next_inode s + 1 < U64 ->
  wf (mkInner (update_dir (<[next_inode s := mkNode p k md 0 0 0 0 0]> (nodes s)) p
                 (fun es => <[name := next_inode s]> es)) (next_inode s + 1)).
Proof.
  intros Hwf Hv Hc Hk Hn. destruct (check_parent_ok s p name Hc) as [Hd Hnone].
  pose proof (wf_fresh s Hwf) as Hfresh. pose proof Hwf as [Ht Hnext Hroot Hnames].
  split; cbn [nodes next_inode].
  - eapply tree_ext; [..|eapply (tree_add _ _ _ p name Ht)].
    + intros i. rewrite update_dir_par, insert_par. reflexivity.
    + intros p0 n0 c0. apply add_node_edges; assumption.
    + apply parf_some, dir_at_some, Hd.
    + intros c. unfold edge. rewrite Hnone. discriminate.
  - exact Hn.
  - rewrite update_dir_kind. unfold dir_at in *.
    rewrite lookup_insert_ne; [exact Hroot|]. intros E. rewrite <- E, Hfresh in Hroot. discriminate.
  - intros p0 n0 c0 H. apply add_node_edges in H; [|assumption..].
    destruct H as [H|(-> & -> & ->)]; eauto.
Qed.

(** What a successful [create] or [symlink] leaves behind. *)
Record added (s s' : Inner) (p : Z) (name : string) (k : NodeKind) (md inum : Z) : Prop := {
  ad_inum : inum = next_inode s /\ next_inode s' = inum + 1 /\ nodes s !! inum = None;
  ad_node : nodes s' !! inum = Some (mkNode p k md 0 0 0 0 0);
  ad_edges : forall a n c, edge (nodes s') a n c <->
    edge (nodes s) a n c \/ (a = p /\ n = name /\ c = inum);
  ad_others : forall j, j <> inum -> j <> p -> nodes s' !! j = nodes s !! j;
  ad_keeps : forall j nd, nodes s !! j = Some nd -> exists nd', nodes s' !! j = Some nd' /\
    parent nd' = parent nd /\ is_dir (kind nd') = is_dir (kind nd)
}.

Lemma add_node_spec s p name k md :
  wf s -> validate_name name = Ok tt -> check_parent s p name = Ok tt ->
  (forall es, k = KDirectory es -> es = ∅) ->
  match add_node s p name k md with
  | (Ok inum, s') => wf s' /\ added s s' p name k md inum
  | (Err e, s') => e = NoSpace /\ s' = s /\ next_inode s = u64_max
  end.
Proof.
  intros Hwf Hv Hc Hk. unfold add_node, checked_add64.
  destruct (Z.ltb_spec (next_inode s + 1) U64) as [Hlt|Hge].
  - split; [apply add_node_wf; assumption|].
    destruct (check_parent_ok s p name Hc) as [Hd Hnone]. pose proof (wf_fresh s Hwf) as Hfresh.
    assert (Hpn : p <> next_inode s).
    { intros ->. apply dir_at_some in Hd as [? Hd]. congruence. }
    split; cbn [nodes next_inode].
    + auto.
    + unfold update_dir. rewrite lookup_insert_ne by congruence.
      apply dir_at_entries in Hd as (nd & es & -> & ->).
      rewrite lookup_insert_ne, lookup_insert_eq by congruence. reflexivity.
    + intros a n c. apply add_node_edges; assumption.
    + intros j Hj Hjp. unfold update_dir. rewrite (lookup_insert_ne _ _ p) by congruence.
      apply dir_at_entries in Hd as (nd & es & -> & ->).
      rewrite !lookup_insert_ne by congruence. reflexivity.
    + intros j nd Hj. assert (Hjn : j <> next_inode s) by congruence.
      unfold update_dir. rewrite (lookup_insert_ne _ _ p) by congruence.
      apply dir_at_entries in Hd as (pd & es & Ep & Kp). rewrite Ep, Kp.
      destruct (decide (j = p)) as [->|Hjp].
      * rewrite lookup_insert_eq. eexists. split; [reflexivity|]. assert (pd = nd) as -> by congruence.
        rewrite Kp. split; reflexivity.
      * rewrite !lookup_insert_ne by congruence. eauto.
  - pose proof (wf_next s Hwf). split_and!; [reflexivity..|]. word_lia.
Qed.

Lemma find_entry_ok s p name c : find_entry s p name = Ok c <-> edge (nodes s) p name c.
Proof.
  unfold find_entry, edge, entry_at. destruct (nodes s !! p) as [n|]; [|split; discriminate].
  destruct (kind n); try (split; discriminate).
  destruct (entries !! name); split; congruence.
Qed.

Lemma remove_entry_edges s p name x a n c :
  wf s -> edge (nodes s) p name x -> (forall n' c', ~ edge (nodes s) x n' c') ->
  (edge (nodes (remove_entry s p name x)) a n c <-> edge (nodes s) a n c /\ c <> x).
Proof.
  intros [Ht _ _ _] Hx Hleaf. destruct Ht as [_ _ Hchild _ Huniq Hfun _].
  unfold edge at 1, remove_entry. cbn [nodes]. rewrite delete_entry, update_dir_delete.
  destruct (decide (a = x)) as [->|Hax].
  - split; [discriminate|intros [H _]; destruct (Hleaf _ _ H)].
  - destruct (decide (a = p /\ n = name)) as [[-> ->]|Hne].
    + split; [discriminate|]. intros [H Hc]. destruct (Hc (Hfun _ _ _ _ H Hx)).
    + split; [intros H; split; [exact H|]|intros [H _]; exact H]. intros ->. apply Hne.
      assert (a = p) as ->.
      { destruct (Hchild _ _ _ H) as [H1 _]. destruct (Hchild _ _ _ Hx) as [H2 _]. congruence. }
      split; [reflexivity|]. eapply Huniq; eassumption.
Qed.

Lemma remove_entry_wf s p name x :
  wf s -> edge (nodes s) p name x -> (forall n' c', ~ edge (nodes s) x n' c') ->
  wf (remove_entry s p name x).
Proof.
  intros Hwf Hx Hleaf. pose proof Hwf as [Ht Hnext Hroot Hnames].
  split; cbn [remove_entry next_inode].
  - eapply tree_ext; [..|eapply (tree_remove _ _ _ p name x Ht Hx Hleaf)].
    + intros i. unfold remove_entry. cbn [nodes]. rewrite delete_par. unfold set_par.
      destruct (i =? x); [reflexivity|apply update_dir_par].
    + intros a n c. apply remove_entry_edges; assumption.
  - exact Hnext.
  - unfold remove_entry. cbn [nodes]. destruct (t_child _ _ _ Ht _ _ _ Hx) as (_ & Hxr & _).
    rewrite <- Hroot, <- (update_dir_kind (nodes s) p (base.delete name) ROOT_INODE).
    unfold dir_at. rewrite lookup_delete_ne by congruence. reflexivity.
  - intros a n c H. apply remove_entry_edges in H; [|assumption..]. destruct H as [H _]. eauto.
Qed.

Lemma file_leaf m x nd : m !! x = Some nd -> is_dir (kind nd) = false -> forall n c, ~ edge m x n c.
Proof. intros Hx Hd n c. unfold edge, entry_at. rewrite Hx. destruct (kind nd); discriminate. Qed.

Lemma empty_dir_leaf m x nd : m !! x = Some nd -> kind nd = KDirectory ∅ -> forall n c, ~ edge m x n c.
Proof. intros Hx Hk n c. unfold edge, entry_at. rewrite Hx, Hk, lookup_empty. discriminate. Qed.

(** ** Termination of the ancestor check *)

(** The root is [k] parent steps away. *)
Inductive reachn (par : Z -> option Z) : nat -> Z -> Prop :=
| rn_root : reachn par O ROOT_INODE
| rn_step k i p : par i = Some p -> i <> ROOT_INODE -> reachn par k p -> reachn par (S k) i.

Lemma reach_reachn par i : reach par i -> exists k, reachn par k i.
Proof.
  induction 1 as [|i p Hp Hr _ [k IH]]; [exists O; constructor|].
  exists (S k). econstructor; eassumption.
Qed.

Lemma reachn_unique par k k' i : reachn par k i -> reachn par k' i -> k = k'.
Proof.
  intros H. revert k'. induction H as [|k i p Hp Hr _ IH]; intros k' H'.
  - inversion H'; [reflexivity|contradiction].
  - inversion H' as [|k2 i2 p2 Hp2 Hr2 H2]; subst; [contradiction|]. f_equal. apply IH. congruence.
Qed.

(** The nodes met on the way up are distinct, so there are at most as many as
    the table holds. *)
Lemma reachn_path par k i :
  is_Some (par ROOT_INODE) -> reachn par k i ->
  exists l, length l = S k /\ NoDup l /\
    Forall (fun j => is_Some (par j) /\ exists m, (m <= k)%nat /\ reachn par m j) l.
Proof.
  intros Hroot. induction 1 as [|k i p Hp Hr Hrn (l & Hlen & Hnd & Hall)].
  - exists [ROOT_INODE]. split_and!; [reflexivity|repeat constructor; set_solver|].
    repeat constructor; [exact Hroot|]. exists O. split; [lia|constructor].
  - exists (i :: l). split_and!; [simpl; congruence| |].
    + constructor; [|exact Hnd]. intros Hin. rewrite Forall_forall in Hall.
      destruct (Hall i Hin) as (_ & m & Hm & Hrm).
      assert (m = S k) by (eapply reachn_unique; [exact Hrm|econstructor; eassumption]). lia.
    + constructor.
      * split; [rewrite Hp; eauto|]. exists (S k). split; [lia|econstructor; eassumption].
      * eapply Forall_impl; [exact Hall|]. intros j (H1 & m & H2 & H3). split; [exact H1|].
        exists m. split; [lia|exact H3].
Qed.

Lemma reachn_bound (m : gmap Z Node) k i :
  is_Some (parf m ROOT_INODE) -> reachn (parf m) k i -> (k < size m)%nat.
Proof.
  intros Hroot Hk. destruct (reachn_path _ _ _ Hroot Hk) as (l & Hlen & Hnd & Hall).
  enough (length l <= size m)%nat by lia.
  rewrite <- size_dom, <- (size_list_to_set (C := gset Z) l) by exact Hnd.
  apply subseteq_size. intros j. rewrite elem_of_list_to_set, elem_of_dom. intros Hj.
  rewrite Forall_forall in Hall. destruct (Hall j Hj) as [Hs _]. unfold parf in Hs.
  destruct (m !! j); [eauto|destruct Hs; discriminate].
Qed.

(** The check ends, and tells whether the node is on the way to the root. *)
Lemma ancestor_check_spec m x cur k fuel :
  parf m ROOT_INODE = Some ROOT_INODE -> (forall i, parf m i = Some i -> i = ROOT_INODE) ->
  reachn (parf m) k cur -> is_Some (parf m cur) -> (k <= fuel)%nat ->
  exists r, ancestor_check fuel m x cur = Some r /\
  match r with
  | Ok _ => reach_avoiding (parf m) x cur
  | Err e => e = InvalidArgument /\ ~ reach_avoiding (parf m) x cur
  end.
Proof.
  intros Hroot Hself Hk. revert fuel. induction Hk as [|k i p Hp Hr Hrn IH]; intros fuel Hs Hf.
  - assert (Hstep : forall b : FsResult unit, exists r,
      (if ROOT_INODE =? x then Some (Err InvalidArgument)
       else match m !! ROOT_INODE with
            | None => Some (Err NotFound)
            | Some n => if parent n =? ROOT_INODE then Some (Ok tt) else Some b
            end) = Some r /\
      match r with Ok _ => reach_avoiding (parf m) x ROOT_INODE
      | Err e => e = InvalidArgument /\ ~ reach_avoiding (parf m) x ROOT_INODE end).
    { intros b. destruct (Z.eqb_spec ROOT_INODE x) as [<-|Hne].
      - eexists. split; [reflexivity|]. split; [reflexivity|]. intros H. inversion H; congruence.
      - unfold parf in Hroot. destruct (m !! ROOT_INODE) as [n|]; [|discriminate].
        injection Hroot as ->. rewrite Z.eqb_refl. eexists. split; [reflexivity|constructor; exact Hne]. }
    unfold parf in Hroot. destruct fuel; simpl; destruct (m !! ROOT_INODE) as [n|] eqn:E;
      try discriminate; injection Hroot as Hpn; rewrite Hpn, Z.eqb_refl in *; apply (Hstep (Ok tt)).
  - destruct fuel as [|fuel]; [lia|]. simpl. destruct (Z.eqb_spec i x) as [->|Hne].
    + eexists. split; [reflexivity|]. split; [reflexivity|]. intros H. inversion H; congruence.
    + unfold parf in Hp. destruct (m !! i) as [n|] eqn:E; [|discriminate]. injection Hp as Hpn.
      assert (Hpi : p <> i).
      { intros ->. apply Hr, Hself. unfold parf. rewrite E. simpl. congruence. }
      rewrite Hpn, (proj2 (Z.eqb_neq p i) Hpi).
      destruct (IH fuel) as (r & Er & Hres); [|lia|].
      { inversion Hrn; subst; [rewrite Hroot; eauto|]. rewrite H. eauto. }
      exists r. split; [exact Er|]. assert (Hpar : parf m i = Some p) by (unfold parf; rewrite E; simpl; congruence).
      destruct r as [u|e]; [econstructor; eassumption|]. destruct Hres as [-> Hno].
      split; [reflexivity|]. intros H. apply Hno. inversion H; congruence.
Qed.

(** ** [rename] *)

Lemma reach_avoid_leaf par x i :
  (forall j, par j = Some x -> j <> ROOT_INODE -> False) -> ROOT_INODE <> x -> i <> x ->
  reach par i -> reach_avoiding par x i.
Proof.
  intros Hleaf Hx Hi Hr. revert Hi. induction Hr as [|i p Hp Hr _ IH]; intros Hi; [constructor; exact Hx|].
  apply (ra_step _ _ i p); [assumption..|]. apply IH. intros ->. eauto.
Qed.

(** Removing a leaf does not disturb the way up from another node. *)
Lemma avoid_remove par x e i :
  (forall j, par j = Some e -> j <> ROOT_INODE -> False) -> i <> e ->
  reach_avoiding par x i -> reach_avoiding (set_par par e None) x i.
Proof.
  intros Hleaf Hi Hr. revert Hi. induction Hr as [|i p Hp Hr Hx _ IH]; intros Hi; [constructor; assumption|].
  apply (ra_step _ _ i p); [rewrite set_par_other; assumption|assumption..|]. apply IH. intros ->. eauto.
Qed.

Lemma avoid_ext par par' x i :
  (forall j, par' j = par j) -> reach_avoiding par x i -> reach_avoiding par' x i.
Proof.
  intros Heq. induction 1 as [|i p Hp Hr Hx _ IH]; [constructor; assumption|].
  apply (ra_step _ _ i p); [rewrite Heq; assumption|assumption..].
Qed.

Lemma update_dir_delete_node m x p f :
  p <> x -> update_dir (base.delete x m) p f = base.delete x (update_dir m p f).
Proof.
  intros Hne. unfold update_dir. rewrite lookup_delete_ne by congruence.
  destruct (m !! p) as [n|]; [|reflexivity]. destruct (kind n); try reflexivity.
  rewrite delete_insert_ne by congruence. reflexivity.
Qed.

(** [relink] on a table where the destination name is free. *)
Section Relink.
Context (s : Inner) (Hwf : wf s) (op np x : Z) (on nn : string).
Context (Hx : edge (nodes s) op on x) (Hnp : dir_at (nodes s) np = true)
        (Hfree : entry_at (nodes s) np nn = None).
Let m' := relink (nodes s) op on np nn x.

Lemma relink_child : exists nd, nodes s !! x = Some nd /\
  update_dir (update_dir (nodes s) op (base.delete on)) np (fun es => <[nn := x]> es) !! x <> None.
Proof.
  destruct (t_child _ _ _ (wf_tree s Hwf) _ _ _ Hx) as (Hpx & _). unfold parf in Hpx.
  destruct (nodes s !! x) as [nd|] eqn:E; [|discriminate]. exists nd. split; [reflexivity|].
  intros Hn. assert (Hc : parf (update_dir (update_dir (nodes s) op (base.delete on)) np
    (fun es => <[nn := x]> es)) x = None) by (unfold parf; rewrite Hn; reflexivity).
  rewrite !update_dir_par in Hc. unfold parf in Hc. rewrite E in Hc. discriminate.
Qed.

Lemma relink_par i : parf m' i = set_par (parf (nodes s)) x (Some np) i.
Proof.
  destruct relink_child as (nd & _ & Hsome). unfold m', relink.
  destruct (_ !! x) as [ch|] eqn:E; [|contradiction]. rewrite insert_par.
  unfold set_par. destruct (i =? x); [reflexivity|]. rewrite !update_dir_par. reflexivity.
Qed.

Lemma relink_entry a n :
  entry_at m' a n = if decide (a = np /\ n = nn) then Some x
                    else if decide (a = op /\ n = on) then None else entry_at (nodes s) a n.
Proof.
  destruct relink_child as (nd & _ & Hsome). unfold m', relink.
  destruct (_ !! x) as [ch|] eqn:E; [|contradiction].
  rewrite (insert_entry_same _ _ ch) by (auto; left; reflexivity).
  rewrite update_dir_insert by (rewrite update_dir_kind; exact Hnp).
  rewrite update_dir_delete. reflexivity.
Qed.

Lemma relink_edges a n c :
  edge m' a n c <-> (edge (nodes s) a n c /\ c <> x) \/ (a = np /\ n = nn /\ c = x).
Proof.
  destruct (wf_tree s Hwf) as [_ _ Hchild _ Huniq Hfun _]. unfold edge at 1. rewrite relink_entry.
  destruct (decide (a = np /\ n = nn)) as [[-> ->]|Hne].
  - unfold edge. rewrite Hfree. split; [intros [= <-]; auto|].
    intros [[H _]|(_ & _ & ->)]; [discriminate|reflexivity].
  - destruct (decide (a = op /\ n = on)) as [[-> ->]|Hne'].
    + split; [discriminate|]. intros [[H Hc]|(-> & -> & _)]; [destruct (Hc (Hfun _ _ _ _ H Hx))|tauto].
    + split; [|intros [[H _]|(-> & -> & _)]; [exact H|tauto]]. intros H. left. split; [exact H|].
      intros ->. apply Hne'. assert (a = op) as ->.
      { destruct (Hchild _ _ _ H) as [H1 _]. destruct (Hchild _ _ _ Hx) as [H2 _]. congruence. }
      split; [reflexivity|eapply Huniq; eassumption].
Qed.

Lemma relink_wf :
  validate_name nn = Ok tt -> reach_avoiding (parf (nodes s)) x np ->
  wf (mkInner m' (next_inode s)).
Proof.
  intros Hv Hav. pose proof Hwf as [Ht Hnext Hroot Hnames]. split; cbn [nodes next_inode].
  - eapply tree_ext; [exact relink_par|exact relink_edges|].
    apply (tree_move _ _ _ op on x np nn Ht Hx).
    + apply parf_some, dir_at_some, Hnp.
    + exact Hav.
    + intros c _. unfold edge. rewrite Hfree. discriminate.
  - exact Hnext.
  - assert (Hroot' : dir_at (update_dir (update_dir (nodes s) op (base.delete on)) np
                      (fun es => <[nn := x]> es)) ROOT_INODE = true)
      by (rewrite !update_dir_kind; exact Hroot).
    unfold m', relink. destruct (_ !! x) as [ch|] eqn:E; [|exact Hroot'].
    destruct (t_child _ _ _ Ht _ _ _ Hx) as (_ & Hxr & _).
    unfold dir_at in *. rewrite lookup_insert_ne by congruence. exact Hroot'.
  - intros a n c H. apply relink_edges in H. destruct H as [[H _]|(_ & -> & _)]; eauto.
Qed.

(** No file contents change. *)
Lemma relink_kind j nd :
  m' !! j = Some nd -> is_dir (kind nd) = false ->
  exists nd0, nodes s !! j = Some nd0 /\ kind nd0 = kind nd.
Proof.
  assert (Hud : forall m i f k n, update_dir m i f !! k = Some n -> is_dir (kind n) = false ->
    m !! k = Some n).
  { intros m i f k n. unfold update_dir. destruct (m !! i) as [q|] eqn:E; [|auto].
    destruct (kind q); auto. destruct (decide (k = i)) as [->|Hne].
    - rewrite lookup_insert_eq. intros [= <-] Hd. discriminate.
    - rewrite lookup_insert_ne by congruence. auto. }
  unfold m', relink. destruct (_ !! x) as [ch|] eqn:E.
  - destruct (decide (j = x)) as [->|Hne].
    + rewrite lookup_insert_eq. intros [= <-] Hd. exists ch. split; [|reflexivity].
      eapply Hud; [eapply Hud; [exact E|exact Hd]|exact Hd].
    + rewrite lookup_insert_ne by congruence. intros H Hd. exists nd. split; [|reflexivity].
      eapply Hud; [eapply Hud; [exact H|exact Hd]|exact Hd].
  - intros H Hd. exists nd. split; [|reflexivity]. eapply Hud; [eapply Hud; [exact H|exact Hd]|exact Hd].
Qed.

End Relink.

Lemma wf_no_self s i : wf s -> parf (nodes s) i = Some i -> i = ROOT_INODE.
Proof.
  intros [Ht _ _ _] Hi. destruct (Z.eq_dec i ROOT_INODE) as [|Hne]; [assumption|].
  assert (Hr := t_reach _ _ _ Ht i (ex_intro _ _ Hi)). exfalso. revert Hi Hne.
  induction Hr as [|i p Hp Hr _ IH]; [congruence|]. intros Hi _. assert (p = i) as -> by congruence. auto.
Qed.

Lemma leaf_no_child s x : wf s -> (forall n c, ~ edge (nodes s) x n c) ->
  forall j, parf (nodes s) j = Some x -> j <> ROOT_INODE -> False.
Proof.
  intros [Ht _ _ _] Hleaf j Hj Hne. destruct (t_entry _ _ _ Ht j x Hj Hne) as [n Hn]. exact (Hleaf n j Hn).
Qed.

(** The guard of [rename] ends, and lets only moves through that keep the tree. *)
Lemma move_guard s op on x np :
  wf s -> edge (nodes s) op on x -> dir_at (nodes s) np = true ->
  exists r, (if dir_at (nodes s) x then ancestor_check (size (nodes s)) (nodes s) x np
             else Some (Ok tt)) = Some r /\
  match r with
  | Ok _ => reach_avoiding (parf (nodes s)) x np
  | Err e => e = InvalidArgument /\ ~ reach_avoiding (parf (nodes s)) x np
  end.
Proof.
  intros Hwf Hx Hnp. pose proof (wf_tree s Hwf) as Ht.
  assert (Hnp' : is_Some (parf (nodes s) np)) by (apply parf_some, dir_at_some, Hnp).
  destruct (dir_at (nodes s) x) eqn:Hd.
  - destruct (reach_reachn _ _ (t_reach _ _ _ Ht np Hnp')) as [k Hk].
    apply (ancestor_check_spec (nodes s) x np k).
    + apply (t_root _ _ _ Ht).
    + intros i. apply wf_no_self, Hwf.
    + exact Hk.
    + exact Hnp'.
    + apply Nat.lt_le_incl, (reachn_bound _ _ np); [rewrite (t_root _ _ _ Ht); eauto|exact Hk].
  - exists (Ok tt). split; [reflexivity|].
    destruct (t_child _ _ _ Ht _ _ _ Hx) as (Hpx & Hxr & _).
    destruct (nodes s !! x) as [nd|] eqn:E; [|unfold parf in Hpx; rewrite E in Hpx; discriminate].
    apply reach_avoid_leaf; [|congruence| |apply (t_reach _ _ _ Ht), Hnp'].
    + apply (leaf_no_child s x Hwf), (file_leaf _ _ nd E). unfold dir_at in Hd. rewrite E in Hd. exact Hd.
    + intros ->. congruence.
Qed.

(** The effect of a successful rename of node [x]. *)
Record renamed (s s' : Inner) (op : Z) (on : string) (np : Z) (nn : string) (x : Z) : Prop := {
  rn_source : edge (nodes s) op on x;
  rn_edges : forall a n c, edge (nodes s') a n c <->
    (a = np /\ n = nn /\ c = x) \/ (edge (nodes s) a n c /\ c <> x /\ ~ (a = np /\ n = nn));
  rn_next : next_inode s' = next_inode s;
  rn_contents : forall j nd, nodes s' !! j = Some nd -> is_dir (kind nd) = false ->
    exists nd0, nodes s !! j = Some nd0 /\ kind nd0 = kind nd
}.

Lemma rename_free s op on x np nn :
  wf s -> edge (nodes s) op on x -> dir_at (nodes s) np = true -> validate_name nn = Ok tt ->
  reach_avoiding (parf (nodes s)) x np -> entry_at (nodes s) np nn = None ->
  let s' := mkInner (relink (nodes s) op on np nn x) (next_inode s) in
  wf s' /\ renamed s s' op on np nn x.
Proof.
  intros Hwf Hx Hnp Hv Hav Hfree s'. split; [apply relink_wf; assumption|].
  split; [exact Hx| |reflexivity|].
  - intros a n c. unfold s'. cbn [nodes]. rewrite relink_edges by assumption.
    split; [|tauto]. intros [[H Hc]|H]; [|tauto]. right. split_and!; [assumption..|].
    intros [-> ->]. unfold edge in H. rewrite Hfree in H. discriminate.
  - intros j nd Hj Hd. exact (relink_kind s op np x on nn j nd Hj Hd).
Qed.

(** Making room: the destination is a leaf other than the moved node. *)
Lemma rename_replace s op on x np nn e :
  wf s -> edge (nodes s) op on x -> dir_at (nodes s) np = true -> validate_name nn = Ok tt ->
  reach_avoiding (parf (nodes s)) x np -> edge (nodes s) np nn e -> e <> x ->
  (forall n c, ~ edge (nodes s) e n c) ->
  let m := update_dir (base.delete e (nodes s)) np (base.delete nn) in
  let s' := mkInner (relink m op on np nn x) (next_inode s) in
  wf s' /\ renamed s s' op on np nn x.
Proof.
  intros Hwf Hx Hnp Hv Hav He Hex Hleaf m s'. pose proof (wf_tree s Hwf) as Ht.
  destruct (t_child _ _ _ Ht _ _ _ He) as (Hpe & Her & _).
  assert (Hne : np <> e) by (intros ->; apply Her, (wf_no_self s e Hwf), Hpe).
  set (s1 := remove_entry s np nn e).
  assert (Hm : m = nodes s1) by (apply update_dir_delete_node; exact Hne).
  assert (Hwf1 : wf s1) by (apply remove_entry_wf; assumption).
  assert (Hed : forall a n c, edge (nodes s1) a n c <-> edge (nodes s) a n c /\ c <> e)
    by (intros; apply remove_entry_edges; assumption).
  destruct (rename_free s1 op on x np nn) as [Hwf' [_ R2 R3 R4]].
  - exact Hwf1.
  - apply Hed. split; [exact Hx|congruence].
  - rewrite <- Hnp, <- (update_dir_kind (nodes s) np (base.delete nn) np). unfold s1, remove_entry, dir_at.
    cbn [nodes]. rewrite lookup_delete_ne by congruence. reflexivity.
  - exact Hv.
  - apply (avoid_ext (set_par (parf (nodes s)) e None));
      [|apply avoid_remove; [apply leaf_no_child; assumption|exact Hne|exact Hav]].
    intros j. unfold s1, remove_entry. cbn [nodes]. rewrite delete_par. unfold set_par.
    destruct (j =? e); [reflexivity|apply update_dir_par].
  - destruct (entry_at (nodes s1) np nn) as [c|] eqn:E; [|reflexivity].
    apply Hed in E as [E Hc]. destruct (Hc (t_fun _ _ _ Ht _ _ _ _ E He)).
  - unfold s'. rewrite Hm. split; [exact Hwf'|]. split; [exact Hx| |exact R3|].
    + intros a n c. rewrite R2, Hed. split; [tauto|]. intros [H|(H & Hc & Hn)]; [tauto|right].
      split_and!; [exact H| |exact Hc|exact Hn]. intros ->.
      destruct (t_child _ _ _ Ht _ _ _ H) as [H1 _]. assert (a = np) as -> by congruence.
      apply Hn. split; [reflexivity|]. eapply (t_uniq _ _ _ Ht); eassumption.
    + intros j nd Hj Hd. destruct (R4 j nd Hj Hd) as (nd0 & H1 & H2).
      unfold s1, remove_entry in H1. cbn [nodes] in H1.
      rewrite lookup_delete_Some in H1. destruct H1 as [Hje H1].
      exists nd0. split; [|exact H2]. unfold update_dir in H1.
      destruct (nodes s !! np) as [q|]; [|exact H1]. destruct (kind q); try exact H1.
      destruct (decide (j = np)) as [->|Hjn]; [|rewrite lookup_insert_ne in H1 by congruence; exact H1].
      rewrite lookup_insert_eq in H1. injection H1 as <-. rewrite <- H2 in Hd. discriminate.
Qed.

Lemma rename_spec s op on np nn :
  wf s ->
  exists r s', rename s op on np nn = Some (r, s') /\ wf s' /\
  match r with
  | Ok _ => exists x, renamed s s' op on np nn x /\ reach_avoiding (parf (nodes s)) x np
  | Err _ => s' = s
  end.
Proof.
  intros Hwf. unfold rename. destruct (validate_name nn) as [[]|e] eqn:Hv; [|eauto 10].
  destruct (find_entry s op on) as [x|e] eqn:Hfind; [|eauto 10]. apply find_entry_ok in Hfind as Hx.
  destruct (dir_at (nodes s) np) eqn:Hnp; simpl negb; cbv iota; [|eauto 10].
  destruct (move_guard s op on x np Hwf Hx Hnp) as (r & -> & Hr).
  destruct r as [[]|e]; [|eauto 10].
  destruct (entry_at (nodes s) np nn) as [eid|] eqn:He.
  2:{ eexists _, _. split; [reflexivity|].
      destruct (rename_free s op on x np nn Hwf Hx Hnp Hv Hr He). eauto. }
  destruct (Z.eqb_spec eid x) as [->|Hne].
  { eexists _, s. split; [reflexivity|]. split; [exact Hwf|]. exists x.
    split; [|exact Hr]. pose proof (wf_tree s Hwf) as Ht. split; [exact Hx| |reflexivity|eauto].
    intros a n c. split.
    - intros H. destruct (decide (a = np /\ n = nn)) as [[-> ->]|Hn].
      + left. split_and!; [reflexivity..|]. eapply (t_fun _ _ _ Ht); eassumption.
      + right. split_and!; [exact H| |exact Hn]. intros ->. apply Hn.
        destruct (t_child _ _ _ Ht _ _ _ H) as [H1 _]. destruct (t_child _ _ _ Ht _ _ _ He) as [H2 _].
        assert (a = np) as -> by congruence. split; [reflexivity|]. eapply (t_uniq _ _ _ Ht); eassumption.
    - intros [(-> & -> & ->)|(H & _)]; assumption. }
  destruct (negb _); [eauto 10|]. destruct (_ && _) eqn:Hfull; [eauto 10|].
  eexists _, _. split; [reflexivity|].
  destruct (rename_replace s op on x np nn eid Hwf Hx Hnp Hv Hr He Hne); [|eauto].
  destruct (t_child _ _ _ (wf_tree s Hwf) _ _ _ He) as (Hpe & _). unfold parf, dir_at in *.
  destruct (nodes s !! eid) as [nd|] eqn:E; [|discriminate].
  destruct (kind nd) as [d|es|t] eqn:K; simpl in Hfull.
  - apply (file_leaf _ _ nd E). rewrite K. reflexivity.
  - apply (empty_dir_leaf _ _ nd E). rewrite K. f_equal.
    destruct (bool_decide_reflect (es = ∅)); [assumption|discriminate].
  - apply (file_leaf _ _ nd E). rewrite K. reflexivity.
Qed.

(** ** File contents *)

Lemma set_node_wf s i nd nd' :
  wf s -> nodes s !! i = Some nd -> parent nd' = parent nd ->
  is_dir (kind nd) = false -> is_dir (kind nd') = false -> wf (set_node s i nd').
Proof.
  intros [Ht Hnext Hroot Hnames] Hi Hp Hd Hd'.
  assert (He : forall p n, entry_at (<[i := nd']> (nodes s)) p n = entry_at (nodes s) p n)
    by (intros; eapply insert_entry_same; eauto).
  split; cbn [set_node nodes next_inode].
  - eapply tree_ext; [| |exact Ht].
    + intros j. rewrite insert_par. unfold set_par. destruct (Z.eqb_spec j i) as [->|]; [|reflexivity].
      unfold parf. rewrite Hi. simpl. congruence.
    + intros p n c. unfold edge. rewrite He. reflexivity.
  - exact Hnext.
  - unfold dir_at in *. rewrite lookup_insert_ne; [exact Hroot|]. intros ->.
    rewrite Hi in Hroot. congruence.
  - intros p n c. unfold edge. rewrite He. apply Hnames.
Qed.

(** The bytes of a file after a write at [off]. *)
Definition written (data : list Z) (off : nat) (buf : list Z) : list Z :=
  splice (data ++ replicate (off + length buf - length data) 0) off buf.

Lemma splice_length data off buf :
  (off + length buf <= length data)%nat -> length (splice data off buf) = length data.
Proof. intros H. unfold splice. rewrite !length_app, length_take, length_drop. lia. Qed.

Lemma written_length data off buf :
  length (written data off buf) = Nat.max (length data) (off + length buf).
Proof.
  unfold written. rewrite splice_length by (rewrite length_app, length_replicate; lia).
  rewrite length_app, length_replicate. lia.
Qed.

(** Byte [k] after the write: the buffer's where it was written, the old byte
    elsewhere in the old file, zero in a gap. *)
Lemma written_lookup data off buf k :
  (k < Nat.max (length data) (off + length buf))%nat ->
  written data off buf !! k =
    if decide (off <= k < off + length buf)%nat then buf !! (k - off)%nat
    else if decide (k < length data)%nat then data !! k else Some 0.
Proof.
  intros Hk. unfold written, splice.
  set (d := data ++ replicate (off + length buf - length data) 0).
  assert (Hd : forall j, (j < Nat.max (length data) (off + length buf))%nat ->
    d !! j = if decide (j < length data)%nat then data !! j else Some 0).
  { intros j Hj. unfold d. case_decide as E.
    - apply lookup_app_l. exact E.
    - rewrite lookup_app_r by lia. apply lookup_replicate_2. lia. }
  assert (Hl : length d = Nat.max (length data) (off + length buf))
    by (unfold d; rewrite length_app, length_replicate; lia).
  assert (Ht : length (take off d) = off) by (rewrite length_take; lia).
  destruct (decide (off <= k < off + length buf)%nat) as [E|E].
  - rewrite lookup_app_r, Ht by lia. apply lookup_app_l. lia.
  - rewrite <- Hd by lia. destruct (decide (k < off)%nat) as [E'|E'].
    + rewrite lookup_app_l by lia. apply lookup_take_lt. exact E'.
    + rewrite lookup_app_r, Ht, lookup_app_r, lookup_drop by lia. f_equal. lia.
Qed.

(** The written range reads back as the buffer. *)
Lemma written_read data off buf : take (length buf) (drop off (written data off buf)) = buf.
Proof.
  unfold written, splice. set (d := data ++ _).
  assert (Hd : (off <= length d)%nat) by (unfold d; rewrite length_app, length_replicate; lia).
  rewrite drop_app_ge by (rewrite length_take; lia).
  rewrite length_take. replace (off - _)%nat with O by lia.
  rewrite drop_0, take_app_length. reflexivity.
Qed.

Lemma vec_resize_grow data len :
  Z.of_nat (length data) <= len <= isize_max ->
  vec_resize data len = Ret (data ++ replicate (Z.to_nat len - length data) 0).
Proof.
  intros H. unfold vec_resize. rewrite (proj2 (Z.ltb_ge isize_max len)) by lia.
  rewrite take_ge by lia. reflexivity.
Qed.

(** [write] on a file: success exactly when the end fits, a panic when growing
    beyond [isize::MAX], [NoSpace] when the end overflows. *)
Lemma write_file s i off buf nd data :
  nodes s !! i = Some nd -> kind nd = KFile data -> 0 <= off ->
  Z.of_nat (length data) <= isize_max ->
  write s i off buf =
    let end_ := off + Z.of_nat (length buf) in
    if U64 <=? end_ then Ret (Err NoSpace, s)
    else if (isize_max <? end_) then Panic
    else Ret (Ok (Z.of_nat (length buf)),
              set_node s i (set_kind nd (KFile (written data (Z.to_nat off) buf)))).
Proof.
  intros Hi Hk Hoff Hlen. unfold write. rewrite Hi, Hk. unfold checked_add64.
  set (end_ := off + Z.of_nat (length buf)).
  destruct (Z.ltb_spec end_ U64) as [Hlt|Hge], (Z.leb_spec U64 end_); try lia; [|reflexivity].
  destruct (Z.ltb_spec (Z.of_nat (length data)) end_) as [Hgrow|Hin].
  - destruct (Z.ltb_spec isize_max end_) as [Hbig|Hfit].
    + unfold vec_resize. rewrite (proj2 (Z.ltb_lt isize_max end_)) by exact Hbig. reflexivity.
    + rewrite vec_resize_grow by lia. unfold written. do 6 f_equal. f_equal. f_equal. f_equal. lia.
  - rewrite (proj2 (Z.ltb_ge isize_max end_)) by lia. unfold written.
    replace (Z.to_nat off + length buf - length data)%nat with O by lia.
    simpl. rewrite app_nil_r. reflexivity.
Qed.

Lemma read_file s i off buf nd data :
  nodes s !! i = Some nd -> kind nd = KFile data -> 0 <= off ->
  read s i off buf =
    let n := Nat.min (length buf) (length data - Z.to_nat off) in
    Ok (Z.of_nat n, take n (drop (Z.to_nat off) data) ++ drop n buf).
Proof.
  intros Hi Hk Hoff. unfold read. rewrite Hi, Hk.
  destruct (Z.leb_spec (Z.of_nat (length data)) off) as [H|H]; [|reflexivity].
  replace (length data - Z.to_nat off)%nat with O by lia. rewrite Nat.min_0_r. reflexivity.
Qed.

(** ** Histories *)

Inductive op :=
| OCreate (p : Z) (name : string) (ft : FileType) (mode : Z)
| OSymlink (p : Z) (name target : string)
| OUnlink (p : Z) (name : string)
| ORmdir (p : Z) (name : string)
| ORename (op_ : Z) (on : string) (np : Z) (nn : string)
| OWrite (i off : Z) (buf : list Z)
| OTruncate (i size : Z).

(** The state after an operation, whatever its result; [None] is a panic or fuel
    run out. *)
Definition exec (o : op) (s : Inner) : option Inner :=
  match o with
  | OCreate p name ft mode => Some (snd (create s p name ft mode))
  | OSymlink p name target => Some (snd (symlink s p name target))
  | OUnlink p name => Some (snd (unlink s p name))
  | ORmdir p name => Some (snd (rmdir s p name))
  | ORename p on np nn => snd <$> rename s p on np nn
  | OWrite i off buf => match write s i off buf with Ret (_, s') => Some s' | Panic => None end
  | OTruncate i size => match truncate s i size with Ret (_, s') => Some s' | Panic => None end
  end.

Inductive reachable : Inner -> Prop :=
| reachable_new : reachable new
| reachable_step o s s' : reachable s -> exec o s = Some s' -> reachable s'.

Definition removed (s s' : Inner) (p : Z) (name : string) (x : Z) : Prop :=
  edge (nodes s) p name x /\ nodes s' !! x = None /\ next_inode s' = next_inode s /\
  dir_at (nodes s') p = true /\
  forall a n c, edge (nodes s') a n c <-> edge (nodes s) a n c /\ c <> x.

Lemma create_spec s p name ft md :
  wf s ->
  match create s p name ft md with
  | (Ok inum, s') => wf s' /\ exists k, file_type k = ft /\ kind_size k = 0 /\ added s s' p name k md inum
  | (Err e, s') => s' = s /\
      match e with
      | InvalidArgument => validate_name name = Err InvalidArgument
      | NotFound => nodes s !! p = None
      | NotADirectory => is_Some (nodes s !! p) /\ dir_at (nodes s) p = false
      | AlreadyExists => is_Some (entry_at (nodes s) p name)
      | Unsupported => ft <> Regular /\ ft <> Directory /\ ft <> Symlink
      | NoSpace => next_inode s = u64_max
      | _ => False
      end
  end.
Proof.
  intros Hwf. unfold create.
  destruct (validate_name name) as [[]|e] eqn:Hv.
  2:{ split; [reflexivity|]. unfold validate_name in Hv. destruct (_ || _); [|discriminate].
      injection Hv as <-. reflexivity. }
  destruct (check_parent s p name) as [[]|e] eqn:Hc.
  - assert (Hadd : forall k, (forall es, k = KDirectory es -> es = ∅) -> file_type k = ft -> kind_size k = 0 ->
      match add_node s p name k md with
      | (Ok inum, s') => wf s' /\ exists k, file_type k = ft /\ kind_size k = 0 /\ added s s' p name k md inum
      | (Err e, s') => s' = s /\ e = NoSpace /\ next_inode s = u64_max
      end).
    { intros k Hk Hft Hsz. pose proof (add_node_spec s p name k md Hwf Hv Hc Hk) as H.
      destruct (add_node s p name k md) as [[i|e] s']; [destruct H; eauto 6|destruct H as (? & ? & ?); auto]. }
    destruct ft; try (split; [reflexivity|split_and!; discriminate]).
    1: specialize (Hadd (KFile [])).
    2: specialize (Hadd (KDirectory ∅)).
    3: specialize (Hadd (KSymlink "")).
    all: destruct (add_node _ _ _ _ _) as [[i|e] s']; [apply Hadd; [congruence|reflexivity..]|].
    all: destruct Hadd as (-> & -> & H); [congruence|reflexivity..|split; [reflexivity|exact H]].
  - split; [reflexivity|]. unfold check_parent, dir_at, entry_at in *.
    destruct (nodes s !! p) as [n|]; [|injection Hc as <-; reflexivity].
    destruct (kind n); try (injection Hc as <-; split; [eauto|reflexivity]).
    case_bool_decide as E; [|discriminate]. injection Hc as <-. exact E.
Qed.

Lemma symlink_wf s p name target : wf s -> wf (snd (symlink s p name target)).
Proof.
  intros Hwf. unfold symlink. destruct (validate_name name) as [[]|e] eqn:Hv; [|exact Hwf].
  destruct (check_parent s p name) as [[]|e] eqn:Hc; [|exact Hwf].
  pose proof (add_node_spec s p name (KSymlink target) 511 Hwf Hv Hc ltac:(discriminate)) as H.
  destruct (add_node _ _ _ _ _) as [[i|e] s']; [apply H|]. destruct H as (_ & -> & _). exact Hwf.
Qed.

Lemma remove_entry_removed s p name x :
  wf s -> edge (nodes s) p name x -> (forall n c, ~ edge (nodes s) x n c) ->
  wf (remove_entry s p name x) /\ removed s (remove_entry s p name x) p name x.
Proof.
  intros Hwf Hx Hleaf. split; [apply remove_entry_wf; assumption|].
  destruct (t_child _ _ _ (wf_tree s Hwf) _ _ _ Hx) as (Hpx & Hxr & _).
  assert (Hne : p <> x) by (intros ->; apply Hxr, (wf_no_self s x Hwf), Hpx).
  split_and!; [exact Hx|apply lookup_delete_eq|reflexivity| |].
  - assert (Hd : dir_at (update_dir (nodes s) p (base.delete name)) p = true).
    { rewrite update_dir_kind. unfold edge, entry_at, dir_at in *.
      destruct (nodes s !! p) as [n|]; [|discriminate]. destruct (kind n); try discriminate. reflexivity. }
    unfold remove_entry, dir_at in *. cbn [nodes]. rewrite lookup_delete_ne by congruence. exact Hd.
  - intros a n c. apply remove_entry_edges; assumption.
Qed.

Lemma unlink_spec s p name :
  wf s ->
  match unlink s p name with
  | (Ok _, s') => wf s' /\ exists x, dir_at (nodes s) x = false /\ removed s s' p name x
  | (Err e, s') => s' = s /\
      (e = IsADirectory -> exists x, edge (nodes s) p name x /\ dir_at (nodes s) x = true)
  end.
Proof.
  intros Hwf. unfold unlink. destruct (find_entry s p name) as [x|e] eqn:Hf.
  - apply find_entry_ok in Hf as Hx. destruct (nodes s !! x) as [nd|] eqn:E; [|split; [reflexivity|discriminate]].
    destruct (is_dir (kind nd)) eqn:Hd.
    + split; [reflexivity|]. intros _. exists x. unfold dir_at. rewrite E. auto.
    + destruct (remove_entry_removed s p name x Hwf Hx (file_leaf _ _ nd E Hd)) as [H1 H2].
      split; [exact H1|]. exists x. split; [unfold dir_at; rewrite E; exact Hd|exact H2].
  - split; [reflexivity|]. intros ->. unfold find_entry in Hf. destruct (nodes s !! p) as [n|]; [|discriminate].
    destruct (kind n); try discriminate. destruct (entries !! name); discriminate.
Qed.

Lemma rmdir_spec s p name :
  wf s ->
  match rmdir s p name with
  | (Ok _, s') => wf s' /\ exists x, dir_at (nodes s) x = true /\ removed s s' p name x
  | (Err e, s') => s' = s /\
      (e = NotEmpty -> exists x n c, edge (nodes s) p name x /\ edge (nodes s) x n c)
  end.
Proof.
  intros Hwf. unfold rmdir. destruct (find_entry s p name) as [x|e] eqn:Hf.
  - apply find_entry_ok in Hf as Hx. destruct (nodes s !! x) as [nd|] eqn:E; [|split; [reflexivity|discriminate]].
    destruct (kind nd) as [d|es|t] eqn:K; try (split; [reflexivity|discriminate]).
    case_bool_decide as Hes.
    + subst es. destruct (remove_entry_removed s p name x Hwf Hx (empty_dir_leaf _ _ nd E K)) as [H1 H2].
      split; [exact H1|]. exists x. split; [unfold dir_at; rewrite E, K; reflexivity|exact H2].
    + split; [reflexivity|]. intros _. apply map_choose in Hes as (n & c & Hn).
      exists x, n, c. split; [exact Hx|]. unfold edge, entry_at. rewrite E, K. exact Hn.
  - split; [reflexivity|]. intros ->. unfold find_entry in Hf. destruct (nodes s !! p) as [n|]; [|discriminate].
    destruct (kind n); try discriminate. destruct (entries !! name); discriminate.
Qed.

Lemma write_wf s i off buf r s' : wf s -> write s i off buf = Ret (r, s') -> wf s'.
Proof.
  intros Hwf. unfold write. destruct (nodes s !! i) as [nd|] eqn:E; [|intros [= <- <-]; exact Hwf].
  destruct (kind nd) eqn:K; try (intros [= <- <-]; exact Hwf).
  destruct (checked_add64 _ _); [|intros [= <- <-]; exact Hwf].
  destruct (if _ <? _ then _ else _) as [d|]; [|discriminate]. intros [= <- <-].
  eapply set_node_wf; [exact Hwf|exact E|reflexivity|rewrite K; reflexivity|reflexivity].
Qed.

Lemma truncate_wf s i len r s' : wf s -> truncate s i len = Ret (r, s') -> wf s'.
Proof.
  intros Hwf. unfold truncate. destruct (nodes s !! i) as [nd|] eqn:E; [|intros [= <- <-]; exact Hwf].
  destruct (kind nd) eqn:K; try (intros [= <- <-]; exact Hwf).
  destruct (vec_resize _ _) as [d|]; [|discriminate]. intros [= <- <-].
  eapply set_node_wf; [exact Hwf|exact E|reflexivity|rewrite K; reflexivity|reflexivity].
Qed.

Lemma exec_wf o s s' : wf s -> exec o s = Some s' -> wf s'.
Proof.
  intros Hwf H. destruct o as [p name ft md|p name target|p name|p name|op_ on np nn|i off buf|i len];
    simpl in H.
  - injection H as <-. pose proof (create_spec s p name ft md Hwf) as Hc.
    destruct (create s p name ft md) as [[i|e] s1]; [apply Hc|]. destruct Hc as [-> _]. exact Hwf.
  - injection H as <-. apply symlink_wf, Hwf.
  - injection H as <-. pose proof (unlink_spec s p name Hwf) as Hc.
    destruct (unlink s p name) as [[u|e] s1]; [apply Hc|]. destruct Hc as [-> _]. exact Hwf.
  - injection H as <-. pose proof (rmdir_spec s p name Hwf) as Hc.
    destruct (rmdir s p name) as [[u|e] s1]; [apply Hc|]. destruct Hc as [-> _]. exact Hwf.
  - destruct (rename_spec s op_ on np nn Hwf) as (r & s1 & E & Hwf1 & _). rewrite E in H.
    injection H as <-. exact Hwf1.
  - destruct (write s i off buf) as [[r s1]|] eqn:E; [|discriminate]. injection H as <-.
    eapply write_wf; eassumption.
  - destruct (truncate s i len) as [[r s1]|] eqn:E; [|discriminate]. injection H as <-.
    eapply truncate_wf; eassumption.
Qed.

Lemma reachable_wf s : reachable s -> wf s.
Proof. induction 1; [exact wf_new_ramfs|eapply exec_wf; eassumption]. Qed.

(** Lookups that succeeded before a node was added still give the same inode. *)
Lemma added_lookup s s' p name k md inum a n c :
  added s s' p name k md inum -> lookup s a n = Ok c -> lookup s' a n = Ok c.
Proof.
  intros [_ _ Hed _ Hkeep] Hl. unfold lookup in Hl. destruct (nodes s !! a) as [nd|] eqn:E; [|discriminate].
  destruct (kind nd) as [d|es|t] eqn:K; try discriminate.
  destruct (Hkeep a nd E) as (nd' & E' & Hp & Hd). rewrite K in Hd.
  destruct (kind nd') as [d'|es'|t'] eqn:K'; try discriminate.
  unfold lookup. rewrite E', K', Hp. case_bool_decide; [exact Hl|]. case_bool_decide; [exact Hl|].
  destruct (es !! n) as [x|] eqn:En; [|discriminate].
  assert (He : edge (nodes s') a n x).
  { apply Hed. left. unfold edge, entry_at. rewrite E, K. exact En. }
  unfold edge, entry_at in He. rewrite E', K' in He. rewrite He. exact Hl.
Qed.

(** Two writes one after the other are one write of both buffers. *)
Lemma written_twice data off b1 b2 :
  written (written data off b1) (off + length b1) b2 = written data off (b1 ++ b2).
Proof.
  apply list_eq_same_length with (n := Nat.max (length data) (off + length (b1 ++ b2))).
  - apply written_length.
  - rewrite !written_length, length_app. lia.
  - intros k x y Hk Hx Hy.
    rewrite written_lookup in Hx by (rewrite written_length; rewrite length_app in Hk; lia).
    rewrite written_lookup in Hy by exact Hk. rewrite written_length, length_app in *.
    repeat case_decide; try lia.
    + rewrite lookup_app_r in Hy by lia. replace (k - (off + length b1))%nat with (k - off - length b1)%nat in Hx by lia. congruence.
    + rewrite written_lookup, decide_True in Hx by lia. rewrite lookup_app_l in Hy by lia. congruence.
    + rewrite written_lookup, decide_False, decide_True in Hx by lia. congruence.
    + rewrite written_lookup, !decide_False in Hx by lia. congruence.
Qed.

(** ** The driver instance *)

#[global] Instance ramfs_filesystem : FileSystem Inner := {|
  fs_name _ := "ramfs"%string;
  root_inode _ := ROOT_INODE;
  fs_metadata := metadata;
  fs_lookup := lookup;
  fs_readdir := readdir;
  fs_read := read;
  fs_write := write;
  fs_create := create;
  fs_unlink := unlink;
  fs_rmdir := rmdir;
  fs_rename := rename;
  fs_truncate := truncate;
  fs_sync := sync;
  fs_readlink := readlink;
  fs_symlink := symlink
|}.

(** ** Properties *)

Lemma lookup_edge s p name c :
  validate_name name = Ok tt -> edge (nodes s) p name c -> lookup s p name = Ok c.
Proof.
  intros Hv He. unfold edge, entry_at, lookup in *. destruct (nodes s !! p) as [n|]; [|discriminate].
  destruct (kind n); try discriminate. unfold validate_name in Hv.
  destruct (_ || _) eqn:E in Hv; [discriminate|]. bool_to_prop.
  repeat match goal with H : bool_decide _ = false |- _ => rewrite H; clear H end.
  rewrite He. reflexivity.
Qed.

Lemma lookup_no_edge s p name :
  dir_at (nodes s) p = true -> validate_name name = Ok tt -> (forall c, ~ edge (nodes s) p name c) ->
  lookup s p name = Err NotFound.
Proof.
  intros (nd & es & E & K)%dir_at_entries Hv He. unfold edge, entry_at, lookup in *. rewrite E, K in *.
  unfold validate_name in Hv. destruct (_ || _) eqn:Eb in Hv; [discriminate|]. bool_to_prop.
  repeat match goal with H : bool_decide _ = false |- _ => rewrite H; clear H end.
  destruct (es !! name) as [c|]; [destruct (He c eq_refl)|reflexivity].
Qed.

(** C8. Whatever sequence of operations has run, with whatever results, the
    inode table is a tree: inode 1 is the root directory and its own parent,
    every other node is named exactly once, by the directory its parent pointer
    designates, every node reaches the root, every name is valid, and every
    inode is below the next free number. *)
Theorem ramfs_always_a_tree s : reachable s -> wf s.
Proof. apply reachable_wf. Qed.

(** C23. [rename] on any reachable filesystem ends.  A refused rename changes
    nothing.  A successful one moves exactly the named node: afterwards the new
    name leads to it, its old name and whatever the new name led to are gone, no
    other name and no file contents changed; and the destination was not below
    the moved node. *)
Theorem rename_moves_exactly s op on np nn :
  reachable s ->
  exists r s', rename s op on np nn = Some (r, s') /\
  match r with
  | Ok _ => exists x, renamed s s' op on np nn x /\ reach_avoiding (parf (nodes s)) x np
  | Err _ => s' = s
  end.
Proof.
  intros Hr. destruct (rename_spec s op on np nn (reachable_wf s Hr)) as (r & s' & H1 & _ & H2). eauto.
Qed.

(** [create] on every branch: on success the inode is fresh, the parent's new
    name leads to an empty node of the requested type, and no other name changed;
    each error is returned exactly for its cause and changes nothing. *)
Theorem create_every_branch s p name ft md :
  reachable s ->
  match create s p name ft md with
  | (Ok inum, s') =>
      lookup s' p name = Ok inum /\ nodes s !! inum = None /\
      (exists k, file_type k = ft /\ kind_size k = 0 /\ nodes s' !! inum = Some (mkNode p k md 0 0 0 0 0)) /\
      (forall a n c, edge (nodes s') a n c <->
         edge (nodes s) a n c \/ (a = p /\ n = name /\ c = inum))
  | (Err e, s') => s' = s /\
      match e with
      | InvalidArgument => validate_name name = Err InvalidArgument
      | NotFound => nodes s !! p = None
      | NotADirectory => is_Some (nodes s !! p) /\ dir_at (nodes s) p = false
      | AlreadyExists => is_Some (entry_at (nodes s) p name)
      | Unsupported => ft <> Regular /\ ft <> Directory /\ ft <> Symlink
      | NoSpace => next_inode s = u64_max
      | _ => False
      end
  end.
Proof.
  intros Hr. pose proof (create_spec s p name ft md (reachable_wf s Hr)) as H.
  destruct (create s p name ft md) as [[inum|e] s']; [|exact H].
  destruct H as (Hwf' & k & Hk & Hsz & [(_ & _ & Hnone) Hnode Hedges _]).
  assert (He : edge (nodes s') p name inum) by (apply Hedges; auto).
  split_and!; [|exact Hnone| |exact Hedges].
  - apply lookup_edge; [eapply (wf_names s' Hwf'), He|exact He].
  - exists k. auto.
Qed.

(** Removal on both kinds of node: a successful [unlink] removes exactly one
    name and the file behind it, a successful [rmdir] one name and the empty
    directory behind it, after which the name leads nowhere; a refusal changes
    nothing, and refuses for its reason. *)
Theorem remove_every_branch s p name :
  reachable s ->
  match unlink s p name with
  | (Ok _, s') => lookup s' p name = Err NotFound /\
      exists x, dir_at (nodes s) x = false /\ removed s s' p name x
  | (Err e, s') => s' = s /\
      (e = IsADirectory -> exists x, edge (nodes s) p name x /\ dir_at (nodes s) x = true)
  end /\
  match rmdir s p name with
  | (Ok _, s') => lookup s' p name = Err NotFound /\
      exists x, dir_at (nodes s) x = true /\ removed s s' p name x
  | (Err e, s') => s' = s /\
      (e = NotEmpty -> exists x n c, edge (nodes s) p name x /\ edge (nodes s) x n c)
  end.
Proof.
  intros Hr. pose proof (reachable_wf s Hr) as Hwf.
  assert (Hgone : forall s' x, wf s' -> removed s s' p name x -> lookup s' p name = Err NotFound).
  { intros s' x Hwf' (Hx & _ & _ & Hd & Hed). apply lookup_no_edge.
    - exact Hd.
    - apply (wf_names s Hwf _ _ _ Hx).
    - intros c Hc. apply Hed in Hc as [Hc Hne]. apply Hne, (t_fun _ _ _ (wf_tree s Hwf) _ _ _ _ Hc Hx). }
  pose proof (unlink_spec s p name Hwf) as H1. pose proof (rmdir_spec s p name Hwf) as H2.
  split.
  - destruct (unlink s p name) as [[u|e] s']; [|exact H1]. destruct H1 as (Hw & x & Hd & Hx). eauto.
  - destruct (rmdir s p name) as [[u|e] s']; [|exact H2]. destruct H2 as (Hw & x & Hd & Hx). eauto.
Qed.

(** A write inside the supported size succeeds and is read back: the file
    grows to cover it, the written range holds the buffer, a gap before it reads
    as zeros, every other byte and every other inode is unchanged, and a read of
    the same range returns the buffer. *)
Theorem write_then_read s i off buf nd data :
  nodes s !! i = Some nd -> kind nd = KFile data -> 0 <= off ->
  Z.of_nat (length data) <= isize_max -> off + Z.of_nat (length buf) <= isize_max ->
  exists s' data', write s i off buf = Ret (Ok (Z.of_nat (length buf)), s') /\
    nodes s' = <[i := set_kind nd (KFile data')]> (nodes s) /\
    length data' = Nat.max (length data) (Z.to_nat off + length buf) /\
    (forall k, (k < length data')%nat -> data' !! k =
       if decide (Z.to_nat off <= k < Z.to_nat off + length buf)%nat then buf !! (k - Z.to_nat off)%nat
       else if decide (k < length data)%nat then data !! k else Some 0) /\
    (forall buf0, length buf0 = length buf -> read s' i off buf0 = Ok (Z.of_nat (length buf), buf)).
Proof.
  intros Hi Hk Hoff Hlen Hend. pose proof (written_length data (Z.to_nat off) buf) as Hwl.
  eexists _, (written data (Z.to_nat off) buf). split_and!.
  - rewrite (write_file s i off buf nd data) by assumption. cbv zeta.
    rewrite (proj2 (Z.leb_gt U64 _)), (proj2 (Z.ltb_ge isize_max _)) by (unfold isize_max in *; word_lia).
    reflexivity.
  - reflexivity.
  - exact Hwl.
  - intros k Hkk. apply written_lookup. lia.
  - intros buf0 Hb. erewrite read_file;
      [|apply lookup_insert_eq|reflexivity|exact Hoff]. cbv zeta. rewrite Hwl, Hb.
    replace (Nat.min (length buf) _) with (length buf) by lia. do 2 f_equal.
    rewrite (drop_ge buf0), app_nil_r by lia. apply written_read.
Qed.

(** A write that would end beyond [isize::MAX] but does not overflow 64 bits
    panics, however few bytes it carries, and so does such a truncate; only an
    end beyond 2^64 is reported as [NoSpace]. *)
Theorem write_far_offset_panics s i off buf nd data :
  nodes s !! i = Some nd -> kind nd = KFile data -> Z.of_nat (length data) <= isize_max ->
  isize_max < off -> off + Z.of_nat (length buf) < U64 ->
  write s i off buf = Panic /\ truncate s i off = Panic /\
  write s i (U64 - 1) [0] = Ret (Err NoSpace, s).
Proof.
  intros Hi Hk Hlen Hoff Hend. split_and!.
  - rewrite (write_file s i off buf nd data) by (try assumption; unfold isize_max in *; lia). cbv zeta.
    rewrite (proj2 (Z.leb_gt U64 _)), (proj2 (Z.ltb_lt isize_max _)) by lia. reflexivity.
  - unfold truncate. rewrite Hi, Hk. unfold vec_resize.
    rewrite (proj2 (Z.ltb_lt isize_max off)) by exact Hoff. reflexivity.
  - rewrite (write_file s i (U64 - 1) [0] nd data) by (try assumption; word_lia). reflexivity.
Qed.

(** [readdir] lists a directory completely: itself, its parent, then exactly
    its entries, each once, in byte order of their names. *)
Theorem readdir_complete s i :
  dir_at (nodes s) i = true ->
  exists nd rest, nodes s !! i = Some nd /\
    readdir s i = Ok (mkDirEntry "." i Directory :: mkDirEntry ".." (parent nd) Directory :: rest) /\
    (forall n c, (exists ft, mkDirEntry n c ft ∈ rest) <-> edge (nodes s) i n c) /\
    Sorted (fun a b => String.leb (de_name a) (de_name b) = true) rest /\
    NoDup (map de_name rest).
Proof.
  intros (nd & es & E & K)%dir_at_entries. exists nd. unfold readdir. rewrite E, K.
  eexists. split_and!; [reflexivity..| | |].
  - intros n c. unfold edge, entry_at. rewrite E, K. setoid_rewrite list_elem_of_fmap.
    assert (Hin : forall e, e ∈ in_order es <-> es !! e.1 = Some e.2).
    { intros [a b]. unfold in_order. rewrite merge_sort_Permutation. apply elem_of_map_to_list. }
    setoid_rewrite Hin. split.
    + intros (ft & [a b] & Heq & H). simpl in *. injection Heq as -> -> _. exact H.
    + intros H. eexists _, (n, c). split; [reflexivity|exact H].
  - assert (Hs : Sorted key_le (in_order es)).
    { apply Sorted_merge_sort. intros a b. apply String.leb_total. }
    induction Hs as [|e l Hl IH He]; simpl; [constructor|]. constructor; [exact IH|].
    destruct He; constructor. assumption.
  - rewrite map_map. simpl. unfold in_order. rewrite merge_sort_Permutation. apply NoDup_fst_map_to_list.
Qed.

(** ** A concrete filesystem: /a is a directory holding the file /a/f. *)

Definition demo1 : Inner := snd (create new ROOT_INODE "a" Directory 493).
Definition demo : Inner := snd (create demo1 2 "f" Regular 420).

Lemma demo_reachable : reachable demo.
Proof.
  apply (reachable_step (OCreate 2 "f" Regular 420) demo1); [|reflexivity].
  apply (reachable_step (OCreate ROOT_INODE "a" Directory 493) new); [constructor|reflexivity].
Qed.

Lemma ramfs_always_a_tree_witness : wf demo.
Proof. exact (ramfs_always_a_tree demo demo_reachable). Defined.

Lemma rename_moves_exactly_witness :
  exists r s', rename demo 2 "f" ROOT_INODE "g" = Some (r, s').
Proof.
  destruct (rename_moves_exactly demo 2 "f" ROOT_INODE "g" demo_reachable) as (r & s' & H & _).
  exists r, s'. exact H.
Defined.

Lemma create_every_branch_witness :
  match create demo ROOT_INODE "b" Regular 420 with
  | (Ok inum, s') => lookup s' ROOT_INODE "b" = Ok inum
  | (Err _, s') => s' = demo
  end.
Proof.
  pose proof (create_every_branch demo ROOT_INODE "b" Regular 420 demo_reachable) as H.
  destruct (create demo ROOT_INODE "b" Regular 420) as [[i|e] s']; apply H.
Defined.

Lemma remove_every_branch_witness :
  match unlink demo 2 "f" with
  | (Ok _, s') => lookup s' 2 "f" = Err NotFound
  | (Err _, s') => s' = demo
  end.
Proof.
  destruct (remove_every_branch demo 2 "f" demo_reachable) as [H _].
  destruct (unlink demo 2 "f") as [[u|e] s']; apply H.
Defined.

Lemma write_then_read_witness :
  exists s', write demo 3 2 [7; 8] = Ret (Ok 2, s') /\ read s' 3 2 [0; 0] = Ok (2, [7; 8]).
Proof.
  destruct (write_then_read demo 3 2 [7; 8] (mkNode 2 (KFile []) 420 0 0 0 0 0) [])
    as (s' & d & H1 & _ & _ & _ & H2).
  - vm_compute. reflexivity.
  - reflexivity.
  - lia.
  - vm_compute. congruence.
  - vm_compute. congruence.
  - exists s'. split; [exact H1|]. apply (H2 [0; 0]). reflexivity.
Defined.

Lemma write_far_offset_panics_witness : write demo 3 (2 ^ 63) [1] = Panic.
Proof.
  apply (write_far_offset_panics demo 3 (2 ^ 63) [1] (mkNode 2 (KFile []) 420 0 0 0 0 0) []).
  - vm_compute. reflexivity.
  - reflexivity.
  - vm_compute. congruence.
  - reflexivity.
  - reflexivity.
Defined.

Lemma readdir_complete_witness :
  exists nd rest, nodes demo !! 2 = Some nd /\
    readdir demo 2 = Ok (mkDirEntry "." 2 Directory :: mkDirEntry ".." (parent nd) Directory :: rest).
Proof.
  destruct (readdir_complete demo 2) as (nd & rest & H1 & H2 & _); [vm_compute; reflexivity|].
  exists nd, rest. split; assumption.
Defined.

(** The concrete runs: a rename out of the directory, a refused rename of the
    directory into itself, and a listing. *)
Example demo_runs :
  match rename demo 2 "f" ROOT_INODE "g" with
  | Some (Ok _, s') => lookup s' ROOT_INODE "g" = Ok 3 /\ lookup s' 2 "f" = Err NotFound
  | _ => False
  end /\
  match rename demo ROOT_INODE "a" 2 "b" with
  | Some (Err e, _) => e = InvalidArgument
  | _ => False
  end /\
  readdir demo 2 = Ok [mkDirEntry "." 2 Directory; mkDirEntry ".." 1 Directory; mkDirEntry "f" 3 Regular].
Proof. vm_compute. repeat split. Qed.

End RamFs.
