(* ===== verification/Vfs.v ===== *)
(** The virtual filesystem (src/src/fs/vfs.rs and src/src/fs/mod.rs): path
    helpers, the mount table, path resolution, the path-level operations and open
    file handles, over any driver that implements [FileSystem].  A driver call is one
    step, as the driver's lock makes it; a write through a handle is two of them, and
    [interleave] switches tasks in between.  Path operations run alone. *)

From Stdlib Require Import ZArith Lia Ascii String.
From stdpp Require Import base list gmap strings.
From S2P Require Import Prelude VfsTypes RamFs.

Open Scope Z_scope.

Module Vfs.

(** ** Strings *)

Definition slash : ascii := "/"%char.
Definition is_slash (a : ascii) : bool := bool_decide (a = slash).

(** [str::starts_with('/')], [starts_with(&str)] and [&s[n..]]. *)
Definition starts_slash (s : string) : bool :=
  match s with String a _ => is_slash a | EmptyString => false end.

Fixpoint starts_with (s pre : string) : bool :=
  match pre, s with
  | EmptyString, _ => true
  | String a pre', String b s' => bool_decide (a = b) && starts_with s' pre'
  | String _ _, EmptyString => false
  end.

Fixpoint str_drop (n : nat) (s : string) : string :=
  match n, s with
  | S n', String _ s' => str_drop n' s'
  | _, _ => s
  end.

Fixpoint trim_start_matches (s : string) : string :=
  match s with
  | String a s' => if is_slash a then trim_start_matches s' else s
  | EmptyString => EmptyString
  end.

Fixpoint trim_end_matches (s : string) : string :=
  match s with
  | EmptyString => EmptyString
  | String a s' =>
      match trim_end_matches s' with
      | EmptyString => if is_slash a then EmptyString else String a EmptyString
      | t => String a t
      end
  end.

(** [s.split('/')]: the empty string has one empty component. *)
Fixpoint split (s : string) : list string :=
  match s with
  | EmptyString => [EmptyString]
  | String a s' =>
      if is_slash a then EmptyString :: split s'
      else match split s' with
           | c :: cs => String a c :: cs
           | [] => [String a EmptyString]
           end
  end.

(** [s.rsplit_once('/')]. *)
Fixpoint rsplit_once (s : string) : option (string * string) :=
  match s with
  | EmptyString => None
  | String a s' =>
      match rsplit_once s' with
      | Some (l, r) => Some (String a l, r)
      | None => if is_slash a then Some (EmptyString, s') else None
      end
  end.

(** ** Path helpers *)

Definition normalize_mount_path (p : string) : string :=
  if bool_decide (p = "/"%string) then "/"%string else trim_end_matches p.

Definition path_starts_with_mount (path mount : string) : bool :=
  if bool_decide (mount = "/"%string) then true
  else if negb (starts_with path mount) then false
  else
    let after := str_drop (String.length mount) path in
    bool_decide (after = EmptyString) || starts_slash after.

Definition split_parent (path : string) : FsResult (string * string) :=
  if negb (starts_slash path) then Err InvalidPath
  else
    let trimmed := trim_end_matches path in
    if bool_decide (trimmed = EmptyString) then Err InvalidPath
    else
      match rsplit_once trimmed with
      | Some (p, name) =>
          if bool_decide (name = EmptyString) then Err InvalidPath
          else if bool_decide (p = EmptyString) then Ok ("/"%string, name)
          else Ok (p, name)
      | None => Err InvalidPath
      end.

(** ** The mount table

    An [Arc<dyn FileSystem>] is a handle; [fss] is the shared state behind the
    handles, so two mounts of one handle see each other's changes. *)

Record MountEntry := mkMount { m_path : string; m_fs : Z }.

Record Vfs (F : Type) := mkVfs {
  mounts : list MountEntry;
  fss : Z -> F
}.
Arguments mkVfs {F}.
Arguments mounts {F}.
Arguments fss {F}.

Record File := mkFile {
  f_fs : Z;
  f_inode : Z;
  f_offset : Z;
  f_flags : OpenFlags
}.

Section Vfs.
Context {F : Type} `{FileSystem F}.
Implicit Types v : Vfs F.

Definition set_fs v (h : Z) (f : F) : Vfs F :=
  mkVfs (mounts v) (fun x => if x =? h then f else fss v x).

Definition mount v (mount_point : string) (h : Z) : FsResult unit * Vfs F :=
  if negb (starts_slash mount_point) then (Err InvalidPath, v)
  else
    let normalized := normalize_mount_path mount_point in
    if existsb (fun m => bool_decide (m_path m = normalized)) (mounts v) then (Err AlreadyExists, v)
    else (Ok tt, mkVfs (mounts v ++ [mkMount normalized h]) (fss v)).

Fixpoint position (p : string) (l : list MountEntry) : option nat :=
  match l with
  | [] => None
  | m :: l' => if bool_decide (m_path m = p) then Some O else option_map S (position p l')
  end.

Definition unmount v (mount_point : string) : FsResult unit * Vfs F :=
  let normalized := normalize_mount_path mount_point in
  match position normalized (mounts v) with
  | None => (Err NotFound, v)
  | Some pos => (Ok tt, mkVfs (take pos (mounts v) ++ drop (S pos) (mounts v)) (fss v))
  end.

Definition mounts_snapshot v : list (string * string) :=
  map (fun m => (m_path m, fs_name (fss v (m_fs m)))) (mounts v).

(** [max_by_key] keeps the last of the longest entries. *)
Fixpoint longest (l : list MountEntry) (best : option MountEntry) : option MountEntry :=
  match l with
  | [] => best
  | m :: l' =>
      match best with
      | Some b => longest l' (if (String.length (m_path b) <=? String.length (m_path m))%nat
                              then Some m else best)
      | None => longest l' (Some m)
      end
  end.

Fixpoint walk (f : F) (current : Z) (components : list string) : FsResult Z :=
  match components with
  | [] => Ok current
  | c :: cs =>
      if bool_decide (c = EmptyString) || bool_decide (c = "."%string) then walk f current cs
      else try next := fs_lookup f current c in walk f next cs
  end.

(** The mount a path belongs to, and the path below it. *)
Definition find_mount v (path : string) : FsResult (Z * string) :=
  try entry := longest (List.filter (fun m => path_starts_with_mount path (m_path m)) (mounts v)) None
    else NotFound in
  let stripped := if bool_decide (m_path entry = "/"%string) then str_drop 1 path
                  else str_drop (String.length (m_path entry)) path in
  Ok (m_fs entry, trim_start_matches stripped).

Definition resolve v (path : string) : FsResult (Z * Z) :=
  if negb (starts_slash path) then Err InvalidPath
  else
    try (h, rel) := find_mount v path in
    try inode := walk (fss v h) (root_inode (fss v h)) (split rel) in
    Ok (h, inode).

Definition open_target v (path : string) (flags : OpenFlags) : FsResult (Z * Z) * Vfs F :=
  match resolve v path with
  | Ok found =>
      if of_exclusive flags && of_create flags then (Err AlreadyExists, v) else (Ok found, v)
  | Err NotFound =>
      if of_create flags then
        match split_parent path with
        | Err e => (Err e, v)
        | Ok (parent_path, name) =>
            match resolve v parent_path with
            | Err e => (Err e, v)
            | Ok (h, parent_inode) =>
                match fs_create (fss v h) parent_inode name Regular 420 with
                | (Err e, f) => (Err e, set_fs v h f)
                | (Ok inode, f) => (Ok (h, inode), set_fs v h f)
                end
            end
        end
      else (Err NotFound, v)
  | Err e => (Err e, v)
  end.

Definition open v (path : string) (flags : OpenFlags) : outcome (FsResult File * Vfs F) :=
  match open_target v path flags with
  | (Err e, v) => Ret (Err e, v)
  | (Ok (h, inode), v) =>
      let truncated :=
        if of_truncate flags && of_write flags then
          match fs_truncate (fss v h) inode 0 with
          | Panic => Panic
          | Ret (r, f) => Ret (r, set_fs v h f)
          end
        else Ret (Ok tt, v) in
      match truncated with
      | Panic => Panic
      | Ret (Err e, v) => Ret (Err e, v)
      | Ret (Ok _, v) =>
          if of_append flags then
            match fs_metadata (fss v h) inode with
            | Err e => Ret (Err e, v)
            | Ok md => Ret (Ok (mkFile h inode (md_size md) flags), v)
            end
          else Ret (Ok (mkFile h inode 0 flags), v)
      end
  end.

(** An operation on the directory a path's last component lives in. *)
Definition at_parent {A} v (path : string) (f : F -> Z -> string -> FsResult A * F)
  : FsResult A * Vfs F :=
  match split_parent path with
  | Err e => (Err e, v)
  | Ok (parent_path, name) =>
      match resolve v parent_path with
      | Err e => (Err e, v)
      | Ok (h, parent_inode) =>
          let (r, f') := f (fss v h) parent_inode name in (r, set_fs v h f')
      end
  end.

Definition mkdir v (path : string) (mode : Z) : FsResult unit * Vfs F :=
  match at_parent v path (fun f p name => fs_create f p name Directory mode) with
  | (Ok _, v') => (Ok tt, v')
  | (Err e, v') => (Err e, v')
  end.

Definition unlink v (path : string) : FsResult unit * Vfs F := at_parent v path fs_unlink.
Definition rmdir v (path : string) : FsResult unit * Vfs F := at_parent v path fs_rmdir.

Definition metadata v (path : string) : FsResult Metadata :=
  try (h, inode) := resolve v path in fs_metadata (fss v h) inode.

Definition readdir v (path : string) : FsResult (list DirEntry) :=
  try (h, inode) := resolve v path in fs_readdir (fss v h) inode.

Definition rename v (from to : string) : option (FsResult unit * Vfs F) :=
  match split_parent from, split_parent to with
  | Err e, _ => Some (Err e, v)
  | _, Err e => Some (Err e, v)
  | Ok (from_parent_path, from_name), Ok (to_parent_path, to_name) =>
      match resolve v from_parent_path, resolve v to_parent_path with
      | Err e, _ => Some (Err e, v)
      | _, Err e => Some (Err e, v)
      | Ok (from_fs, from_parent), Ok (to_fs, to_parent) =>
          if negb (from_fs =? to_fs) then Some (Err CrossDevice, v)
          else
            match fs_rename (fss v from_fs) from_parent from_name to_parent to_name with
            | None => None
            | Some (r, f) => Some (r, set_fs v from_fs f)
            end
      end
  end.

(** ** Open files *)

Definition set_offset (fl : File) (o : Z) : File := mkFile (f_fs fl) (f_inode fl) o (f_flags fl).

Definition file_read v (fl : File) (buf : list Z) : FsResult (Z * list Z) * File :=
  if negb (of_read (f_flags fl)) then (Err PermissionDenied, fl)
  else
    match fs_read (fss v (f_fs fl)) (f_inode fl) (f_offset fl) buf with
    | Err e => (Err e, fl)
    | Ok (n, buf') => (Ok (n, buf'), set_offset fl (add64 (f_offset fl) n))
    end.

Definition file_read_at v (fl : File) (offset : Z) (buf : list Z) : FsResult (Z * list Z) :=
  if negb (of_read (f_flags fl)) then Err PermissionDenied
  else fs_read (fss v (f_fs fl)) (f_inode fl) offset buf.

(** [File::write] makes up to two driver calls, each under the driver's own lock: the
    size, when appending, and the write.  The handle's lock is held over both, which
    keeps other users of this handle out, but not other handles on the file. *)
Definition write_position v (fl : File) : FsResult File :=
  if negb (of_write (f_flags fl)) then Err PermissionDenied
  else if of_append (f_flags fl) then
    try md := fs_metadata (fss v (f_fs fl)) (f_inode fl) in Ok (set_offset fl (md_size md))
  else Ok fl.

Definition write_there v (fl : File) (buf : list Z) : outcome (FsResult Z * (Vfs F * File)) :=
  match fs_write (fss v (f_fs fl)) (f_inode fl) (f_offset fl) buf with
  | Panic => Panic
  | Ret (Err e, f) => Ret (Err e, (set_fs v (f_fs fl) f, fl))
  | Ret (Ok n, f) => Ret (Ok n, (set_fs v (f_fs fl) f, set_offset fl (add64 (f_offset fl) n)))
  end.

(** The call when no other task runs in between. *)
Definition file_write v (fl : File) (buf : list Z) : outcome (FsResult Z * (Vfs F * File)) :=
  match write_position v fl with
  | Err e => Ret (Err e, (v, fl))
  | Ok fl => write_there v fl buf
  end.

(** A task inside [File::write], and the driver call it makes next. *)
Inductive Stage := Begin | Positioned | Finished (r : FsResult Z).

Record Writer := mkWriter { w_file : File; w_buf : list Z; w_stage : Stage }.

Definition writer_step v (w : Writer) : outcome (Vfs F * Writer) :=
  match w_stage w with
  | Begin =>
      match write_position v (w_file w) with
      | Err e => Ret (v, mkWriter (w_file w) (w_buf w) (Finished (Err e)))
      | Ok fl => Ret (v, mkWriter fl (w_buf w) Positioned)
      end
  | Positioned =>
      match write_there v (w_file w) (w_buf w) with
      | Panic => Panic
      | Ret (r, (v', fl)) => Ret (v', mkWriter fl (w_buf w) (Finished r))
      end
  | Finished _ => Ret (v, w)
  end.

(** Two tasks on two handles: [true] in the schedule is a driver call of the first. *)
Fixpoint interleave (sched : list bool) v (w1 w2 : Writer) : outcome (Vfs F * (Writer * Writer)) :=
  match sched with
  | [] => Ret (v, (w1, w2))
  | true :: rest =>
      match writer_step v w1 with Panic => Panic | Ret (v', w1') => interleave rest v' w1' w2 end
  | false :: rest =>
      match writer_step v w2 with Panic => Panic | Ret (v', w2') => interleave rest v' w1 w2' end
  end.

Definition file_write_at v (fl : File) (offset : Z) (buf : list Z) : outcome (FsResult Z * Vfs F) :=
  if negb (of_write (f_flags fl)) then Ret (Err PermissionDenied, v)
  else
    match fs_write (fss v (f_fs fl)) (f_inode fl) offset buf with
    | Panic => Panic
    | Ret (r, f) => Ret (r, set_fs v (f_fs fl) f)
    end.

(** Positions are computed in 128 bits and cut to 64 with [as u64]. *)
Definition seek v (fl : File) (pos : SeekFrom) : FsResult Z * File :=
  let target :=
    match pos with
    | Start p => Ok p
    | End_ d =>
        try md := fs_metadata (fss v (f_fs fl)) (f_inode fl) in
        let n := md_size md + d in
        if n <? 0 then Err InvalidOffset else Ok (wrap64 n)
    | Current d =>
        let n := f_offset fl + d in
        if n <? 0 then Err InvalidOffset else Ok (wrap64 n)
    end in
  match target with
  | Err e => (Err e, fl)
  | Ok new => (Ok new, set_offset fl new)
  end.

Definition file_metadata v (fl : File) : FsResult Metadata :=
  fs_metadata (fss v (f_fs fl)) (f_inode fl).

Definition file_truncate v (fl : File) (size : Z) : outcome (FsResult unit * Vfs F) :=
  if negb (of_write (f_flags fl)) then Ret (Err PermissionDenied, v)
  else
    match fs_truncate (fss v (f_fs fl)) (f_inode fl) size with
    | Panic => Panic
    | Ret (r, f) => Ret (r, set_fs v (f_fs fl) f)
    end.

Definition file_sync v (fl : File) : FsResult unit := fs_sync (fss v (f_fs fl)).

End Vfs.

(** ** Filesystem bring-up (src/src/fs/mod.rs) *)

(** The modes are 0o755, 0o555, 0o555 and 0o1777. *)
Definition SKELETON : list (string * Z) :=
  [("/dev"%string, 493); ("/proc"%string, 365); ("/sys"%string, 365); ("/tmp"%string, 1023)].

Fixpoint make_skeleton (l : list (string * Z)) (v : Vfs RamFs.Inner) : outcome (Vfs RamFs.Inner) :=
  match l with
  | [] => Ret v
  | (path, mode) :: l' =>
      match mkdir v path mode with
      | (Ok _, v') => make_skeleton l' v'
      | (Err _, _) => Panic
      end
  end.

(** [h] is the handle of the new [RamFs]; the boolean is INITIALIZED. *)
Definition init (initialized : bool) (v : Vfs RamFs.Inner) (h : Z) : outcome (bool * Vfs RamFs.Inner) :=
  if initialized then Ret (true, v)
  else
    match mount (set_fs v h RamFs.new) "/" h with
    | (Err _, _) => Panic
    | (Ok _, v') =>
        match make_skeleton SKELETON v' with
        | Panic => Panic
        | Ret v'' => Ret (true, v'')
        end
    end.

(** ** Components of a path *)

Definition nonempty (s : string) : bool := negb (bool_decide (s = EmptyString)).
Definition comps (s : string) : list string := List.filter nonempty (split s).

Lemma split_not_nil s : split s <> [].
Proof. destruct s as [|a s]; simpl; [discriminate|]. destruct (is_slash a); [discriminate|]. destruct (split s); discriminate. Qed.

Lemma comps_slash a s : is_slash a = true -> comps (String a s) = comps s.
Proof. intros Ha. unfold comps. simpl. rewrite Ha. reflexivity. Qed.

Lemma comps_trim_start s : comps (trim_start_matches s) = comps s.
Proof.
  induction s as [|a s IH]; [reflexivity|]. simpl. destruct (is_slash a) eqn:Ha; [|reflexivity].
  rewrite IH, comps_slash by exact Ha. reflexivity.
Qed.

(** A leading character extends the first component. *)
Lemma split_char a s : is_slash a = false ->
  exists c cs, split s = c :: cs /\ split (String a s) = String a c :: cs.
Proof.
  intros Ha. pose proof (split_not_nil s). destruct (split s) as [|c cs] eqn:E; [contradiction|].
  exists c, cs. simpl. rewrite Ha, E. auto.
Qed.

Lemma comps_trim_end s : comps (trim_end_matches s) = comps s.
Proof.
  assert (H : forall s, comps (trim_end_matches s) = comps s /\
    (exists c cs ds, split s = c :: cs /\ split (trim_end_matches s) = c :: ds)).
  { clear s. induction s as [|a s [IH (c & cs & ds & E1 & E2)]]; simpl trim_end_matches.
    - split; [reflexivity|]. exists EmptyString, [], []. auto.
    - destruct (is_slash a) eqn:Ha.
      + split.
        * rewrite (comps_slash a s Ha), <- IH. destruct (trim_end_matches s) eqn:Et; [reflexivity|].
          apply comps_slash, Ha.
        * exists EmptyString, (split s). simpl. rewrite Ha.
          destruct (trim_end_matches s) eqn:Et; [exists []; auto|]. rewrite <- Et in *.
          exists (split (trim_end_matches s)). simpl. rewrite Ha. auto.
      + assert (Ht : split match trim_end_matches s with
                      | EmptyString => String a EmptyString
                      | String x y => String a (String x y) end = String a c :: ds).
        { destruct (trim_end_matches s) eqn:Et.
          - simpl in E2. injection E2 as <- <-. simpl. rewrite Ha. reflexivity.
          - rewrite <- Et in *. simpl. rewrite Ha, E2. reflexivity. }
        assert (Hs : split (String a s) = String a c :: cs) by (simpl; rewrite Ha, E1; reflexivity).
        split; [|exists (String a c), cs, ds; auto]. unfold comps in *. rewrite Ht, Hs. simpl.
        rewrite E1, E2 in IH. f_equal. simpl in IH. destruct (nonempty c); [congruence|exact IH]. }
  apply H.
Qed.

Lemma rsplit_spec s : match rsplit_once s with
  | Some (l, r) => split s = split l ++ [r] /\ split r = [r]
  | None => split s = [s]
  end.
Proof.
  induction s as [|a s IH]; simpl; [reflexivity|].
  destruct (rsplit_once s) as [[l r]|].
  - destruct IH as [IH1 IH2]. split; [|exact IH2]. destruct (is_slash a) eqn:Ha.
    + simpl. rewrite Ha, IH1. reflexivity.
    + rewrite IH1. destruct (split_char a l Ha) as (c & cs & E1 & E2). rewrite E2, E1. reflexivity.
  - destruct (is_slash a) eqn:Ha; [rewrite IH; auto|]. rewrite IH. reflexivity.
Qed.

(** [split_parent] splits the components of a path at the last one. *)
Lemma split_parent_comps path pp name :
  split_parent path = Ok (pp, name) ->
  comps path = comps pp ++ [name] /\ name <> EmptyString /\ starts_slash path = true /\
  starts_slash pp = true.
Proof.
  unfold split_parent. destruct (starts_slash path) eqn:Hs; simpl; [|discriminate].
  case_bool_decide as Ht; [discriminate|].
  pose proof (rsplit_spec (trim_end_matches path)) as Hr.
  destruct (rsplit_once (trim_end_matches path)) as [[l r]|] eqn:El; [|discriminate].
  destruct Hr as [Hr1 Hr2]. case_bool_decide as Hn; [discriminate|].
  assert (Hc : comps path = comps l ++ [r]).
  { rewrite <- comps_trim_end. unfold comps. rewrite Hr1, List.filter_app. simpl. unfold nonempty at 2.
    rewrite bool_decide_eq_false_2 by exact Hn. reflexivity. }
  case_bool_decide as Hl; intros [= <- <-].
  - subst l. split_and!; [exact Hc|exact Hn|reflexivity..].
  - split_and!; [exact Hc|exact Hn|reflexivity|].
    destruct path as [|a path]; [discriminate|]. simpl in Hs, El.
    destruct (trim_end_matches path) as [|b t] eqn:Et.
    + rewrite Hs in El. discriminate.
    + simpl in El. rewrite Hs in El.
      destruct (match rsplit_once t with Some (l0, r0) => _ | None => _ end) as [[l0 r0]|].
      * injection El as <- <-. exact Hs.
      * injection El as <- <-. contradiction.
Qed.

(** ** Walking *)

Section Walking.
Context {F : Type} `{FileSystem F}.
Implicit Types (f : F) (v : Vfs F).

Lemma walk_comps f cur cs : walk f cur cs = walk f cur (List.filter nonempty cs).
Proof.
  revert cur. induction cs as [|c cs IH]; intros cur; [reflexivity|]. simpl. unfold nonempty at 1.
  case_bool_decide as E; simpl; [apply IH|]. rewrite (bool_decide_eq_false_2 _ E). simpl.
  case_bool_decide; [apply IH|]. destruct (fs_lookup f cur c); [apply IH|reflexivity].
Qed.

Lemma walk_concat f cur cs ds :
  walk f cur (cs ++ ds) = try x := walk f cur cs in walk f x ds.
Proof.
  revert cur. induction cs as [|c cs IH]; intros cur; [reflexivity|]. simpl.
  destruct (_ || _); [apply IH|]. destruct (fs_lookup f cur c); [apply IH|reflexivity].
Qed.

(** A walk only depends on the lookups that succeed on the way. *)
Lemma walk_mono f f' cur cs c :
  (forall a n b, fs_lookup f a n = Ok b -> fs_lookup f' a n = Ok b) ->
  walk f cur cs = Ok c -> walk f' cur cs = Ok c.
Proof.
  intros Hl. revert cur. induction cs as [|n cs IH]; intros cur; simpl; [auto|].
  destruct (_ || _); [apply IH|]. destruct (fs_lookup f cur n) as [x|e] eqn:E; [|discriminate].
  rewrite (Hl _ _ _ E). apply IH.
Qed.

(** The longest of the entries that match. *)
Lemma longest_spec l best :
  match longest l best with
  | Some m => (m ∈ l \/ best = Some m) /\
      (forall x, x ∈ l \/ best = Some x -> (String.length (m_path x) <= String.length (m_path m))%nat)
  | None => l = [] /\ best = None
  end.
Proof.
  revert best. induction l as [|a l IH]; intros best; simpl.
  - destruct best as [b|]; [|auto]. split; [auto|]. intros x [Hx|[= ->]]; [inversion Hx|lia].
  - destruct best as [b|].
    + destruct (Nat.leb_spec (String.length (m_path b)) (String.length (m_path a))) as [Hle|Hlt].
      * specialize (IH (Some a)). destruct (longest l (Some a)) as [m|]; [|destruct IH; discriminate].
        destruct IH as [H1 H2]. assert (Ha := H2 a (or_intror eq_refl)). split.
        { destruct H1 as [H1|[= ->]]; left; [right; exact H1|left]. }
        intros x [Hx|[= ->]]; [|lia]. apply elem_of_cons in Hx as [->|Hx]; auto.
      * specialize (IH (Some b)). destruct (longest l (Some b)) as [m|]; [|destruct IH; discriminate].
        destruct IH as [H1 H2]. assert (Hb := H2 b (or_intror eq_refl)). split.
        { destruct H1 as [H1|H1]; [left; right; exact H1|right; exact H1]. }
        intros x [Hx|[= ->]]; [|lia]. apply elem_of_cons in Hx as [->|Hx]; [lia|auto].
    + specialize (IH (Some a)). destruct (longest l (Some a)) as [m|]; [|destruct IH; discriminate].
      destruct IH as [H1 H2]. split.
      { destruct H1 as [H1|[= ->]]; left; [right; exact H1|left]. }
      intros x [Hx|Hx]; [|discriminate]. apply elem_of_cons in Hx as [->|Hx]; auto.
Qed.

(** With one filesystem mounted at the root, every absolute path is a walk of
    its components. *)
Lemma resolve_root v h path :
  mounts v = [mkMount "/" h] -> starts_slash path = true ->
  resolve v path = try i := walk (fss v h) (root_inode (fss v h)) (comps path) in Ok (h, i).
Proof.
  intros Hm Hs. unfold resolve, find_mount. rewrite Hs, Hm. simpl.
  destruct path as [|a path]; [discriminate|]. simpl in Hs. simpl str_drop.
  rewrite walk_comps. fold (comps (trim_start_matches path)).
  rewrite comps_trim_start, <- (comps_slash a) by exact Hs. reflexivity.
Qed.

Lemma resolve_ext v v' path :
  mounts v' = mounts v -> (forall x, fss v' x = fss v x) -> resolve v' path = resolve v path.
Proof.
  intros Hm Hf. unfold resolve, find_mount. rewrite Hm. destruct (negb _); [reflexivity|].
  destruct (longest _ None) as [m|]; [|reflexivity]. rewrite Hf. reflexivity.
Qed.

Lemma set_fs_id v h x : fss (set_fs v h (fss v h)) x = fss v x.
Proof. simpl. destruct (Z.eqb_spec x h) as [->|]; reflexivity. Qed.

Lemma resolve_split v h path pp name :
  mounts v = [mkMount "/" h] -> split_parent path = Ok (pp, name) ->
  resolve v path =
  try i := walk (fss v h) (root_inode (fss v h)) (comps pp) in
  try j := walk (fss v h) i [name] in Ok (h, j).
Proof.
  intros Hm Hsp. destruct (split_parent_comps path pp name Hsp) as (Hc & _ & Hs & _).
  rewrite (resolve_root v h) by assumption. rewrite Hc, walk_concat.
  destruct (walk (fss v h) _ (comps pp)); reflexivity.
Qed.

End Walking.

Section OnRamFs.
Implicit Types v : Vfs RamFs.Inner.

Lemma set_fs_same v h f : fss (set_fs v h f) h = f.
Proof. simpl. rewrite Z.eqb_refl. reflexivity. Qed.

(** Creating a node through the VFS and finding it again. *)
Lemma create_resolves v h path pp name ft md i inum s' :
  mounts v = [mkMount "/" h] -> RamFs.wf (fss v h) ->
  split_parent path = Ok (pp, name) -> resolve v pp = Ok (h, i) ->
  RamFs.create (fss v h) i name ft md = (Ok inum, s') ->
  resolve (set_fs v h s') path = Ok (h, inum) /\
  exists k, RamFs.file_type k = ft /\ RamFs.kind_size k = 0 /\
    RamFs.nodes s' !! inum = Some (RamFs.mkNode i k md 0 0 0 0 0).
Proof.
  intros Hm Hwf Hsp Hpp Hc. destruct (split_parent_comps path pp name Hsp) as (_ & Hn & _ & Hspp).
  pose proof (RamFs.create_spec (fss v h) i name ft md Hwf) as H. rewrite Hc in H.
  destruct H as (Hwf' & k & Hk & Hsz & Hadd). split; [|destruct Hadd; eauto].
  rewrite (resolve_root v h pp Hm Hspp) in Hpp.
  destruct (walk (fss v h) _ (comps pp)) as [j|e] eqn:Hw; [|discriminate]. injection Hpp as ->.
  rewrite (resolve_split (set_fs v h s') h path pp name Hm Hsp), set_fs_same.
  rewrite (walk_mono (fss v h) s' _ (comps pp) i).
  - assert (He : RamFs.edge (RamFs.nodes s') i name inum) by (apply (RamFs.ad_edges _ _ _ _ _ _ _ Hadd); auto).
    assert (Hv : RamFs.validate_name name = Ok tt) by (eapply (RamFs.wf_names s' Hwf'), He).
    assert (Hdot : name <> "."%string) by (intros ->; discriminate).
    simpl. rewrite !bool_decide_eq_false_2 by assumption. simpl.
    rewrite (RamFs.lookup_edge s' i name inum Hv He). reflexivity.
  - intros a n b. apply (RamFs.added_lookup _ _ _ _ _ _ _ _ _ _ Hadd).
  - exact Hw.
Qed.
End OnRamFs.

(** ** Properties *)

(** Resolution uses the most specific mount: the entry chosen for a path is
    a mounted one that covers the path, and no covering entry is longer; without
    one the path is not found. *)
Theorem find_mount_most_specific {F} `{FileSystem F} (v : Vfs F) path :
  match find_mount v path with
  | Ok (h, _) => exists m, m ∈ mounts v /\ m_fs m = h /\
      path_starts_with_mount path (m_path m) = true /\
      forall m', m' ∈ mounts v -> path_starts_with_mount path (m_path m') = true ->
        (String.length (m_path m') <= String.length (m_path m))%nat
  | Err e => e = NotFound /\
      forall m', m' ∈ mounts v -> path_starts_with_mount path (m_path m') = false
  end.
Proof.
  unfold find_mount. set (l := List.filter _ _).
  assert (Hl : forall m, m ∈ l <-> m ∈ mounts v /\ path_starts_with_mount path (m_path m) = true).
  { intros m. unfold l. rewrite !list_elem_of_In, filter_In. reflexivity. }
  pose proof (longest_spec l None) as H0. destruct (longest l None) as [m|].
  - destruct H0 as [[Hm|Hm] Hmax]; [|discriminate]. exists m. apply Hl in Hm as [Hm1 Hm2].
    split_and!; [exact Hm1|reflexivity|exact Hm2|]. intros m' H1 H2. apply Hmax. left. apply Hl. auto.
  - destruct H0 as [Hnil _]. split; [reflexivity|]. intros m' Hm'.
    destruct (path_starts_with_mount path (m_path m')) eqn:E; [|reflexivity].
    assert (m' ∈ l) by (apply Hl; auto). rewrite Hnil in *. set_solver.
Qed.

(** With a ramfs at the root, a directory that [mkdir] reports as created is
    there: the path resolves to a fresh empty directory with the requested mode;
    and when [mkdir] fails the path namespace is unchanged. *)
Theorem mkdir_then_metadata v h path mode :
  mounts v = [mkMount "/" h] -> RamFs.reachable (fss v h) ->
  match mkdir v path mode with
  | (Ok _, v') => exists md, metadata v' path = Ok md /\ md_file_type md = Directory /\
      md_size md = 0 /\ md_mode md = mode /\ RamFs.nodes (fss v h) !! md_inode md = None
  | (Err _, v') => forall p, resolve v' p = resolve v p
  end.
Proof.
  intros Hm Hr. pose proof (RamFs.reachable_wf _ Hr) as Hwf. unfold mkdir, at_parent.
  destruct (split_parent path) as [[pp name]|e] eqn:Hsp; [|reflexivity].
  destruct (split_parent_comps path pp name Hsp) as (_ & _ & _ & Hspp).
  destruct (resolve v pp) as [[h' i]|e] eqn:Hpp; [|reflexivity].
  assert (h' = h) as ->.
  { rewrite (resolve_root v h pp Hm Hspp) in Hpp. destruct (walk _ _ _); congruence. }
  change (fs_create (fss v h) i name Directory mode) with (RamFs.create (fss v h) i name Directory mode).
  pose proof (RamFs.create_spec (fss v h) i name Directory mode Hwf) as Hspec.
  destruct (RamFs.create (fss v h) i name Directory mode) as [[inum|e] s'] eqn:Hc.
  - destruct (create_resolves v h path pp name Directory mode i inum s' Hm Hwf Hsp Hpp Hc)
      as (Hres & k & Hk & Hsz & Hnode).
    destruct Hspec as (_ & _ & _ & _ & [(_ & _ & Hfresh) _ _ _ _]).
    unfold metadata. rewrite Hres, set_fs_same. simpl. unfold RamFs.metadata. rewrite Hnode. simpl.
    eexists. split; [reflexivity|]. simpl. auto.
  - destruct Hspec as [-> _]. intros p. apply resolve_ext; [reflexivity|]. apply set_fs_id.
Qed.

Section Handles.
Implicit Types v : Vfs RamFs.Inner.

(** Handle [h] of [v] holds the file [i] with contents [data]. *)
Definition holds v (h i : Z) (nd : RamFs.Node) (data : list Z) : Prop :=
  RamFs.nodes (fss v h) !! i = Some nd /\ RamFs.kind nd = RamFs.KFile data /\
  Z.of_nat (length data) <= RamFs.isize_max.

Definition len (l : list Z) : Z := Z.of_nat (length l).

Lemma len_app a b : len (a ++ b) = len a + len b.
Proof. unfold len. rewrite length_app. lia. Qed.

(** The driver's write at a position inside the supported size. *)
Lemma write_there_spec v fl nd data buf :
  holds v (f_fs fl) (f_inode fl) nd data -> 0 <= f_offset fl -> f_offset fl + len buf <= RamFs.isize_max ->
  exists v' nd', write_there v fl buf = Ret (Ok (len buf), (v', set_offset fl (f_offset fl + len buf))) /\
    holds v' (f_fs fl) (f_inode fl) nd' (RamFs.written data (Z.to_nat (f_offset fl)) buf) /\
    mounts v' = mounts v.
Proof.
  intros (Hn & Hk & Hl) Ho Hfit. unfold write_there. simpl.
  rewrite (RamFs.write_file _ _ _ _ _ _ Hn Hk Ho Hl). cbv zeta. fold (len buf).
  rewrite (proj2 (Z.leb_gt U64 _)), (proj2 (Z.ltb_ge RamFs.isize_max _))
    by (unfold RamFs.isize_max in *; word_lia).
  eexists _, _. split_and!.
  - rewrite add64_small by (unfold RamFs.isize_max, len in *; word_lia). reflexivity.
  - split_and!.
    + rewrite set_fs_same. simpl. apply lookup_insert_eq.
    + reflexivity.
    + rewrite RamFs.written_length. unfold len in *. lia.
  - reflexivity.
Qed.

(** An appending handle takes the size of the file for its position. *)
Lemma append_position v fl nd data :
  holds v (f_fs fl) (f_inode fl) nd data -> of_write (f_flags fl) = true -> of_append (f_flags fl) = true ->
  write_position v fl = Ok (set_offset fl (len data)).
Proof.
  intros (Hn & Hk & Hl) Hw Ha. unfold write_position. rewrite Hw, Ha. simpl.
  unfold RamFs.metadata. rewrite Hn, Hk. reflexivity.
Qed.

(** One write through a handle positioned inside the supported size. *)
Lemma handle_write v fl nd data buf :
  holds v (f_fs fl) (f_inode fl) nd data -> of_write (f_flags fl) = true ->
  of_append (f_flags fl) = false -> 0 <= f_offset fl -> f_offset fl + len buf <= RamFs.isize_max ->
  exists v' nd', file_write v fl buf =
      Ret (Ok (len buf), (v', set_offset fl (f_offset fl + len buf))) /\
    holds v' (f_fs fl) (f_inode fl) nd' (RamFs.written data (Z.to_nat (f_offset fl)) buf) /\
    mounts v' = mounts v.
Proof.
  intros Hh Hw Ha Ho Hfit. unfold file_write, write_position. rewrite Hw, Ha.
  by eapply write_there_spec.
Qed.

(** A store at a position at or before the end of the old contents. *)
Lemma written_over (data tail buf : list Z) :
  RamFs.written (data ++ tail) (length data) buf = data ++ buf ++ drop (length buf) tail.
Proof.
  unfold RamFs.written, RamFs.splice. rewrite <- app_assoc, take_app_length. do 2 f_equal.
  rewrite drop_app_add.
  destruct (Nat.le_gt_cases (length tail) (length buf)) as [Hle|Hgt].
  - rewrite !drop_ge; [reflexivity|lia|]. rewrite length_app, length_replicate, length_app. lia.
  - rewrite length_app. replace (_ - _)%nat with 0%nat by lia. by rewrite app_nil_r.
Qed.

(** Consecutive writes through one handle leave the concatenation in the
    file at the position the handle had, and seeking back there and reading as
    many bytes returns it. *)
Theorem handle_writes_concatenate v fl nd data b1 b2 buf0 :
  holds v (f_fs fl) (f_inode fl) nd data -> of_read (f_flags fl) = true ->
  of_write (f_flags fl) = true -> of_append (f_flags fl) = false -> 0 <= f_offset fl ->
  f_offset fl + len b1 + len b2 <= RamFs.isize_max -> length buf0 = length (b1 ++ b2) ->
  exists v1 fl1 v2 fl2 nd', file_write v fl b1 = Ret (Ok (len b1), (v1, fl1)) /\
    file_write v1 fl1 b2 = Ret (Ok (len b2), (v2, fl2)) /\
    f_offset fl2 = f_offset fl + len b1 + len b2 /\
    holds v2 (f_fs fl) (f_inode fl) nd' (RamFs.written data (Z.to_nat (f_offset fl)) (b1 ++ b2)) /\
    fst (file_read v2 (snd (seek v2 fl2 (Start (f_offset fl)))) buf0) =
      Ok (len b1 + len b2, b1 ++ b2).
Proof.
  intros Hh Hrd Hw Ha Ho Hfit Hb.
  assert (Hlen : 0 <= len b1 /\ 0 <= len b2) by (unfold len; lia).
  destruct (handle_write v fl nd data b1 Hh Hw Ha Ho) as (v1 & nd1 & E1 & Hh1 & _); [lia|].
  set (fl1 := set_offset fl (f_offset fl + len b1)) in *.
  destruct (handle_write v1 fl1 nd1 _ b2 Hh1 Hw Ha) as (v2 & nd2 & E2 & Hh2 & _); [simpl; lia..|].
  exists v1, fl1, v2, (set_offset fl1 (f_offset fl1 + len b2)), nd2. split_and!; [exact E1|exact E2|reflexivity|..].
  - simpl in Hh2. replace (Z.to_nat (f_offset fl + len b1)) with (Z.to_nat (f_offset fl) + length b1)%nat
      in Hh2 by (unfold len; lia). rewrite RamFs.written_twice in Hh2. exact Hh2.
  - simpl in Hh2. replace (Z.to_nat (f_offset fl + len b1)) with (Z.to_nat (f_offset fl) + length b1)%nat
      in Hh2 by (unfold len; lia). rewrite RamFs.written_twice in Hh2. destruct Hh2 as (Hn & Hk & _).
    unfold file_read. simpl. rewrite Hrd. simpl.
    rewrite (RamFs.read_file _ _ _ _ _ _ Hn Hk Ho). cbv zeta. rewrite RamFs.written_length, Hb.
    replace (Nat.min _ _) with (length (b1 ++ b2)) by lia. simpl. do 2 f_equal.
    + unfold len. rewrite length_app. lia.
    + rewrite (drop_ge buf0), app_nil_r by lia. apply RamFs.written_read.
Qed.

(** ** Appends of two tasks *)

(** What the file holds after the driver calls in the order [sched]: [true] is a call
    of the first task.  Each appends where the file ended when it asked. *)
Definition appended (sched : list bool) (data b1 b2 : list Z) : list Z :=
  match sched with
  | [true; true; _; _] => data ++ b1 ++ b2
  | [false; false; _; _] => data ++ b2 ++ b1
  | [_; _; _; true] => data ++ b1 ++ drop (length b1) b2
  | _ => data ++ b2 ++ drop (length b2) b1
  end.

Definition both_finish (sched : list bool) : Prop :=
  sched ∈ [[true; true; false; false]; [true; false; true; false]; [true; false; false; true];
           [false; true; true; false]; [false; true; false; true]; [false; false; true; true]].

(** The two steps of an append, with the other task's effects in between. *)
Lemma append_begins v fl buf nd data :
  holds v (f_fs fl) (f_inode fl) nd data -> of_write (f_flags fl) = true -> of_append (f_flags fl) = true ->
  writer_step v (mkWriter fl buf Begin) = Ret (v, mkWriter (set_offset fl (len data)) buf Positioned).
Proof. intros Hh Hw Ha. unfold writer_step. cbn. by rewrite (append_position v fl nd data). Qed.

Lemma append_stores v fl buf nd data tail :
  holds v (f_fs fl) (f_inode fl) nd (data ++ tail) -> len data + len buf <= RamFs.isize_max ->
  exists v' fl' nd', writer_step v (mkWriter (set_offset fl (len data)) buf Positioned) =
      Ret (v', mkWriter fl' buf (Finished (Ok (len buf)))) /\
    holds v' (f_fs fl) (f_inode fl) nd' (data ++ buf ++ drop (length buf) tail).
Proof.
  intros Hh Hfit. unfold writer_step. cbn [w_stage w_file w_buf].
  destruct (write_there_spec v (set_offset fl (len data)) nd (data ++ tail) buf) as (v' & nd' & -> & Hh' & _);
    [exact Hh|unfold len; cbn; lia|exact Hfit|].
  eexists _, _, nd'. split; [reflexivity|]. cbn in Hh'. unfold len in Hh'. by rewrite Nat2Z.id, written_over in Hh'.
Qed.

(** An append alone: both driver calls in a row. *)
Lemma append_alone v fl buf nd data :
  holds v (f_fs fl) (f_inode fl) nd data -> of_write (f_flags fl) = true -> of_append (f_flags fl) = true ->
  len data + len buf <= RamFs.isize_max ->
  exists v' fl' nd', writer_step v (mkWriter fl buf Begin) = Ret (v, mkWriter (set_offset fl (len data)) buf Positioned) /\
    writer_step v (mkWriter (set_offset fl (len data)) buf Positioned) =
      Ret (v', mkWriter fl' buf (Finished (Ok (len buf)))) /\
    holds v' (f_fs fl) (f_inode fl) nd' (data ++ buf).
Proof.
  intros Hh Hw Ha Hfit. pose proof Hh as Hh0. rewrite <- (app_nil_r data) in Hh0.
  destruct (append_stores v fl buf nd data [] Hh0 Hfit) as (v' & fl' & nd' & E & Hh').
  rewrite drop_nil, app_nil_r in Hh'. exists v', fl', nd'.
  split; [by eapply append_begins|]. by split.
Qed.

(** C24. Two tasks append through two handles on one file, and the scheduler may
    switch between the driver calls each of them makes: in whatever order the four
    calls happen, both tasks are told that all their bytes were written.  When one
    append is over before the other begins, whatever positions the handles hold, the
    file ends up with its old contents and both buffers in that order; in each of
    the four orders that overlap, both wrote at the same place, and of the buffer
    stored first only what is longer than the other is left. *)
Theorem appends_survive_only_if_serial sched v fl1 fl2 nd data b1 b2 :
  holds v (f_fs fl1) (f_inode fl1) nd data ->
  f_fs fl2 = f_fs fl1 -> f_inode fl2 = f_inode fl1 ->
  of_write (f_flags fl1) = true -> of_append (f_flags fl1) = true ->
  of_write (f_flags fl2) = true -> of_append (f_flags fl2) = true ->
  len data + len b1 + len b2 <= RamFs.isize_max -> both_finish sched ->
  exists v' w1 w2 nd', interleave sched v (mkWriter fl1 b1 Begin) (mkWriter fl2 b2 Begin) = Ret (v', (w1, w2)) /\
    w_stage w1 = Finished (Ok (len b1)) /\ w_stage w2 = Finished (Ok (len b2)) /\
    holds v' (f_fs fl1) (f_inode fl1) nd' (appended sched data b1 b2).
Proof.
  intros Hh Hf Hi Hw1 Ha1 Hw2 Ha2 Hfit Hs.
  assert (Hl : 0 <= len b1 /\ 0 <= len b2) by (unfold len; lia).
  assert (Hh2 : holds v (f_fs fl2) (f_inode fl2) nd data) by (by rewrite Hf, Hi).
  pose proof (append_begins v fl1 b1 nd data Hh Hw1 Ha1) as B1.
  pose proof (append_begins v fl2 b2 nd data Hh2 Hw2 Ha2) as B2.
  destruct (append_alone v fl1 b1 nd data Hh Hw1 Ha1) as (v1 & fl1' & nd1 & _ & S1 & H1); [lia|].
  destruct (append_alone v fl2 b2 nd data Hh2 Hw2 Ha2) as (v2 & fl2' & nd2 & _ & S2 & H2); [lia|].
  rewrite <- Hf, <- Hi in H1. rewrite Hf, Hi in H2.
  destruct (append_alone v1 fl2 b2 nd1 _ H1 Hw2 Ha2) as (v12 & fl12 & nd12 & B12 & S12 & H12);
    [rewrite len_app; lia|].
  destruct (append_alone v2 fl1 b1 nd2 _ H2 Hw1 Ha1) as (v21 & fl21 & nd21 & B21 & S21 & H21);
    [rewrite len_app; lia|].
  destruct (append_stores v1 fl2 b2 nd1 data b1 H1) as (u12 & g12 & md12 & T12 & G12); [lia|].
  destruct (append_stores v2 fl1 b1 nd2 data b2 H2) as (u21 & g21 & md21 & T21 & G21); [lia|].
  rewrite <- app_assoc in H12, H21. rewrite Hf, Hi in H12, G12.
  unfold both_finish in Hs. rewrite !elem_of_cons, elem_of_nil in Hs.
  destruct Hs as [->|[->|[->|[->|[->|[->|[]]]]]]]; cbn [interleave].
  - rewrite B1, S1, B12, S12. eauto 10.
  - rewrite B1, B2, S1, T12. eauto 10.
  - rewrite B1, B2, S2, T21. eauto 10.
  - rewrite B2, B1, S1, T12. eauto 10.
  - rewrite B2, B1, S2, T21. eauto 10.
  - rewrite B2, S2, B21, S21. eauto 10.
Qed.

End Handles.

(** The mount table after bring-up. *)
Definition after_init fss0 : Vfs RamFs.Inner :=
  match init false (mkVfs [] fss0) 0 with Ret (_, v) => v | Panic => mkVfs [] fss0 end.

Lemma after_init_eq fss0 : init false (mkVfs [] fss0) 0 = Ret (true, after_init fss0).
Proof.
  assert (E : match init false (mkVfs [] fss0) 0 with Ret (b, _) => b | Panic => false end = true)
    by (vm_compute; reflexivity).
  unfold after_init. destruct (init false (mkVfs [] fss0) 0) as [[[] v]|]; [reflexivity|discriminate..].
Qed.

(** [init] on an empty mount table succeeds, and leaves the four skeleton
    directories with their modes behind an otherwise empty root; a second call
    changes nothing. *)
Theorem fs_init_ready fss0 :
  exists v, init false (mkVfs [] fss0) 0 = Ret (true, v) /\
    Forall (fun e => match metadata v e.1 with
                     | Ok md => md_file_type md = Directory /\ md_mode md = e.2
                     | Err _ => False
                     end) SKELETON /\
    match readdir v "/" with
    | Ok l => map de_name l =
        ["."%string; ".."%string; "dev"%string; "proc"%string; "sys"%string; "tmp"%string]
    | Err _ => False
    end /\
    init true v 0 = Ret (true, v).
Proof.
  exists (after_init fss0). split_and!; [apply after_init_eq| |vm_compute; reflexivity|reflexivity].
  repeat constructor; vm_compute; split; reflexivity.
Qed.

(** Seeking is not checked at the top of the range: from the last offset a
    relative seek by one reports success at offset 0. *)
Theorem seek_current_wraps {F} `{FileSystem F} (v : Vfs F) fl :
  seek v (snd (seek v fl (Start u64_max))) (Current 1) = (Ok 0, set_offset fl 0).
Proof. destruct fl. vm_compute. reflexivity. Qed.

(** A second filesystem can be mounted over the root: ["//"] normalises to
    the empty path, which differs from ["/"] and so passes the duplicate check,
    is not absolute, and covers every absolute path once the first root is gone. *)
Theorem double_slash_mounts_second_root fss0 path :
  starts_slash path = true ->
  let v1 := snd (mount (mkVfs [] fss0 : Vfs RamFs.Inner) "/" 0) in
  let '(r, v2) := mount v1 "//" 1 in
  let '(r', v3) := unmount v2 "/" in
  r = Ok tt /\ r' = Ok tt /\ map m_path (mounts v2) = ["/"%string; ""%string] /\
  exists rel, find_mount v3 path = Ok (1, rel).
Proof.
  intros Hs. assert (E : path_starts_with_mount path "" = true).
  { destruct path as [|a p]; [discriminate|]. unfold path_starts_with_mount. simpl in *. rewrite Hs.
    repeat case_bool_decide; reflexivity. }
  cbn -[find_mount]. split_and!; [reflexivity..|]. unfold find_mount.
  change (mounts _) with [mkMount "" 1]. unfold List.filter. cbn [m_path].
  rewrite E. eexists. reflexivity.
Qed.

(** ** Witnesses *)

Definition demo_vfs : Vfs RamFs.Inner := mkVfs [mkMount "/" 0] (fun _ => RamFs.demo).
Definition demo_file (fl : OpenFlags) : File := mkFile 0 3 1 fl.

Lemma demo_holds : holds demo_vfs 0 3 (RamFs.mkNode 2 (RamFs.KFile []) 420 0 0 0 0 0) [].
Proof. split_and!; [vm_compute; reflexivity|reflexivity|vm_compute; congruence]. Qed.

Lemma mkdir_then_metadata_witness :
  match mkdir demo_vfs "/a/sub/" 493 with
  | (Ok _, v') => exists md, metadata v' "/a/sub/" = Ok md /\ md_file_type md = Directory
  | (Err _, v') => forall p, resolve v' p = resolve demo_vfs p
  end.
Proof.
  pose proof (mkdir_then_metadata demo_vfs 0 "/a/sub/" 493 eq_refl RamFs.demo_reachable) as H.
  destruct (mkdir demo_vfs "/a/sub/" 493) as [[u|e] v']; [|exact H].
  destruct H as (md & H1 & H2 & _). exists md. split; assumption.
Defined.

Lemma handle_writes_concatenate_witness :
  exists v1 fl1 v2 fl2, file_write demo_vfs (demo_file read_write) [5] = Ret (Ok 1, (v1, fl1)) /\
    file_write v1 fl1 [6; 7] = Ret (Ok 2, (v2, fl2)) /\
    fst (file_read v2 (snd (seek v2 fl2 (Start 1))) [0; 0; 0]) = Ok (3, [5; 6; 7]).
Proof.
  destruct (handle_writes_concatenate demo_vfs (demo_file read_write) _ [] [5] [6; 7] [0; 0; 0] demo_holds)
    as (v1 & fl1 & v2 & fl2 & nd & H1 & H2 & _ & _ & H3);
    [reflexivity|reflexivity|reflexivity|simpl; lia|vm_compute; congruence|reflexivity|].
  exists v1, fl1, v2, fl2. split; [exact H1|]. split; [exact H2|exact H3].
Defined.

(** Two bytes and one byte, appended to an empty file by calls that overlap: the
    first byte written is gone. *)
Lemma appends_survive_only_if_serial_witness :
  let w1 := mkWriter (demo_file (mkOpenFlags true true true false false false)) [5; 7] Begin in
  let w2 := mkWriter (demo_file (mkOpenFlags false true true false false false)) [6] Begin in
  exists v' w1' w2' nd, interleave [true; false; true; false] demo_vfs w1 w2 = Ret (v', (w1', w2')) /\
    w_stage w1' = Finished (Ok 2) /\ w_stage w2' = Finished (Ok 1) /\ holds v' 0 3 nd [6; 7].
Proof.
  apply (appends_survive_only_if_serial [true; false; true; false] demo_vfs
    (demo_file (mkOpenFlags true true true false false false))
    (demo_file (mkOpenFlags false true true false false false)) _ [] [5; 7] [6] demo_holds);
    [reflexivity..|vm_compute; congruence|unfold both_finish; set_solver].
Defined.

Lemma double_slash_mounts_second_root_witness :
  exists rel, find_mount (snd (unmount (snd (mount (snd (mount (mkVfs [] (fun _ => RamFs.new)) "/" 0))
    "//" 1)) "/")) "/etc" = Ok (1, rel).
Proof. apply (double_slash_mounts_second_root (fun _ => RamFs.new) "/etc" eq_refl). Defined.

(** Renames stay inside one filesystem, also when it is mounted twice. *)
Example rename_across_mounts :
  let v := mkVfs [mkMount "/" 0; mkMount "/mnt" 1; mkMount "/again" 0] (fun _ => RamFs.demo) in
  option_map fst (rename v "/a/f" "/mnt/f") = Some (Err CrossDevice) /\
  option_map fst (rename v "/a/f" "/again/g") = Some (Ok tt).
Proof. vm_compute. split; reflexivity. Qed.

End Vfs.
