(* ===== verification/PathFs.v ===== *)
(** An abstract file system, and the proof that the kernel's VFS over a ramfs
    implements it.  The abstract state is a finite map from canonical paths to
    files, directories and symbolic links: no inodes, no parent pointers, no
    mount table.  Paths are lists of names, innermost first. *)

From Stdlib Require Import ZArith Lia Ascii String.
From stdpp Require Import base list gmap strings.
From S2P Require Import Prelude VfsTypes RamFs Vfs.

Open Scope Z_scope.

Module PathFs.

(** ** The abstract file system *)

Inductive ANode :=
| AFile (data : list Z)
| ADir
| ALink (target : string).

#[global] Instance ANode_eq_dec : EqDecision ANode.
Proof. solve_decision. Defined.

#[local] Abbreviation path := (list string).
#[local] Abbreviation AFs := (@gmap (list string) (@list_eq_dec string String.eq_dec) (@list_countable string String.eq_dec String.countable) ANode).

Definition a_type (n : ANode) : FileType :=
  match n with AFile _ => Regular | ADir => Directory | ALink _ => Symlink end.

(** One step of a walk, and a walk over the components of a path. *)
Definition a_lookup (fs : AFs) (p : path) (c : string) : FsResult path :=
  match fs !! p with
  | None => Err NotFound
  | Some ADir =>
      if bool_decide (c = "."%string) then Ok p
      else if bool_decide (c = ".."%string) then Ok (tail p)
      else match fs !! (c :: p) with Some _ => Ok (c :: p) | None => Err NotFound end
  | Some _ => Err NotADirectory
  end.

Fixpoint a_walk (fs : AFs) (p : path) (cs : list string) : FsResult path :=
  match cs with
  | [] => Ok p
  | c :: cs' =>
      if bool_decide (c = EmptyString) || bool_decide (c = "."%string) then a_walk fs p cs'
      else try q := a_lookup fs p c in a_walk fs q cs'
  end.

Definition a_resolve (fs : AFs) (s : string) : FsResult path :=
  if Vfs.starts_slash s then a_walk fs [] (Vfs.comps s) else Err InvalidPath.

(** [find_entry]: the entry [n] of directory [p]. *)
Definition a_entry (fs : AFs) (p : path) (n : string) : FsResult ANode :=
  match fs !! p with
  | None => Err NotFound
  | Some ADir => match fs !! (n :: p) with Some a => Ok a | None => Err NotFound end
  | Some _ => Err NotADirectory
  end.

Definition a_new (ft : FileType) : option ANode :=
  match ft with
  | Regular => Some (AFile [])
  | Directory => Some ADir
  | Symlink => Some (ALink "")
  | _ => None
  end.

Definition a_create (fs : AFs) (p : path) (n : string) (ft : FileType) : FsResult path * AFs :=
  match RamFs.validate_name n with
  | Err e => (Err e, fs)
  | Ok _ =>
      match a_entry fs p n with
      | Ok _ => (Err AlreadyExists, fs)
      | Err NotFound =>
          match fs !! p, a_new ft with
          | Some _, Some a => (Ok (n :: p), <[n :: p := a]> fs)
          | Some _, None => (Err Unsupported, fs)
          | None, _ => (Err NotFound, fs)
          end
      | Err e => (Err e, fs)
      end
  end.

Definition a_unlink (fs : AFs) (p : path) (n : string) : FsResult unit * AFs :=
  match a_entry fs p n with
  | Err e => (Err e, fs)
  | Ok ADir => (Err IsADirectory, fs)
  | Ok _ => (Ok tt, base.delete (n :: p) fs)
  end.

(** A directory nothing lies in. *)
Definition a_empty (fs : AFs) (d : path) : bool :=
  bool_decide (map_Forall (fun q _ => q = [] \/ tail q <> d) fs).

Definition a_rmdir (fs : AFs) (p : path) (n : string) : FsResult unit * AFs :=
  match a_entry fs p n with
  | Err e => (Err e, fs)
  | Ok ADir => if a_empty fs (n :: p) then (Ok tt, base.delete (n :: p) fs) else (Err NotEmpty, fs)
  | Ok _ => (Err NotADirectory, fs)
  end.

(** A path after the subtree at [old] has become the subtree at [new]. *)
Definition reroot (old new q : path) : path :=
  if decide (old `suffix_of` q) then take (length q - length old) q ++ new else q.

Definition a_move (fs : AFs) (old new : path) : AFs :=
  list_to_map (map (fun kv => (reroot old new kv.1, kv.2)) (map_to_list (base.delete new fs))).

Definition is_adir (a : ANode) : bool := match a with ADir => true | _ => false end.

Definition a_rename (fs : AFs) (p : path) (n : string) (np : path) (nn : string) : FsResult unit * AFs :=
  match RamFs.validate_name nn with
  | Err e => (Err e, fs)
  | Ok _ =>
  match a_entry fs p n with
  | Err e => (Err e, fs)
  | Ok src =>
      let from := n :: p in
      let to := nn :: np in
      if negb (bool_decide (fs !! np = Some ADir)) then (Err NotADirectory, fs)
      else if is_adir src && bool_decide (from `suffix_of` np) then (Err InvalidArgument, fs)
      else
        match fs !! to with
        | None => (Ok tt, a_move fs from to)
        | Some dst =>
            if bool_decide (to = from) then (Ok tt, fs)
            else if negb (Bool.eqb (is_adir src) (is_adir dst))
            then (Err (if is_adir dst then IsADirectory else NotADirectory), fs)
            else if is_adir dst && negb (a_empty fs to) then (Err NotEmpty, fs)
            else (Ok tt, a_move fs from to)
        end
  end
  end.

(** Contents. *)
Definition a_truncate (fs : AFs) (p : path) : FsResult unit * AFs :=
  match fs !! p with
  | Some (AFile _) => (Ok tt, <[p := AFile []]> fs)
  | Some ADir => (Err IsADirectory, fs)
  | Some (ALink _) => (Err InvalidArgument, fs)
  | None => (Err NotFound, fs)
  end.

Definition a_read (fs : AFs) (p : path) (off : Z) (buf : list Z) : FsResult (Z * list Z) :=
  match fs !! p with
  | Some (AFile data) =>
      let n := Nat.min (length buf) (length data - Z.to_nat off) in
      Ok (Z.of_nat n, take n (drop (Z.to_nat off) data) ++ drop n buf)
  | Some ADir => Err IsADirectory
  | Some (ALink _) => Err InvalidArgument
  | None => Err NotFound
  end.

Definition a_write (fs : AFs) (p : path) (off : Z) (buf : list Z) : FsResult Z * AFs :=
  match fs !! p with
  | Some (AFile data) =>
      (Ok (Z.of_nat (length buf)), <[p := AFile (RamFs.written data (Z.to_nat off) buf)]> fs)
  | Some ADir => (Err IsADirectory, fs)
  | Some (ALink _) => (Err InvalidArgument, fs)
  | None => (Err NotFound, fs)
  end.

(** ** Calls

    What a client does by path: the operations of [Vfs], and a file opened, used
    once and dropped. *)

Inductive call :=
| Mkdir (path : string) (mode : Z)
| Unlink (path : string)
| Rmdir (path : string)
| Rename (from to : string)
| Open (path : string) (flags : OpenFlags)
| Read (path : string) (off : Z) (buf : list Z)
| Write (path : string) (off : Z) (buf : list Z)
| Stat (path : string).

Inductive reply :=
| RUnit (r : FsResult unit)
| RRead (r : FsResult (Z * list Z))
| RWrite (r : FsResult Z)
| RStat (r : FsResult (FileType * option Z)).

Definition done {A : Type} (r : FsResult A) : FsResult unit := match r with Ok _ => Ok tt | Err e => Err e end.

(** The type, and the size of what has contents of its own. *)
Definition seen (md : Metadata) : FileType * option Z :=
  (md_file_type md, if bool_decide (md_file_type md = Directory) then None else Some (md_size md)).

(** [None] when the call does not return. *)
Definition run_call (v : Vfs.Vfs RamFs.Inner) (c : call) : option (reply * Vfs.Vfs RamFs.Inner) :=
  match c with
  | Mkdir p mode => let (r, v') := Vfs.mkdir v p mode in Some (RUnit r, v')
  | Unlink p => let (r, v') := Vfs.unlink v p in Some (RUnit r, v')
  | Rmdir p => let (r, v') := Vfs.rmdir v p in Some (RUnit r, v')
  | Rename p q => match Vfs.rename v p q with Some (r, v') => Some (RUnit r, v') | None => None end
  | Open p flags =>
      match Vfs.open v p flags with Ret (r, v') => Some (RUnit (done r), v') | Panic => None end
  | Read p off buf =>
      match Vfs.open v p read_only with
      | Ret (Ok fl, v') => Some (RRead (Vfs.file_read_at v' fl off buf), v')
      | Ret (Err e, v') => Some (RRead (Err e), v')
      | Panic => None
      end
  | Write p off buf =>
      match Vfs.open v p write_only with
      | Ret (Ok fl, v') =>
          match Vfs.file_write_at v' fl off buf with Ret (r, v'') => Some (RWrite r, v'') | Panic => None end
      | Ret (Err e, v') => Some (RWrite (Err e), v')
      | Panic => None
      end
  | Stat p => Some (RStat (try md := Vfs.metadata v p in Ok (seen md)), v)
  end.

(** The directory of a path and the last component. *)
Definition a_parent (fs : AFs) (s : string) : FsResult (path * string) :=
  try (pp, n) := Vfs.split_parent s in try p := a_resolve fs pp in Ok (p, n).

Definition a_at {A : Type} (fs : AFs) (s : string) (f : path -> string -> FsResult A * AFs) : FsResult unit * AFs :=
  match a_parent fs s with
  | Err e => (Err e, fs)
  | Ok (p, n) => let (r, fs') := f p n in (done r, fs')
  end.

Definition a_target (fs : AFs) (s : string) (flags : OpenFlags) : FsResult path * AFs :=
  match a_resolve fs s with
  | Ok q => if of_exclusive flags && of_create flags then (Err AlreadyExists, fs) else (Ok q, fs)
  | Err NotFound =>
      if of_create flags then
        match a_parent fs s with
        | Err e => (Err e, fs)
        | Ok (p, n) => a_create fs p n Regular
        end
      else (Err NotFound, fs)
  | Err e => (Err e, fs)
  end.

Definition a_open (fs : AFs) (s : string) (flags : OpenFlags) : FsResult path * AFs :=
  match a_target fs s flags with
  | (Err e, fs') => (Err e, fs')
  | (Ok q, fs') =>
      if of_truncate flags && of_write flags then
        let (r, fs'') := a_truncate fs' q in
        (match r with Ok _ => Ok q | Err e => Err e end, fs'')
      else (Ok q, fs')
  end.

Definition a_seen (a : ANode) : FileType * option Z :=
  (a_type a, match a with
             | AFile data => Some (Z.of_nat (List.length data))
             | ADir => None
             | ALink t => Some (Z.of_nat (String.length t))
             end).

Definition a_stat (fs : AFs) (s : string) : FsResult (FileType * option Z) :=
  try q := a_resolve fs s in
  match fs !! q with Some a => Ok (a_seen a) | None => Err NotFound end.

Definition a_call (fs : AFs) (c : call) : reply * AFs :=
  match c with
  | Mkdir s _ => let (r, fs') := a_at fs s (fun p n => a_create fs p n Directory) in (RUnit r, fs')
  | Unlink s => let (r, fs') := a_at fs s (a_unlink fs) in (RUnit r, fs')
  | Rmdir s => let (r, fs') := a_at fs s (a_rmdir fs) in (RUnit r, fs')
  | Rename s s' =>
      match Vfs.split_parent s, Vfs.split_parent s' with
      | Err e, _ => (RUnit (Err e), fs)
      | _, Err e => (RUnit (Err e), fs)
      | Ok (sp, n), Ok (sp', n') =>
          match a_resolve fs sp, a_resolve fs sp' with
          | Err e, _ => (RUnit (Err e), fs)
          | _, Err e => (RUnit (Err e), fs)
          | Ok p, Ok p' => let (r, fs') := a_rename fs p n p' n' in (RUnit r, fs')
          end
      end
  | Open s flags => let (r, fs') := a_open fs s flags in (RUnit (done r), fs')
  | Read s off buf =>
      (RRead (try q := a_resolve fs s in a_read fs q off buf), fs)
  | Write s off buf =>
      match a_resolve fs s with
      | Err e => (RWrite (Err e), fs)
      | Ok q => let (r, fs') := a_write fs q off buf in (RWrite r, fs')
      end
  | Stat s => (RStat (a_stat fs s), fs)
  end.

(** ** What an inode table shows of itself *)

Import RamFs.

(** The node a path leads to, by the entries of the directories on the way. *)
Fixpoint loc (m : gmap Z Node) (p : path) : option Z :=
  match p with
  | [] => Some ROOT_INODE
  | n :: p' => match loc m p' with Some i => entry_at m i n | None => None end
  end.

Definition anode (k : NodeKind) : ANode :=
  match k with
  | KFile d => AFile d
  | KDirectory _ => ADir
  | KSymlink t => ALink t
  end.

Definition shows (m : gmap Z Node) (i : Z) : option ANode := (fun nd => anode (kind nd)) <$> m !! i.

Definition view (s : Inner) (p : path) : option ANode :=
  match loc (nodes s) p with Some i => shows (nodes s) i | None => None end.

(** The inode table [s] implements the abstract file system [fs]. *)
Record refines (s : Inner) (fs : AFs) : Prop := {
  rf_wf : wf s;
  rf_view : forall p, fs !! p = view s p;
  rf_sizes : forall p data, fs !! p = Some (AFile data) -> Z.of_nat (length data) <= isize_max
}.

Lemma loc_cons m n p i c : loc m p = Some i -> edge m i n c -> loc m (n :: p) = Some c.
Proof. intros H He. simpl. rewrite H. exact He. Qed.

Lemma loc_cons_inv m n p c : loc m (n :: p) = Some c -> exists i, loc m p = Some i /\ edge m i n c.
Proof. simpl. destruct (loc m p) as [i|]; [|discriminate]. eauto. Qed.

(** Every location is a node, and a node has one path. *)
Lemma loc_some s p i : wf s -> loc (nodes s) p = Some i -> is_Some (nodes s !! i).
Proof.
  intros Hwf H. pose proof (wf_tree s Hwf) as Ht. destruct p as [|n p].
  - injection H as <-. apply dir_at_some, wf_root, Hwf.
  - apply loc_cons_inv in H as (q & _ & He). destruct (t_child _ _ _ Ht _ _ _ He) as (H1 & _).
    unfold parf in H1. destruct (nodes s !! i); [eauto|discriminate].
Qed.

Lemma loc_inj s p q i : wf s -> loc (nodes s) p = Some i -> loc (nodes s) q = Some i -> p = q.
Proof.
  intros Hwf. pose proof (wf_tree s Hwf) as Ht. revert q i.
  induction p as [|n p IH]; intros [|n' q] i Hp Hq; [reflexivity|..].
  - injection Hp as <-. apply loc_cons_inv in Hq as (j & _ & He).
    destruct (t_child _ _ _ Ht _ _ _ He) as (_ & H & _). congruence.
  - injection Hq as <-. apply loc_cons_inv in Hp as (j & _ & He).
    destruct (t_child _ _ _ Ht _ _ _ He) as (_ & H & _). congruence.
  - apply loc_cons_inv in Hp as (j & Hj & He), Hq as (j' & Hj' & He').
    destruct (t_child _ _ _ Ht _ _ _ He) as (H & _), (t_child _ _ _ Ht _ _ _ He') as (H' & _).
    assert (j' = j) as -> by congruence. f_equal; [|eapply IH; eassumption].
    eapply (t_uniq _ _ _ Ht); eassumption.
Qed.

Lemma loc_parent s n p i :
  wf s -> loc (nodes s) (n :: p) = Some i -> exists nd, nodes s !! i = Some nd /\ loc (nodes s) p = Some (parent nd).
Proof.
  intros Hwf H. apply loc_cons_inv in H as (j & Hj & He).
  destruct (t_child _ _ _ (wf_tree s Hwf) _ _ _ He) as (H1 & _). unfold parf in H1.
  destruct (nodes s !! i) as [nd|]; [|discriminate]. injection H1 as <-. eauto.
Qed.

Lemma view_loc s p i : wf s -> loc (nodes s) p = Some i ->
  exists nd, nodes s !! i = Some nd /\ view s p = Some (anode (kind nd)).
Proof.
  intros Hwf H. destruct (loc_some s p i Hwf H) as [nd E]. exists nd. split; [exact E|].
  unfold view, shows. rewrite H, E. reflexivity.
Qed.

Lemma view_none s p : wf s -> view s p = None <-> loc (nodes s) p = None.
Proof.
  intros Hwf. unfold view. destruct (loc (nodes s) p) as [i|] eqn:E; [|tauto].
  destruct (loc_some s p i Hwf E) as [nd Hn]. unfold shows. rewrite Hn. split; discriminate.
Qed.

(** What the abstract file system holds at a located node and below it. *)
Lemma refines_at s fs p i : refines s fs -> loc (nodes s) p = Some i ->
  exists nd, nodes s !! i = Some nd /\ fs !! p = Some (anode (kind nd)).
Proof. intros [Hwf Hv _] H. rewrite Hv. apply view_loc; assumption. Qed.

Lemma refines_entry s fs p i n : refines s fs -> loc (nodes s) p = Some i ->
  fs !! (n :: p) = match entry_at (nodes s) i n with Some c => shows (nodes s) c | None => None end.
Proof. intros [Hwf Hv _] H. rewrite Hv. unfold view. simpl. rewrite H. reflexivity. Qed.

Lemma entry_some s i n c : wf s -> entry_at (nodes s) i n = Some c -> is_Some (nodes s !! c).
Proof.
  intros Hwf H. destruct (t_child _ _ _ (wf_tree s Hwf) _ _ _ H) as (H1 & _). unfold parf in H1.
  destruct (nodes s !! c); [eauto|discriminate].
Qed.

(** ** Walking *)

(** A reply of the code that is a node, against one that is its path. *)
Definition same_place (s : Inner) (r : FsResult Z) (r' : FsResult path) : Prop :=
  match r, r' with
  | Ok i, Ok p => loc (nodes s) p = Some i
  | Err e, Err e' => e = e'
  | _, _ => False
  end.

Lemma lookup_refines s fs p i c :
  refines s fs -> loc (nodes s) p = Some i -> same_place s (lookup s i c) (a_lookup fs p c).
Proof.
  intros Hr Hi. pose proof (rf_wf _ _ Hr) as Hwf. destruct (refines_at s fs p i Hr Hi) as (nd & E & Ef).
  unfold lookup, a_lookup. rewrite E, Ef. destruct (kind nd) as [d|es|t] eqn:K; simpl; try reflexivity.
  case_bool_decide; [exact Hi|]. case_bool_decide.
  - destruct p as [|n p]; simpl.
    + injection Hi as <-. pose proof (t_root _ _ _ (wf_tree s Hwf)) as H1. unfold parf in H1. rewrite E in H1.
      simpl in H1. congruence.
    + destruct (loc_parent s n p i Hwf Hi) as (nd' & E' & H1). congruence.
  - rewrite (refines_entry s fs p i c Hr Hi). unfold entry_at. rewrite E, K.
    destruct (es !! c) as [x|] eqn:Ex; simpl; [|reflexivity].
    destruct (entry_some s i c x Hwf) as [xd Exd]; [unfold entry_at; rewrite E, K; exact Ex|].
    unfold shows. rewrite Exd. simpl. rewrite Hi. unfold entry_at. rewrite E, K. exact Ex.
Qed.

Lemma walk_refines s fs cs : refines s fs -> forall p i, loc (nodes s) p = Some i ->
  same_place s (Vfs.walk s i cs) (a_walk fs p cs).
Proof.
  intros Hr. induction cs as [|c cs IH]; intros p i Hi; [exact Hi|]. simpl.
  destruct (_ || _); [apply IH, Hi|]. pose proof (lookup_refines s fs p i c Hr Hi) as H.
  change (fs_lookup s i c) with (lookup s i c).
  destruct (lookup s i c) as [j|e], (a_lookup fs p c) as [q|e']; simpl in *; try contradiction; auto.
Qed.

(** ** Creating and removing *)

Lemma entry_refines s fs p i n : refines s fs -> loc (nodes s) p = Some i ->
  match find_entry s i n, a_entry fs p n with
  | Ok x, Ok a => edge (nodes s) i n x /\ loc (nodes s) (n :: p) = Some x /\
      fs !! (n :: p) = Some a /\ shows (nodes s) x = Some a
  | Err e, Err e' => e = e'
  | _, _ => False
  end.
Proof.
  intros Hr Hi. pose proof (rf_wf _ _ Hr) as Hwf. destruct (refines_at s fs p i Hr Hi) as (nd & E & Ef).
  pose proof (refines_entry s fs p i n Hr Hi) as He. pose proof (find_entry_ok s i n) as Hok.
  unfold a_entry. rewrite Ef, He. unfold find_entry in *. rewrite E in *.
  destruct (kind nd) as [d|es|t] eqn:K; simpl; try reflexivity.
  assert (Hent : entry_at (nodes s) i n = es !! n) by (unfold entry_at; rewrite E, K; reflexivity).
  rewrite Hent in *. destruct (es !! n) as [x|] eqn:Ex; [|reflexivity].
  destruct (entry_some s i n x Hwf Hent) as [xd Exd]. unfold shows in *. rewrite Exd in *. simpl in *.
  split_and!; [exact Hent|rewrite Hi; exact Hent|reflexivity..].
Qed.

Lemma update_dir_shows m i f j : shows (update_dir m i f) j = shows m j.
Proof.
  unfold update_dir, shows. destruct (m !! i) as [q|] eqn:E; [|reflexivity].
  destruct (kind q) eqn:K; try reflexivity. destruct (decide (j = i)) as [->|Hne].
  - rewrite lookup_insert_eq, E. simpl. rewrite K. reflexivity.
  - rewrite lookup_insert_ne by congruence. reflexivity.
Qed.

Lemma leaf_no_entry s x m : (forall n c, ~ edge (nodes s) x n c) -> entry_at (nodes s) x m = None.
Proof. intros H. destruct (entry_at (nodes s) x m) as [c|] eqn:E; [destruct (H m c E)|reflexivity]. Qed.

(** A tree with one more leaf, and with one leaf less. *)
Lemma loc_added s s' p i n x q :
  wf s -> loc (nodes s) p = Some i -> nodes s !! x = None ->
  (forall a m c, edge (nodes s') a m c <-> edge (nodes s) a m c \/ (a = i /\ m = n /\ c = x)) ->
  entry_at (nodes s) i n = None ->
  loc (nodes s') q = if decide (q = n :: p) then Some x else loc (nodes s) q.
Proof.
  intros Hwf Hi Hx He Hnone. pose proof (wf_tree s Hwf) as Ht.
  assert (Hx' : forall m c, ~ edge (nodes s) x m c).
  { intros m c H. unfold edge, entry_at in H. rewrite Hx in H. discriminate. }
  assert (Hent : forall a m, entry_at (nodes s') a m =
    if decide (a = i /\ m = n) then Some x else entry_at (nodes s) a m).
  { intros a m. destruct (decide _) as [[-> ->]|Hne]; [apply He; auto|].
    destruct (entry_at (nodes s) a m) as [c|] eqn:E; [apply He; auto|].
    destruct (entry_at (nodes s') a m) as [c|] eqn:E'; [|reflexivity].
    apply He in E' as [H|(-> & -> & _)]; [unfold edge in H; congruence|tauto]. }
  assert (Hix : x <> i) by (intros ->; destruct (loc_some s p i Hwf Hi); congruence).
  induction q as [|m q IH]; [reflexivity|]. simpl loc. rewrite IH.
  destruct (decide (q = n :: p)) as [->|Hq].
  - rewrite Hent, decide_False by (intros [? _]; contradiction). rewrite leaf_no_entry by exact Hx'.
    rewrite decide_False; [|intros E; apply (f_equal length) in E; simpl in E; lia].
    simpl. rewrite Hi, Hnone. reflexivity.
  - destruct (loc (nodes s) q) as [j|] eqn:Ej.
    + rewrite Hent. destruct (decide (j = i /\ m = n)) as [[-> ->]|Hne].
      * rewrite decide_True; [reflexivity|]. f_equal. eapply loc_inj; eassumption.
      * rewrite decide_False; [reflexivity|]. intros [= -> ->]. apply Hne. split; congruence.
    + rewrite decide_False; [reflexivity|]. intros [= -> ->]. congruence.
Qed.

Lemma loc_removed s s' p i n x q :
  wf s -> loc (nodes s) p = Some i -> edge (nodes s) i n x -> (forall m c, ~ edge (nodes s) x m c) ->
  (forall a m c, edge (nodes s') a m c <-> edge (nodes s) a m c /\ c <> x) ->
  loc (nodes s') q = if decide (q = n :: p) then None else loc (nodes s) q.
Proof.
  intros Hwf Hi Hx Hleaf He. pose proof (wf_tree s Hwf) as Ht.
  assert (Hloc : loc (nodes s) (n :: p) = Some x) by (apply (loc_cons _ _ _ _ _ Hi Hx)).
  assert (Hent : forall a m, entry_at (nodes s') a m =
    match entry_at (nodes s) a m with Some c => if decide (c = x) then None else Some c | None => None end).
  { intros a m. destruct (entry_at (nodes s') a m) as [c|] eqn:E'.
    - apply He in E' as [E Hne]. rewrite E, decide_False by exact Hne. reflexivity.
    - destruct (entry_at (nodes s) a m) as [c|] eqn:E; [|reflexivity].
      destruct (decide (c = x)) as [|Hne]; [reflexivity|].
      assert (H : edge (nodes s') a m c) by (apply He; auto). unfold edge in H. congruence. }
  induction q as [|m q IH]; [reflexivity|]. simpl loc. rewrite IH.
  destruct (decide (q = n :: p)) as [->|Hq].
  - rewrite decide_False; [|intros E; apply (f_equal length) in E; simpl in E; lia].
    change (match loc (nodes s) p with Some i0 => entry_at (nodes s) i0 n | None => None end)
      with (loc (nodes s) (n :: p)). rewrite Hloc, (leaf_no_entry s x m Hleaf). reflexivity.
  - destruct (decide (m :: q = n :: p)) as [E|Hne].
    + injection E as -> ->. rewrite Hi, Hent, Hx, decide_True; reflexivity.
    + destruct (loc (nodes s) q) as [j|] eqn:Ej; [|reflexivity].
      rewrite Hent. destruct (entry_at (nodes s) j m) as [c|] eqn:Ec; [|reflexivity].
      destruct (decide (c = x)) as [->|]; [|reflexivity]. destruct Hne.
      eapply loc_inj; [exact Hwf|apply (loc_cons _ _ _ _ _ Ej Ec)|exact Hloc].
Qed.

Lemma isize_pos : 0 <= isize_max.
Proof. unfold isize_max. lia. Qed.

Lemma check_parent_entry s i n :
  check_parent s i n = match find_entry s i n with
    | Ok _ => Err AlreadyExists
    | Err NotFound => if bool_decide (is_Some (nodes s !! i)) then Ok tt else Err NotFound
    | Err e => Err e
    end.
Proof.
  unfold check_parent, find_entry. destruct (nodes s !! i) as [nd|]; [|reflexivity].
  destruct (kind nd); try reflexivity. destruct (entries !! n); reflexivity.
Qed.

Lemma create_refines s fs p i n ft md :
  refines s fs -> loc (nodes s) p = Some i -> next_inode s <> u64_max ->
  let (r, s') := create s i n ft md in
  let (r', fs') := a_create fs p n ft in
  same_place s' r r' /\ refines s' fs' /\ next_inode s' <= next_inode s + 1.
Proof.
  intros Hr Hi Hmax. pose proof (rf_wf _ _ Hr) as Hwf.
  pose proof (entry_refines s fs p i n Hr Hi) as Hent.
  assert (Hsame : forall r, same_place s r (match r with Ok _ => Ok p | Err e => Err e end) ->
    same_place s r (match r with Ok _ => Ok p | Err e => Err e end) /\ refines s fs /\
    next_inode s <= next_inode s + 1) by (intros; split_and!; [assumption|exact Hr|lia]).
  unfold create, a_create. destruct (validate_name n) as [[]|ev] eqn:Hv; [|apply (Hsame (Err ev)); reflexivity].
  rewrite check_parent_entry.
  destruct (find_entry s i n) as [x|e] eqn:Ef, (a_entry fs p n) as [a|e'] eqn:Ea; try contradiction.
  { apply (Hsame (Err AlreadyExists)). reflexivity. }
  subst e'. destruct (refines_at s fs p i Hr Hi) as (nd & End & Efs). rewrite bool_decide_eq_true_2 by eauto.
  destruct (decide (e = NotFound)) as [->|Hne].
  2:{ destruct e; try congruence; apply (Hsame (Err _)); reflexivity. }
  rewrite Efs. destruct (a_new ft) as [a|] eqn:Hft.
  2:{ destruct ft; try discriminate; apply (Hsame (Err _)); reflexivity. }
  assert (exists k,
    match ft with Regular => add_node s i n (KFile []) md | Directory => add_node s i n (KDirectory ∅) md
    | Symlink => add_node s i n (KSymlink "") md | _ => (Err Unsupported, s) end = add_node s i n k md /\
    anode k = a /\ (forall es, k = KDirectory es -> es = ∅) /\ (forall d, k = KFile d -> d = []))
    as (k & -> & Hk & Hdir & Hfile).
  { destruct ft; try discriminate; injection Hft as <-; eexists; split_and!; try reflexivity; intros; first [reflexivity|congruence]. }
  assert (Hcp : check_parent s i n = Ok tt).
  { rewrite check_parent_entry, Ef, bool_decide_eq_true_2 by eauto. reflexivity. }
  pose proof (add_node_spec s i n k md Hwf Hv Hcp Hdir) as Hadd.
  destruct (add_node s i n k md) as [[inum|e] s']; [|destruct Hadd as (_ & _ & ?); contradiction].
  destruct Hadd as (Hwf' & Hadd). pose proof (ad_inum _ _ _ _ _ _ _ Hadd) as (Hn1 & Hn2 & Hn3).
  destruct (check_parent_ok s i n Hcp) as [Hdiri Hnone].
  pose proof (fun q => loc_added s s' p i n inum q Hwf Hi Hn3 (ad_edges _ _ _ _ _ _ _ Hadd) Hnone) as Hloc.
  split_and!; [unfold same_place; rewrite Hloc, decide_True; reflexivity| |lia].
  assert (Hview : forall q, <[n :: p := a]> fs !! q = view s' q).
  { intros q. unfold view. rewrite Hloc. destruct (decide (q = n :: p)) as [->|Hq].
    - rewrite lookup_insert_eq. unfold shows. rewrite (ad_node _ _ _ _ _ _ _ Hadd). simpl. congruence.
    - rewrite lookup_insert_ne by congruence. rewrite (rf_view _ _ Hr). unfold view.
      destruct (loc (nodes s) q) as [j|] eqn:Ej; [|reflexivity].
      destruct (loc_some s q j Hwf Ej) as [nj Hj]. unfold shows.
      destruct (ad_keeps _ _ _ _ _ _ _ Hadd j nj Hj) as (nj' & Hj' & _ & Hd).
      destruct (decide (j = i)) as [->|Hji].
      + rewrite Hj, Hj'. simpl. unfold dir_at in Hdiri. rewrite Hj in Hdiri. rewrite Hdiri in Hd.
        destruct (kind nj), (kind nj'); try discriminate; reflexivity.
      + rewrite (ad_others _ _ _ _ _ _ _ Hadd j); [reflexivity|congruence|exact Hji]. }
  split; [exact Hwf'|exact Hview|]. intros q data Hq.
  destruct (decide (q = n :: p)) as [->|Hqn].
  - rewrite lookup_insert_eq in Hq. injection Hq as Hq. destruct k; try (simpl in Hk; congruence).
    rewrite (Hfile data0 eq_refl) in Hk. simpl in Hk.
    assert (data = []) as -> by congruence. apply isize_pos.
  - rewrite lookup_insert_ne in Hq by congruence. exact (rf_sizes _ _ Hr q data Hq).
Qed.

Lemma remove_refines s fs p i n x :
  refines s fs -> loc (nodes s) p = Some i -> edge (nodes s) i n x ->
  (forall m c, ~ edge (nodes s) x m c) -> refines (remove_entry s i n x) (base.delete (n :: p) fs).
Proof.
  intros Hr Hi Hx Hleaf. pose proof (rf_wf _ _ Hr) as Hwf.
  pose proof (fun q => loc_removed s (remove_entry s i n x) p i n x q Hwf Hi Hx Hleaf
    (fun a m c => remove_entry_edges s i n x a m c Hwf Hx Hleaf)) as Hloc.
  pose proof (loc_cons _ _ _ _ _ Hi Hx) as Hlx.
  split; [apply remove_entry_wf; assumption|..].
  - intros q. unfold view. rewrite Hloc. destruct (decide (q = n :: p)) as [->|Hq].
    + apply lookup_delete_eq.
    + rewrite lookup_delete_ne by congruence. rewrite (rf_view _ _ Hr). unfold view.
      destruct (loc (nodes s) q) as [j|] eqn:Ej; [|reflexivity].
      assert (Hjx : j <> x) by (intros ->; apply Hq; eapply loc_inj; eassumption).
      unfold remove_entry, shows. cbn [nodes]. rewrite lookup_delete_ne by congruence.
      symmetry. apply (update_dir_shows (nodes s) i (base.delete n) j).
  - intros q data Hq. apply lookup_delete_Some in Hq as [_ Hq]. exact (rf_sizes _ _ Hr q data Hq).
Qed.

Lemma empty_refines s fs d x nd es :
  refines s fs -> loc (nodes s) d = Some x -> nodes s !! x = Some nd -> kind nd = KDirectory es ->
  a_empty fs d = bool_decide (es = ∅).
Proof.
  intros Hr Hx E K. pose proof (rf_wf _ _ Hr) as Hwf.
  assert (Hent : forall m, entry_at (nodes s) x m = es !! m) by (intros; unfold entry_at; rewrite E, K; reflexivity).
  unfold a_empty. apply bool_decide_ext. split.
  - intros H. apply map_eq. intros m. rewrite lookup_empty. destruct (es !! m) as [c|] eqn:Ec; [|reflexivity].
    rewrite <- Hent in Ec. destruct (entry_some s x m c Hwf Ec) as [cd Ecd].
    destruct (H (m :: d) (anode (kind cd))) as [?|H']; [|discriminate|destruct (H' eq_refl)].
    rewrite (refines_entry s fs d x m Hr Hx), Ec. unfold shows. rewrite Ecd. reflexivity.
  - intros -> q a Hq. destruct q as [|m q]; [auto|]. right. simpl. intros ->.
    rewrite (refines_entry s fs d x m Hr Hx), Hent in Hq. discriminate.
Qed.

Lemma unlink_refines s fs p i n :
  refines s fs -> loc (nodes s) p = Some i ->
  let (r, s') := unlink s i n in
  let (r', fs') := a_unlink fs p n in
  r = r' /\ refines s' fs' /\ next_inode s' = next_inode s.
Proof.
  intros Hr Hi. pose proof (entry_refines s fs p i n Hr Hi) as H. unfold unlink, a_unlink.
  destruct (find_entry s i n) as [x|e], (a_entry fs p n) as [a|e']; try contradiction; [|subst; auto].
  destruct H as (Hx & _ & _ & Hs). unfold shows in Hs. destruct (nodes s !! x) as [nd|] eqn:E; [|discriminate].
  injection Hs as <-. destruct (kind nd) eqn:K; simpl; [|auto|]; split_and!; try reflexivity;
    (apply remove_refines; [exact Hr|exact Hi|exact Hx|apply (file_leaf _ _ nd E); rewrite K; reflexivity]).
Qed.

Lemma rmdir_refines s fs p i n :
  refines s fs -> loc (nodes s) p = Some i ->
  let (r, s') := rmdir s i n in
  let (r', fs') := a_rmdir fs p n in
  r = r' /\ refines s' fs' /\ next_inode s' = next_inode s.
Proof.
  intros Hr Hi. pose proof (entry_refines s fs p i n Hr Hi) as H. unfold rmdir, a_rmdir.
  destruct (find_entry s i n) as [x|e], (a_entry fs p n) as [a|e']; try contradiction; [|subst; auto].
  destruct H as (Hx & Hlx & _ & Hs). unfold shows in Hs. destruct (nodes s !! x) as [nd|] eqn:E; [|discriminate].
  injection Hs as <-. destruct (kind nd) as [d|es|t] eqn:K; simpl; [auto| |auto].
  rewrite (empty_refines s fs (n :: p) x nd es Hr Hlx E K). case_bool_decide as Hes; [|auto].
  split_and!; try reflexivity. apply remove_refines; [exact Hr|exact Hi|exact Hx|].
  apply (empty_dir_leaf _ _ nd E). congruence.
Qed.

(** ** Contents *)

(** Writing contents moves nothing. *)
Lemma set_file_loc m i nd data data' q :
  m !! i = Some nd -> kind nd = KFile data -> loc (<[i := set_kind nd (KFile data')]> m) q = loc m q.
Proof.
  intros E K. induction q as [|c q IH]; [reflexivity|]. simpl. rewrite IH.
  destruct (loc m q) as [j|]; [|reflexivity].
  eapply insert_entry_same; [exact E|right; rewrite K; auto].
Qed.

Lemma set_file_refines s fs p i nd data data' :
  refines s fs -> loc (nodes s) p = Some i -> nodes s !! i = Some nd -> kind nd = KFile data ->
  Z.of_nat (length data') <= isize_max ->
  refines (set_node s i (set_kind nd (KFile data'))) (<[p := AFile data']> fs).
Proof.
  intros Hr Hi E K Hlen. pose proof (rf_wf _ _ Hr) as Hwf.
  pose proof (fun q => set_file_loc (nodes s) i nd data data' q E K) as Hloc.
  split.
  - eapply set_node_wf; [exact Hwf|exact E|reflexivity|rewrite K; reflexivity|reflexivity].
  - intros q. unfold view, set_node. cbn [nodes]. rewrite Hloc. unfold shows.
    destruct (decide (q = p)) as [->|Hq].
    + rewrite lookup_insert_eq, Hi, lookup_insert_eq. reflexivity.
    + rewrite lookup_insert_ne by congruence. rewrite (rf_view _ _ Hr). unfold view, shows.
      destruct (loc (nodes s) q) as [j|] eqn:Ej; [|reflexivity].
      rewrite lookup_insert_ne; [reflexivity|]. intros <-. apply Hq. eapply loc_inj; eassumption.
  - intros q d Hq. destruct (decide (q = p)) as [->|Hqp].
    + rewrite lookup_insert_eq in Hq. injection Hq as <-. exact Hlen.
    + rewrite lookup_insert_ne in Hq by congruence. exact (rf_sizes _ _ Hr q d Hq).
Qed.

Lemma at_node s fs p i : refines s fs -> loc (nodes s) p = Some i ->
  exists nd, nodes s !! i = Some nd /\ fs !! p = Some (anode (kind nd)) /\
    (forall data, kind nd = KFile data -> Z.of_nat (length data) <= isize_max).
Proof.
  intros Hr Hi. destruct (refines_at s fs p i Hr Hi) as (nd & E & Ef). exists nd. split_and!; [exact E|exact Ef|].
  intros data K. apply (rf_sizes _ _ Hr p). rewrite Ef, K. reflexivity.
Qed.

Lemma truncate_refines s fs p i :
  refines s fs -> loc (nodes s) p = Some i ->
  exists r s', truncate s i 0 = Ret (r, s') /\ next_inode s' = next_inode s /\
  let (r', fs') := a_truncate fs p in r = r' /\ refines s' fs'.
Proof.
  intros Hr Hi. destruct (at_node s fs p i Hr Hi) as (nd & E & Ef & Hsz).
  unfold truncate, a_truncate. rewrite E, Ef. destruct (kind nd) as [data|es|t] eqn:K; simpl;
    try (eexists _, s; split_and!; [reflexivity|reflexivity|reflexivity|exact Hr]).
  eexists _, _. split_and!; [reflexivity..|]. simpl.
  apply (set_file_refines s fs p i nd data []); auto using isize_pos.
Qed.

Lemma truncate_keeps_loc s i len r s' q : truncate s i len = Ret (r, s') ->
  loc (nodes s') q = loc (nodes s) q.
Proof.
  intros H. unfold truncate in H. destruct (nodes s !! i) as [nd|] eqn:E; [|congruence].
  destruct (kind nd) eqn:K; try congruence. destruct (vec_resize data len); [|discriminate].
  injection H as <- <-. apply (set_file_loc _ _ _ data); assumption.
Qed.

Lemma read_refines s fs p i off buf :
  refines s fs -> loc (nodes s) p = Some i -> 0 <= off -> read s i off buf = a_read fs p off buf.
Proof.
  intros Hr Hi Ho. destruct (at_node s fs p i Hr Hi) as (nd & E & Ef & Hsz).
  unfold a_read. rewrite Ef. destruct (kind nd) as [data|es|t] eqn:K; simpl;
    [apply (read_file s i off buf nd data E K Ho)|unfold read; rewrite E, K; reflexivity..].
Qed.

Lemma write_refines s fs p i off buf :
  refines s fs -> loc (nodes s) p = Some i -> 0 <= off -> off + Z.of_nat (length buf) <= isize_max ->
  exists r s', write s i off buf = Ret (r, s') /\ next_inode s' = next_inode s /\
  let (r', fs') := a_write fs p off buf in r = r' /\ refines s' fs'.
Proof.
  intros Hr Hi Ho Hfit. destruct (at_node s fs p i Hr Hi) as (nd & E & Ef & Hsz).
  unfold a_write. rewrite Ef. destruct (kind nd) as [data|es|t] eqn:K; simpl;
    try (unfold write; rewrite E, K; eexists _, s; split_and!; [reflexivity|reflexivity|reflexivity|exact Hr]).
  specialize (Hsz data eq_refl). rewrite (write_file s i off buf nd data E K Ho Hsz). cbv zeta.
  rewrite (proj2 (Z.leb_gt U64 _)), (proj2 (Z.ltb_ge isize_max _)) by (unfold isize_max in *; word_lia).
  eexists _, _. split_and!; [reflexivity..|].
  apply (set_file_refines s fs p i nd data); [exact Hr|exact Hi|exact E|exact K|].
  rewrite written_length. unfold isize_max in *. lia.
Qed.

(** ** Moving a subtree *)

Lemma suffix_cons_iff (src : path) m q : src `suffix_of` m :: q <-> src = m :: q \/ src `suffix_of` q.
Proof.
  split.
  - intros [[|c t'] E]; simpl in E; [left; symmetry; exact E|]. injection E as -> ->. right. exists t'. reflexivity.
  - intros [->|H]; [apply suffix_app_r with (l3 := []); reflexivity|apply suffix_cons_r, H].
Qed.

Lemma reroot_app old new t : reroot old new (t ++ old) = t ++ new.
Proof.
  unfold reroot. rewrite decide_True by (exists t; reflexivity). f_equal.
  rewrite length_app, Nat.add_sub. apply take_app_length.
Qed.

Lemma reroot_other old new q : ~ old `suffix_of` q -> reroot old new q = q.
Proof. intros H. unfold reroot. rewrite decide_False by exact H. reflexivity. Qed.

(** A node is below [x] exactly when its path ends in that of [x]. *)
Lemma avoiding_suffix s src x q i :
  wf s -> loc (nodes s) src = Some x -> loc (nodes s) q = Some i ->
  reach_avoiding (parf (nodes s)) x i <-> ~ src `suffix_of` q.
Proof.
  intros Hwf Hx. revert i. pose proof (wf_tree s Hwf) as Ht. induction q as [|m q IH]; intros i Hi.
  - injection Hi as <-. split.
    + intros H Hs. apply suffix_nil_inv in Hs as ->. injection Hx as <-. inversion H; contradiction.
    + intros Hs. constructor. intros E. rewrite <- E in Hx. apply Hs. exists [].
      apply (loc_inj s [] src ROOT_INODE Hwf eq_refl Hx).
  - apply loc_cons_inv in Hi as Hj. destruct Hj as (j & Hj & He).
    destruct (t_child _ _ _ Ht _ _ _ He) as (Hp & Hr & _). rewrite suffix_cons_iff.
    assert (Heq : i = x <-> src = m :: q).
    { split; [intros ->; eapply loc_inj; eassumption|intros ->; congruence]. }
    split.
    + intros H. inversion H as [|? j' Hj' _ Hne Hrest]; subst; [congruence|].
      assert (j' = j) as -> by congruence. apply (IH j Hj) in Hrest. tauto.
    + intros H. apply (ra_step _ _ i j); [exact Hp|exact Hr|tauto|]. apply (IH j Hj). tauto.
Qed.

(** The tree [s'] is [s] with the subtree at [from] moved to [to]. *)
Definition subtree_moved (s s' : Inner) (from to : path) : Prop :=
  (forall t, view s' (t ++ to) = view s (t ++ from)) /\
  (forall q, from `suffix_of` q -> view s' q = None) /\
  (forall q, ~ from `suffix_of` q -> ~ to `suffix_of` q -> view s' q = view s q).

Section Move.
Context (s s' : Inner) (Hwf : wf s) (op np x : Z) (n nn : string) (p pp : path).
Context (Hp : loc (nodes s) p = Some op) (Hpp : loc (nodes s) pp = Some np)
        (Hx : edge (nodes s) op n x) (Hav : reach_avoiding (parf (nodes s)) x np).
Context (Hedges : forall a m c, edge (nodes s') a m c <->
  (a = np /\ m = nn /\ c = x) \/ (edge (nodes s) a m c /\ c <> x /\ ~ (a = np /\ m = nn))).
(** The destination is another place, free or a leaf. *)
Context (Hne : n :: p <> nn :: pp)
        (Hleaf : forall e m c, edge (nodes s) np nn e -> ~ edge (nodes s) e m c).

Let from := n :: p.
Let to := nn :: pp.

Lemma from_loc : loc (nodes s) from = Some x.
Proof. apply (loc_cons _ _ _ _ _ Hp Hx). Qed.

Lemma pp_not_below : ~ from `suffix_of` pp.
Proof. apply (avoiding_suffix s from x pp np Hwf from_loc Hpp), Hav. Qed.

(** Nothing lies below the destination. *)
Lemma not_at_to q m j c : loc (nodes s) q = Some j -> edge (nodes s) j m c -> q <> to.
Proof.
  intros Hq He ->. apply loc_cons_inv in Hq as (a & Ha & Hea). assert (a = np) as -> by congruence.
  exact (Hleaf _ _ _ Hea He).
Qed.

Lemma moved_elsewhere q : forall j, q <> to -> ~ from `suffix_of` q -> loc (nodes s) q = Some j ->
  loc (nodes s') q = Some j.
Proof.
  induction q as [|m q IH]; intros j Hto Hsuf Hj; [exact Hj|].
  apply loc_cons_inv in Hj as Ha. destruct Ha as (a & Ha & He). rewrite suffix_cons_iff in Hsuf.
  apply (loc_cons _ _ _ a); [apply (IH a); [eapply not_at_to; eassumption|tauto|exact Ha]|].
  apply Hedges. right. split_and!; [exact He| |].
  - intros ->. apply Hsuf. left. eapply loc_inj; [exact Hwf|exact from_loc|exact Hj].
  - intros [-> ->]. apply Hto. unfold to. f_equal. eapply loc_inj; eassumption.
Qed.

Lemma moved_below t' : forall j, loc (nodes s) (t' ++ from) = Some j -> loc (nodes s') (t' ++ to) = Some j.
Proof.
  induction t' as [|m t' IH]; intros j Hj; simpl app in *.
  - assert (j = x) as -> by (rewrite from_loc in Hj; congruence).
    apply (loc_cons _ _ _ np); [|apply Hedges; auto].
    apply moved_elsewhere; [|exact pp_not_below|exact Hpp].
    intros E. apply (f_equal (@List.length string)) in E. unfold to in E. simpl in E. lia.
  - apply loc_cons_inv in Hj as Ha. destruct Ha as (a & Ha & He).
    apply (loc_cons _ _ _ a); [apply IH, Ha|]. apply Hedges. right. split_and!; [exact He| |].
    + intros ->. assert (E : m :: t' ++ from = from) by (eapply loc_inj; [exact Hwf|exact Hj|exact from_loc]).
      apply (f_equal (@List.length string)) in E. simpl in E. rewrite length_app in E. simpl in E. lia.
    + intros [-> ->]. apply pp_not_below. exists t'. eapply loc_inj; eassumption.
Qed.

Lemma moved_to q j : q <> to -> loc (nodes s) q = Some j -> loc (nodes s') (reroot from to q) = Some j.
Proof.
  intros Hto Hj. destruct (decide (from `suffix_of` q)) as [[t' ->]|Hs].
  - rewrite reroot_app. apply moved_below, Hj.
  - rewrite reroot_other by exact Hs. apply moved_elsewhere; assumption.
Qed.

Lemma moved_from q' : forall j, loc (nodes s') q' = Some j ->
  exists q, q <> to /\ loc (nodes s) q = Some j /\ reroot from to q = q'.
Proof.
  induction q' as [|m q' IH]; intros j Hj.
  - exists []. split_and!; [discriminate|exact Hj|]. apply reroot_other. intros H.
    apply suffix_nil_inv in H. discriminate.
  - apply loc_cons_inv in Hj as (a & Ha & He). destruct (IH a Ha) as (q & Hq & Hqa & <-).
    apply Hedges in He as [(-> & -> & ->)|(He & Hjx & Hnot)].
    + assert (q = pp) as -> by (eapply loc_inj; eassumption).
      exists from. split_and!; [exact Hne|exact from_loc|].
      rewrite (reroot_other _ _ pp) by exact pp_not_below. exact (reroot_app from to []).
    + assert (Hl : loc (nodes s) (m :: q) = Some j) by (apply (loc_cons _ _ _ a); assumption).
      exists (m :: q). split_and!; [|exact Hl|].
      * intros [= -> ->]. apply Hnot. split; congruence.
      * destruct (decide (from `suffix_of` q)) as [[t' ->]|Hs].
        -- rewrite reroot_app. apply (reroot_app from to (m :: t')).
        -- rewrite !reroot_other; [reflexivity|exact Hs|]. rewrite suffix_cons_iff. intros [E|?]; [|tauto].
           apply Hjx. rewrite <- E, from_loc in Hl. congruence.
Qed.

Lemma move_view fs :
  (forall q, fs !! q = view s q) ->
  (forall q j, q <> to -> loc (nodes s) q = Some j -> shows (nodes s') j = shows (nodes s) j) ->
  forall q', a_move fs from to !! q' = view s' q'.
Proof.
  intros Hv Hsh q'. set (fs0 := base.delete to fs).
  assert (Hin : forall q a, (q, a) ∈ map_to_list fs0 <-> q <> to /\ view s q = Some a).
  { intros q a. rewrite elem_of_map_to_list. unfold fs0. rewrite lookup_delete_Some, Hv. intuition congruence. }
  assert (Hloc : forall q a, view s q = Some a -> exists j, loc (nodes s) q = Some j).
  { intros q a H. unfold view in H. destruct (loc (nodes s) q); [eauto|discriminate]. }
  assert (Hnd : NoDup (map (fun kv => (reroot from to kv.1, kv.2)) (map_to_list fs0)).*1).
  { rewrite <- list_fmap_compose. apply NoDup_fmap_2_strong; [|apply NoDup_map_to_list].
    intros [q1 a1] [q2 a2] H1 H2 E. simpl in E. apply Hin in H1 as [N1 V1], H2 as [N2 V2].
    destruct (Hloc _ _ V1) as [j1 L1], (Hloc _ _ V2) as [j2 L2].
    assert (j1 = j2) as <-.
    { pose proof (moved_to q1 j1 N1 L1) as M1. rewrite E, (moved_to q2 j2 N2 L2) in M1. congruence. }
    assert (q1 = q2) as -> by (eapply loc_inj; eassumption). congruence. }
  apply option_eq. intros a. unfold a_move. fold fs0. rewrite <- elem_of_list_to_map by exact Hnd.
  change (map ?f ?l) with (f <$> l). rewrite list_elem_of_fmap. split.
  - intros ([q b] & [= -> ->] & H). apply Hin in H as [N V]. destruct (Hloc _ _ V) as [j L].
    unfold view in *. rewrite L in V. rewrite (moved_to q j N L), (Hsh q j N L). exact V.
  - intros V. unfold view in V. destruct (loc (nodes s') q') as [j|] eqn:L'; [|discriminate].
    destruct (moved_from q' j L') as (q & N & L & <-). exists (q, a). split; [reflexivity|].
    apply Hin. split; [exact N|]. unfold view. rewrite L, <- (Hsh q j N L). exact V.
Qed.

Lemma loc_above q t' j : loc (nodes s) (t' ++ q) = Some j -> exists i, loc (nodes s) q = Some i.
Proof.
  revert j. induction t' as [|m t' IH]; intros j H; [eauto|]. apply loc_cons_inv in H as (a & Ha & _). eauto.
Qed.

Lemma nothing_below_to t' j : t' <> [] -> loc (nodes s) (t' ++ to) = Some j -> False.
Proof.
  destruct t' as [|m t' _] using rev_ind; [congruence|]. intros _ H. rewrite <- app_assoc in H. simpl in H.
  destruct (loc_above _ _ _ H) as [c Hc]. apply loc_cons_inv in Hc as (e & Hl & He).
  exact (not_at_to to m e c Hl He eq_refl).
Qed.

Lemma from_not_to t' : t' ++ from <> to.
Proof.
  intros E. destruct t' as [|m t']; [exact (Hne E)|]. injection E as _ E. apply pp_not_below. exists t'. congruence.
Qed.

Lemma to_not_above_from t' : t' ++ to <> from.
Proof.
  intros E. destruct t' as [|m t']; [apply Hne; symmetry; exact E|].
  apply (nothing_below_to (m :: t') x); [discriminate|]. rewrite E. exact from_loc.
Qed.

(** Where everything is after the move. *)
Lemma loc_moved :
  (forall t', loc (nodes s') (t' ++ to) = loc (nodes s) (t' ++ from)) /\
  (forall q, from `suffix_of` q -> loc (nodes s') q = None) /\
  (forall q, ~ from `suffix_of` q -> ~ to `suffix_of` q -> loc (nodes s') q = loc (nodes s) q).
Proof.
  split_and!.
  - intros t'. destruct (loc (nodes s) (t' ++ from)) as [j|] eqn:E; [apply moved_below, E|].
    destruct (loc (nodes s') (t' ++ to)) as [j|] eqn:E'; [|reflexivity].
    destruct (moved_from _ j E') as (q & Hq & Hl & Hre).
    destruct (decide (from `suffix_of` q)) as [[u ->]|Hs].
    + rewrite reroot_app in Hre. apply app_inv_tail in Hre as ->. congruence.
    + rewrite reroot_other in Hre by exact Hs. subst q. exfalso.
      apply (nothing_below_to t' j); [|exact Hl]. intros ->. apply Hq. reflexivity.
  - intros q [u ->]. destruct (loc (nodes s') (u ++ from)) as [j|] eqn:E'; [|reflexivity].
    destruct (moved_from _ j E') as (q & Hq & Hl & Hre).
    destruct (decide (from `suffix_of` q)) as [[w ->]|Hs].
    + rewrite reroot_app in Hre. exfalso.
      destruct (app_eq_inv _ _ _ _ Hre) as [(k & _ & H)|(k & _ & H)];
        [exact (to_not_above_from k (eq_sym H))|exact (from_not_to k (eq_sym H))].
    + rewrite reroot_other in Hre by exact Hs. subst q. destruct Hs. exists u. reflexivity.
  - intros q Hf Ht. destruct (loc (nodes s) q) as [j|] eqn:E.
    + apply moved_elsewhere; [|exact Hf|exact E]. intros ->. apply Ht. exists []. reflexivity.
    + destruct (loc (nodes s') q) as [j|] eqn:E'; [|reflexivity].
      destruct (moved_from _ j E') as (q0 & Hq & Hl & Hre).
      destruct (decide (from `suffix_of` q0)) as [[w ->]|Hs].
      * rewrite reroot_app in Hre. destruct Ht. exists w. congruence.
      * rewrite reroot_other in Hre by exact Hs. congruence.
Qed.

Lemma move_subtree :
  (forall q j, q <> to -> loc (nodes s) q = Some j -> shows (nodes s') j = shows (nodes s) j) ->
  subtree_moved s s' from to.
Proof.
  intros Hsh. destruct loc_moved as (H1 & H2 & H3). split_and!.
  - intros t'. unfold view. rewrite H1. destruct (loc (nodes s) (t' ++ from)) as [j|] eqn:E; [|reflexivity].
    exact (Hsh _ j (from_not_to t') E).
  - intros q Hq. unfold view. rewrite H2 by exact Hq. reflexivity.
  - intros q Hf Ht. unfold view. rewrite H3 by assumption.
    destruct (loc (nodes s) q) as [j|] eqn:E; [|reflexivity]. apply (Hsh q j); [|exact E].
    intros ->. apply Ht. exists []. reflexivity.
Qed.

Lemma move_refines fs :
  refines s fs -> wf s' ->
  (forall q j, q <> to -> loc (nodes s) q = Some j -> shows (nodes s') j = shows (nodes s) j) ->
  refines s' (a_move fs from to).
Proof.
  intros Hr Hwf' Hsh. pose proof (move_view fs (rf_view _ _ Hr) Hsh) as Hv.
  split; [exact Hwf'|exact Hv|]. intros q' data Hq. rewrite Hv in Hq. unfold view in Hq.
  destruct (loc (nodes s') q') as [j|] eqn:L'; [|discriminate].
  destruct (moved_from q' j L') as (q & N & L & _). apply (rf_sizes _ _ Hr q).
  rewrite (rf_view _ _ Hr). unfold view. rewrite L, <- (Hsh q j N L). exact Hq.
Qed.

End Move.

Lemma relink_shows m op on np nn x j : shows (relink m op on np nn x) j = shows m j.
Proof.
  assert (H : forall k, shows (update_dir (update_dir m op (base.delete on)) np (fun es => <[nn := x]> es)) k
              = shows m k) by (intros; rewrite !update_dir_shows; reflexivity).
  unfold relink. destruct (_ !! x) as [ch|] eqn:E; [|apply H]. rewrite <- H. unfold shows.
  destruct (decide (j = x)) as [->|Hne]; [rewrite lookup_insert_eq, E; reflexivity|].
  rewrite lookup_insert_ne by congruence. reflexivity.
Qed.

Lemma delete_shows m e j : j <> e -> shows (base.delete e m) j = shows m j.
Proof. intros H. unfold shows. rewrite lookup_delete_ne by congruence. reflexivity. Qed.

Lemma dir_shows m i : dir_at m i = match shows m i with Some a => is_adir a | None => false end.
Proof. unfold dir_at, shows. destruct (m !! i) as [nd|]; [|reflexivity]. simpl. destruct (kind nd); reflexivity. Qed.

(** A directory with nothing in it, or a node that is none, has no entries. *)
Lemma shows_leaf s fs q e a :
  refines s fs -> loc (nodes s) q = Some e -> shows (nodes s) e = Some a ->
  (is_adir a = true -> a_empty fs q = true) -> forall m c, ~ edge (nodes s) e m c.
Proof.
  intros Hr Hl Hs Hemp. unfold shows in Hs. destruct (nodes s !! e) as [nd|] eqn:E; [|discriminate].
  injection Hs as <-. destruct (kind nd) as [d|es|t] eqn:K.
  - apply (file_leaf _ _ nd E). rewrite K. reflexivity.
  - apply (empty_dir_leaf _ _ nd E). rewrite (empty_refines s fs q e nd es Hr Hl E K) in Hemp.
    specialize (Hemp eq_refl). apply bool_decide_eq_true in Hemp. congruence.
  - apply (file_leaf _ _ nd E). rewrite K. reflexivity.
Qed.

Lemma rename_refines s fs p i n pp ip nn :
  refines s fs -> loc (nodes s) p = Some i -> loc (nodes s) pp = Some ip ->
  exists r s', rename s i n ip nn = Some (r, s') /\ next_inode s' = next_inode s /\
  (let (r', fs') := a_rename fs p n pp nn in r = r' /\ refines s' fs') /\
  (r = Ok tt -> n :: p <> nn :: pp -> subtree_moved s s' (n :: p) (nn :: pp)).
Proof.
  intros Hr Hi Hpp. pose proof (rf_wf _ _ Hr) as Hwf. unfold rename, a_rename.
  assert (Hstay : forall e : FsError, exists r s', Some (Err e : FsResult unit, s) = Some (r, s') /\
    next_inode s' = next_inode s /\ (r = Err e /\ refines s' fs) /\
    (r = Ok tt -> n :: p <> nn :: pp -> subtree_moved s s' (n :: p) (nn :: pp))).
  { intros e. exists (Err e), s. split_and!; [reflexivity..|exact Hr|discriminate]. }
  destruct (validate_name nn) as [[]|e] eqn:Hv; [|apply Hstay].
  pose proof (entry_refines s fs p i n Hr Hi) as Hent.
  destruct (find_entry s i n) as [x|e], (a_entry fs p n) as [a|e']; try contradiction; [|subst e'; apply Hstay].
  destruct Hent as (Hx & Hlx & _ & Hsx). rewrite (dir_shows _ x), Hsx.
  destruct (refines_at s fs pp ip Hr Hpp) as (npd & Enp & Efnp). rewrite Efnp.
  assert (Hnp : dir_at (nodes s) ip = bool_decide (Some (anode (kind npd)) = Some ADir)).
  { unfold dir_at. rewrite Enp. destruct (kind npd); reflexivity. }
  rewrite Hnp. case_bool_decide as Hd; simpl negb; cbv iota; [|apply Hstay].
  destruct (move_guard s i n x ip Hwf Hx Hnp) as (rg & Eg & Hg).
  rewrite dir_shows, Hsx in Eg. rewrite Eg.
  pose proof (avoiding_suffix s (n :: p) x pp ip Hwf Hlx Hpp) as Hsuf.
  destruct rg as [[]|eg].
  2:{ destruct Hg as [-> Hg]. destruct (is_adir a); [|discriminate].
      rewrite bool_decide_eq_true_2; [apply Hstay|]. destruct (decide (n :: p `suffix_of` pp)); tauto. }
  rewrite (bool_decide_eq_false_2 _ (proj1 Hsuf Hg)), andb_false_r.
  assert (Hmoved : forall s', wf s' -> renamed s s' i n ip nn x -> n :: p <> nn :: pp ->
    (forall e m c, entry_at (nodes s) ip nn = Some e -> ~ edge (nodes s) e m c) ->
    (forall q j, q <> nn :: pp -> loc (nodes s) q = Some j -> shows (nodes s') j = shows (nodes s) j) ->
    ((Ok tt : FsResult unit) = Ok tt /\ refines s' (a_move fs (n :: p) (nn :: pp))) /\
    ((Ok tt : FsResult unit) = Ok tt -> n :: p <> nn :: pp -> subtree_moved s s' (n :: p) (nn :: pp))).
  { intros s' Hwf' Hren Hne Hleaf Hsh. pose proof (rn_edges _ _ _ _ _ _ _ Hren) as Hed.
    split; [split; [reflexivity|]|intros _ _].
    - exact (move_refines s s' Hwf i ip x n nn p pp Hi Hpp Hx Hg Hed Hne Hleaf fs Hr Hwf' Hsh).
    - exact (move_subtree s s' Hwf i ip x n nn p pp Hi Hpp Hx Hg Hed Hne Hleaf Hsh). }
  rewrite (refines_entry s fs pp ip nn Hr Hpp).
  destruct (entry_at (nodes s) ip nn) as [e|] eqn:He.
  2:{ destruct (rename_free s i n x ip nn Hwf Hx Hnp Hv Hg He) as [Hwf' Hren].
      eexists _, _. split; [reflexivity|]. split; [reflexivity|]. apply Hmoved; [exact Hwf'|exact Hren| | |].
      - intros E. assert (Hl : loc (nodes s) (nn :: pp) = Some x) by (rewrite <- E; exact Hlx).
        simpl in Hl. rewrite Hpp, He in Hl. discriminate.
      - intros e m c H. discriminate.
      - intros q j _ _. apply relink_shows. }
  pose proof (loc_cons _ _ _ _ _ Hpp He) as Hle.
  destruct (entry_some s ip nn e Hwf He) as [ed Eed].
  assert (Hse : shows (nodes s) e = Some (anode (kind ed))) by (unfold shows; rewrite Eed; reflexivity).
  rewrite Hse. set (dst := anode (kind ed)) in *.
  assert (Hsame : e = x <-> nn :: pp = n :: p).
  { split; [intros ->; eapply loc_inj; eassumption|intros E; rewrite E in Hle; congruence]. }
  destruct (Z.eqb_spec e x) as [Ex|Hex].
  { rewrite bool_decide_eq_true_2 by tauto. eexists _, s. split_and!; [reflexivity..|exact Hr|].
    intros _ Hne. destruct Hne. symmetry. apply Hsame, Ex. }
  rewrite (bool_decide_eq_false_2 (nn :: pp = n :: p)) by tauto.
  rewrite (dir_shows _ e), Hse. destruct (negb (Bool.eqb (is_adir a) (is_adir dst))); [apply Hstay|].
  assert (Hfull : (match nodes s !! e with
      | Some n0 => match kind n0 with KDirectory entries => negb (bool_decide (entries = ∅)) | _ => false end
      | None => false end) = is_adir dst && negb (a_empty fs (nn :: pp))).
  { rewrite Eed. unfold dst. destruct (kind ed) as [d|es|t] eqn:K; simpl; try reflexivity.
    rewrite (empty_refines s fs (nn :: pp) e ed es Hr Hle Eed K). reflexivity. }
  rewrite Hfull, andb_assoc, andb_diag. destruct (is_adir dst && negb (a_empty fs (nn :: pp))) eqn:Hne; [apply Hstay|].
  assert (Hleaf : forall m c, ~ edge (nodes s) e m c).
  { apply (shows_leaf s fs (nn :: pp) e dst Hr Hle Hse). intros Hd'. rewrite Hd' in Hne.
    destruct (a_empty fs (nn :: pp)); [reflexivity|discriminate]. }
  destruct (rename_replace s i n x ip nn e Hwf Hx Hnp Hv Hg He Hex Hleaf) as [Hwf' Hren].
  eexists _, _. split; [reflexivity|]. split; [reflexivity|]. apply Hmoved; [exact Hwf'|exact Hren| | |].
  - intros E. apply Hex, Hsame. congruence.
  - intros e' m c He'. assert (e' = e) as -> by congruence. apply Hleaf.
  - intros q j Hq Hj. cbn [nodes]. rewrite relink_shows, update_dir_shows. apply delete_shows.
    intros ->. apply Hq. exact (loc_inj s _ _ _ Hwf Hj Hle).
Qed.

(** ** The VFS over a ramfs *)

#[local] Abbreviation RVfs := (Vfs.Vfs Inner).

(** One ramfs, mounted at the root, that implements [fs]. *)
Record serves (v : RVfs) (h : Z) (fs : AFs) : Prop := {
  sv_mounts : Vfs.mounts v = [Vfs.mkMount "/" h];
  sv_refines : refines (Vfs.fss v h) fs
}.

Lemma serves_set v h fs s' fs' : serves v h fs -> refines s' fs' -> serves (Vfs.set_fs v h s') h fs'.
Proof. intros [Hm _] Hr. split; [exact Hm|]. rewrite Vfs.set_fs_same. exact Hr. Qed.

Lemma resolve_refines v h fs s : serves v h fs ->
  match Vfs.resolve v s, a_resolve fs s with
  | Ok (h', i), Ok p => h' = h /\ loc (nodes (Vfs.fss v h)) p = Some i
  | Err e, Err e' => e = e'
  | _, _ => False
  end.
Proof.
  intros [Hm Hr]. unfold a_resolve. destruct (Vfs.starts_slash s) eqn:Hs.
  - rewrite (Vfs.resolve_root v h s Hm Hs).
    pose proof (walk_refines (Vfs.fss v h) fs (Vfs.comps s) Hr [] ROOT_INODE eq_refl) as H.
    change (root_inode (Vfs.fss v h)) with ROOT_INODE.
    destruct (Vfs.walk _ _ _), (a_walk _ _ _); simpl in H; try contradiction; auto.
  - unfold Vfs.resolve. rewrite Hs. reflexivity.
Qed.

(** The operations on the directory of a path. *)
Lemma at_parent_refines {A B : Type} v h fs s (f : Inner -> Z -> string -> FsResult A * Inner)
    (g : path -> string -> FsResult B * AFs) (bound : Z) :
  serves v h fs -> next_inode (Vfs.fss v h) <= bound ->
  (forall p i n, loc (nodes (Vfs.fss v h)) p = Some i ->
     let (r, s') := f (Vfs.fss v h) i n in
     let (r', fs') := g p n in
     done r = done r' /\ refines s' fs' /\ next_inode s' <= bound) ->
  let (r, v') := Vfs.at_parent v s f in
  let (r', fs') := a_at fs s g in
  done r = r' /\ serves v' h fs' /\ next_inode (Vfs.fss v' h) <= bound.
Proof.
  intros Hsv Hb Hf. unfold Vfs.at_parent, a_at, a_parent.
  destruct (Vfs.split_parent s) as [[pp n]|e]; [|auto].
  pose proof (resolve_refines v h fs pp Hsv) as H.
  destruct (Vfs.resolve v pp) as [[h' i]|e], (a_resolve fs pp) as [p|e']; try contradiction; [|subst; auto].
  destruct H as [-> Hi]. specialize (Hf p i n Hi).
  destruct (f (Vfs.fss v h) i n) as [r s'], (g p n) as [r' fs']. destruct Hf as (H1 & H2 & H3).
  split_and!; [exact H1|eapply serves_set; eassumption|rewrite Vfs.set_fs_same; exact H3].
Qed.

Lemma same_place_done s r r' : same_place s r r' -> done r = done r'.
Proof. destruct r, r'; simpl; try contradiction; congruence. Qed.

(** [open] finds or makes the file, then cuts it if asked to. *)
Lemma open_refines v h fs s flags :
  serves v h fs -> next_inode (Vfs.fss v h) <> u64_max ->
  exists r v', Vfs.open v s flags = Ret (r, v') /\ next_inode (Vfs.fss v' h) <= next_inode (Vfs.fss v h) + 1 /\
  let (r', fs') := a_open fs s flags in
  serves v' h fs' /\
  match r, r' with
  | Ok fl, Ok q => Vfs.f_fs fl = h /\ loc (nodes (Vfs.fss v' h)) q = Some (Vfs.f_inode fl) /\
      Vfs.f_flags fl = flags
  | Err e, Err e' => e = e'
  | _, _ => False
  end.
Proof.
  intros Hsv Hmax. set (b := next_inode (Vfs.fss v h) + 1).
  assert (Ht : let (r, v') := Vfs.open_target v s flags in
    let (r', fs') := a_target fs s flags in
    serves v' h fs' /\ next_inode (Vfs.fss v' h) <= b /\
    match r, r' with
    | Ok (h', i), Ok q => h' = h /\ loc (nodes (Vfs.fss v' h)) q = Some i
    | Err e, Err e' => e = e'
    | _, _ => False
    end).
  { unfold Vfs.open_target, a_target. pose proof (resolve_refines v h fs s Hsv) as H.
    assert (Hb : next_inode (Vfs.fss v h) <= b) by (unfold b; lia).
    destruct (Vfs.resolve v s) as [[h' i]|e], (a_resolve fs s) as [q|e']; try contradiction.
    - destruct (_ && _); auto.
    - subst e'. destruct e; auto. destruct (of_create flags); [|auto]. unfold a_parent.
      destruct (Vfs.split_parent s) as [[pp n]|e]; [|auto].
      pose proof (resolve_refines v h fs pp Hsv) as H.
      destruct (Vfs.resolve v pp) as [[h' i]|e], (a_resolve fs pp) as [p|e']; try contradiction; [|subst; auto].
      destruct H as [-> Hi].
      pose proof (create_refines _ fs p i n Regular 420 (sv_refines _ _ _ Hsv) Hi Hmax) as H.
      change (fs_create (Vfs.fss v h) i n Regular 420) with (create (Vfs.fss v h) i n Regular 420).
      destruct (create (Vfs.fss v h) i n Regular 420) as [r s'], (a_create fs p n Regular) as [r' fs'].
      destruct H as (H1 & H2 & H3). pose proof (serves_set v h fs s' fs' Hsv H2) as Hsv'.
      destruct r, r'; simpl in H1; try contradiction; rewrite ?Vfs.set_fs_same; auto. }
  unfold Vfs.open, a_open.
  destruct (Vfs.open_target v s flags) as [r v'], (a_target fs s flags) as [r' fs'].
  destruct Ht as (Hsv' & Hb & Hr). destruct r as [[h' i]|e], r' as [q|e']; try contradiction.
  2:{ eexists _, v'. split_and!; [reflexivity|exact Hb|exact Hsv'|exact Hr]. }
  destruct Hr as [-> Hi].
  assert (Hend : forall v2 fs2, serves v2 h fs2 -> next_inode (Vfs.fss v2 h) <= b ->
    loc (nodes (Vfs.fss v2 h)) q = Some i ->
    exists r v3, (if of_append flags then
        match fs_metadata (Vfs.fss v2 h) i with
        | Err e => Ret (Err e, v2)
        | Ok md => Ret (Ok (Vfs.mkFile h i (md_size md) flags), v2)
        end else Ret (Ok (Vfs.mkFile h i 0 flags), v2)) = Ret (r, v3) /\
      next_inode (Vfs.fss v3 h) <= b /\ serves v3 h fs2 /\
      exists fl, r = Ok fl /\ Vfs.f_fs fl = h /\ loc (nodes (Vfs.fss v3 h)) q = Some (Vfs.f_inode fl) /\
        Vfs.f_flags fl = flags).
  { intros v2 fs2 Hsv2 Hb2 Hi2. destruct (of_append flags).
    - destruct (loc_some _ q i (rf_wf _ _ (sv_refines _ _ _ Hsv2)) Hi2) as [nd E].
      simpl. unfold metadata. rewrite E. eexists _, _. split_and!; [reflexivity|assumption..|].
      eexists. split_and!; [reflexivity..|exact Hi2|reflexivity].
    - eexists _, _. split_and!; [reflexivity|assumption..|].
      eexists. split_and!; [reflexivity..|exact Hi2|reflexivity]. }
  destruct (of_truncate flags && of_write flags).
  - destruct (truncate_refines _ fs' q i (sv_refines _ _ _ Hsv') Hi) as (r & s' & E & Hn & Ht).
    change (fs_truncate (Vfs.fss v' h) i 0) with (truncate (Vfs.fss v' h) i 0). rewrite E.
    destruct (a_truncate fs' q) as [r' fs''] eqn:Ea. destruct Ht as [<- Ht].
    pose proof (serves_set v' h fs' s' fs'' Hsv' Ht) as Hsv''. destruct r as [u|e].
    + assert (Hi' : loc (nodes s') q = Some i).
      { pose proof (truncate_keeps_loc _ i 0 _ s' q E) as H. congruence. }
      destruct (Hend _ _ Hsv'') as (r & v3 & E3 & H1 & H2 & fl & -> & H3);
        [rewrite Vfs.set_fs_same; lia|rewrite Vfs.set_fs_same; exact Hi'|].
      eexists _, _. split_and!; [exact E3|exact H1|exact H2|apply H3..].
    + eexists _, _. split_and!; [reflexivity|rewrite Vfs.set_fs_same; lia|exact Hsv''|reflexivity].
  - destruct (Hend v' fs' Hsv' Hb Hi) as (r & v3 & E3 & H1 & H2 & fl & -> & H3).
    eexists _, _. split_and!; [exact E3|exact H1|exact H2|apply H3..].
Qed.

(** The arguments a call can have: offsets of [u64], and no write past the
    largest buffer Rust allocates, which would panic. *)
Definition fits (c : call) : Prop :=
  match c with
  | Read _ off _ => 0 <= off
  | Write _ off buf => 0 <= off /\ off + Z.of_nat (List.length buf) <= isize_max
  | _ => True
  end.

Lemma a_open_plain fs s flags :
  of_create flags = false -> of_truncate flags = false ->
  a_open fs s flags = (a_resolve fs s, fs).
Proof.
  intros Hc Ht. unfold a_open, a_target. rewrite Hc, Ht, andb_false_r.
  destruct (a_resolve fs s) as [q|[]]; reflexivity.
Qed.

Lemma stat_refines v h fs s : serves v h fs ->
  (try md := Vfs.metadata v s in Ok (seen md)) = a_stat fs s.
Proof.
  intros Hsv. unfold Vfs.metadata, a_stat. pose proof (resolve_refines v h fs s Hsv) as H.
  destruct (Vfs.resolve v s) as [[h' i]|e], (a_resolve fs s) as [q|e']; try contradiction; [|congruence].
  destruct H as [-> Hi]. destruct (refines_at _ _ q i (sv_refines _ _ _ Hsv) Hi) as (nd & E & ->).
  change (fs_metadata (Vfs.fss v h) i) with (metadata (Vfs.fss v h) i). unfold metadata. rewrite E.
  unfold seen, a_seen. destruct (kind nd); reflexivity.
Qed.

Lemma call_refines v h fs c :
  serves v h fs -> fits c -> next_inode (Vfs.fss v h) <> u64_max ->
  exists v', run_call v c = Some (fst (a_call fs c), v') /\ serves v' h (snd (a_call fs c)) /\
    next_inode (Vfs.fss v' h) <= next_inode (Vfs.fss v h) + 1.
Proof.
  intros Hsv Hfit Hmax. pose proof (sv_refines _ _ _ Hsv) as Hr.
  set (b := next_inode (Vfs.fss v h) + 1). assert (Hb : next_inode (Vfs.fss v h) <= b) by (unfold b; lia).
  destruct c as [s mode|s|s|s s2|s flags|s off buf|s off buf|s]; simpl run_call; simpl a_call.
  - pose proof (at_parent_refines v h fs s (fun f p name => fs_create f p name Directory mode)
      (fun p n => a_create fs p n Directory) b Hsv Hb) as H. unfold Vfs.mkdir.
    destruct (Vfs.at_parent v s _) as [r v'], (a_at fs s _) as [r' fs'].
    destruct H as (H1 & H2 & H3).
    { intros p i n Hi. pose proof (create_refines _ fs p i n Directory mode Hr Hi Hmax) as H.
      change (fs_create (Vfs.fss v h) i n Directory mode) with (create (Vfs.fss v h) i n Directory mode).
      destruct (create _ _ _ _ _), (a_create _ _ _ _). destruct H as (H1 & H2 & H3).
      split_and!; [eapply same_place_done, H1|exact H2|exact H3]. }
    exists v'. destruct r; simpl in *; subst; auto.
  - pose proof (at_parent_refines v h fs s fs_unlink (a_unlink fs) b Hsv Hb) as H. unfold Vfs.unlink.
    destruct (Vfs.at_parent v s _) as [r v'], (a_at fs s _) as [r' fs'].
    destruct H as (H1 & H2 & H3).
    { intros p i n Hi. pose proof (unlink_refines _ fs p i n Hr Hi) as H.
      change (fs_unlink (Vfs.fss v h) i n) with (unlink (Vfs.fss v h) i n).
      destruct (unlink _ _ _), (a_unlink _ _ _). destruct H as (-> & H2 & H3). split_and!; auto. lia. }
    exists v'. destruct r as [[]|]; simpl in *; subst; auto.
  - pose proof (at_parent_refines v h fs s fs_rmdir (a_rmdir fs) b Hsv Hb) as H. unfold Vfs.rmdir.
    destruct (Vfs.at_parent v s _) as [r v'], (a_at fs s _) as [r' fs'].
    destruct H as (H1 & H2 & H3).
    { intros p i n Hi. pose proof (rmdir_refines _ fs p i n Hr Hi) as H.
      change (fs_rmdir (Vfs.fss v h) i n) with (rmdir (Vfs.fss v h) i n).
      destruct (rmdir _ _ _), (a_rmdir _ _ _). destruct H as (-> & H2 & H3). split_and!; auto. lia. }
    exists v'. destruct r as [[]|]; simpl in *; subst; auto.
  - unfold Vfs.rename. destruct (Vfs.split_parent s) as [[sp n]|e]; [|eauto].
    destruct (Vfs.split_parent s2) as [[sp2 n2]|e]; [|eauto].
    pose proof (resolve_refines v h fs sp Hsv) as H1. pose proof (resolve_refines v h fs sp2 Hsv) as H2.
    destruct (Vfs.resolve v sp) as [[h1 i1]|e1], (a_resolve fs sp) as [p1|e1']; try contradiction; [|subst; eauto].
    destruct (Vfs.resolve v sp2) as [[h2 i2]|e2], (a_resolve fs sp2) as [p2|e2']; try contradiction; [|subst; eauto].
    destruct H1 as [-> Hi1], H2 as [-> Hi2]. rewrite Z.eqb_refl. simpl negb. cbv iota.
    destruct (rename_refines _ fs p1 i1 n p2 i2 n2 Hr Hi1 Hi2) as (r & s' & E & Hn & H & _).
    change (fs_rename (Vfs.fss v h) i1 n i2 n2) with (rename (Vfs.fss v h) i1 n i2 n2). rewrite E.
    destruct (a_rename fs p1 n p2 n2) as [r' fs']. destruct H as [<- H].
    eexists. split_and!; [reflexivity|eapply serves_set; eassumption|rewrite Vfs.set_fs_same; lia].
  - destruct (open_refines v h fs s flags Hsv Hmax) as (r & v' & -> & Hn & H).
    destruct (a_open fs s flags) as [r' fs']. destruct H as (Hsv' & H). exists v'.
    destruct r, r'; try contradiction; simpl; subst; auto.
  - destruct (open_refines v h fs s read_only Hsv Hmax) as (r & v' & -> & Hn & H).
    rewrite a_open_plain in H by reflexivity. destruct H as (Hsv' & H). exists v'.
    destruct r as [fl|e], (a_resolve fs s) as [q|e']; try contradiction; [|subst; auto].
    destruct H as (Hf & Hi & Hfl). unfold Vfs.file_read_at. rewrite Hfl, Hf. simpl.
    split_and!; [do 3 f_equal|exact Hsv'|exact Hn].
    apply (read_refines _ fs q _ off buf (sv_refines _ _ _ Hsv') Hi Hfit).
  - destruct (open_refines v h fs s write_only Hsv Hmax) as (r & v' & -> & Hn & H).
    rewrite a_open_plain in H by reflexivity. destruct H as (Hsv' & H).
    destruct r as [fl|e], (a_resolve fs s) as [q|e']; try contradiction; [|subst; eauto].
    destruct H as (Hf & Hi & Hfl). unfold Vfs.file_write_at. rewrite Hfl, Hf. simpl.
    destruct Hfit as [Ho Hfit].
    destruct (write_refines _ fs q _ off buf (sv_refines _ _ _ Hsv') Hi Ho Hfit) as (r & s' & E & Hn' & H).
    rewrite E. destruct (a_write fs q off buf) as [r' fs']. destruct H as [<- H].
    eexists. split_and!; [reflexivity|eapply serves_set; eassumption|rewrite Vfs.set_fs_same; lia].
  - exists v. split_and!; [do 2 f_equal; exact (f_equal RStat (stat_refines v h fs s Hsv))|exact Hsv|exact Hb].
Qed.

(** ** Properties *)

Fixpoint run_calls (v : RVfs) (cs : list call) : option (list reply * RVfs) :=
  match cs with
  | [] => Some ([], v)
  | c :: cs' =>
      match run_call v c with
      | None => None
      | Some (r, v') =>
          match run_calls v' cs' with Some (rs, v'') => Some (r :: rs, v'') | None => None end
      end
  end.

Fixpoint a_calls (fs : AFs) (cs : list call) : list reply * AFs :=
  match cs with
  | [] => ([], fs)
  | c :: cs' =>
      let (r, fs') := a_call fs c in
      let (rs, fs'') := a_calls fs' cs' in (r :: rs, fs'')
  end.

(** C7. The VFS over a ramfs is an abstract file system: for every sequence of
    calls, whatever their paths ("." and ".." included), every call returns, and
    every reply, each error code and each byte read included, is the one given by
    a finite map from paths to files, directories and links on which making,
    removing and moving are plain map operations; and the VFS goes on implementing
    that map. *)
Theorem vfs_implements_path_map cs v h fs :
  serves v h fs -> Forall fits cs ->
  next_inode (Vfs.fss v h) + Z.of_nat (List.length cs) <= u64_max ->
  exists v', run_calls v cs = Some (fst (a_calls fs cs), v') /\ serves v' h (snd (a_calls fs cs)).
Proof.
  revert v fs. induction cs as [|c cs IH]; intros v fs Hsv Hfit Hmax; [simpl; eauto|].
  inversion Hfit as [|? ? Hc Hcs]; subst. simpl List.length in Hmax.
  destruct (call_refines v h fs c Hsv Hc) as (v1 & E1 & Hsv1 & Hn); [lia|]. simpl. rewrite E1.
  destruct (a_call fs c) as [r fs1]. simpl in Hsv1.
  destruct (IH v1 fs1 Hsv1 Hcs) as (v2 & E2 & Hsv2); [lia|]. rewrite E2.
  destruct (a_calls fs1 cs) as [rs fs2]. simpl. eauto.
Qed.

(** A subtree moves as it is: after a successful rename of one path to
    another, everything that was below the old path is, unchanged, at the same
    place below the new one, nothing is left below the old path, and every path
    outside the two is as before. *)
Theorem rename_moves_subtree s fs p i n pp ip nn s' :
  refines s fs -> loc (nodes s) p = Some i -> loc (nodes s) pp = Some ip -> n :: p <> nn :: pp ->
  rename s i n ip nn = Some (Ok tt, s') ->
  (forall t, view s' (t ++ nn :: pp) = view s (t ++ n :: p)) /\
  (forall q, n :: p `suffix_of` q -> view s' q = None) /\
  (forall q, ~ n :: p `suffix_of` q -> ~ nn :: pp `suffix_of` q -> view s' q = view s q).
Proof.
  intros Hr Hi Hpp Hne E. destruct (rename_refines s fs p i n pp ip nn Hr Hi Hpp) as (r & s1 & E1 & _ & _ & H).
  rewrite E in E1. injection E1 as <- <-. exact (H eq_refl Hne).
Qed.

(** ** A concrete file system *)

(** The paths after bring-up. *)
Definition skeleton : AFs :=
  <[["tmp"%string] := ADir]> (<[["sys"%string] := ADir]> (<[["proc"%string] := ADir]>
    (<[["dev"%string] := ADir]> {[ [] := ADir ]}))).

Lemma new_refines : refines new {[ [] := ADir ]}.
Proof.
  split; [exact wf_new_ramfs|..].
  - intros q. assert (H : forall q, loc (nodes new) q = if decide (q = []) then Some ROOT_INODE else None).
    { intros p. induction p as [|n p IH]; [reflexivity|]. cbn [loc]. rewrite IH.
      destruct (decide (p = [])); reflexivity. }
    unfold view. rewrite H. destruct (decide (q = [])) as [->|Hq]; [reflexivity|].
    apply lookup_singleton_ne. congruence.
  - intros q data Hq. apply lookup_singleton_Some in Hq as [_ Hq]. discriminate.
Qed.

Lemma boot_serves fss0 : serves (Vfs.after_init fss0) 0 skeleton.
Proof.
  set (v0 := Vfs.mkVfs [Vfs.mkMount "/" 0] (fun x => if x =? 0 then new else fss0 x)).
  assert (H0 : serves v0 0 {[ [] := ADir ]}) by (split; [reflexivity|exact new_refines]).
  destruct (vfs_implements_path_map
    [Mkdir "/dev" 493; Mkdir "/proc" 365; Mkdir "/sys" 365; Mkdir "/tmp" 1023] v0 0 _ H0)
    as (v' & E & Hs); [repeat constructor|vm_compute; congruence|].
  assert (E' : run_calls v0 [Mkdir "/dev" 493; Mkdir "/proc" 365; Mkdir "/sys" 365; Mkdir "/tmp" 1023]
    = Some ([RUnit (Ok tt); RUnit (Ok tt); RUnit (Ok tt); RUnit (Ok tt)], Vfs.after_init fss0))
    by (vm_compute; reflexivity).
  assert (v' = Vfs.after_init fss0) as -> by congruence. exact Hs.
Qed.

(** A short session: make a directory and a file in it, write, move the directory
    and read the file at its new place. *)
Definition session : list call :=
  [Mkdir "/tmp/a" 493; Open "/tmp/a/f" (mkOpenFlags false true false true false false);
   Write "/tmp/./a/f" 2 [7; 8]; Rename "/tmp/a" "/dev/../b"; Read "/b/f" 0 [1; 1; 1; 1; 1];
   Rename "/b" "/b/c"; Rmdir "/b"; Stat "/tmp/a"; Stat "/b/f/g"].

Lemma vfs_implements_path_map_witness :
  exists v', run_calls (Vfs.after_init (fun _ => new)) session =
    Some ([RUnit (Ok tt); RUnit (Ok tt); RWrite (Ok 2); RUnit (Ok tt); RRead (Ok (4, [0; 0; 7; 8; 1]));
           RUnit (Err InvalidArgument); RUnit (Err NotEmpty); RStat (Err NotFound);
           RStat (Err NotADirectory)], v').
Proof.
  destruct (vfs_implements_path_map session (Vfs.after_init (fun _ => new)) 0 skeleton
    (boot_serves (fun _ => new))) as (v' & E & _).
  - repeat constructor; simpl; unfold isize_max; lia.
  - vm_compute. congruence.
  - exists v'. rewrite E. vm_compute. reflexivity.
Defined.

(** The ramfs after bring-up, and its /tmp moved to /dev/t. *)
Definition booted : Inner := Vfs.fss (Vfs.after_init (fun _ => new)) 0.
Definition booted_moved : Inner :=
  match rename booted 1 "tmp" 2 "t" with Some (_, s') => s' | None => new end.

Lemma rename_moves_subtree_witness :
  view booted_moved ["t"%string; "dev"%string] = Some ADir /\ view booted_moved ["tmp"%string] = None.
Proof.
  destruct (rename_moves_subtree booted skeleton [] 1 "tmp" ["dev"%string] 2 "t" booted_moved
    (sv_refines _ _ _ (boot_serves (fun _ => new)))) as (H1 & H2 & _).
  - reflexivity.
  - vm_compute. reflexivity.
  - discriminate.
  - vm_compute. reflexivity.
  - split; [apply (H1 [])|]. apply H2. exists []. reflexivity.
Defined.

End PathFs.
