(* ===== verification/Syscall.v ===== *)
(** The system-call boundary (src/src/syscall/): argument validation and the
    Tier 1 handlers, the dispatch table and the errno convention, the MSR
    programming, and the assembly trampoline between user mode and the
    dispatcher.  The VFS and process-manager hooks the handlers call are not part
    of the repository: they are parameters over an arbitrary world. *)

From Stdlib Require Import ZArith Lia.
From stdpp Require Import base list.
From S2P Require Import Prelude.

Open Scope Z_scope.

Module Syscall.

(** ** Errors *)

Inductive Errno :=
| EPERM | ENOENT | EINTR | EIO | EBADF | ECHILD | ENOMEM | EACCES | EFAULT | EBUSY | EEXIST
| ENOTDIR | EISDIR | EINVAL | ENFILE | EMFILE | ENOSYS.

(** [e as i64]. *)
Definition errno_value (e : Errno) : Z :=
  match e with
  | EPERM => 1 | ENOENT => 2 | EINTR => 4 | EIO => 5 | EBADF => 9 | ECHILD => 10 | ENOMEM => 12
  | EACCES => 13 | EFAULT => 14 | EBUSY => 16 | EEXIST => 17 | ENOTDIR => 20 | EISDIR => 21
  | EINVAL => 22 | ENFILE => 23 | EMFILE => 24 | ENOSYS => 38
  end.

(** [u64 as i64], [u64 as i32] and [u64 as u32]. *)
Definition as_i64 (x : Z) : Z := let y := x mod U64 in if y <? 2 ^ 63 then y else y - U64.
Definition as_i32 (x : Z) : Z := let y := x mod U32 in if y <? 2 ^ 31 then y else y - U32.
Definition as_u32 (x : Z) : Z := x mod U32.

(** ** Validation *)

Definition USER_VA_MAX : Z := 0x0000800000000000.

Definition validate_user_ptr (ptr len : Z) : result unit Errno :=
  if ptr =? 0 then Err EFAULT
  else
    try end_ := checked_add64 ptr len else EFAULT in
    if USER_VA_MAX <? end_ then Err EFAULT else Ok tt.

Definition validate_fd (raw : Z) : result Z Errno :=
  if i32_max <? raw then Err EBADF else Ok (as_i32 raw).

(** ** Handlers

    A handler returns to the dispatcher, or does not return at all. *)

Inductive control (A : Type) : Type :=
| Returns (a : A)
| NoReturn.
Arguments Returns {A} _.
Arguments NoReturn {A}.

(** The subsystem hooks, each present when its feature is enabled. *)
Record VfsHooks (W : Type) := mkVfsHooks {
  vfs_read : Z -> Z -> Z -> W -> result Z Errno * W;
  vfs_write : Z -> Z -> Z -> W -> result Z Errno * W;
  vfs_open : Z -> Z -> Z -> W -> result Z Errno * W;
  vfs_close : Z -> W -> result unit Errno * W
}.
Arguments vfs_read {W}.
Arguments vfs_write {W}.
Arguments vfs_open {W}.
Arguments vfs_close {W}.

(** A successful [execve] replaces the image and [exit] ends the task: neither
    comes back. *)
Record ProcHooks (W : Type) := mkProcHooks {
  proc_fork : W -> result Z Errno * W;
  proc_execve : Z -> Z -> Z -> W -> control Errno * W;
  proc_exit : Z -> W -> W
}.
Arguments proc_fork {W}.
Arguments proc_execve {W}.
Arguments proc_exit {W}.

Record Hooks (W : Type) := mkHooks {
  vfs : option (VfsHooks W);
  process : option (ProcHooks W)
}.
Arguments mkHooks {W}.
Arguments vfs {W}.
Arguments process {W}.

Definition SyscallResult : Type := result Z Errno.

Section Handlers.
Context {W : Type} (hk : Hooks W).

Definition Handler : Type := Z -> Z -> Z -> Z -> Z -> Z -> W -> control SyscallResult * W.

Definition fails (e : Errno) (w : W) : control SyscallResult * W := (Returns (Err e), w).

(** [r.map(|n| n as i64)]. *)
Definition mapped (rw : result Z Errno * W) : control SyscallResult * W :=
  match rw with
  | (Ok n, w) => (Returns (Ok (as_i64 n)), w)
  | (Err e, w) => (Returns (Err e), w)
  end.

Definition sys_read : Handler := fun fd buf count _ _ _ w =>
  match validate_fd fd with
  | Err e => fails e w
  | Ok fd =>
      match validate_user_ptr buf count with
      | Err e => fails e w
      | Ok _ =>
          match vfs hk with
          | Some v => mapped (vfs_read v fd buf count w)
          | None => fails ENOSYS w
          end
      end
  end.

Definition sys_write : Handler := fun fd buf count _ _ _ w =>
  match validate_fd fd with
  | Err e => fails e w
  | Ok fd =>
      match validate_user_ptr buf count with
      | Err e => fails e w
      | Ok _ =>
          match vfs hk with
          | Some v => mapped (vfs_write v fd buf count w)
          | None => fails ENOSYS w
          end
      end
  end.

Definition sys_open : Handler := fun path flags mode _ _ _ w =>
  match validate_user_ptr path 1 with
  | Err e => fails e w
  | Ok _ =>
      if i32_max <? flags then fails EINVAL w
      else
        match vfs hk with
        | Some v => mapped (vfs_open v path (as_i32 flags) (as_u32 mode) w)
        | None => fails ENOSYS w
        end
  end.

Definition sys_close : Handler := fun fd _ _ _ _ _ w =>
  match validate_fd fd with
  | Err e => fails e w
  | Ok fd =>
      match vfs hk with
      | Some v =>
          match vfs_close v fd w with
          | (Ok _, w) => (Returns (Ok 0), w)
          | (Err e, w) => (Returns (Err e), w)
          end
      | None => fails ENOSYS w
      end
  end.

Definition sys_fork : Handler := fun _ _ _ _ _ _ w =>
  match process hk with
  | Some p => mapped (proc_fork p w)
  | None => fails ENOSYS w
  end.

(** [argv] and [envp] may be null; otherwise one pointer must be addressable. *)
Definition optional_ptr (p : Z) : result unit Errno :=
  if p =? 0 then Ok tt else validate_user_ptr p 8.

Definition sys_execve : Handler := fun path argv envp _ _ _ w =>
  match validate_user_ptr path 1 with
  | Err e => fails e w
  | Ok _ =>
      match optional_ptr argv with
      | Err e => fails e w
      | Ok _ =>
          match optional_ptr envp with
          | Err e => fails e w
          | Ok _ =>
              match process hk with
              | Some p =>
                  match proc_execve p path argv envp w with
                  | (Returns e, w) => (Returns (Err e), w)
                  | (NoReturn, w) => (NoReturn, w)
                  end
              | None => fails ENOSYS w
              end
          end
      end
  end.

Definition sys_exit : Handler := fun status _ _ _ _ _ w =>
  match process hk with
  | Some p => (NoReturn, proc_exit p (as_i32 status) w)
  | None => fails ENOSYS w
  end.

(** ** Dispatch *)

Definition SYSCALL_TABLE_SIZE : nat := 512.

Definition READ : nat := 0.
Definition WRITE : nat := 1.
Definition OPEN : nat := 2.
Definition CLOSE : nat := 3.
Definition FORK : nat := 57.
Definition EXECVE : nat := 59.
Definition EXIT : nat := 60.

Definition enosys : Handler := fun _ _ _ _ _ _ w => fails ENOSYS w.

(** The table as linked, and after [init]. *)
Definition SYSCALL_TABLE : list Handler := replicate SYSCALL_TABLE_SIZE enosys.

Definition init (table : list Handler) : list Handler :=
  let table := <[READ := sys_read]> table in
  let table := <[WRITE := sys_write]> table in
  let table := <[OPEN := sys_open]> table in
  let table := <[CLOSE := sys_close]> table in
  let table := <[FORK := sys_fork]> table in
  let table := <[EXECVE := sys_execve]> table in
  <[EXIT := sys_exit]> table.

Definition syscall_dispatch (table : list Handler) (nr a0 a1 a2 a3 a4 a5 : Z) (w : W)
  : control Z * W :=
  let handler :=
    if nr <? Z.of_nat SYSCALL_TABLE_SIZE then default enosys (table !! Z.to_nat nr) else enosys in
  match handler a0 a1 a2 a3 a4 a5 w with
  | (Returns (Ok v), w) => (Returns v, w)
  | (Returns (Err e), w) => (Returns (- errno_value e), w)
  | (NoReturn, w) => (NoReturn, w)
  end.

End Handlers.

Arguments SYSCALL_TABLE : simpl never.

(** ** What the dispatcher does *)

(** The boundary flattens a handler's result exactly once. *)
Definition flatten {W} (r : control SyscallResult * W) : control Z * W :=
  match r with
  | (Returns (Ok v), w) => (Returns v, w)
  | (Returns (Err e), w) => (Returns (- errno_value e), w)
  | (NoReturn, w) => (NoReturn, w)
  end.

(** The handler of a number, by cases. *)
Definition handler_of {W} (hk : Hooks W) (nr : Z) : @Handler W :=
  if nr =? 0 then sys_read hk
  else if nr =? 1 then sys_write hk
  else if nr =? 2 then sys_open hk
  else if nr =? 3 then sys_close hk
  else if nr =? 57 then sys_fork hk
  else if nr =? 59 then sys_execve hk
  else if nr =? 60 then sys_exit hk
  else enosys.

Lemma table_lookup {W} (hk : Hooks W) nr :
  0 <= nr < Z.of_nat SYSCALL_TABLE_SIZE ->
  init hk SYSCALL_TABLE !! Z.to_nat nr = Some (handler_of hk nr).
Proof.
  intros Hn. unfold init, handler_of.
  assert (Hl : (Z.to_nat nr < SYSCALL_TABLE_SIZE)%nat) by lia.
  assert (Hlen : forall (l : list (@Handler W)) i x, length l = SYSCALL_TABLE_SIZE ->
    length (<[i := x]> l) = SYSCALL_TABLE_SIZE) by (intros; rewrite length_insert; assumption).
  assert (H0 : length (@SYSCALL_TABLE W) = SYSCALL_TABLE_SIZE) by apply length_replicate.
  assert (Hins : forall (l : list (@Handler W)) i x, length l = SYSCALL_TABLE_SIZE ->
    (i < SYSCALL_TABLE_SIZE)%nat ->
    <[i := x]> l !! Z.to_nat nr = if nr =? Z.of_nat i then Some x else l !! Z.to_nat nr).
  { intros l i x Hll Hi. destruct (Z.eqb_spec nr (Z.of_nat i)) as [->|Hne].
    - rewrite Nat2Z.id. apply list_lookup_insert_eq. lia.
    - apply list_lookup_insert_ne. lia. }
  rewrite !Hins by (auto 10; vm_compute; lia).
  change (Z.of_nat EXIT) with 60. change (Z.of_nat EXECVE) with 59. change (Z.of_nat FORK) with 57.
  change (Z.of_nat CLOSE) with 3. change (Z.of_nat OPEN) with 2. change (Z.of_nat WRITE) with 1.
  change (Z.of_nat READ) with 0.
  assert (Hd : @SYSCALL_TABLE W !! Z.to_nat nr = Some enosys) by (apply lookup_replicate_2; exact Hl).
  rewrite Hd.
  repeat match goal with |- context [nr =? ?k] => destruct (Z.eqb_spec nr k); [subst; reflexivity|] end.
  reflexivity.
Qed.

Lemma dispatch_spec {W} (hk : Hooks W) nr a0 a1 a2 a3 a4 a5 w :
  0 <= nr ->
  syscall_dispatch (init hk SYSCALL_TABLE) nr a0 a1 a2 a3 a4 a5 w =
  flatten (handler_of hk nr a0 a1 a2 a3 a4 a5 w).
Proof.
  intros Hn. unfold syscall_dispatch. destruct (Z.ltb_spec nr (Z.of_nat SYSCALL_TABLE_SIZE)) as [Hlt|Hge].
  - rewrite table_lookup by lia. reflexivity.
  - change (Z.of_nat SYSCALL_TABLE_SIZE) with 512 in Hge. unfold handler_of.
    rewrite !(proj2 (Z.eqb_neq nr _)) by lia. reflexivity.
Qed.

(** A non-null range of user memory. *)
Definition user_range (p len : Z) : Prop := 0 < p /\ 0 <= len /\ p + len <= USER_VA_MAX.

Lemma validate_user_ptr_ok p len :
  0 <= p -> 0 <= len -> (validate_user_ptr p len = Ok tt <-> user_range p len).
Proof.
  intros Hp Hl. unfold validate_user_ptr, checked_add64, user_range, USER_VA_MAX.
  destruct (Z.eqb_spec p 0) as [->|Hne]; [split; [discriminate|lia]|].
  destruct (Z.ltb_spec (p + len) U64).
  - destruct (Z.ltb_spec 0x0000800000000000 (p + len)); split; try discriminate; try lia; reflexivity.
  - split; [discriminate|word_lia].
Qed.

Lemma validate_user_ptr_err p len e : validate_user_ptr p len = Err e -> e = EFAULT.
Proof.
  unfold validate_user_ptr. destruct (p =? 0); [congruence|].
  destruct (checked_add64 p len); [|congruence]. destruct (USER_VA_MAX <? z); congruence.
Qed.

Lemma validate_fd_ok raw fd : 0 <= raw -> validate_fd raw = Ok fd -> fd = raw /\ 0 <= fd <= i32_max.
Proof.
  intros Hr. unfold validate_fd. destruct (Z.ltb_spec i32_max raw); [discriminate|]. intros [= <-].
  unfold as_i32, i32_max in *. rewrite Z.mod_small by word_lia.
  destruct (Z.ltb_spec raw (2 ^ 31)); lia.
Qed.

Lemma as_i32_small x : 0 <= x <= i32_max -> as_i32 x = x.
Proof.
  intros H. unfold as_i32, i32_max in *. rewrite Z.mod_small by word_lia.
  destruct (Z.ltb_spec x (2 ^ 31)); lia.
Qed.

Lemma as_i64_small x : 0 <= x < 2 ^ 63 -> as_i64 x = x.
Proof. intros H. unfold as_i64. rewrite Z.mod_small by word_lia. destruct (Z.ltb_spec x (2 ^ 63)); lia. Qed.

(** Two sets of hooks that agree on every argument a checked handler may pass. *)
Record agree {W} (h1 h2 : Hooks W) : Prop := {
  ag_vfs : match vfs h1, vfs h2 with
    | None, None => True
    | Some v1, Some v2 =>
        (forall fd buf n w, 0 <= fd <= i32_max -> user_range buf n ->
           vfs_read v1 fd buf n w = vfs_read v2 fd buf n w /\
           vfs_write v1 fd buf n w = vfs_write v2 fd buf n w) /\
        (forall p fl md w, user_range p 1 -> 0 <= fl <= i32_max -> 0 <= md < U32 ->
           vfs_open v1 p fl md w = vfs_open v2 p fl md w) /\
        (forall fd w, 0 <= fd <= i32_max -> vfs_close v1 fd w = vfs_close v2 fd w)
    | _, _ => False
    end;
  ag_process : match process h1, process h2 with
    | None, None => True
    | Some p1, Some p2 =>
        (forall w, proc_fork p1 w = proc_fork p2 w) /\
        (forall p a e w, user_range p 1 -> (a = 0 \/ user_range a 8) -> (e = 0 \/ user_range e 8) ->
           proc_execve p1 p a e w = proc_execve p2 p a e w) /\
        (forall st w, - 2 ^ 31 <= st <= i32_max -> proc_exit p1 st w = proc_exit p2 st w)
    | _, _ => False
    end
}.

Lemma as_i32_range x : - 2 ^ 31 <= as_i32 x <= i32_max.
Proof.
  unfold as_i32, i32_max. pose proof (Z.mod_pos_bound x U32 ltac:(reflexivity)).
  destruct (Z.ltb_spec (x mod U32) (2 ^ 31)); word_lia.
Qed.

Lemma optional_ptr_ok p : 0 <= p -> optional_ptr p = Ok tt -> p = 0 \/ user_range p 8.
Proof.
  intros Hp. unfold optional_ptr. destruct (Z.eqb_spec p 0); [auto|].
  intros H. right. apply validate_user_ptr_ok; [lia..|exact H].
Qed.

Section Agreement.
Context {W : Type} (h1 h2 : Hooks W) (Hag : agree h1 h2).

Lemma io_agree fd buf n a3 a4 a5 w :
  0 <= fd -> 0 <= buf -> 0 <= n ->
  sys_read h1 fd buf n a3 a4 a5 w = sys_read h2 fd buf n a3 a4 a5 w /\
  sys_write h1 fd buf n a3 a4 a5 w = sys_write h2 fd buf n a3 a4 a5 w.
Proof.
  intros H0 H1 H2. destruct Hag as [Hv _]. unfold sys_read, sys_write.
  destruct (validate_fd fd) as [fd'|e] eqn:Hfd; [|auto]. apply validate_fd_ok in Hfd as [-> Hr]; [|exact H0].
  destruct (validate_user_ptr buf n) as [[]|e] eqn:Hp; [|auto].
  apply validate_user_ptr_ok in Hp; [|assumption..].
  destruct (vfs h1), (vfs h2); try contradiction; [|auto].
  destruct Hv as [Hrw _]. destruct (Hrw fd buf n w Hr Hp) as [-> ->]. auto.
Qed.

Lemma open_agree p fl md a3 a4 a5 w :
  0 <= p -> 0 <= fl -> sys_open h1 p fl md a3 a4 a5 w = sys_open h2 p fl md a3 a4 a5 w.
Proof.
  intros H0 H1. destruct Hag as [Hv _]. unfold sys_open.
  destruct (validate_user_ptr p 1) as [[]|e] eqn:Hp; [|auto].
  apply validate_user_ptr_ok in Hp; [|lia..].
  destruct (Z.ltb_spec i32_max fl) as [|Hf]; [reflexivity|].
  destruct (vfs h1), (vfs h2); try contradiction; [|auto].
  destruct Hv as (_ & Ho & _). rewrite Ho; [reflexivity|exact Hp|rewrite as_i32_small; lia|].
  apply Z.mod_pos_bound. reflexivity.
Qed.

Lemma close_agree fd a1 a2 a3 a4 a5 w :
  0 <= fd -> sys_close h1 fd a1 a2 a3 a4 a5 w = sys_close h2 fd a1 a2 a3 a4 a5 w.
Proof.
  intros H0. destruct Hag as [Hv _]. unfold sys_close.
  destruct (validate_fd fd) as [fd'|e] eqn:Hfd; [|auto]. apply validate_fd_ok in Hfd as [-> Hr]; [|exact H0].
  destruct (vfs h1), (vfs h2); try contradiction; [|auto].
  destruct Hv as (_ & _ & Hc). rewrite Hc by exact Hr. reflexivity.
Qed.

Lemma process_agree a0 a1 a2 a3 a4 a5 w :
  0 <= a0 -> 0 <= a1 -> 0 <= a2 ->
  sys_fork h1 a0 a1 a2 a3 a4 a5 w = sys_fork h2 a0 a1 a2 a3 a4 a5 w /\
  sys_execve h1 a0 a1 a2 a3 a4 a5 w = sys_execve h2 a0 a1 a2 a3 a4 a5 w /\
  sys_exit h1 a0 a1 a2 a3 a4 a5 w = sys_exit h2 a0 a1 a2 a3 a4 a5 w.
Proof.
  intros H0 H1 H2. destruct Hag as [_ Hp]. unfold sys_fork, sys_execve, sys_exit.
  destruct (process h1) as [p1|], (process h2) as [p2|]; try contradiction.
  - destruct Hp as (Hf & He & Hx). split_and!.
    + rewrite Hf. reflexivity.
    + destruct (validate_user_ptr a0 1) as [[]|e] eqn:E0; [|auto].
      apply validate_user_ptr_ok in E0; [|lia..].
      destruct (optional_ptr a1) as [[]|e] eqn:E1; [|auto]. apply optional_ptr_ok in E1; [|assumption].
      destruct (optional_ptr a2) as [[]|e] eqn:E2; [|auto]. apply optional_ptr_ok in E2; [|assumption].
      rewrite He by assumption. reflexivity.
    + rewrite Hx by apply as_i32_range. reflexivity.
  - split_and!; reflexivity.
Qed.

End Agreement.

(** ** Properties of the boundary *)

(** Dispatch on every number: the seven implemented numbers reach their
    handlers, and every other one, inside the table or beyond it, returns
    [-ENOSYS] and touches nothing. *)
Theorem dispatch_every_number {W} (hk : Hooks W) nr a0 a1 a2 a3 a4 a5 w :
  0 <= nr ->
  syscall_dispatch (init hk SYSCALL_TABLE) nr a0 a1 a2 a3 a4 a5 w =
  if nr =? 0 then flatten (sys_read hk a0 a1 a2 a3 a4 a5 w)
  else if nr =? 1 then flatten (sys_write hk a0 a1 a2 a3 a4 a5 w)
  else if nr =? 2 then flatten (sys_open hk a0 a1 a2 a3 a4 a5 w)
  else if nr =? 3 then flatten (sys_close hk a0 a1 a2 a3 a4 a5 w)
  else if nr =? 57 then flatten (sys_fork hk a0 a1 a2 a3 a4 a5 w)
  else if nr =? 59 then flatten (sys_execve hk a0 a1 a2 a3 a4 a5 w)
  else if nr =? 60 then flatten (sys_exit hk a0 a1 a2 a3 a4 a5 w)
  else (Returns (-38), w).
Proof.
  intros Hn. rewrite dispatch_spec by exact Hn. unfold handler_of.
  repeat (destruct (nr =? _); [reflexivity|]). reflexivity.
Qed.

Lemma dispatch_every_number_witness :
  syscall_dispatch (init (mkHooks (W := unit) None None) SYSCALL_TABLE) 231 0 0 0 0 0 0 tt =
  (Returns (-38), tt).
Proof. apply (dispatch_every_number (mkHooks None None) 231). lia. Defined.

(** C9. The subsystems behind the boundary only ever see checked arguments: a
    system call's effect does not depend on how the hooks behave outside
    descriptors in [0, i32::MAX] and non-null ranges that lie wholly in user
    space.  No register contents make a handler pass a kernel address on. *)
Theorem hooks_see_only_checked_arguments {W} (h1 h2 : Hooks W) nr a0 a1 a2 a3 a4 a5 w :
  agree h1 h2 -> is_u64 nr -> is_u64 a0 -> is_u64 a1 -> is_u64 a2 ->
  syscall_dispatch (init h1 SYSCALL_TABLE) nr a0 a1 a2 a3 a4 a5 w =
  syscall_dispatch (init h2 SYSCALL_TABLE) nr a0 a1 a2 a3 a4 a5 w.
Proof.
  intros Hag [Hn _] [H0 _] [H1 _] [H2 _]. rewrite !dispatch_spec by exact Hn. unfold handler_of.
  destruct (io_agree h1 h2 Hag a0 a1 a2 a3 a4 a5 w H0 H1 H2) as [Er Ew].
  pose proof (open_agree h1 h2 Hag a0 a1 a2 a3 a4 a5 w H0 H1) as Eo.
  pose proof (close_agree h1 h2 Hag a0 a1 a2 a3 a4 a5 w H0) as Ec.
  destruct (process_agree h1 h2 Hag a0 a1 a2 a3 a4 a5 w H0 H1 H2) as (Ef & Ee & Ex).
  repeat (destruct (nr =? _); [congruence|]). reflexivity.
Qed.

(** Hooks whose effects show what they were called with. *)
Definition demo_vfs (bad : Z) : VfsHooks (list Z) := mkVfsHooks (list Z)
  (fun fd buf n w => if USER_VA_MAX <? buf + n then (Ok bad, bad :: w) else (Ok n, buf :: w))
  (fun fd buf n w => (Ok n, w)) (fun p fl md w => (Ok 3, w)) (fun fd w => (Ok tt, w)).

Lemma demo_vfs_agree : agree (mkHooks (Some (demo_vfs 1)) None) (mkHooks (Some (demo_vfs 2)) None).
Proof.
  split; simpl; [|exact I]. split_and!; [|reflexivity..]. intros fd buf n w _ (_ & _ & Hr).
  rewrite (proj2 (Z.ltb_ge USER_VA_MAX (buf + n))) by exact Hr. auto.
Qed.

Lemma hooks_see_only_checked_arguments_witness :
  syscall_dispatch (init (mkHooks (Some (demo_vfs 1)) None) SYSCALL_TABLE) 0 3 0xFFFF800000000000 8 0 0 0 [] =
  syscall_dispatch (init (mkHooks (Some (demo_vfs 2)) None) SYSCALL_TABLE) 0 3 0xFFFF800000000000 8 0 0 0 [].
Proof. apply hooks_see_only_checked_arguments; [exact demo_vfs_agree|word_lia..]. Defined.

(** What the hooks promise about their results: byte counts no larger than
    asked, descriptors and PIDs non-negative 32-bit values. *)
Record honest {W} (hk : Hooks W) : Prop := {
  ho_vfs : forall v, vfs hk = Some v ->
    (forall fd buf n w r w', 0 <= n -> vfs_read v fd buf n w = (Ok r, w') -> 0 <= r <= n) /\
    (forall fd buf n w r w', 0 <= n -> vfs_write v fd buf n w = (Ok r, w') -> 0 <= r <= n) /\
    (forall p fl md w r w', vfs_open v p fl md w = (Ok r, w') -> 0 <= r <= i32_max);
  ho_process : forall p, process hk = Some p ->
    forall w r w', proc_fork p w = (Ok r, w') -> 0 <= r <= i32_max
}.

Lemma errno_range e : 1 <= errno_value e <= 38.
Proof. destruct e; simpl; lia. Qed.

Definition good_value (v : Z) : Prop := (exists e, v = - errno_value e) \/ 0 <= v < 2 ^ 63.

(** Every outcome of [mapped] on a small value is good. *)
Lemma mapped_good {W} (rw : result Z Errno * W) v w' :
  (forall n w, rw = (Ok n, w) -> 0 <= n < 2 ^ 63) -> flatten (mapped rw) = (Returns v, w') -> good_value v.
Proof.
  intros Hn. destruct rw as [[n|e] w]; simpl; intros [= <- <-].
  - right. rewrite as_i64_small; eapply Hn; reflexivity.
  - left. eauto.
Qed.

Lemma fails_good {W} e (w : W) v w' : flatten (fails e w) = (Returns v, w') -> good_value v.
Proof. intros [= <- <-]. left. eauto. Qed.

#[local] Hint Resolve fails_good : core.

Lemma handler_good {W} (hk : Hooks W) nr a0 a1 a2 a3 a4 a5 w v w' :
  honest hk -> 0 <= a0 -> 0 <= a1 -> 0 <= a2 ->
  flatten (handler_of hk nr a0 a1 a2 a3 a4 a5 w) = (Returns v, w') -> good_value v.
Proof.
  intros [Hv Hp] H0 H1 H2. unfold handler_of.
  assert (Hio : forall n r, user_range a1 n -> 0 <= r <= n -> 0 <= r < 2 ^ 63).
  { intros n r (? & ? & ?) ?. unfold USER_VA_MAX in *. lia. }
  repeat (destruct (nr =? _)); [..|eauto].
  - unfold sys_read. destruct (validate_fd a0); [|eauto].
    destruct (validate_user_ptr a1 a2) as [[]|] eqn:E; [|eauto]. apply validate_user_ptr_ok in E; [|assumption..].
    destruct (vfs hk) as [vh|]; [|eauto]. apply mapped_good. intros n w1 En.
    destruct (Hv vh eq_refl) as (Hr & _). eapply Hio; [exact E|eapply Hr; eassumption].
  - unfold sys_write. destruct (validate_fd a0); [|eauto].
    destruct (validate_user_ptr a1 a2) as [[]|] eqn:E; [|eauto]. apply validate_user_ptr_ok in E; [|assumption..].
    destruct (vfs hk) as [vh|]; [|eauto]. apply mapped_good. intros n w1 En.
    destruct (Hv vh eq_refl) as (_ & Hr & _). eapply Hio; [exact E|eapply Hr; eassumption].
  - unfold sys_open. destruct (validate_user_ptr a0 1); [|eauto]. destruct (i32_max <? a1); [eauto|].
    destruct (vfs hk) as [vh|]; [|eauto]. apply mapped_good. intros n w1 En.
    destruct (Hv vh eq_refl) as (_ & _ & Ho). specialize (Ho _ _ _ _ _ _ En). unfold i32_max in Ho. lia.
  - unfold sys_close. destruct (validate_fd a0); [|eauto]. destruct (vfs hk) as [vh|]; [|eauto].
    destruct (vfs_close vh _ w) as [[u|e] w1]; simpl; intros [= <- <-]; [right; lia|left; eauto].
  - unfold sys_fork. destruct (process hk) as [p|]; [|eauto]. apply mapped_good. intros n w1 En.
    specialize (Hp p eq_refl _ _ _ En). unfold i32_max in Hp. lia.
  - unfold sys_execve. destruct (validate_user_ptr a0 1); [|eauto].
    destruct (optional_ptr a1); [|eauto]. destruct (optional_ptr a2); [|eauto].
    destruct (process hk) as [p|]; [|eauto].
    destruct (proc_execve p a0 a1 a2 w) as [[e|] w1]; simpl; [intros [= <- <-]; left; eauto|discriminate].
  - unfold sys_exit. destruct (process hk) as [p|]; [discriminate|eauto].
Qed.

(** The return-value convention: with hooks that keep their promises, what a
    system call returns is either minus an errno value, at least -38, or a
    non-negative 63-bit result, so user space can always tell the two apart. *)
Theorem return_value_convention {W} (hk : Hooks W) nr a0 a1 a2 a3 a4 a5 w v w' :
  honest hk -> is_u64 nr -> is_u64 a0 -> is_u64 a1 -> is_u64 a2 ->
  syscall_dispatch (init hk SYSCALL_TABLE) nr a0 a1 a2 a3 a4 a5 w = (Returns v, w') ->
  ((exists e, v = - errno_value e) /\ -38 <= v <= -1) \/ 0 <= v < 2 ^ 63.
Proof.
  intros Hh [Hn _] [H0 _] [H1 _] [H2 _]. rewrite dispatch_spec by exact Hn. intros H.
  destruct (handler_good hk nr a0 a1 a2 a3 a4 a5 w v w' Hh H0 H1 H2 H) as [[e ->]|Hv]; [left|auto].
  pose proof (errno_range e). split; [eauto|lia].
Qed.

Definition demo_honest : Hooks (list Z) := mkHooks (Some (mkVfsHooks (list Z)
  (fun fd buf n w => (Ok n, buf :: w)) (fun fd buf n w => (Ok n, w))
  (fun p fl md w => (Ok 3, w)) (fun fd w => (Ok tt, w)))) None.

Lemma return_value_convention_witness :
  syscall_dispatch (init demo_honest SYSCALL_TABLE) 0 3 0x1000 8 0 0 0 [] = (Returns 8, [0x1000]) /\
  (((exists e, 8 = - errno_value e) /\ -38 <= 8 <= -1) \/ 0 <= 8 < 2 ^ 63).
Proof.
  split; [vm_compute; reflexivity|].
  apply (return_value_convention demo_honest 0 3 0x1000 8 0 0 0 [] 8 [0x1000]);
    [|word_lia..|vm_compute; reflexivity].
  split; simpl; [|discriminate]. intros v [= <-]. split_and!; simpl.
  - intros fd buf n w r w' Hn [= <- _]. lia.
  - intros fd buf n w r w' Hn [= <- _]. lia.
  - intros p fl md w r w' [= <- _]. unfold i32_max. lia.
Defined.

(** ** MSR programming (entry.rs) *)

Definition MSR_EFER : Z := 0xC0000080.
Definition MSR_STAR : Z := 0xC0000081.
Definition MSR_LSTAR : Z := 0xC0000082.
Definition MSR_FMASK : Z := 0xC0000084.
Definition EFER_SCE : Z := 2 ^ 0.
Definition STAR_VALUE : Z := 0x0023000800000000.
Definition FMASK_VALUE : Z := 0x00047700.

Definition msrs : Type := Z -> Z.

(** EDX:EAX carry the two halves of the value. *)
Definition rdmsr (m : msrs) (msr : Z) : Z :=
  let low := m msr mod U32 in
  let high := Z.shiftr (m msr) 32 in
  Z.lor (Z.shiftl high 32) low.

Definition wrmsr (m : msrs) (msr value : Z) : msrs :=
  let low := value mod U32 in
  let high := Z.shiftr value 32 mod U32 in
  fun x => if x =? msr then Z.lor (Z.shiftl high 32) low else m x.

Definition init_cpu (syscall_entry : Z) (m : msrs) : msrs :=
  let efer := rdmsr m MSR_EFER in
  let m := wrmsr m MSR_EFER (Z.lor efer EFER_SCE) in
  let m := wrmsr m MSR_STAR STAR_VALUE in
  let m := wrmsr m MSR_LSTAR syscall_entry in
  wrmsr m MSR_FMASK FMASK_VALUE.

(** [syscall::init]: the table first, then the CPU. *)
Definition mod_init {W} (hk : Hooks W) (syscall_entry : Z) (st : list (@Handler W) * msrs)
  : list (@Handler W) * msrs :=
  (init hk (fst st), init_cpu syscall_entry (snd st)).

Lemma split_word v : is_u64 v -> Z.lor (Z.shiftl (Z.shiftr v 32) 32) (v mod U32) = v.
Proof.
  intros Hv. change U32 with (2 ^ 32). rewrite <- Z.land_ones by lia.
  apply Z.bits_inj'. intros n Hn. rewrite Z.lor_spec, Z.land_spec.
  destruct (Z.ltb_spec n 32).
  - rewrite Z.shiftl_spec_low, Z.ones_spec_low by lia. by rewrite andb_true_r.
  - rewrite Z.shiftl_spec, Z.shiftr_spec, Z.ones_spec_high by lia.
    rewrite andb_false_r, orb_false_r. f_equal. lia.
Qed.

Lemma rdmsr_u64 m r : is_u64 (m r) -> rdmsr m r = m r.
Proof. apply split_word. Qed.

Lemma wrmsr_at m r v x : is_u64 v -> wrmsr m r v x = if x =? r then v else m x.
Proof.
  intros Hv. unfold wrmsr. rewrite (Z.mod_small (Z.shiftr v 32)).
  - rewrite split_word by exact Hv. reflexivity.
  - rewrite Z.shiftr_div_pow2 by lia. unfold is_u64, U64, U32 in *.
    split; [apply Z.div_pos; lia|apply Z.div_lt_upper_bound; lia].
Qed.

(** Bring-up arms exactly four registers: SYSCALL enters the trampoline with
    the selectors and the flag mask above, EFER keeps every bit but SCE, and no
    other register changes; the table answers every implemented number. *)
Lemma mod_init_arms {W} (hk : Hooks W) entry m :
  is_u64 entry -> is_u64 (m MSR_EFER) ->
  let st := mod_init hk entry (SYSCALL_TABLE, m) in
  snd st MSR_LSTAR = entry /\ snd st MSR_STAR = STAR_VALUE /\ snd st MSR_FMASK = FMASK_VALUE /\
  snd st MSR_EFER = Z.lor (m MSR_EFER) EFER_SCE /\
  (forall r, (r ∉ [MSR_LSTAR; MSR_STAR; MSR_FMASK; MSR_EFER]) -> snd st r = m r) /\
  (forall nr, 0 <= nr < Z.of_nat SYSCALL_TABLE_SIZE ->
     fst st !! Z.to_nat nr = Some (handler_of hk nr)).
Proof.
  intros He Hm. cbn zeta. unfold mod_init. cbn [fst snd]. unfold init_cpu.
  assert (Hor : is_u64 (Z.lor (m MSR_EFER) EFER_SCE)).
  { apply (lor_range _ _ 64); [lia|exact Hm|unfold EFER_SCE; lia]. }
  rewrite rdmsr_u64 by exact Hm.
  assert (is_u64 STAR_VALUE) by (split; vm_compute; congruence).
  assert (is_u64 FMASK_VALUE) by (split; vm_compute; congruence).
  rewrite !wrmsr_at by assumption. split_and!; try reflexivity.
  - intros r Hr. rewrite !wrmsr_at by assumption.
    rewrite !elem_of_cons in Hr.
    rewrite !(proj2 (Z.eqb_neq _ _)) by tauto. reflexivity.
  - intros nr Hn. apply table_lookup, Hn.
Qed.

(** The selectors the CPU derives from STAR: SYSCALL loads CS from bits 47:32,
    64-bit SYSRET loads CS from bits 63:48 plus 16 and SS from them plus 8. *)
Definition syscall_cs (star : Z) : Z := Z.land (Z.shiftr star 32) 0xFFFF.
Definition sysret_cs (star : Z) : Z := Z.land (Z.shiftr star 48) 0xFFFF + 16.
Definition sysret_ss (star : Z) : Z := Z.land (Z.shiftr star 48) 0xFFFF + 8.

(** The user code selector this STAR value yields is 0x33, not the 0x28 with
    requested privilege 3 that the comment on [STAR_VALUE] announces. *)
Example star_selectors :
  syscall_cs STAR_VALUE = 0x08 /\ sysret_cs STAR_VALUE = 0x33 /\ sysret_ss STAR_VALUE = 0x2B /\
  Z.testbit FMASK_VALUE 9 = true /\ Z.testbit FMASK_VALUE 10 = true /\ Z.testbit FMASK_VALUE 8 = true.
Proof. vm_compute. repeat split. Qed.

(** ** The entry trampoline *)

Inductive reg := RAX | RBX | RCX | RDX | RSI | RDI | RBP | RSP | R8 | R9 | R10 | R11 | R12 | R13 | R14 | R15.

#[global] Instance reg_eq_dec : EqDecision reg.
Proof. solve_decision. Defined.

(** [gs_kernel] says which view GS has; [gs0] and [gs8] are the two slots of the
    per-CPU area behind the kernel view. *)
Record Cpu := mkCpu {
  regs : reg -> Z;
  cmem : Z -> Z;
  gs_kernel : bool;
  gs0 : Z;
  gs8 : Z;
  rip : Z;
  rflags : Z
}.

Inductive instr :=
| Swapgs
| StashRsp
| LoadKernelStack
| PushGs8
| Push (r : reg)
| Pop (r : reg)
| SubRsp (n : Z)
| AddRsp (n : Z)
| Mov (src dst : reg)
| Call
| Sysret.

Definition set_reg (f : reg -> Z) (r : reg) (v : Z) : reg -> Z :=
  fun x => if decide (x = r) then v else f x.

Definition with_regs (c : Cpu) (f : reg -> Z) : Cpu :=
  mkCpu f (cmem c) (gs_kernel c) (gs0 c) (gs8 c) (rip c) (rflags c).

Definition push_value (c : Cpu) (v : Z) : Cpu :=
  let sp := sub64 (regs c RSP) 8 in
  mkCpu (set_reg (regs c) RSP sp) (fun x => if x =? sp then v else cmem c x)
    (gs_kernel c) (gs0 c) (gs8 c) (rip c) (rflags c).

Section Trampoline.
(** The call of [syscall_dispatch], as a transformer of the machine. *)
Context (callee : Cpu -> Cpu).

Definition step (c : Cpu) (i : instr) : Cpu :=
  match i with
  | Swapgs => mkCpu (regs c) (cmem c) (negb (gs_kernel c)) (gs0 c) (gs8 c) (rip c) (rflags c)
  | StashRsp => mkCpu (regs c) (cmem c) (gs_kernel c) (gs0 c) (regs c RSP) (rip c) (rflags c)
  | LoadKernelStack => with_regs c (set_reg (regs c) RSP (gs0 c))
  | PushGs8 => push_value c (gs8 c)
  | Push r => push_value c (regs c r)
  | Pop r => let sp := regs c RSP in
             with_regs c (set_reg (set_reg (regs c) RSP (add64 sp 8)) r (cmem c sp))
  | SubRsp n => with_regs c (set_reg (regs c) RSP (sub64 (regs c RSP) n))
  | AddRsp n => with_regs c (set_reg (regs c) RSP (add64 (regs c RSP) n))
  | Mov src dst => with_regs c (set_reg (regs c) dst (regs c src))
  | Call => callee c
  | Sysret => mkCpu (regs c) (cmem c) (gs_kernel c) (gs0 c) (gs8 c) (regs c RCX) (regs c R11)
  end.

Definition run (p : list instr) (c : Cpu) : Cpu := fold_left step p c.
End Trampoline.

(** The saved registers, in push order after the user stack pointer. *)
Definition saved_regs : list reg :=
  [R11; RCX; RAX; RDI; RSI; RDX; R10; R8; R9; RBX; RBP; R12; R13; R14; R15].

Definition entry_save : list instr := [Swapgs; StashRsp; LoadKernelStack; PushGs8] ++ map Push saved_regs.

(** Linux register convention to the C one. *)
Definition entry_args : list instr :=
  [SubRsp 8; Push R9; Mov R8 R9; Mov R10 R8; Mov RDX RCX; Mov RSI RDX; Mov RDI RSI; Mov RAX RDI].

Definition restored_regs : list reg := [R15; R14; R13; R12; RBP; RBX; R9; R8; R10; RDX; RSI; RDI].

Definition entry_restore : list instr :=
  [AddRsp 16] ++ map Pop restored_regs ++ [AddRsp 8; Pop RCX; Pop R11; Pop RSP; Swapgs; Sysret].

Definition syscall_entry : list instr := entry_save ++ entry_args ++ [Call] ++ entry_restore.

(** What the System V calling convention guarantees of the callee: the
    callee-saved registers, the stack pointer, the per-CPU area, and memory above
    its stack argument. *)
Record abi_call (callee : Cpu -> Cpu) : Prop := {
  abi_regs : forall c r, r ∈ [RBX; RBP; RSP; R12; R13; R14; R15] -> regs (callee c) r = regs c r;
  abi_mem : forall c x, regs c RSP + 8 <= x -> cmem (callee c) x = cmem c x;
  abi_gs : forall c, gs_kernel (callee c) = gs_kernel c /\ gs0 (callee c) = gs0 c
}.

(** ** Pushing and popping lists of registers *)

Lemma run_app callee p q c : run callee (p ++ q) c = run callee q (run callee p c).
Proof. apply fold_left_app. Qed.

Lemma set_reg_same f r v : set_reg f r v r = v.
Proof. unfold set_reg. apply decide_True. reflexivity. Qed.

Lemma set_reg_other f r v x : x <> r -> set_reg f r v x = f x.
Proof. intros H. unfold set_reg. apply decide_False. exact H. Qed.

(** The state after pushing the registers [rs] one after the other. *)
Lemma run_pushes callee rs c :
  RSP ∉ rs -> 8 * Z.of_nat (length rs) <= regs c RSP < U64 ->
  let c' := run callee (map Push rs) c in
  regs c' RSP = regs c RSP - 8 * Z.of_nat (length rs) /\
  (forall r, r <> RSP -> regs c' r = regs c r) /\
  (forall i r, rs !! i = Some r -> cmem c' (regs c RSP - 8 * (Z.of_nat i + 1)) = regs c r) /\
  (forall x, regs c RSP <= x -> cmem c' x = cmem c x) /\
  gs_kernel c' = gs_kernel c /\ gs0 c' = gs0 c /\ gs8 c' = gs8 c.
Proof.
  revert c. induction rs as [|r0 rs IH]; intros c Hn Hb.
  - simpl. split_and!; auto; [lia|]. intros i r H. discriminate.
  - apply not_elem_of_cons in Hn as [Hr0 Hn]. simpl length in Hb.
    set (c1 := push_value c (regs c r0)).
    assert (Hsp : regs c1 RSP = regs c RSP - 8).
    { unfold c1, push_value. simpl. rewrite set_reg_same. apply sub64_small. word_lia. }
    destruct (IH c1 Hn) as (H1 & H2 & H3 & H4 & H5 & H6 & H7); [rewrite Hsp; lia|].
    assert (Hreg : forall r, r <> RSP -> regs c1 r = regs c r).
    { intros r Hr. unfold c1, push_value. simpl. apply set_reg_other, Hr. }
    assert (Hmem : forall x, x <> regs c RSP - 8 -> cmem c1 x = cmem c x).
    { intros x Hx. unfold c1, push_value. simpl. rewrite sub64_small by word_lia.
      rewrite (proj2 (Z.eqb_neq x _)) by exact Hx. reflexivity. }
    change (run callee (map Push (r0 :: rs)) c) with (run callee (map Push rs) c1).
    split_and!; [rewrite H1, Hsp; simpl length; lia| | | |assumption..].
    + intros r Hr. rewrite H2, Hreg by exact Hr. reflexivity.
    + intros [|i] r Hi; simpl in Hi.
      * injection Hi as ->. rewrite H4 by (rewrite Hsp; simpl; lia). unfold c1, push_value. simpl.
        rewrite sub64_small by word_lia. rewrite (proj2 (Z.eqb_eq _ _)) by lia. reflexivity.
      * assert (Hr : r <> RSP) by (intros ->; apply Hn, (list_elem_of_lookup_2 _ _ _ Hi)).
        specialize (H3 i r Hi). rewrite Hsp, (Hreg r Hr) in H3. rewrite <- H3. f_equal. lia.
    + intros x Hx. rewrite H4 by (rewrite Hsp; lia). apply Hmem. lia.
Qed.

(** The state after popping into the registers [rs]. *)
Lemma run_pops callee rs c :
  RSP ∉ rs -> NoDup rs -> 0 <= regs c RSP -> regs c RSP + 8 * Z.of_nat (length rs) < U64 ->
  let c' := run callee (map Pop rs) c in
  regs c' RSP = regs c RSP + 8 * Z.of_nat (length rs) /\
  (forall r, r <> RSP -> r ∉ rs -> regs c' r = regs c r) /\
  (forall i r, rs !! i = Some r -> regs c' r = cmem c (regs c RSP + 8 * Z.of_nat i)) /\
  cmem c' = cmem c /\ gs_kernel c' = gs_kernel c /\ gs0 c' = gs0 c.
Proof.
  revert c. induction rs as [|r0 rs IH]; intros c Hn Hd H0 Hb.
  - simpl. split_and!; auto; [lia|]. intros i r H. discriminate.
  - apply not_elem_of_cons in Hn as [Hr0 Hn]. inversion Hd as [|? ? Hr0' Hd']; subst. simpl length in Hb.
    set (c1 := step callee c (Pop r0)).
    assert (Hsp : regs c1 RSP = regs c RSP + 8).
    { unfold c1. simpl. rewrite set_reg_other, set_reg_same by congruence. apply add64_small. word_lia. }
    destruct (IH c1 Hn Hd') as (H1 & H2 & H3 & H4 & H5 & H6); [rewrite Hsp; lia..|].
    change (run callee (map Pop (r0 :: rs)) c) with (run callee (map Pop rs) c1).
    split_and!; [rewrite H1, Hsp; simpl length; lia| | |rewrite H4; reflexivity|rewrite H5; reflexivity|rewrite H6; reflexivity].
    + intros r Hr Hrs. apply not_elem_of_cons in Hrs as [Hrr Hrs]. rewrite H2 by assumption.
      unfold c1. simpl. rewrite !set_reg_other by assumption. reflexivity.
    + intros [|i] r Hi; simpl in Hi.
      * injection Hi as ->. rewrite H2 by first [assumption|congruence]. unfold c1. simpl. rewrite set_reg_same.
        f_equal. lia.
      * rewrite (H3 i r Hi), Hsp. unfold c1. simpl. f_equal. lia.
Qed.

Section EntryProof.
Context (callee : Cpu -> Cpu) (c : Cpu).
Let K := gs0 c.
Context (HK : 144 <= K < U64).

(** The trap frame: user stack pointer, then [saved_regs] downwards. *)
Definition frame_ok (m : Z -> Z) : Prop :=
  m (K - 8) = regs c RSP /\
  forall i r, saved_regs !! i = Some r -> m (K - 8 * (Z.of_nat i + 2)) = regs c r.

Lemma entry_saved :
  let c1 := run callee entry_save c in
  regs c1 RSP = K - 128 /\ (forall r, r <> RSP -> regs c1 r = regs c r) /\ frame_ok (cmem c1) /\
  gs_kernel c1 = negb (gs_kernel c) /\ gs0 c1 = K.
Proof.
  intros c1. unfold c1, entry_save. rewrite run_app.
  set (c0 := run callee [Swapgs; StashRsp; LoadKernelStack; PushGs8] c).
  assert (Hsp : regs c0 RSP = K - 8) by (apply sub64_small; fold K; word_lia).
  assert (Hreg : forall r, r <> RSP -> regs c0 r = regs c r).
  { intros r Hr. unfold c0. simpl. rewrite !set_reg_other by exact Hr. reflexivity. }
  assert (Hm : cmem c0 (K - 8) = regs c RSP).
  { unfold c0. simpl. rewrite set_reg_same. fold K. rewrite sub64_small by word_lia.
    rewrite Z.eqb_refl. reflexivity. }
  destruct (run_pushes callee saved_regs c0) as (H1 & H2 & H3 & H4 & H5 & H6 & _).
  { apply (bool_decide_unpack _). vm_compute. exact I. }
  { rewrite Hsp. simpl length. lia. }
  rewrite Hsp in *. split_and!.
  - rewrite H1. simpl length. lia.
  - intros r Hr. rewrite H2, Hreg by exact Hr. reflexivity.
  - split; [rewrite H4 by lia; exact Hm|]. intros i r Hi.
    assert (Hr : r <> RSP).
    { intros ->. apply list_elem_of_lookup_2 in Hi. revert Hi. apply (bool_decide_unpack _). vm_compute. exact I. }
    replace (K - 8 * (Z.of_nat i + 2)) with (K - 8 - 8 * (Z.of_nat i + 1)) by lia.
    rewrite (H3 i r Hi). apply Hreg, Hr.
  - rewrite H5. reflexivity.
  - rewrite H6. reflexivity.
Qed.

End EntryProof.

(** Moves between registers other than the stack pointer. *)
Definition moves : list instr := [Mov R8 R9; Mov R10 R8; Mov RDX RCX; Mov RSI RDX; Mov RDI RSI; Mov RAX RDI].

Lemma run_mov callee src dst p c :
  run callee (Mov src dst :: p) c =
  run callee p (with_regs c (set_reg (regs c) dst (regs c src))).
Proof. reflexivity. Qed.

Lemma run_moves callee c :
  run callee moves c =
  with_regs c (set_reg (set_reg (set_reg (set_reg (set_reg (set_reg (regs c) R9 (regs c R8))
    R8 (regs c R10)) RCX (regs c RDX)) RDX (regs c RSI)) RSI (regs c RDI)) RDI (regs c RAX)).
Proof.
  unfold moves. do 6 rewrite run_mov. cbn [regs with_regs].
  do 20 (try (rewrite set_reg_other by discriminate)). reflexivity.
Qed.

(** Making room for the stack argument. *)
Lemma run_stack_arg callee c :
  16 <= regs c RSP < U64 ->
  let c' := run callee [SubRsp 8; Push R9] c in
  regs c' RSP = regs c RSP - 16 /\ (forall r, r <> RSP -> regs c' r = regs c r) /\
  cmem c' (regs c RSP - 16) = regs c R9 /\
  (forall x, regs c RSP - 16 < x -> cmem c' x = cmem c x) /\
  gs_kernel c' = gs_kernel c /\ gs0 c' = gs0 c.
Proof.
  intros H c'.
  assert (E1 : sub64 (regs c RSP) 8 = regs c RSP - 8) by (apply sub64_small; word_lia).
  assert (E2 : sub64 (regs c RSP - 8) 8 = regs c RSP - 16) by (rewrite sub64_small by word_lia; lia).
  unfold c', run. cbn [fold_left step with_regs push_value regs cmem gs_kernel gs0].
  rewrite !set_reg_same, E1, E2. split_and!; try reflexivity.
  - intros r Hr. rewrite !set_reg_other by exact Hr. reflexivity.
  - rewrite Z.eqb_refl, set_reg_other by discriminate. reflexivity.
  - intros x Hx. rewrite (proj2 (Z.eqb_neq x _)) by lia. reflexivity.
Qed.

Section EntryCall.
Context (callee : Cpu -> Cpu) (c : Cpu) (HK : 144 <= gs0 c < U64).

(** The machine at the call: the C arguments and the trap frame. *)
Record at_call (c2 : Cpu) : Prop := {
  ac_rsp : regs c2 RSP = gs0 c - 144;
  ac_args : map (regs c2) [RDI; RSI; RDX; RCX; R8; R9] = map (regs c) [RAX; RDI; RSI; RDX; R10; R8];
  ac_a5 : cmem c2 (regs c2 RSP) = regs c R9;
  ac_saved : forall r, r ∈ [RBX; RBP; R12; R13; R14; R15] -> regs c2 r = regs c r;
  ac_frame : frame_ok c (cmem c2);
  ac_gs : gs_kernel c2 = negb (gs_kernel c) /\ gs0 c2 = gs0 c
}.

(** From the saved state, through the stack argument and the moves. *)
Lemma moves_reach_call c1a :
  regs c1a RSP = gs0 c - 144 -> (forall r, r <> RSP -> regs c1a r = regs c r) ->
  cmem c1a (gs0 c - 144) = regs c R9 -> frame_ok c (cmem c1a) ->
  gs_kernel c1a = negb (gs_kernel c) -> gs0 c1a = gs0 c ->
  at_call (run callee moves c1a).
Proof.
  intros H1 Hr H3 H4 H5 H6. rewrite run_moves. split; cbn [regs with_regs cmem gs_kernel gs0].
  - rewrite !set_reg_other by discriminate. exact H1.
  - cbn [map]. repeat first [rewrite set_reg_same | rewrite set_reg_other by discriminate].
    rewrite !Hr by discriminate. reflexivity.
  - rewrite !set_reg_other by discriminate. rewrite H1. exact H3.
  - intros r Hin. repeat (apply elem_of_cons in Hin as [->|Hin];
      [rewrite !set_reg_other by discriminate; apply Hr; discriminate|]). inversion Hin.
  - exact H4.
  - auto.
Qed.

Lemma args_reach_call c1 :
  regs c1 RSP = gs0 c - 128 -> (forall r, r <> RSP -> regs c1 r = regs c r) -> frame_ok c (cmem c1) ->
  gs_kernel c1 = negb (gs_kernel c) -> gs0 c1 = gs0 c ->
  at_call (run callee moves (run callee [SubRsp 8; Push R9] c1)).
Proof.
  intros H1 H2 [H3 H3'] H4 H5.
  destruct (run_stack_arg callee c1) as (S1 & S2 & S3 & S4 & S5 & S6); [rewrite H1; word_lia|].
  apply moves_reach_call.
  - rewrite S1, H1. lia.
  - intros r Hne. rewrite S2, H2 by exact Hne. reflexivity.
  - rewrite <- (H2 R9) by discriminate. rewrite <- S3, H1. f_equal. lia.
  - split; [rewrite S4 by lia; exact H3|]. intros i r Hi. rewrite S4; [apply H3', Hi|].
    apply lookup_lt_Some in Hi. simpl in Hi. lia.
  - rewrite S5. exact H4.
  - rewrite S6. exact H5.
Qed.

Lemma entry_reaches_call : at_call (run callee (entry_save ++ entry_args) c).
Proof.
  rewrite run_app. change entry_args with ([SubRsp 8; Push R9] ++ moves). rewrite run_app.
  destruct (entry_saved callee c HK) as (H1 & H2 & H3 & H4 & H5).
  apply args_reach_call; assumption.
Qed.
End EntryCall.

(** The last five instructions, from a stack pointer just above the pops. *)
Definition leave : list instr := [AddRsp 8; Pop RCX; Pop R11; Pop RSP; Swapgs; Sysret].

Lemma run_leave callee c :
  0 <= regs c RSP -> regs c RSP + 32 < U64 ->
  let c' := run callee leave c in
  rip c' = cmem c (regs c RSP + 8) /\ rflags c' = cmem c (regs c RSP + 16) /\
  regs c' RSP = cmem c (regs c RSP + 24) /\
  (forall r, r <> RSP -> r <> RCX -> r <> R11 -> regs c' r = regs c r) /\
  gs_kernel c' = negb (gs_kernel c) /\ gs0 c' = gs0 c.
Proof.
  intros H0 H1.
  assert (E1 : add64 (regs c RSP) 8 = regs c RSP + 8) by (apply add64_small; word_lia).
  assert (E2 : add64 (regs c RSP + 8) 8 = regs c RSP + 16) by (rewrite add64_small by word_lia; lia).
  assert (E3 : add64 (regs c RSP + 16) 8 = regs c RSP + 24) by (rewrite add64_small by word_lia; lia).
  unfold run, leave. cbn [fold_left step with_regs regs cmem gs_kernel gs0 rip rflags].
  repeat first [rewrite set_reg_same | rewrite set_reg_other by discriminate | rewrite E1 | rewrite E2 | rewrite E3].
  split_and!; try reflexivity.
  intros r Hr1 Hr2 Hr3. rewrite !set_reg_other by assumption. reflexivity.
Qed.

(** Popping the trap frame. *)
Lemma restore_frame callee c c3 :
  144 <= gs0 c < U64 - 8 -> regs c3 RSP = gs0 c - 144 -> frame_ok c (cmem c3) ->
  let c' := run callee entry_restore c3 in
  rip c' = regs c RCX /\ rflags c' = regs c R11 /\ regs c' RSP = regs c RSP /\
  regs c' RAX = regs c3 RAX /\
  (forall r, r ∈ restored_regs -> regs c' r = regs c r) /\
  gs_kernel c' = negb (gs_kernel c3) /\ gs0 c' = gs0 c3.
Proof.
  intros HK Hsp [Hu Hf]. unfold entry_restore. rewrite !run_app.
  set (c4 := run callee [AddRsp 16] c3).
  assert (Hsp4 : regs c4 RSP = gs0 c - 128).
  { unfold c4. simpl. rewrite set_reg_same, Hsp, add64_small by word_lia. lia. }
  assert (Hm4 : cmem c4 = cmem c3) by reflexivity.
  assert (Hr4 : regs c4 RAX = regs c3 RAX) by reflexivity.
  assert (Hg4 : gs_kernel c4 = gs_kernel c3 /\ gs0 c4 = gs0 c3) by (split; reflexivity).
  clearbody c4.
  destruct (run_pops callee restored_regs c4) as (P1 & P2 & P3 & P4 & P5 & P6).
  { apply (bool_decide_unpack _). vm_compute. exact I. }
  { apply (bool_decide_unpack _). vm_compute. exact I. }
  { lia. }
  { rewrite Hsp4. simpl length. word_lia. }
  set (c5 := run callee (map Pop restored_regs) c4) in *. clearbody c5.
  assert (Hsp5 : regs c5 RSP = gs0 c - 32) by (rewrite P1, Hsp4; simpl length; lia).
  destruct (run_leave callee c5) as (L1 & L2 & L3 & L4 & L5 & L6); [rewrite Hsp5; word_lia..|].
  fold leave. set (c6 := run callee leave c5) in *. clearbody c6.
  rewrite P4, Hm4, Hsp5 in *. split_and!.
  - rewrite L1, <- (Hf 1%nat RCX eq_refl). f_equal. lia.
  - rewrite L2, <- (Hf 0%nat R11 eq_refl). f_equal. lia.
  - rewrite L3, <- Hu. f_equal. lia.
  - rewrite L4, P2 by first [discriminate|apply (bool_decide_unpack _); vm_compute; exact I]. exact Hr4.
  - intros r Hin. apply list_elem_of_lookup_1 in Hin as [i Hi].
    assert (Hne : r <> RSP /\ r <> RCX /\ r <> R11).
    { apply list_elem_of_lookup_2 in Hi. split_and!; intros ->; revert Hi;
        apply (bool_decide_unpack _); vm_compute; exact I. }
    rewrite L4 by apply Hne. rewrite (P3 i r Hi), Hsp4.
    assert (Hs : saved_regs !! (14 - i)%nat = Some r).
    { repeat (destruct i as [|i]; [exact Hi|]). discriminate. }
    rewrite <- (Hf _ r Hs). f_equal. apply lookup_lt_Some in Hi. simpl in Hi. lia.
  - rewrite L5, P5. destruct Hg4 as [-> _]. reflexivity.
  - rewrite L6, P6. apply Hg4.
Qed.

(** C25. The system-call trampoline: from any user state, with a kernel stack of at
    least 144 bytes in the per-CPU area, [syscall_dispatch] is called in the
    kernel view of GS with the call number and the six Linux arguments in the C
    argument positions, the seventh on an aligned stack; and after any callee
    that keeps the C calling convention, user mode resumes at its return address
    with its flags and stack pointer and every register as it was, except the
    result in [rax] and the two the instruction clobbers. *)
Theorem syscall_entry_preserves_user_state callee c :
  abi_call callee -> 144 <= gs0 c < U64 - 8 -> gs0 c mod 16 = 0 -> gs_kernel c = false ->
  let c2 := run callee (entry_save ++ entry_args) c in
  let c' := run callee syscall_entry c in
  map (regs c2) [RDI; RSI; RDX; RCX; R8; R9] = map (regs c) [RAX; RDI; RSI; RDX; R10; R8] /\
  cmem c2 (regs c2 RSP) = regs c R9 /\ regs c2 RSP mod 16 = 0 /\ gs_kernel c2 = true /\
  rip c' = regs c RCX /\ rflags c' = regs c R11 /\ regs c' RSP = regs c RSP /\
  regs c' RAX = regs (callee c2) RAX /\
  (forall r, r ∈ restored_regs -> regs c' r = regs c r) /\ gs_kernel c' = false.
Proof.
  intros [Habi Hmem Hgs] HK Hal Hu c2 c'.
  pose proof (entry_reaches_call callee c ltac:(word_lia)) as [A1 A2 A3 A4 [A5 A5'] [A6 A7]].
  fold c2 in A1, A2, A3, A4, A5, A5', A6, A7.
  assert (Hc' : c' = run callee entry_restore (callee c2)).
  { unfold c', syscall_entry. rewrite app_assoc, run_app. fold c2. rewrite run_app. reflexivity. }
  clearbody c2. rewrite Hc'. clear Hc' c'.
  destruct (restore_frame callee c (callee c2) HK) as (R1 & R2 & R3 & R4 & R5 & R6 & _).
  - rewrite Habi by (apply (bool_decide_unpack _); vm_compute; exact I). exact A1.
  - split; [rewrite Hmem by lia; exact A5|]. intros i r Hi. rewrite Hmem; [apply A5', Hi|].
    apply lookup_lt_Some in Hi. simpl in Hi. lia.
  - destruct (Hgs c2) as [Hg _]. rewrite Hg, A6, Hu in R6.
    split_and!; [exact A2|exact A3| |rewrite A6, Hu; reflexivity|assumption..].
    rewrite A1. Z.div_mod_to_equations. lia.
Qed.

(** A callee that returns 7 and spoils every caller-saved register. *)
Definition demo_callee (c : Cpu) : Cpu :=
  with_regs c (fun r => if decide (r ∈ [RBX; RBP; RSP; R12; R13; R14; R15]) then regs c r else 7).

Definition demo_user : Cpu :=
  mkCpu (fun r => if decide (r = RAX) then 39 else if decide (r = RSP) then 0x7FFF0000 else 5)
    (fun _ => 0) false 0xFFFF800000010000 0 0 0.

Lemma demo_callee_abi : abi_call demo_callee.
Proof.
  split.
  - intros c r Hr. unfold demo_callee. simpl. apply decide_True, Hr.
  - reflexivity.
  - intros c. split; reflexivity.
Qed.

Lemma syscall_entry_preserves_user_state_witness :
  let c' := run demo_callee syscall_entry demo_user in
  regs c' RSP = 0x7FFF0000 /\ gs_kernel c' = false.
Proof.
  destruct (syscall_entry_preserves_user_state demo_callee demo_user demo_callee_abi)
    as (_ & _ & _ & _ & _ & _ & H1 & _ & _ & H2); [simpl; word_lia|reflexivity|reflexivity|].
  split; [exact H1|exact H2].
Defined.

End Syscall.
