(* ===== verification/Sha256.v ===== *)
(** The embedded SHA-256 of src/src/sentinel/audit.rs, as an executable function
    from bytes to the 64-character hex string, with its test vectors. *)

From Stdlib Require Import ZArith Lia Ascii.
From stdpp Require Import base list strings.
From S2P Require Import Prelude.

Open Scope Z_scope.

Module Sha256.

(** The constants, in the rows of the source. *)
Definition K : list Z := concat [
  [0x428a2f98; 0x71374491; 0xb5c0fbcf; 0xe9b5dba5];
  [0x3956c25b; 0x59f111f1; 0x923f82a4; 0xab1c5ed5];
  [0xd807aa98; 0x12835b01; 0x243185be; 0x550c7dc3];
  [0x72be5d74; 0x80deb1fe; 0x9bdc06a7; 0xc19bf174];
  [0xe49b69c1; 0xefbe4786; 0x0fc19dc6; 0x240ca1cc];
  [0x2de92c6f; 0x4a7484aa; 0x5cb0a9dc; 0x76f988da];
  [0x983e5152; 0xa831c66d; 0xb00327c8; 0xbf597fc7];
  [0xc6e00bf3; 0xd5a79147; 0x06ca6351; 0x14292967];
  [0x27b70a85; 0x2e1b2138; 0x4d2c6dfc; 0x53380d13];
  [0x650a7354; 0x766a0abb; 0x81c2c92e; 0x92722c85];
  [0xa2bfe8a1; 0xa81a664b; 0xc24b8b70; 0xc76c51a3];
  [0xd192e819; 0xd6990624; 0xf40e3585; 0x106aa070];
  [0x19a4c116; 0x1e376c08; 0x2748774c; 0x34b0bcb5];
  [0x391c0cb3; 0x4ed8aa4a; 0x5b9cca4f; 0x682e6ff3];
  [0x748f82ee; 0x78a5636f; 0x84c87814; 0x8cc70208];
  [0x90befffa; 0xa4506ceb; 0xbef9a3f7; 0xc67178f2]].

Definition H_INIT : list Z := concat [
  [0x6a09e667; 0xbb67ae85; 0x3c6ef372; 0xa54ff53a];
  [0x510e527f; 0x9b05688c; 0x1f83d9ab; 0x5be0cd19]].

(** [u32::rotate_right] for rotations between 1 and 31. *)
Definition rotate_right (x n : Z) : Z := Z.lor (Z.shiftr x n) (wrap32 (Z.shiftl x (32 - n))).

Definition ch (x y z : Z) : Z := Z.lxor (Z.land x y) (Z.land (not32 x) z).
Definition maj (x y z : Z) : Z := Z.lxor (Z.lxor (Z.land x y) (Z.land x z)) (Z.land y z).
Definition big_sigma0 (x : Z) : Z :=
  Z.lxor (Z.lxor (rotate_right x 2) (rotate_right x 13)) (rotate_right x 22).
Definition big_sigma1 (x : Z) : Z :=
  Z.lxor (Z.lxor (rotate_right x 6) (rotate_right x 11)) (rotate_right x 25).
Definition small_sigma0 (x : Z) : Z :=
  Z.lxor (Z.lxor (rotate_right x 7) (rotate_right x 18)) (Z.shiftr x 3).
Definition small_sigma1 (x : Z) : Z :=
  Z.lxor (Z.lxor (rotate_right x 17) (rotate_right x 19)) (Z.shiftr x 10).

(** ** Padding *)

Definition to_be_bytes64 (x : Z) : list Z :=
  map (fun k => Z.land (Z.shiftr x (8 * k)) 0xFF) [7; 6; 5; 4; 3; 2; 1; 0].

(** The loop that pushes zeros; [None] is fuel run out. *)
Fixpoint push_zeros (fuel : nat) (msg : list Z) : option (list Z) :=
  if (length msg mod 64 =? 56)%nat then Some msg
  else
    match fuel with
    | O => None
    | S fuel' => push_zeros fuel' (msg ++ [0])
    end.

Definition pad (data : list Z) : option (list Z) :=
  let bit_len := wrap64 (Z.of_nat (length data) * 8) in
  match push_zeros 64 (data ++ [0x80]) with
  | None => None
  | Some msg => Some (msg ++ to_be_bytes64 bit_len)
  end.

(** ** One block *)

Definition word_at (l : list Z) (i : nat) : Z := default 0 (l !! i).

Definition from_be_bytes (a b c d : Z) : Z :=
  Z.lor (Z.lor (Z.lor (Z.shiftl a 24) (Z.shiftl b 16)) (Z.shiftl c 8)) d.

Definition first_words (block : list Z) : list Z :=
  map (fun i => from_be_bytes (word_at block (i * 4)) (word_at block (i * 4 + 1))
                  (word_at block (i * 4 + 2)) (word_at block (i * 4 + 3))) (seq 0 16).

(** The words 16 .. 63, each appended to those before it. *)
Definition extend (w : list Z) (i : nat) : list Z :=
  w ++ [add32 (add32 (add32 (small_sigma1 (word_at w (i - 2))) (word_at w (i - 7)))
          (small_sigma0 (word_at w (i - 15)))) (word_at w (i - 16))].

Definition schedule (block : list Z) : list Z := fold_left extend (seq 16 48) (first_words block).

Record vars := mkVars { va : Z; vb : Z; vc : Z; vd : Z; ve : Z; vf : Z; vg : Z; vh : Z }.

Definition round (s : vars) (kw : Z * Z) : vars :=
  let t1 := add32 (add32 (add32 (add32 (vh s) (big_sigma1 (ve s))) (ch (ve s) (vf s) (vg s))) (fst kw))
              (snd kw) in
  let t2 := add32 (big_sigma0 (va s)) (maj (va s) (vb s) (vc s)) in
  mkVars (add32 t1 t2) (va s) (vb s) (vc s) (add32 (vd s) t1) (ve s) (vf s) (vg s).

Definition compress (h : list Z) (block : list Z) : list Z :=
  let w := schedule block in
  let s := mkVars (word_at h 0) (word_at h 1) (word_at h 2) (word_at h 3)
             (word_at h 4) (word_at h 5) (word_at h 6) (word_at h 7) in
  let s := fold_left round (zip K w) s in
  [add32 (word_at h 0) (va s); add32 (word_at h 1) (vb s);
   add32 (word_at h 2) (vc s); add32 (word_at h 3) (vd s);
   add32 (word_at h 4) (ve s); add32 (word_at h 5) (vf s);
   add32 (word_at h 6) (vg s); add32 (word_at h 7) (vh s)].

(** [chunks_exact(64)]: [n] full blocks from the front. *)
Fixpoint chunks (n : nat) (msg : list Z) : list (list Z) :=
  match n with
  | O => []
  | S n' => take 64 msg :: chunks n' (drop 64 msg)
  end.

(** ** Hexadecimal output *)

Definition hex_digit (d : Z) : ascii :=
  ascii_of_nat (Z.to_nat (if d <? 10 then 48 + d else 87 + d)).

(** [format!("{v:08x}")]. *)
Definition hex8 (v : Z) : list ascii :=
  map (fun k => hex_digit (Z.land (Z.shiftr v (4 * k)) 0xF)) [7; 6; 5; 4; 3; 2; 1; 0].

Definition digest (data : list Z) : option (list Z) :=
  match pad data with
  | None => None
  | Some msg => Some (fold_left compress (chunks (length msg / 64) msg) H_INIT)
  end.

Definition sha256_hex_opt (data : list Z) : option string :=
  match digest data with
  | None => None
  | Some h => Some (String.string_of_list_ascii (flat_map hex8 h))
  end.

(** The function itself: the padding loop always ends ([pad_total] below). *)
Definition sha256_hex (data : list Z) : string := default EmptyString (sha256_hex_opt data).

(** ** The padding loop ends on a block boundary *)

Lemma push_zeros_run k : forall fuel msg,
  (k <= fuel)%nat -> (k < 64)%nat -> ((length msg + k) mod 64 = 56)%nat ->
  push_zeros fuel msg = Some (msg ++ replicate k 0).
Proof.
  induction k as [|k IH]; intros fuel msg Hf Hk Hm.
  - rewrite Nat.add_0_r in Hm. simpl replicate. rewrite app_nil_r.
    destruct fuel; cbn [push_zeros]; rewrite Hm; reflexivity.
  - destruct fuel as [|fuel]; [lia|]. cbn [push_zeros].
    destruct (Nat.eqb_spec (length msg mod 64) 56) as [E|_].
    + exfalso. pose proof (Nat.div_mod_eq (length msg) 64).
      pose proof (Nat.div_mod_eq (length msg + S k) 64). lia.
    + rewrite (IH fuel (msg ++ [0])); [|lia|lia|].
      * rewrite <- app_assoc. reflexivity.
      * rewrite length_app. change (length [0]) with 1%nat.
        replace (length msg + 1 + k)%nat with (length msg + S k)%nat by lia. exact Hm.
Qed.

(** The padded message: the data, the bit 1, fewer than 64 zero bytes and the
    length, filling whole blocks. *)
Lemma pad_total data :
  exists k, pad data = Some (data ++ [0x80] ++ replicate k 0 ++
                               to_be_bytes64 (wrap64 (Z.of_nat (length data) * 8))) /\
    (k < 64)%nat /\ ((length data + 1 + k + 8) mod 64 = 0)%nat.
Proof.
  set (n := (length data + 1)%nat).
  assert (Hk : exists k, (k < 64)%nat /\ ((n + k) mod 64 = 56)%nat).
  { pose proof (Nat.mod_upper_bound n 64 ltac:(lia)).
    pose proof (Nat.div_mod_eq n 64).
    destruct (decide (n mod 64 <= 56)%nat) as [L|L].
    - exists (56 - n mod 64)%nat. split; [lia|].
      symmetry. apply (Nat.mod_unique _ _ (n / 64)); lia.
    - exists (120 - n mod 64)%nat. split; [lia|].
      symmetry. apply (Nat.mod_unique _ _ (n / 64 + 1)); lia. }
  destruct Hk as (k & Hk & Hm). exists k. split_and!; [|exact Hk|].
  - unfold pad. rewrite (push_zeros_run k); [|lia|lia|].
    + rewrite <- !app_assoc. reflexivity.
    + rewrite length_app. exact Hm.
  - pose proof (Nat.div_mod_eq (n + k) 64).
    symmetry. apply (Nat.mod_unique _ _ ((n + k) / 64 + 1)); lia.
Qed.

(** ** The output is always 64 lowercase hexadecimal digits *)

Definition is_hex (c : ascii) : bool :=
  let n := nat_of_ascii c in
  ((48 <=? n) && (n <=? 57) || (97 <=? n) && (n <=? 102))%nat.

Lemma compress_length h b : length (compress h b) = 8%nat.
Proof. reflexivity. Qed.

Lemma fold_compress_length bs : forall h,
  length h = 8%nat -> length (fold_left compress bs h) = 8%nat.
Proof.
  induction bs as [|b bs IH]; intros h Hh; [exact Hh|].
  apply IH, compress_length.
Qed.

Lemma hex_digit_is_hex d : 0 <= d < 16 -> is_hex (hex_digit d) = true.
Proof.
  intros H. assert (Hd : Forall (fun d => is_hex (hex_digit d) = true)
    [0;1;2;3;4;5;6;7;8;9;10;11;12;13;14;15]) by (repeat constructor).
  rewrite Forall_forall in Hd. apply Hd.
  assert (d = 0 \/ d = 1 \/ d = 2 \/ d = 3 \/ d = 4 \/ d = 5 \/ d = 6 \/ d = 7 \/ d = 8 \/
          d = 9 \/ d = 10 \/ d = 11 \/ d = 12 \/ d = 13 \/ d = 14 \/ d = 15) as Hc by lia.
  rewrite list_elem_of_In. simpl. intuition.
Qed.

Lemma hex8_all_hex v : Forall (fun c => is_hex c = true) (hex8 v).
Proof.
  unfold hex8. apply Forall_map, Forall_forall. intros k _.
  apply hex_digit_is_hex. change 0xF with (Z.ones 4). rewrite Z.land_ones by lia.
  apply Z.mod_pos_bound. lia.
Qed.

Lemma flat_hex8 h :
  Forall (fun c => is_hex c = true) (flat_map hex8 h) /\
  length (flat_map hex8 h) = (8 * length h)%nat.
Proof.
  induction h as [|v h [IH1 IH2]]; [split; [constructor|reflexivity]|].
  cbn [flat_map]. split.
  - apply Forall_app. split; [apply hex8_all_hex|exact IH1].
  - rewrite length_app, IH2. change (length (hex8 v)) with 8%nat. simpl length. lia.
Qed.

Lemma sha256_hex_shape data :
  exists cs, sha256_hex data = String.string_of_list_ascii cs /\
    length cs = 64%nat /\ Forall (fun c => is_hex c = true) cs.
Proof.
  unfold sha256_hex, sha256_hex_opt, digest.
  destruct (pad_total data) as (k & -> & _). cbn [default].
  eexists. split; [reflexivity|].
  match goal with |- context [flat_map hex8 ?h] =>
    destruct (flat_hex8 h) as [Hx Hl]; set (hh := h) in * end.
  split; [|exact Hx]. rewrite Hl. unfold hh. rewrite fold_compress_length by reflexivity. reflexivity.
Qed.

(** Two published vectors, computed by the model. *)
Example sha256_abc :
  sha256_hex [97; 98; 99] = "ba7816bf8f01cfea414140de5dae2223b00361a396177a9cb410ff61f20015ad".
Proof. vm_compute. reflexivity. Qed.

Example sha256_empty :
  sha256_hex [] = "e3b0c44298fc1c149afbf4c8996fb92427ae41e4649b934ca495991b7852b855".
Proof. vm_compute. reflexivity. Qed.

End Sha256.
