(* ===== verification/AuditTrail.v ===== *)
(** The audit trail of src/src/sentinel/audit.rs: the hash chain, recording and
    verification, and what a verifying chain does and does not prove about the
    entries in it.  Operations are whole-function steps on the state that the
    lock protects. *)

From Stdlib Require Import ZArith Lia Ascii.
From stdpp Require Import base list strings pretty.
From S2P Require Import Prelude Sha256.

Open Scope Z_scope.

Module Audit.
Import Sha256.

Record AuditEntry := mkEntry {
  e_sequence : Z;
  e_timestamp : Z;
  e_actor : string;
  e_action : string;
  e_target : string;
  e_hash : string;
  e_prev_hash : string
}.

Record AuditInner := mkAudit {
  entries : list AuditEntry;
  last_hash : string;
  sequence : Z
}.

Definition new : AuditInner := mkAudit [] EmptyString 0.

(** [str::as_bytes]: a string is the list of its bytes. *)
Definition as_bytes (s : string) : list Z :=
  map (fun c => Z.of_nat (nat_of_ascii c)) (String.list_ascii_of_string s).

(** ["0".repeat(64)]. *)
Definition genesis : string := String.string_of_list_ascii (replicate 64 "0"%char).

(** The [format!] of both [record] and [verify]. *)
Definition payload (seq timestamp : Z) (actor action target prev : string) : string :=
  (pretty seq +:+ "|" +:+ pretty timestamp +:+ "|" +:+ actor +:+ "|" +:+
   action +:+ "|" +:+ target +:+ "|" +:+ prev)%string.

Definition record (timestamp : Z) (actor action target : string) (g : AuditInner)
  : string * AuditInner :=
  let seq := add64 (sequence g) 1 in
  let prev := if bool_decide (last_hash g = EmptyString) then genesis else last_hash g in
  let hash := sha256_hex (as_bytes (payload seq timestamp actor action target prev)) in
  let entry := mkEntry seq timestamp actor action target hash prev in
  (hash, mkAudit (entries g ++ [entry]) hash seq).

Definition entry_payload (e : AuditEntry) : string :=
  payload (e_sequence e) (e_timestamp e) (e_actor e) (e_action e) (e_target e) (e_prev_hash e).

Definition computed (e : AuditEntry) : string := sha256_hex (as_bytes (entry_payload e)).

Definition chain_broken (expected_prev : string) (e : AuditEntry) : string :=
  ("chain broken at sequence " +:+ pretty (e_sequence e) +:+ ": expected prev_hash " +:+
   expected_prev +:+ ", got " +:+ e_prev_hash e)%string.

Definition hash_mismatch (e : AuditEntry) : string :=
  ("hash mismatch at sequence " +:+ pretty (e_sequence e) +:+ ": computed " +:+
   computed e +:+ ", stored " +:+ e_hash e)%string.

Fixpoint verify_from (expected_prev : string) (es : list AuditEntry) : result unit string :=
  match es with
  | [] => Ok tt
  | e :: es' =>
      if negb (bool_decide (e_prev_hash e = expected_prev)) then Err (chain_broken expected_prev e)
      else if negb (bool_decide (computed e = e_hash e)) then Err (hash_mismatch e)
      else verify_from (e_hash e) es'
  end.

Definition verify (g : AuditInner) : result Z string :=
  try _ := verify_from genesis (entries g) in Ok (Z.of_nat (length (entries g))).

Definition snapshot (g : AuditInner) : list AuditEntry := entries g.
Definition len (g : AuditInner) : Z := Z.of_nat (length (entries g)).
Definition is_empty (g : AuditInner) : bool := bool_decide (entries g = []).

(** A sequence of [record] calls: timestamp, actor, action, target. *)
Definition request := (Z * string * string * string)%type.

Definition record_one (g : AuditInner) (r : request) : AuditInner :=
  let '(ts, actor, action, target) := r in snd (record ts actor action target g).

Definition record_all (g : AuditInner) (rs : list request) : AuditInner :=
  fold_left record_one rs g.

(** ** The chain predicate *)

Definition last_of (prev : string) (es : list AuditEntry) : string :=
  default prev (e_hash <$> last es).

Inductive Chain (prev : string) : list AuditEntry -> Prop :=
| Chain_nil : Chain prev []
| Chain_cons e es :
    e_prev_hash e = prev -> computed e = e_hash e -> Chain (e_hash e) es ->
    Chain prev (e :: es).

Lemma verify_from_ok prev es : verify_from prev es = Ok tt <-> Chain prev es.
Proof.
  revert prev. induction es as [|e es IH]; intros prev; simpl.
  - split; [constructor|reflexivity].
  - destruct (bool_decide_reflect (e_prev_hash e = prev)) as [E1|E1]; simpl.
    + destruct (bool_decide_reflect (computed e = e_hash e)) as [E2|E2]; simpl.
      * rewrite IH. split; [by constructor|by inversion 1].
      * split; [discriminate|by inversion 1].
    + split; [discriminate|by inversion 1].
Qed.

Lemma verify_ok g n :
  verify g = Ok n <-> Chain genesis (entries g) /\ n = Z.of_nat (length (entries g)).
Proof.
  unfold verify. rewrite <- verify_from_ok.
  destruct (verify_from genesis (entries g)) as [[]|m]; naive_solver.
Qed.

Lemma last_of_snoc prev es e : last_of prev (es ++ [e]) = e_hash e.
Proof. unfold last_of. rewrite last_snoc. reflexivity. Qed.

Lemma last_of_cons prev e es : last_of prev (e :: es) = last_of (e_hash e) es.
Proof. unfold last_of. destruct es; [reflexivity|]. rewrite last_cons_cons.
  destruct (last (a :: es)) eqn:E; [reflexivity|]. by apply last_None in E. Qed.

Lemma Chain_app prev es fs :
  Chain prev (es ++ fs) <-> Chain prev es /\ Chain (last_of prev es) fs.
Proof.
  revert prev. induction es as [|e es IH]; intros prev.
  - simpl. split; [intros H; split; [constructor|exact H]|intros [_ H]; exact H].
  - rewrite last_of_cons. simpl. split.
    + inversion 1 as [|? ? ? ? Hc]; subst. apply IH in Hc as [? ?].
      split; [by constructor|done].
    + intros [H ?]. inversion H; subst. constructor; [done|done|]. by apply IH.
Qed.

(** ** Strings without a separator *)

Fixpoint no_pipe (s : string) : bool :=
  match s with
  | EmptyString => true
  | String a s' => negb (bool_decide (a = "|"%char)) && no_pipe s'
  end.

Lemma no_pipe_split s1 : forall s2 r1 r2,
  no_pipe s1 = true -> no_pipe s2 = true ->
  (s1 +:+ "|" +:+ r1 = s2 +:+ "|" +:+ r2)%string -> s1 = s2 /\ r1 = r2.
Proof.
  induction s1 as [|a s1 IH]; intros [|b s2] r1 r2; simpl; intros N1 N2 E.
  - injection E. auto.
  - injection E as Ea _. rewrite <- Ea in N2. discriminate.
  - injection E as Ea _. rewrite Ea in N1. discriminate.
  - apply andb_true_iff in N1 as [_ N1]. apply andb_true_iff in N2 as [_ N2].
    injection E as Ea Et. destruct (IH s2 r1 r2 N1 N2 Et) as [-> ->]. by rewrite Ea.
Qed.

Lemma append_assoc (a b c : string) : ((a +:+ b) +:+ c = a +:+ (b +:+ c))%string.
Proof. induction a as [|x a IH]; [reflexivity|]. exact (f_equal (String x) IH). Qed.

Lemma pretty_N_char_no_pipe x : pretty_N_char x <> "|"%char.
Proof. unfold pretty_N_char. by repeat case_match. Qed.

Lemma pretty_N_go_no_pipe x : forall s, no_pipe s = true -> no_pipe (pretty_N_go x s) = true.
Proof.
  induction (N.lt_wf_0 x) as [x _ IH]; intros s Hs.
  assert (x = 0 \/ 0 < x)%N as [->|Hx] by lia; [by rewrite pretty_N_go_0|].
  rewrite pretty_N_go_step by done. apply IH; [by apply N.div_lt|].
  cbn [no_pipe]. rewrite Hs, bool_decide_eq_false_2 by apply pretty_N_char_no_pipe. reflexivity.
Qed.

Lemma pretty_Z_no_pipe (z : Z) : no_pipe (pretty z) = true.
Proof.
  assert (HN : forall n : N, no_pipe (pretty n) = true).
  { intros n. unfold pretty, pretty_N. case_decide; [reflexivity|]. by apply pretty_N_go_no_pipe. }
  destruct z as [|x|x]; [reflexivity|apply (HN (Npos x))|].
  change (no_pipe ("-" +:+ pretty (Npos x)) = true). simpl. apply (HN (Npos x)).
Qed.

(** The free-text fields of an entry have no separator in them. *)
Definition clean (e : AuditEntry) : bool :=
  no_pipe (e_actor e) && no_pipe (e_action e) && no_pipe (e_target e).

Lemma as_bytes_inj s t : as_bytes s = as_bytes t -> s = t.
Proof.
  unfold as_bytes. revert t. induction s as [|a s IH]; intros [|b t]; simpl; try discriminate; [done|].
  intros E. injection E as Ea Et. rewrite (IH t Et). f_equal.
  rewrite <- (ascii_nat_embedding a), <- (ascii_nat_embedding b). f_equal. lia.
Qed.

Lemma payload_inj e f :
  clean e = true -> clean f = true -> entry_payload e = entry_payload f ->
  e_hash e = e_hash f -> e = f.
Proof.
  unfold clean, entry_payload, payload. rewrite !andb_true_iff.
  destruct e as [s1 t1 a1 c1 g1 h1 p1], f as [s2 t2 a2 c2 g2 h2 p2]. simpl.
  intros [[A1 C1] G1] [[A2 C2] G2] E Hh.
  apply no_pipe_split in E as [Es E]; [|apply pretty_Z_no_pipe..].
  apply no_pipe_split in E as [Et E]; [|apply pretty_Z_no_pipe..].
  apply no_pipe_split in E as [-> E]; [|assumption..].
  apply no_pipe_split in E as [-> E]; [|assumption..].
  apply no_pipe_split in E as [-> ->]; [|assumption..].
  apply (inj pretty) in Es, Et. by subst.
Qed.

(** ** Recording *)

Lemma sha256_hex_nonempty d : sha256_hex d <> EmptyString.
Proof.
  destruct (sha256_hex_shape d) as (cs & -> & Hl & _). destruct cs; [discriminate Hl|]. discriminate.
Qed.

(** The state that recording maintains: the stored hash is the last link, or
    empty on an empty trail, and the counter is the number of entries. *)
Record Recorded (g : AuditInner) : Prop := {
  rec_chain : Chain genesis (entries g);
  rec_last : last_hash g = last_of EmptyString (entries g);
  rec_nonempty : entries g <> [] -> last_hash g <> EmptyString;
  rec_sequence : sequence g = wrap64 (Z.of_nat (length (entries g)))
}.

Lemma recorded_prev g :
  Recorded g ->
  (if bool_decide (last_hash g = EmptyString) then genesis else last_hash g) =
  last_of genesis (entries g).
Proof.
  intros [_ Hl Hn _]. destruct (entries g) as [|e es] eqn:E.
  - rewrite Hl. reflexivity.
  - rewrite bool_decide_eq_false_2 by (apply Hn; discriminate).
    rewrite Hl, !last_of_cons. reflexivity.
Qed.

Lemma new_recorded : Recorded new.
Proof. constructor; simpl; [constructor|reflexivity|done|reflexivity]. Qed.

Lemma record_one_recorded g r : Recorded g -> Recorded (record_one g r).
Proof.
  intros H. destruct r as [[[ts actor] action] target].
  pose proof (recorded_prev g H) as Hp. destruct H as [Hc Hl Hn Hs].
  unfold record_one, record. cbn [snd]. rewrite Hp. constructor; cbn [entries last_hash sequence].
  - apply Chain_app. split; [exact Hc|]. constructor; [reflexivity|reflexivity|constructor].
  - rewrite last_of_snoc. reflexivity.
  - intros _. apply sha256_hex_nonempty.
  - rewrite Hs, length_app. cbn [length]. unfold add64, wrap64, U64.
    rewrite Zplus_mod_idemp_l. f_equal. lia.
Qed.

Lemma record_all_recorded rs : forall g, Recorded g -> Recorded (record_all g rs).
Proof.
  induction rs as [|r rs IH]; intros g H; [exact H|].
  apply (IH (record_one g r)), record_one_recorded, H.
Qed.

(** What an entry says of the call that made it. *)
Definition tells (i : nat) (r : request) (e : AuditEntry) : Prop :=
  e_sequence e = wrap64 (Z.of_nat i + 1) /\
  r = (e_timestamp e, e_actor e, e_action e, e_target e).

Lemma record_one_entries g r :
  Recorded g -> exists e, entries (record_one g r) = entries g ++ [e] /\
    tells (length (entries g)) r e /\ last_hash (record_one g r) = e_hash e.
Proof.
  intros H. destruct r as [[[ts actor] action] target].
  unfold record_one, record. cbn [snd entries last_hash].
  eexists. split; [reflexivity|]. split; [|reflexivity]. unfold tells.
  cbn [e_sequence e_timestamp e_actor e_action e_target].
  split; [|reflexivity]. rewrite (rec_sequence g H).
  unfold add64, wrap64, U64. rewrite Zplus_mod_idemp_l. reflexivity.
Qed.

Lemma record_all_entries rs : forall g,
  Recorded g -> exists es, entries (record_all g rs) = entries g ++ es /\
    length es = length rs /\
    (forall i r, rs !! i = Some r ->
       exists e, es !! i = Some e /\ tells (length (entries g) + i) r e).
Proof.
  induction rs as [|r rs IH]; intros g H.
  - exists []. rewrite app_nil_r. split_and!; [reflexivity..|]. intros i ? Hi. discriminate.
  - destruct (record_one_entries g r H) as (e & He & Ht & _).
    destruct (IH _ (record_one_recorded g r H)) as (es & Hes & Hlen & Hall).
    exists (e :: es). simpl record_all. fold (record_all (record_one g r) rs).
    rewrite Hes, He, <- app_assoc. split_and!; [reflexivity|simpl; lia|].
    intros [|i] r' Hi; simpl in Hi.
    + injection Hi as <-. exists e. rewrite Nat.add_0_r. split; [reflexivity|exact Ht].
    + destruct (Hall i r' Hi) as (e' & He' & Ht'). exists e'. split; [exact He'|].
      revert Ht'. rewrite He, length_app. cbn [length].
      replace (length (entries g) + 1 + i)%nat with (length (entries g) + S i)%nat by lia. done.
Qed.

Lemma record_all_verifies rs : verify (record_all new rs) = Ok (Z.of_nat (length rs)).
Proof.
  destruct (record_all_entries rs new new_recorded) as (es & Hes & Hlen & _). simpl in Hes.
  apply verify_ok. split; [apply (record_all_recorded rs new new_recorded)|]. by rewrite Hes, Hlen.
Qed.

(** C26.  Recording is faithful and append-only: after any sequence of calls the
    trail verifies with one entry per call, entry [i] carries sequence number
    [i+1] (at 64 bits) and exactly the fields of call [i], the stored last hash
    is the hash of the last entry, and further calls leave every earlier entry
    as it was. *)
Theorem recorded_trail_verifies rs :
  let g := record_all new rs in
  verify g = Ok (Z.of_nat (length rs)) /\
  len g = Z.of_nat (length rs) /\
  last_hash g = last_of EmptyString (entries g) /\
  (forall i r, rs !! i = Some r -> exists e, snapshot g !! i = Some e /\ tells i r e) /\
  (forall more, exists es, snapshot (record_all g more) = snapshot g ++ es).
Proof.
  intros g. pose proof (record_all_recorded rs new new_recorded) as Hg. fold g in Hg.
  destruct (record_all_entries rs new new_recorded) as (es & Hes & Hlen & Hall).
  fold g in Hes. simpl in Hes. split_and!.
  - apply record_all_verifies.
  - unfold len. rewrite Hes. by rewrite Hlen.
  - apply Hg.
  - intros i r Hi. unfold snapshot. rewrite Hes. exact (Hall i r Hi).
  - intros more. destruct (record_all_entries more g Hg) as (fs & Hfs & _).
    exists fs. exact Hfs.
Qed.

(** ** Verification *)

(**  Every branch of verification: it accepts exactly the trails in which
    each entry's predecessor hash is the previous entry's hash (64 zeros for
    the first) and each stored hash recomputes, and then reports their number;
    otherwise the links before some entry hold, and the error names that entry
    and the one check it fails. *)
Theorem verify_every_branch g :
  match verify g with
  | Ok n => Chain genesis (entries g) /\ n = len g
  | Err m => exists i e, entries g !! i = Some e /\ Chain genesis (take i (entries g)) /\
      let prev := last_of genesis (take i (entries g)) in
      (e_prev_hash e <> prev /\ m = chain_broken prev e) \/
      (e_prev_hash e = prev /\ computed e <> e_hash e /\ m = hash_mismatch e)
  end.
Proof.
  unfold verify, len. generalize genesis as prev. induction (entries g) as [|e es IH]; intros prev.
  - simpl. split; [constructor|reflexivity].
  - cbn [verify_from].
    destruct (bool_decide_reflect (e_prev_hash e = prev)) as [E1|E1]; cbn [negb].
    + destruct (bool_decide_reflect (computed e = e_hash e)) as [E2|E2]; cbn [negb].
      * specialize (IH (e_hash e)). destruct (verify_from (e_hash e) es) as [[]|m].
        -- destruct IH as [Hc _]. split; [by constructor|reflexivity].
        -- destruct IH as (i & f & Hi & Hc & Hm). exists (S i), f.
           split; [exact Hi|]. split; [by constructor|].
           rewrite firstn_cons, last_of_cons. exact Hm.
      * exists 0%nat, e. split_and!; [reflexivity|constructor|right; done].
    + exists 0%nat, e. split_and!; [reflexivity|constructor|left; done].
Qed.

(** ** What an accepted chain proves *)

(** An entry of each trail at the same distance from the end whose payloads
    differ although their hashes agree: a collision of SHA-256. *)
Definition colliding (es fs : list AuditEntry) : Prop :=
  exists e f, e ∈ es /\ f ∈ fs /\ entry_payload e <> entry_payload f /\
    sha256_hex (as_bytes (entry_payload e)) = sha256_hex (as_bytes (entry_payload f)).

(** An entry that hashes to the 64 zeros that stand for "no predecessor". *)
Definition zero_preimage (es : list AuditEntry) : Prop :=
  exists e, e ∈ es /\ sha256_hex (as_bytes (entry_payload e)) = genesis.

Lemma Chain_snoc prev es e :
  Chain prev (es ++ [e]) <->
  Chain prev es /\ e_prev_hash e = last_of prev es /\ computed e = e_hash e.
Proof.
  rewrite Chain_app. split.
  - intros [? H]. inversion H; subst. done.
  - intros (? & ? & ?). split; [done|]. constructor; [done|done|constructor].
Qed.

(** Everything of an entry but how its text fields are divided. *)
Definition same_record (e f : AuditEntry) : Prop :=
  e_sequence e = e_sequence f /\ e_timestamp e = e_timestamp f /\ e_prev_hash e = e_prev_hash f /\
  e_hash e = e_hash f /\ entry_payload e = entry_payload f.

Lemma length_append_string a b : String.length (a +:+ b) = (String.length a + String.length b)%nat.
Proof. induction a as [|c a IH]; [reflexivity|]. simpl. by rewrite IH. Qed.

Lemma append_same_suffix a : forall b p q, (a +:+ p = b +:+ q)%string -> String.length p = String.length q -> p = q.
Proof.
  induction a as [|c a IH]; intros [|d b] p q E L; simpl in E.
  - exact E.
  - apply (f_equal String.length) in E. rewrite !length_append_string in E. simpl in E. rewrite ?length_append_string in E. lia.
  - apply (f_equal String.length) in E. rewrite !length_append_string in E. simpl in E. rewrite ?length_append_string in E. lia.
  - injection E as _ E. exact (IH b p q E L).
Qed.

Lemma payload_same_record e f :
  String.length (e_prev_hash e) = String.length (e_prev_hash f) -> e_hash e = e_hash f ->
  entry_payload e = entry_payload f -> same_record e f.
Proof.
  intros L Hh E. pose proof E as E0. unfold entry_payload, payload in E.
  apply no_pipe_split in E as [Es E]; [|apply pretty_Z_no_pipe..].
  apply no_pipe_split in E as [Et E]; [|apply pretty_Z_no_pipe..].
  apply (inj pretty) in Es, Et. rewrite <- !append_assoc in E. apply append_same_suffix in E; [|exact L].
  by split_and!.
Qed.

Lemma last_of_length es : Chain genesis es -> String.length (last_of genesis es) = 64%nat.
Proof.
  destruct es as [|e es _] using rev_ind; [reflexivity|]. intros H. apply Chain_snoc in H as (_ & _ & H).
  rewrite last_of_snoc, <- H. unfold computed. destruct (sha256_hex_shape (as_bytes (entry_payload e))) as (cs & -> & Hl & _).
  rewrite <- Hl. clear. induction cs as [|c cs IH]; [reflexivity|]. simpl. by rewrite IH.
Qed.

Lemma chains_agree es : forall fs,
  Chain genesis es -> Chain genesis fs -> last_of genesis es = last_of genesis fs ->
  Forall2 same_record es fs \/ colliding es fs \/ zero_preimage es \/ zero_preimage fs.
Proof.
  induction es as [|e es IH] using rev_ind; intros fs He Hf HL;
    destruct fs as [|f fs _] using rev_ind.
  - left. constructor.
  - right; right; right. apply Chain_snoc in Hf as (_ & _ & Hh).
    exists f. split; [apply elem_of_app; right; by apply list_elem_of_singleton|].
    rewrite last_of_snoc in HL. unfold computed in Hh. rewrite Hh, <- HL. reflexivity.
  - right; right; left. apply Chain_snoc in He as (_ & _ & Hh).
    exists e. split; [apply elem_of_app; right; by apply list_elem_of_singleton|].
    rewrite last_of_snoc in HL. unfold computed in Hh. rewrite Hh, HL. reflexivity.
  - rewrite !last_of_snoc in HL.
    apply Chain_snoc in He as (He & Pe & Hhe), Hf as (Hf & Pf & Hhf).
    destruct (decide (entry_payload e = entry_payload f)) as [Ep|Ep].
    + assert (Hs : same_record e f).
      { apply payload_same_record; [|exact HL|exact Ep]. by rewrite Pe, Pf, !last_of_length. }
      destruct (IH fs He Hf) as [H|[(x & y & Hx & Hy & Hxy)|[(x & Hx & Hz)|(x & Hx & Hz)]]].
      * rewrite <- Pe, <- Pf. apply Hs.
      * left. apply Forall2_app; [exact H|]. constructor; [exact Hs|constructor].
      * right; left. exists x, y. rewrite !elem_of_app. auto.
      * right; right; left. exists x. rewrite elem_of_app. auto.
      * right; right; right. exists x. rewrite elem_of_app. auto.
    + right; left. exists e, f. rewrite !elem_of_app, !list_elem_of_singleton.
      split_and!; [auto|auto|exact Ep|].
      unfold computed in Hhe, Hhf. rewrite Hhe, Hhf. exact HL.
Qed.

Lemma same_record_clean es fs :
  Forall2 same_record es fs -> Forall (fun e => clean e = true) es -> Forall (fun e => clean e = true) fs -> es = fs.
Proof.
  induction 1 as [|e f es fs (_ & _ & _ & Hh & Hp) _ IH]; intros He Hf; [done|].
  inversion He; inversion Hf; subst. f_equal; [by apply payload_inj|by apply IH].
Qed.

(** C10.  Tamper evidence: let two trails both verify and end in the same hash, and
    let neither a SHA-256 collision between two of their payloads nor a payload that
    hashes to 64 zeros be among their entries.  Then they have as many entries, and
    entry by entry the same sequence number, time, hashes and hashed text; the only
    freedom left is where the text is cut into actor, action and target, which the
    unescaped bars do not fix, and if no text field contains a bar the trails are
    equal.  So whoever keeps the last hash detects any other change of an entry, of
    their order or of their number. *)
Theorem last_hash_pins_the_trail g g' n n' :
  verify g = Ok n -> verify g' = Ok n' ->
  last_of genesis (entries g) = last_of genesis (entries g') ->
  (Forall2 same_record (snapshot g) (snapshot g') /\
   (Forall (fun e => clean e = true) (entries g) -> Forall (fun e => clean e = true) (entries g') ->
    snapshot g = snapshot g')) \/
  colliding (entries g) (entries g') \/ zero_preimage (entries g) \/ zero_preimage (entries g').
Proof.
  intros [H _]%verify_ok [H' _]%verify_ok HL. destruct (chains_agree _ _ H H' HL) as [Hs|Hbad]; [left|by right].
  split; [exact Hs|]. by apply same_record_clean.
Qed.

(** Two trails that differ by a bar moved from the actor to the action: both verify
    with the same hash, and the theorem says what they share. *)
Lemma last_hash_pins_the_trail_witness :
  let g := record_one new (7, "ops|root"%string, "login"%string, "tty"%string) in
  let moved e := mkEntry (e_sequence e) (e_timestamp e) "ops" "root|login" (e_target e) (e_hash e) (e_prev_hash e) in
  let g' := mkAudit (map moved (entries g)) (last_hash g) (sequence g) in
  verify g = Ok 1 /\ verify g' = Ok 1 /\
  (Forall2 same_record (snapshot g) (snapshot g') \/
   colliding (entries g) (entries g') \/ zero_preimage (entries g) \/ zero_preimage (entries g')).
Proof.
  intros g moved g'. assert (Hv : verify g = Ok 1) by (vm_compute; reflexivity).
  assert (Hv' : verify g' = Ok 1) by (vm_compute; reflexivity).
  split; [exact Hv|]. split; [exact Hv'|].
  destruct (last_hash_pins_the_trail g g' 1 1 Hv Hv' ltac:(vm_compute; reflexivity)) as [[H _]|H]; [by left|by right].
Defined.

(** ** What it does not prove *)

(**  The separator is not escaped: moving a bar between two fields gives the
    same payload, so any entry of a verifying trail whose actor contains one can
    be replaced by a different entry, with the same hash, and the whole trail
    still verifies with the same count. *)
Theorem pipe_shift_undetected es fs seq ts a b action target h prev lh s n :
  let e := mkEntry seq ts (a +:+ "|" +:+ b) action target h prev in
  let f := mkEntry seq ts a (b +:+ "|" +:+ action) target h prev in
  e <> f /\
  (verify (mkAudit (es ++ e :: fs) lh s) = Ok n ->
   verify (mkAudit (es ++ f :: fs) lh s) = Ok n).
Proof.
  intros e f. assert (Hne : forall x y : string, x +:+ "|" +:+ y <> x).
  { intros x y. induction x as [|c x IH]; simpl; [discriminate|]. intros E. injection E. exact IH. }
  assert (Hp : entry_payload e = entry_payload f).
  { unfold entry_payload, payload, e, f. cbn.
    rewrite !append_assoc. reflexivity. }
  split; [intros E; apply (f_equal e_actor) in E; exact (Hne a b E)|].
  rewrite !verify_ok. cbn [entries]. rewrite !length_app. intros [Hc ->].
  split; [|reflexivity]. apply Chain_app in Hc as [H1 H2]. apply Chain_app. split; [exact H1|].
  inversion H2 as [|? ? P1 P2 P3]; subst. constructor; [exact P1| |exact P3].
  unfold computed in *. rewrite <- Hp. exact P2.
Qed.

Lemma pipe_shift_undetected_witness :
  let e := record 1 "ops|root" "login" "tty" new in
  verify (snd e) = Ok 1 /\
  verify (mkAudit [mkEntry 1 1 "ops" "root|login" "tty" (fst e) genesis] (fst e) 1) = Ok 1.
Proof.
  intros e. assert (Hv : verify (snd e) = Ok 1).
  { apply verify_ok. split; [|reflexivity].
    apply (record_one_recorded new (1, "ops|root"%string, "login"%string, "tty"%string) new_recorded). }
  split; [exact Hv|].
  exact (proj2 (pipe_shift_undetected [] [] 1 1 "ops" "root" "login" "tty" (fst e) genesis (fst e) 1 1) Hv).
Defined.

(**  Verification reads neither the stored last hash nor the counter: a
    trail cut anywhere still verifies, with the smaller count, whatever the
    other two fields hold. *)
Theorem tail_truncation_undetected g k n lh s :
  verify g = Ok n ->
  verify (mkAudit (take k (entries g)) lh s) = Ok (Z.min (Z.of_nat k) n).
Proof.
  rewrite !verify_ok. intros [H ->]. cbn [entries]. split.
  - rewrite <- (take_drop k (entries g)) in H. by apply Chain_app in H as [H _].
  - rewrite length_take. lia.
Qed.

Lemma tail_truncation_undetected_witness :
  let g := record_all new [(1, "k"%string, "x"%string, "a"%string); (2, "k"%string, "y"%string, "a"%string)] in
  verify (mkAudit (take 1 (entries g)) (last_hash g) (sequence g)) = Ok 1.
Proof.
  intros g. apply (tail_truncation_undetected g 1 2 (last_hash g) (sequence g)).
  apply verify_ok. split; [apply (record_all_recorded _ new new_recorded)|reflexivity].
Defined.

End Audit.
