(* ===== verification/ConfigBuffer.v ===== *)
(** The migration buffer of src/src/safemode/sentinel_config.rs: the tuning
    record of the monitor, the sealed hand-off record with its byte layout in
    the reserved page, and the SHA-256 seal.  A float is its 32-bit pattern:
    everything here copies, stores and compares floats by their bits. *)

From Stdlib Require Import ZArith Lia Ascii.
From stdpp Require Import base list strings.
From S2P Require Import Prelude Sha256 AuditTrail.

Open Scope Z_scope.

Create HintDb bytes.

Module ConfigBuffer.
Import Sha256 Audit.

(** ** Thresholds (monitor.rs) *)

Record Thresholds := mkThresholds {
  t_repetition : Z;
  t_self_referential : Z;
  t_token_velocity : Z;
  t_tool_retry : Z;
  t_soft : Z;
  t_medium : Z;
  t_hard : Z;
  t_window : Z
}.

(** 0.6, 0.5, 0.5, 0.4, then 0.4, 0.7, 0.9, rounded to binary32. *)
Definition default_config : Thresholds :=
  mkThresholds 0x3F19999A 0x3F000000 0x3F000000 0x3ECCCCCD 0x3ECCCCCD 0x3F333333 0x3F666666 16.

(** ** The buffer *)

Definition MIGRATION_BUFFER_ADDR : Z := 0x44000000.
Definition MIGRATION_BUFFER_SIZE : Z := 4096.
Definition MIGRATION_MAGIC : Z := 0x474C4D4D49475231.
Definition MIGRATION_VERSION : Z := 1.

Record MigrationBuffer := mkBuffer {
  magic : Z;
  version : Z;
  dirty : bool;
  reserved : list Z;
  repetition : Z;
  self_referential : Z;
  token_velocity : Z;
  tool_retry : Z;
  soft : Z;
  medium : Z;
  hard : Z;
  window : Z;
  timestamp : Z;
  checksum : list Z
}.

Definition from_thresholds (t : Thresholds) (d : bool) (ts : Z) : MigrationBuffer :=
  mkBuffer MIGRATION_MAGIC MIGRATION_VERSION d [0; 0; 0]
    (t_repetition t) (t_self_referential t) (t_token_velocity t) (t_tool_retry t)
    (t_soft t) (t_medium t) (t_hard t) (wrap32 (t_window t)) ts (replicate 32 0).

Definition to_thresholds (b : MigrationBuffer) : Thresholds :=
  mkThresholds (repetition b) (self_referential b) (token_velocity b) (tool_retry b)
    (soft b) (medium b) (hard b) (window b).

(** [to_le_bytes] of an [n]-byte integer, and its inverse. *)
Fixpoint to_le_bytes (n : nat) (x : Z) : list Z :=
  match n with
  | O => []
  | S n' => x mod 256 :: to_le_bytes n' (x / 256)
  end.

Fixpoint from_le_bytes (l : list Z) : Z :=
  match l with
  | [] => 0
  | b :: l' => b + 256 * from_le_bytes l'
  end.

Definition bool_byte (d : bool) : Z := if d then 1 else 0.

Definition checksum_payload (b : MigrationBuffer) : list Z :=
  to_le_bytes 8 (magic b) ++ to_le_bytes 4 (version b) ++ [bool_byte (dirty b)] ++
  to_le_bytes 4 (repetition b) ++ to_le_bytes 4 (self_referential b) ++
  to_le_bytes 4 (token_velocity b) ++ to_le_bytes 4 (tool_retry b) ++
  to_le_bytes 4 (soft b) ++ to_le_bytes 4 (medium b) ++ to_le_bytes 4 (hard b) ++
  to_le_bytes 4 (window b) ++ to_le_bytes 8 (timestamp b).

Definition hex_nibble (c : Z) : Z :=
  if (48 <=? c) && (c <=? 57) then c - 48
  else if (97 <=? c) && (c <=? 102) then c - 97 + 10
  else if (65 <=? c) && (c <=? 70) then c - 65 + 10
  else 0.

Definition hex64_to_bytes (hex : string) : list Z :=
  let b := as_bytes hex in
  map (fun i => let hi := hex_nibble (default 48 (b !! (2 * i)%nat)) in
                let lo := hex_nibble (default 48 (b !! (2 * i + 1)%nat)) in
                Z.lor (Z.shiftl hi 4 mod 256) lo) (seq 0 32).

Definition compute_checksum (b : MigrationBuffer) : list Z :=
  hex64_to_bytes (sha256_hex (checksum_payload b)).

Definition set_checksum (b : MigrationBuffer) (c : list Z) : MigrationBuffer :=
  mkBuffer (magic b) (version b) (dirty b) (reserved b)
    (repetition b) (self_referential b) (token_velocity b) (tool_retry b)
    (soft b) (medium b) (hard b) (window b) (timestamp b) c.

Definition seal (b : MigrationBuffer) : MigrationBuffer := set_checksum b (compute_checksum b).

Definition sealed_from_thresholds (t : Thresholds) (d : bool) (ts : Z) : MigrationBuffer :=
  seal (from_thresholds t d ts).

Definition is_valid (b : MigrationBuffer) : bool :=
  (magic b =? MIGRATION_MAGIC) && (version b =? MIGRATION_VERSION) &&
  bool_decide (checksum b = compute_checksum b).

(** [format!("{b:02x}")] over a byte string. *)
Definition hex2 (b : Z) : list ascii := [hex_digit (Z.land (Z.shiftr b 4) 0xF); hex_digit (Z.land b 0xF)].

Definition bytes_to_hex (l : list Z) : string := String.string_of_list_ascii (flat_map hex2 l).

(** ** The reserved page

    The [repr(C)] image of the record, 88 bytes, as the struct's layout table
    gives it.  A [dirty] byte other than 0 and 1 is not a [bool]: reading such a
    page as a buffer is undefined, and [decode] has no value. *)

Definition encode (b : MigrationBuffer) : list Z :=
  to_le_bytes 8 (magic b) ++ to_le_bytes 4 (version b) ++ [bool_byte (dirty b)] ++ reserved b ++
  to_le_bytes 4 (repetition b) ++ to_le_bytes 4 (self_referential b) ++
  to_le_bytes 4 (token_velocity b) ++ to_le_bytes 4 (tool_retry b) ++
  to_le_bytes 4 (soft b) ++ to_le_bytes 4 (medium b) ++ to_le_bytes 4 (hard b) ++
  to_le_bytes 4 (window b) ++ to_le_bytes 8 (timestamp b) ++ checksum b.

Definition bytes_at (off n : nat) (page : list Z) : list Z := take n (drop off page).

Definition field (off n : nat) (page : list Z) : Z := from_le_bytes (bytes_at off n page).

Definition bool_of_byte (b : Z) : option bool :=
  if b =? 0 then Some false else if b =? 1 then Some true else None.

Definition decode (page : list Z) : option MigrationBuffer :=
  match bool_of_byte (field 12 1 page) with
  | None => None
  | Some d =>
      Some (mkBuffer (field 0 8 page) (field 8 4 page) d (bytes_at 13 3 page)
              (field 16 4 page) (field 20 4 page) (field 24 4 page) (field 28 4 page)
              (field 32 4 page) (field 36 4 page) (field 40 4 page) (field 44 4 page)
              (field 48 8 page) (bytes_at 56 32 page))
  end.

Definition read_migration_buffer (page : list Z) : option MigrationBuffer := decode page.

Definition write_to_fixed_address (b : MigrationBuffer) (page : list Z) : list Z :=
  encode b ++ drop 88 page.

(** ** Bytes and integers *)

Definition is_byte (x : Z) : Prop := 0 <= x < 256.

Lemma to_le_bytes_length n x : length (to_le_bytes n x) = n.
Proof. revert x. induction n as [|n IH]; intros x; [reflexivity|]. simpl. by rewrite IH. Qed.

Lemma le_round_trip n x : 0 <= x < 256 ^ Z.of_nat n -> from_le_bytes (to_le_bytes n x) = x.
Proof.
  revert x. induction n as [|n IH]; intros x Hx; cbn [to_le_bytes from_le_bytes].
  - simpl in Hx. lia.
  - rewrite Nat2Z.inj_succ, Z.pow_succ_r in Hx by lia. rewrite IH.
    + pose proof (Z.div_mod x 256). lia.
    + split; [apply Z.div_pos; lia|apply Z.div_lt_upper_bound; lia].
Qed.

Lemma le_u32 x : is_u32 x -> from_le_bytes (to_le_bytes 4 x) = x.
Proof. intros H. apply le_round_trip. exact H. Qed.

Lemma le_u64 x : is_u64 x -> from_le_bytes (to_le_bytes 8 x) = x.
Proof. intros H. apply le_round_trip. exact H. Qed.

Lemma le_bytes_eq_u32 x y : is_u32 x -> is_u32 y -> to_le_bytes 4 x = to_le_bytes 4 y -> x = y.
Proof. intros Hx Hy E. rewrite <- (le_u32 x Hx), <- (le_u32 y Hy). by rewrite E. Qed.

Lemma le_bytes_eq_u64 x y : is_u64 x -> is_u64 y -> to_le_bytes 8 x = to_le_bytes 8 y -> x = y.
Proof. intros Hx Hy E. rewrite <- (le_u64 x Hx), <- (le_u64 y Hy). by rewrite E. Qed.

(** The fields of a buffer that fit the types of the struct. *)
Record wf_thresholds (t : Thresholds) : Prop := {
  wft_repetition : is_u32 (t_repetition t);
  wft_self_referential : is_u32 (t_self_referential t);
  wft_token_velocity : is_u32 (t_token_velocity t);
  wft_tool_retry : is_u32 (t_tool_retry t);
  wft_soft : is_u32 (t_soft t);
  wft_medium : is_u32 (t_medium t);
  wft_hard : is_u32 (t_hard t);
  wft_window : is_u32 (t_window t)
}.

Record wf_buffer (b : MigrationBuffer) : Prop := {
  wfb_magic : is_u64 (magic b);
  wfb_version : is_u32 (version b);
  wfb_reserved : length (reserved b) = 3%nat;
  wfb_thresholds : wf_thresholds (to_thresholds b);
  wfb_timestamp : is_u64 (timestamp b);
  wfb_checksum : length (checksum b) = 32%nat
}.
#[export] Hint Resolve le_u32 le_u64 wft_repetition wft_self_referential wft_token_velocity
  wft_tool_retry wft_soft wft_medium wft_hard wft_window : bytes.

(** ** The page round trip *)

Lemma decode_encode b rest : wf_buffer b -> decode (encode b ++ rest) = Some b.
Proof.
  intros [Hm Hv Hr Ht Hts Hc].
  destruct b as [m v d r f1 f2 f3 f4 f5 f6 f7 w ts c]. simpl in Hm, Hv, Hr, Hts, Hc.
  destruct r as [|r0 [|r1 [|r2 [|? ?]]]]; try discriminate Hr.
  destruct Ht as [H1 H2 H3 H4 H5 H6 H7 H8]. simpl in H1, H2, H3, H4, H5, H6, H7, H8.
  assert (Hc' : take 32 (c ++ rest) = c) by (rewrite <- Hc; apply take_app_length).
  unfold decode, field, bytes_at.
  change (drop 56 (encode (mkBuffer m v d [r0; r1; r2] f1 f2 f3 f4 f5 f6 f7 w ts c) ++ rest))
    with (c ++ rest).
  rewrite Hc'. unfold encode. cbn [magic version dirty reserved repetition self_referential
    token_velocity tool_retry soft medium hard window timestamp checksum].
  assert (Hd : bool_of_byte (from_le_bytes [bool_byte d]) = Some d) by (destruct d; reflexivity).
  match goal with |- context [bool_of_byte ?x] =>
    change (bool_of_byte x) with (bool_of_byte (from_le_bytes [bool_byte d])) end.
  rewrite Hd. do 2 f_equal.
  all: match goal with |- _ = ?x =>
         first [exact (le_u64 x ltac:(assumption)) | exact (le_u32 x ltac:(assumption)) | reflexivity] end.
Qed.

Lemma encode_length b : wf_buffer b -> length (encode b) = 88%nat.
Proof.
  intros H. unfold encode. rewrite !length_app, !to_le_bytes_length. cbn [length].
  rewrite (wfb_reserved b H), (wfb_checksum b H). reflexivity.
Qed.

Lemma read_after_write b page :
  wf_buffer b -> read_migration_buffer (write_to_fixed_address b page) = Some b.
Proof. intros H. by apply decode_encode. Qed.

Lemma write_keeps_size b page :
  wf_buffer b -> length page = Z.to_nat MIGRATION_BUFFER_SIZE ->
  length (write_to_fixed_address b page) = length page.
Proof.
  intros H Hl. unfold write_to_fixed_address.
  rewrite length_app, encode_length, length_drop by exact H.
  rewrite Hl. vm_compute. reflexivity.
Qed.

(** ** Hexadecimal *)

Lemma hex_nibble_range c : 0 <= hex_nibble c < 16.
Proof. unfold hex_nibble. repeat case_match; lia. Qed.

Lemma nibbles_byte hi lo : 0 <= hi < 16 -> 0 <= lo < 16 ->
  Z.lor (Z.shiftl hi 4 mod 256) lo = 16 * hi + lo.
Proof.
  intros Hh Hl. rewrite Z.shiftl_mul_pow2 by lia. rewrite Z.mod_small by lia.
  change (2 ^ 4) with 16. rewrite (Z.mul_comm 16).
  rewrite Z.add_nocarry_lxor, Z.lxor_lor; [reflexivity|..];
    apply Z.bits_inj_0; intros n; rewrite Z.land_spec;
    (destruct (Z.lt_ge_cases n 4) as [L|L];
     [change 16 with (2 ^ 4); rewrite Z.mul_pow2_bits_low by lia; reflexivity|
      rewrite (testbit_above lo 4) by lia; apply andb_false_r]).
Qed.

Lemma hex_char_round_trip c :
  is_hex c = true -> hex_digit (hex_nibble (Z.of_nat (nat_of_ascii c))) = c.
Proof.
  destruct c as [[] [] [] [] [] [] [] []]; intros H; first [discriminate H | reflexivity].
Qed.

Lemma hex2_nibbles hi lo : 0 <= hi < 16 -> 0 <= lo < 16 ->
  hex2 (16 * hi + lo) = [hex_digit hi; hex_digit lo].
Proof.
  intros Hh Hl. unfold hex2. change 0xF with (Z.ones 4). rewrite !Z.land_ones by lia.
  rewrite Z.shiftr_div_pow2 by lia. change (2 ^ 4) with 16. repeat f_equal.
  - rewrite (Z.mul_comm 16), Z.div_add_l by lia. rewrite (Z.div_small lo), Z.mod_small by lia. lia.
  - rewrite Z.add_comm, Z.mul_comm, Z.mod_add by lia. apply Z.mod_small. lia.
Qed.

Lemma unhex_rehex cs n : forall k,
  (2 * (k + n) <= length cs)%nat -> Forall (fun c => is_hex c = true) cs ->
  let b := map (fun c => Z.of_nat (nat_of_ascii c)) cs in
  flat_map hex2 (map (fun i => Z.lor (Z.shiftl (hex_nibble (default 48 (b !! (2 * i)%nat))) 4 mod 256)
                                  (hex_nibble (default 48 (b !! (2 * i + 1)%nat)))) (seq k n)) =
  take (2 * n) (drop (2 * k) cs).
Proof.
  induction n as [|n IH]; intros k Hl Hx b; [reflexivity|].
  assert (Hk : forall j, (j < length cs)%nat -> exists c, cs !! j = Some c /\ is_hex c = true /\
    b !! j = Some (Z.of_nat (nat_of_ascii c))).
  { intros j Hj. destruct (lookup_lt_is_Some_2 cs j Hj) as [c Hc]. exists c. split_and!; [done| |].
    - by eapply Forall_lookup_1 in Hc; [|exact Hx].
    - unfold b. change (map ?f cs) with (f <$> cs). rewrite list_lookup_fmap, Hc. reflexivity. }
  destruct (Hk (2 * k)%nat) as (c & Hc & Hxc & Hbc); [lia|].
  destruct (Hk (2 * k + 1)%nat) as (d & Hd & Hxd & Hbd); [lia|].
  cbn [seq map flat_map]. rewrite Hbc, Hbd. cbn [from_option]. unfold id.
  rewrite nibbles_byte, hex2_nibbles, !hex_char_round_trip by (done || apply hex_nibble_range).
  unfold b. rewrite IH by (done || lia).
  rewrite (drop_S cs c (2 * k)) by exact Hc.
  replace (S (2 * k)) with (2 * k + 1)%nat by lia.
  rewrite (drop_S cs d (2 * k + 1)) by exact Hd.
  replace (2 * S n)%nat with (S (S (2 * n))) by lia. rewrite !firstn_cons.
  replace (S (2 * k + 1)) with (2 * S k)%nat by lia. reflexivity.
Qed.

(** Decoding a digest and printing it again gives the digest. *)
Lemma hex_round_trip data : bytes_to_hex (hex64_to_bytes (sha256_hex data)) = sha256_hex data.
Proof.
  destruct (sha256_hex_shape data) as (cs & -> & Hl & Hx).
  unfold bytes_to_hex, hex64_to_bytes, as_bytes.
  rewrite String.list_ascii_of_string_of_list_ascii. cbv zeta.
  rewrite (unhex_rehex cs 32 0) by (done || lia).
  rewrite drop_0, take_ge by lia. reflexivity.
Qed.

(** ** Sealing *)

Lemma compute_checksum_length b : length (compute_checksum b) = 32%nat.
Proof. unfold compute_checksum, hex64_to_bytes. by rewrite length_map, length_seq. Qed.

Lemma compute_checksum_set b c : compute_checksum (set_checksum b c) = compute_checksum b.
Proof. reflexivity. Qed.

Lemma seal_valid b : magic b = MIGRATION_MAGIC -> version b = MIGRATION_VERSION -> is_valid (seal b) = true.
Proof.
  intros Hm Hv. unfold is_valid, seal. cbn [magic version set_checksum checksum].
  rewrite Hm, Hv, compute_checksum_set, bool_decide_eq_true_2 by reflexivity. reflexivity.
Qed.

Lemma seal_wf b : length (reserved b) = 3%nat -> is_u64 (magic b) -> is_u32 (version b) ->
  wf_thresholds (to_thresholds b) -> is_u64 (timestamp b) -> wf_buffer (seal b).
Proof. intros. constructor; try assumption. apply compute_checksum_length. Qed.

Lemma sealed_wf t d ts : wf_thresholds t -> is_u64 ts -> wf_buffer (sealed_from_thresholds t d ts).
Proof.
  intros Ht Hts. apply seal_wf; [reflexivity|split; vm_compute; congruence..| |exact Hts].
  destruct Ht. constructor; try assumption. apply wrap32_range.
Qed.

(** ** Bytes in, bytes out *)

Lemma to_le_bytes_byte n x : Forall is_byte (to_le_bytes n x).
Proof. revert x. induction n as [|n IH]; intros x; constructor; [apply Z.mod_pos_bound; lia|apply IH]. Qed.

Lemma le_bytes_round_trip l : Forall is_byte l -> to_le_bytes (length l) (from_le_bytes l) = l.
Proof.
  induction 1 as [|b l [H0 H1] _ IH]; [reflexivity|]. cbn [length to_le_bytes from_le_bytes].
  rewrite (Z.mul_comm 256), Z.mod_add, Z.mod_small, Z.div_add, Z.div_small, Z.add_0_l, IH by lia. reflexivity.
Qed.

Lemma from_le_bytes_range l : Forall is_byte l -> 0 <= from_le_bytes l < 256 ^ Z.of_nat (length l).
Proof.
  induction 1 as [|b l [H0 H1] _ IH]; [done|]. cbn [length from_le_bytes].
  rewrite Nat2Z.inj_succ, Z.pow_succ_r by lia. lia.
Qed.

Lemma field_range off n page :
  Forall is_byte page -> (off + n <= length page)%nat -> 0 <= field off n page < 256 ^ Z.of_nat n.
Proof.
  intros Hb Hl. assert (Hn : length (bytes_at off n page) = n).
  { unfold bytes_at. rewrite length_take, length_drop. lia. }
  unfold field. rewrite <- Hn at 3. apply from_le_bytes_range. unfold bytes_at. by apply Forall_take, Forall_drop.
Qed.

(** Whatever a page of bytes decodes to fits the struct. *)
Lemma decode_wf page b :
  Forall is_byte page -> (88 <= length page)%nat -> decode page = Some b ->
  wf_buffer b /\ Forall is_byte (reserved b).
Proof.
  intros Hb Hl. unfold decode. destruct (bool_of_byte _) as [d|]; [|done]. intros [= <-].
  split; [|by apply Forall_take, Forall_drop]. constructor; [| | |constructor| |];
    cbn [magic version reserved timestamp checksum to_thresholds t_repetition t_self_referential t_token_velocity
         t_tool_retry t_soft t_medium t_hard t_window repetition self_referential token_velocity tool_retry soft
         medium hard window];
    first [apply (field_range _ 8); [exact Hb|lia]|apply (field_range _ 4); [exact Hb|lia]|
           unfold bytes_at; rewrite length_take, length_drop; lia].
Qed.

Lemma lor_nibbles_byte hi lo : 0 <= hi < 16 -> 0 <= lo < 16 -> is_byte (Z.lor (Z.shiftl hi 4 mod 256) lo).
Proof. intros Hh Hl. rewrite nibbles_byte by assumption. unfold is_byte. lia. Qed.

Lemma compute_checksum_byte b : Forall is_byte (compute_checksum b).
Proof.
  unfold compute_checksum, hex64_to_bytes. apply Forall_map, Forall_forall. intros i _.
  apply lor_nibbles_byte; apply hex_nibble_range.
Qed.

Lemma encode_byte b : Forall is_byte (reserved b) -> Forall is_byte (checksum b) -> Forall is_byte (encode b).
Proof.
  intros Hr Hc. unfold encode. repeat (apply Forall_app; split); try apply to_le_bytes_byte; try assumption.
  constructor; [destruct (dirty b); unfold is_byte; cbn; lia|constructor].
Qed.

Lemma sealed_thresholds t d ts :
  wf_thresholds t -> to_thresholds (sealed_from_thresholds t d ts) = t.
Proof.
  intros Ht. destruct t as [f1 f2 f3 f4 f5 f6 f7 w].
  unfold sealed_from_thresholds, seal, from_thresholds, to_thresholds, set_checksum. cbn.
  f_equal. apply wrap32_small, (wft_window _ Ht).
Qed.

(** Everything the seal covers: all but the reserved bytes and the seal. *)
Definition covered (b : MigrationBuffer) :=
  (magic b, version b, dirty b, to_thresholds b, timestamp b).

Lemma app_eq_length {A} (l1 l2 r1 r2 : list A) :
  length l1 = length l2 -> l1 ++ r1 = l2 ++ r2 -> l1 = l2 /\ r1 = r2.
Proof. intros Hl E. by apply app_inj_1 in E. Qed.

Ltac split_bytes E :=
  let E1 := fresh "E" in
  apply app_eq_length in E as [E1 E]; [|by rewrite ?to_le_bytes_length].

Lemma checksum_payload_inj b c :
  wf_buffer b -> wf_buffer c -> checksum_payload b = checksum_payload c -> covered b = covered c.
Proof.
  intros [Bm Bv _ Bt Bs _] [Cm Cv _ Ct Cs _] E. unfold checksum_payload in E.
  destruct Bt, Ct. cbn [to_thresholds t_repetition t_self_referential t_token_velocity t_tool_retry
    t_soft t_medium t_hard t_window] in *.
  do 11 split_bytes E.
  apply le_bytes_eq_u64 in E0; [|assumption..]. apply le_bytes_eq_u64 in E; [|assumption..].
  repeat match goal with H : to_le_bytes 4 _ = to_le_bytes 4 _ |- _ =>
    apply le_bytes_eq_u32 in H; [|assumption..] end.
  unfold covered, to_thresholds. destruct (dirty b), (dirty c); try discriminate; congruence.
Qed.

Lemma same_checksum_same_digest b c :
  compute_checksum b = compute_checksum c -> sha256_hex (checksum_payload b) = sha256_hex (checksum_payload c).
Proof.
  intros E. rewrite <- (hex_round_trip (checksum_payload b)), <- (hex_round_trip (checksum_payload c)).
  unfold compute_checksum in E. by rewrite E.
Qed.

(**  What Safe Mode seals is what the next boot reads: for any thresholds
    that fit their types, the sealed buffer written over the page is read back
    identically, validates, and gives the same thresholds, dirty flag and
    timestamp; the rest of the page and its size are untouched. *)
Theorem sealed_page_round_trip t d ts page :
  wf_thresholds t -> is_u64 ts -> length page = Z.to_nat MIGRATION_BUFFER_SIZE ->
  let b := sealed_from_thresholds t d ts in
  let page' := write_to_fixed_address b page in
  read_migration_buffer page' = Some b /\ is_valid b = true /\
  to_thresholds b = t /\ dirty b = d /\ timestamp b = ts /\
  length page' = length page /\ drop 88 page' = drop 88 page.
Proof.
  intros Ht Hts Hp b page'. assert (Hb : wf_buffer b) by (by apply sealed_wf).
  split_and!.
  - by apply read_after_write.
  - by apply seal_valid.
  - by apply sealed_thresholds.
  - reflexivity.
  - reflexivity.
  - by apply write_keeps_size.
  - unfold page', write_to_fixed_address. rewrite <- (encode_length b Hb) at 1. apply drop_app_length.
Qed.

Lemma default_config_wf : wf_thresholds default_config.
Proof. constructor; split; vm_compute; congruence. Qed.

Lemma sealed_page_round_trip_witness :
  let page := replicate (Z.to_nat MIGRATION_BUFFER_SIZE) 0 in
  let b := sealed_from_thresholds default_config true 42 in
  read_migration_buffer (write_to_fixed_address b page) = Some b.
Proof.
  intros page b. apply (sealed_page_round_trip default_config true 42 page).
  - apply default_config_wf.
  - split; vm_compute; congruence.
  - apply length_replicate.
Defined.

(** C27.  The seal pins the configuration: two valid buffers with the same
    checksum agree on the magic, version, dirty flag, every threshold and the
    timestamp, unless their payloads are a SHA-256 collision.  (The three
    reserved bytes are outside the seal.) *)
Theorem seal_pins_configuration b c :
  wf_buffer b -> wf_buffer c -> is_valid b = true -> is_valid c = true ->
  checksum b = checksum c ->
  covered b = covered c \/
  (checksum_payload b <> checksum_payload c /\
   sha256_hex (checksum_payload b) = sha256_hex (checksum_payload c)).
Proof.
  unfold is_valid. rewrite !andb_true_iff, !bool_decide_eq_true.
  intros Hb Hc [_ Vb] [_ Vc] E. rewrite Vb, Vc in E.
  destruct (decide (checksum_payload b = checksum_payload c)) as [P|P].
  - left. by apply checksum_payload_inj.
  - right. split; [exact P|]. by apply same_checksum_same_digest.
Qed.

Lemma seal_pins_configuration_witness :
  let b := sealed_from_thresholds default_config true 1 in
  covered b = covered b \/
  (checksum_payload b <> checksum_payload b /\
   sha256_hex (checksum_payload b) = sha256_hex (checksum_payload b)).
Proof.
  intros b. assert (Hw : wf_buffer b).
  { apply sealed_wf; [apply default_config_wf|split; vm_compute; congruence]. }
  assert (Hv : is_valid b = true) by (apply seal_valid; reflexivity).
  apply (seal_pins_configuration b b Hw Hw Hv Hv eq_refl).
Defined.

End ConfigBuffer.
