(* ===== verification/Migration.v ===== *)
(** The boot-time migration daemon (src/src/sentinel/migration.rs) and the life
    of a configuration across reboots.  The world is the reserved page, the
    monitor's thresholds and the audit trail; the last two live in the kernel's
    statics and start afresh at every boot. *)

From Stdlib Require Import ZArith Lia Ascii.
From stdpp Require Import base list strings.
From S2P Require Import Prelude Sha256 AuditTrail ConfigBuffer.

Open Scope Z_scope.

Module Migration.
Import Audit ConfigBuffer.

Definition ACTOR : string := "safe-mode".
Definition ACTION_APPLY : string := "migration_apply".
Definition ACTION_NOOP : string := "migration_noop".
Definition ACTION_REJECT : string := "migration_reject".

Inductive MigrationError :=
| UnsupportedVersion (found expected : Z)
| ChecksumMismatch
| ApplyFailed.

Definition reason (e : MigrationError) : string :=
  match e with
  | UnsupportedVersion _ _ => "migration: unsupported migration-buffer version"
  | ChecksumMismatch => "migration: SHA-256 checksum verification failed"
  | ApplyFailed => "migration: applied config did not take effect"
  end.

Inductive Decision :=
| NoBuffer
| NoChange
| Apply (t : Thresholds)
| Reject (e : MigrationError) (why : string).

Definition decide_buffer (b : MigrationBuffer) : Decision :=
  if negb (magic b =? MIGRATION_MAGIC) then NoBuffer
  else if negb (version b =? MIGRATION_VERSION) then
    Reject (UnsupportedVersion (version b) MIGRATION_VERSION) "version"
  else if negb (bool_decide (compute_checksum b = checksum b)) then Reject ChecksumMismatch "checksum"
  else if negb (dirty b) then NoChange
  else Apply (to_thresholds b).

Definition checksum_hex (b : MigrationBuffer) : string := bytes_to_hex (checksum b).

(** Floats by bit pattern, the window as an integer. *)
Definition thresholds_eq (a b : Thresholds) : bool :=
  (t_repetition a =? t_repetition b) && (t_self_referential a =? t_self_referential b) &&
  (t_token_velocity a =? t_token_velocity b) && (t_tool_retry a =? t_tool_retry b) &&
  (t_soft a =? t_soft b) && (t_medium a =? t_medium b) && (t_hard a =? t_hard b) &&
  (t_window a =? t_window b).

(** ** The world *)

Record World := mkWorld {
  page : list Z;
  cfg : Thresholds;
  trail : AuditInner
}.

(** [Monitor::set_thresholds] and [Monitor::thresholds]. *)
Definition set_thresholds (w : World) (t : Thresholds) : World := mkWorld (page w) t (trail w).
Definition thresholds (w : World) : Thresholds := cfg w.

Definition audit_record (w : World) (ts : Z) (action target : string) : World :=
  mkWorld (page w) (cfg w) (snd (record ts ACTOR action target (trail w))).

Definition audit_reject (b : MigrationBuffer) (why : string) (w : World) : World :=
  audit_record w (timestamp b) ACTION_REJECT (why +:+ " checksum=" +:+ checksum_hex b)%string.

Definition clear_dirty (b : MigrationBuffer) : MigrationBuffer :=
  mkBuffer (magic b) (version b) false (reserved b)
    (repetition b) (self_referential b) (token_velocity b) (tool_retry b)
    (soft b) (medium b) (hard b) (window b) (timestamp b) (checksum b).

(** [None] is a page that is not a value of the struct. *)
Definition run (w : World) : option (result unit MigrationError * World) :=
  match read_migration_buffer (page w) with
  | None => None
  | Some buf => Some
      match decide_buffer buf with
      | NoBuffer => (Ok tt, w)
      | NoChange => (Ok tt, audit_record w (timestamp buf) ACTION_NOOP (checksum_hex buf))
      | Apply desired =>
          let w := set_thresholds w desired in
          if negb (thresholds_eq (thresholds w) desired) then
            (Err ApplyFailed, audit_reject buf "apply" w)
          else
            let w := audit_record w (timestamp buf) ACTION_APPLY (checksum_hex buf) in
            let cleared := seal (clear_dirty buf) in
            (Ok tt, mkWorld (write_to_fixed_address cleared (page w)) (cfg w) (trail w))
      | Reject err why => (Err err, audit_reject buf why w)
      end
  end.

(** A reboot keeps the page and rebuilds the statics. *)
Definition reboot (w : World) : World := mkWorld (page w) default_config new.

(** A confirmed save in Safe Mode. *)
Definition safe_mode_save (t : Thresholds) (ts : Z) (w : World) : World :=
  mkWorld (write_to_fixed_address (sealed_from_thresholds t true ts) (page w)) (cfg w) (trail w).

(** ** Lemmas *)

Lemma thresholds_eq_refl t : thresholds_eq t t = true.
Proof. unfold thresholds_eq. rewrite !Z.eqb_refl. reflexivity. Qed.

Lemma decide_valid b :
  is_valid b = true -> decide_buffer b = if dirty b then Apply (to_thresholds b) else NoChange.
Proof.
  unfold is_valid, decide_buffer. rewrite !andb_true_iff, bool_decide_eq_true.
  intros [[-> ->] E]. cbn [negb]. rewrite (bool_decide_eq_true_2 _ (eq_sym E)). by destruct (dirty b).
Qed.

(** One more entry, by the migration actor, and nothing else in the trail. *)
Definition audited (w w' : World) (ts : Z) (action target : string) : Prop :=
  exists e, snapshot (trail w') = snapshot (trail w) ++ [e] /\
    e_actor e = ACTOR /\ e_action e = action /\ e_target e = target /\ e_timestamp e = ts.

Lemma audit_record_audited w ts action target :
  audited w (audit_record w ts action target) ts action target.
Proof. eexists. split; [reflexivity|]. split_and!; reflexivity. Qed.

Lemma cleared_wf b : wf_buffer b -> wf_buffer (seal (clear_dirty b)).
Proof. intros []. by apply seal_wf. Qed.

Lemma cleared_valid b : is_valid b = true -> is_valid (seal (clear_dirty b)) = true.
Proof.
  unfold is_valid at 1. rewrite !andb_true_iff, !Z.eqb_eq. intros [[Hm Hv] _]. by apply seal_valid.
Qed.

(** What a boot makes of a valid buffer. *)
Lemma run_valid w b :
  read_migration_buffer (page w) = Some b -> is_valid b = true ->
  run w = Some (Ok tt,
    if dirty b then
      mkWorld (write_to_fixed_address (seal (clear_dirty b)) (page w)) (to_thresholds b)
        (snd (record (timestamp b) ACTOR ACTION_APPLY (checksum_hex b) (trail w)))
    else audit_record w (timestamp b) ACTION_NOOP (checksum_hex b)).
Proof.
  intros Hr Hv. unfold run. rewrite Hr, decide_valid by exact Hv.
  destruct (dirty b); [|reflexivity].
  unfold set_thresholds, thresholds. cbn [cfg]. rewrite thresholds_eq_refl. reflexivity.
Qed.

(** C28.  Every branch of a migration, on any page that holds a buffer: without
    the magic nothing at all changes; a buffer with the magic that does not
    validate is refused with its cause and one audit entry, leaving page and
    thresholds alone; a valid clean buffer adds one audit entry and nothing
    else; a valid dirty buffer installs exactly its thresholds, adds one audit
    entry with the checksum, and leaves a valid clean buffer with the same
    values.  [ApplyFailed] is never returned. *)
Theorem migration_every_branch w b :
  read_migration_buffer (page w) = Some b -> wf_buffer b ->
  exists r w', run w = Some (r, w') /\
  if negb (magic b =? MIGRATION_MAGIC) then r = Ok tt /\ w' = w
  else if negb (is_valid b) then
    page w' = page w /\ cfg w' = cfg w /\
    exists why, audited w w' (timestamp b) ACTION_REJECT (why +:+ " checksum=" +:+ checksum_hex b)%string /\
      ((version b <> MIGRATION_VERSION /\ why = "version"%string /\
        r = Err (UnsupportedVersion (version b) MIGRATION_VERSION)) \/
       (version b = MIGRATION_VERSION /\ compute_checksum b <> checksum b /\
        why = "checksum"%string /\ r = Err ChecksumMismatch))
  else if dirty b then
    r = Ok tt /\ cfg w' = to_thresholds b /\
    audited w w' (timestamp b) ACTION_APPLY (checksum_hex b) /\
    exists b', read_migration_buffer (page w') = Some b' /\ is_valid b' = true /\
      dirty b' = false /\ to_thresholds b' = to_thresholds b /\ timestamp b' = timestamp b
  else r = Ok tt /\ page w' = page w /\ cfg w' = cfg w /\
    audited w w' (timestamp b) ACTION_NOOP (checksum_hex b).
Proof.
  intros Hr Hw. destruct (Z.eqb_spec (magic b) MIGRATION_MAGIC) as [Hm|Hm]; cbn [negb].
  2:{ exists (Ok tt), w. split; [|done]. unfold run, decide_buffer.
      rewrite Hr, (proj2 (Z.eqb_neq _ _) Hm). reflexivity. }
  destruct (is_valid b) eqn:Hv; cbn [negb].
  - rewrite (run_valid w b Hr Hv). do 2 eexists. split; [reflexivity|].
    destruct (dirty b).
    + split_and!; [reflexivity|reflexivity|apply audit_record_audited|].
      exists (seal (clear_dirty b)). split_and!; try reflexivity.
      * by apply read_after_write, cleared_wf.
      * by apply cleared_valid.
    + split_and!; [reflexivity..|apply audit_record_audited].
  - unfold run, decide_buffer. rewrite Hr, Hm, Z.eqb_refl. cbn [negb].
    unfold is_valid in Hv. rewrite Hm, Z.eqb_refl in Hv. cbn [andb] in Hv.
    destruct (Z.eqb_spec (version b) MIGRATION_VERSION) as [E|E]; cbn [negb andb] in *.
    + apply bool_decide_eq_false in Hv. rewrite bool_decide_eq_false_2 by (by intros ?; apply Hv).
      do 2 eexists. split; [reflexivity|]. split_and!; [reflexivity..|].
      eexists. split; [apply audit_record_audited|]. right. split_and!; [done| |done..]. by intros ?; apply Hv.
    + do 2 eexists. split; [reflexivity|]. split_and!; [reflexivity..|].
      eexists. split; [apply audit_record_audited|]. left. done.
Qed.

Definition demo_world (d : bool) : World :=
  mkWorld (write_to_fixed_address (sealed_from_thresholds default_config d 5) (replicate 4096 0))
    default_config new.

Lemma demo_reads d :
  read_migration_buffer (page (demo_world d)) = Some (sealed_from_thresholds default_config d 5) /\
  wf_buffer (sealed_from_thresholds default_config d 5).
Proof.
  assert (Hw : wf_buffer (sealed_from_thresholds default_config d 5)).
  { apply sealed_wf; [apply default_config_wf|split; vm_compute; congruence]. }
  split; [by apply read_after_write|exact Hw].
Defined.

Lemma migration_every_branch_witness :
  exists r w', run (demo_world true) = Some (r, w') /\ r = Ok tt /\ cfg w' = default_config.
Proof.
  destruct (demo_reads true) as [Hr Hw].
  destruct (migration_every_branch _ _ Hr Hw) as (r & w' & Hrun & H).
  exists r, w'. split; [exact Hrun|].
  assert (Hv : is_valid (sealed_from_thresholds default_config true 5) = true)
    by (apply seal_valid; reflexivity).
  rewrite Hv in H. cbn [negb dirty magic sealed_from_thresholds] in H.
  destruct H as (-> & -> & _). split; [reflexivity|]. apply sealed_thresholds, default_config_wf.
Defined.

(** ** Across reboots *)

(** [n] boots, each of which must not halt. *)
Fixpoint boots (n : nat) (w : World) : option World :=
  match n with
  | O => Some w
  | S n' => match run (reboot w) with
            | Some (Ok _, w') => boots n' w'
            | _ => None
            end
  end.

Lemma boots_after w w1 n : boots 1 w = Some w1 -> boots (S n) w = boots n w1.
Proof.
  cbn [boots]. destruct (run (reboot w)) as [[[u|e] w2]|]; [|discriminate..]. by intros [= ->].
Qed.

(** A page that holds a valid clean buffer. *)
Definition settled (w : World) : Prop :=
  exists b, read_migration_buffer (page w) = Some b /\ is_valid b = true /\ dirty b = false.

Lemma boots_settled n : forall w,
  settled w -> exists w', boots n w = Some w' /\ page w' = page w /\ (n <> 0%nat -> cfg w' = default_config).
Proof.
  induction n as [|n IH]; intros w Hs; [exists w; done|].
  destruct Hs as (b & Hr & Hv & Hd).
  cbn [boots]. rewrite (run_valid (reboot w) b Hr Hv), Hd.
  destruct (IH (audit_record (reboot w) (timestamp b) ACTION_NOOP (checksum_hex b)))
    as (w' & Hb & Hp & Hc).
  { exists b. done. }
  exists w'. split_and!; [exact Hb|exact Hp|]. intros _.
  destruct n; [|by apply Hc]. injection Hb as <-. reflexivity.
Qed.

Lemma first_boot t ts w :
  wf_thresholds t -> is_u64 ts ->
  exists w1, boots 1 (safe_mode_save t ts w) = Some w1 /\ cfg w1 = t /\ settled w1 /\
    verify (trail w1) = Ok 1.
Proof.
  intros Ht Hts. set (b := sealed_from_thresholds t true ts).
  assert (Hw : wf_buffer b) by (by apply sealed_wf).
  assert (Hv : is_valid b = true) by (by apply seal_valid).
  assert (Hr : read_migration_buffer (page (reboot (safe_mode_save t ts w))) = Some b)
    by (by apply read_after_write).
  cbn [boots]. rewrite (run_valid _ b Hr Hv). change (dirty b) with true. cbv iota.
  eexists. split; [reflexivity|]. split_and!.
  - by apply sealed_thresholds.
  - exists (seal (clear_dirty b)). split_and!; [|by apply cleared_valid|reflexivity].
    by apply read_after_write, cleared_wf.
  - apply verify_ok. split; [|reflexivity].
    apply (record_one_recorded new (timestamp b, ACTOR, ACTION_APPLY, checksum_hex b) new_recorded).
Qed.

(**  A configuration saved in Safe Mode governs the next boot: that boot
    goes through, runs with exactly the saved thresholds, and its audit trail
    verifies with the one entry of the migration. *)
Theorem saved_config_applies_next_boot t ts w :
  wf_thresholds t -> is_u64 ts ->
  exists w1, boots 1 (safe_mode_save t ts w) = Some w1 /\ thresholds w1 = t /\
    verify (trail w1) = Ok 1.
Proof.
  intros Ht Hts. destruct (first_boot t ts w Ht Hts) as (w1 & H1 & H2 & _ & H3).
  exact (ex_intro _ w1 (conj H1 (conj H2 H3))).
Qed.

Lemma saved_config_applies_next_boot_witness :
  exists w1, boots 1 (safe_mode_save default_config 9 (demo_world false)) = Some w1 /\
    thresholds w1 = default_config /\ verify (trail w1) = Ok 1.
Proof.
  apply (saved_config_applies_next_boot default_config 9 (demo_world false)).
  - apply default_config_wf.
  - split; vm_compute; congruence.
Defined.

(** C29.  The saved configuration lasts one boot: every later boot goes through,
    finds the buffer clean and therefore runs with the built-in defaults,
    whatever was saved. *)
Theorem later_boots_run_with_defaults t ts w n :
  wf_thresholds t -> is_u64 ts ->
  exists w', boots (S (S n)) (safe_mode_save t ts w) = Some w' /\ thresholds w' = default_config.
Proof.
  intros Ht Hts. destruct (first_boot t ts w Ht Hts) as (w1 & H1 & _ & Hs & _).
  destruct (boots_settled (S n) w1 Hs) as (w' & Hb & _ & Hc).
  exists w'. split; [rewrite (boots_after _ w1 _ H1); exact Hb|]. apply Hc. discriminate.
Qed.

Lemma later_boots_run_with_defaults_witness :
  let t := mkThresholds 0 0 0 0 0 0 0 1 in
  t <> default_config /\
  exists w', boots 2 (safe_mode_save t 9 (demo_world false)) = Some w' /\ thresholds w' = default_config.
Proof.
  intros t. split; [discriminate|].
  apply (later_boots_run_with_defaults t 9 (demo_world false) 0).
  - constructor; split; vm_compute; congruence.
  - split; vm_compute; congruence.
Defined.

End Migration.
