(* ===== verification/Sentinel.v ===== *)
(** The Sentinel boundary: the visibility gate (src/src/sentinel/invisible.rs)
    and the registry behind the handshake (src/src/sentinel/handshake.rs).  The
    build feature that selects the Safe Mode kernel is a parameter of the gate.
    The registry is a finite map from agent identifiers to records; each method
    is one atomic step, as the lock makes it. *)

From Stdlib Require Import ZArith Lia.
From stdpp Require Import base list gmap strings sorting.
From S2P Require Import Prelude Sha256 AuditTrail Syscall.

Open Scope Z_scope.

Module Invisible.
Import Audit.

Inductive CallerContext := Agent | Operator | SafeMode | Kernel.

Inductive Operation := Handshake | Monitor | ReadStatus | ReadAudit | Configure | VerifyAudit.

Inductive InvisibleError :=
| NotPresent
| Forbidden (op : string).

Definition to_errno (e : InvisibleError) : Z :=
  match e with NotPresent => 38 | Forbidden _ => 1 end.

Definition op_name (op : Operation) : string :=
  match op with
  | Handshake => "handshake"
  | Monitor => "monitor"
  | ReadStatus => "read_status"
  | ReadAudit => "read_audit"
  | Configure => "configure"
  | VerifyAudit => "verify_audit"
  end.

Definition describe_error (e : InvisibleError) : string :=
  match e with NotPresent => "ENOSYS" | Forbidden op => "EPERM: " +:+ op end.

Section Gate.
(** The [sentinel-safemode] feature of the build. *)
Context (SAFE_MODE_ACTIVE : bool).

Definition is_authorized (ctx : CallerContext) (op : Operation) : bool :=
  match ctx, op with
  | Agent, Handshake => true
  | Operator, Handshake => true
  | SafeMode, Handshake => false
  | Kernel, Handshake => true
  | Kernel, Monitor => true
  | _, Monitor => false
  | Operator, ReadStatus => true
  | Kernel, ReadStatus => true
  | SafeMode, ReadStatus => true
  | Agent, ReadStatus => false
  | SafeMode, ReadAudit => SAFE_MODE_ACTIVE
  | _, ReadAudit => false
  | SafeMode, Configure => SAFE_MODE_ACTIVE
  | _, Configure => false
  | Kernel, VerifyAudit => true
  | SafeMode, VerifyAudit => true
  | _, VerifyAudit => false
  end.

Definition is_agent (ctx : CallerContext) : bool := match ctx with Agent => true | _ => false end.

(** [audit] is the trail, when the caller passes one; the result carries it. *)
Definition gate (ctx : CallerContext) (op : Operation) (actor_id : string) (timestamp : Z)
  (audit : option AuditInner) : result unit InvisibleError * option AuditInner :=
  if is_authorized ctx op then (Ok tt, audit)
  else if is_agent ctx then
    (Err NotPresent,
     match audit with
     | Some a => Some (snd (record timestamp actor_id "invisible_probe" (op_name op) a))
     | None => None
     end)
  else (Err (Forbidden (op_name op)), audit).

End Gate.

(** ** Histories of calls *)

Record Call := mkCall { c_ctx : CallerContext; c_op : Operation; c_actor : string; c_time : Z }.

(** Calls in sequence on one trail, and their answers. *)
Fixpoint gate_all (feature : bool) (calls : list Call) (g : AuditInner)
  : list (result unit InvisibleError) * AuditInner :=
  match calls with
  | [] => ([], g)
  | c :: rest =>
      let (r, a) := gate feature (c_ctx c) (c_op c) (c_actor c) (c_time c) (Some g) in
      let (rs, g') := gate_all feature rest (default g a) in (r :: rs, g')
  end.

(** The calls that are not for agents to make, and what is kept of them. *)
Definition probing (c : Call) : bool :=
  is_agent (c_ctx c) && match c_op c with Handshake => false | _ => true end.

Definition probe (c : Call) : request := (c_time c, c_actor c, "invisible_probe"%string, op_name (c_op c)).

Lemma gate_step feature c g :
  let (r, a) := gate feature (c_ctx c) (c_op c) (c_actor c) (c_time c) (Some g) in
  default g a = record_all g (if probing c then [probe c] else []) /\
  (probing c = true -> r = Err NotPresent).
Proof. destruct c as [[] op actor ts], op; unfold gate, probing; cbn; destruct feature; by split. Qed.

Lemma gate_all_spec feature calls : forall g,
  let (answers, g') := gate_all feature calls g in
  length answers = length calls /\
  (forall i c, calls !! i = Some c -> probing c = true -> answers !! i = Some (Err NotPresent)) /\
  g' = record_all g (map probe (List.filter probing calls)).
Proof.
  induction calls as [|c calls IH]; intros g; cbn [gate_all]; [by split_and!|].
  pose proof (gate_step feature c g) as Hc. destruct (gate feature _ _ _ _ _) as [r a]. destruct Hc as [Hg Hr].
  specialize (IH (default g a)). destruct (gate_all feature calls (default g a)) as [rs g'].
  destruct IH as (Hlen & Hrs & ->). split_and!.
  - cbn. by rewrite Hlen.
  - intros [|i] d; cbn; [|by apply Hrs]. intros [= <-] Hd. by rewrite Hr.
  - rewrite Hg. unfold record_all. rewrite <- fold_left_app. f_equal. cbn. by destruct (probing c).
Qed.

(** C30.  Invisibility, over any history of calls to the gate, in either build: every
    call of an agent other than the handshake is answered [NotPresent], whose errno is
    that of an absent system call (ENOSYS); and the trail
    afterwards is the one before followed by exactly one entry for each such call, in
    order, with its time, the agent and the operation - nothing for a handshake or for
    any other caller - and it still verifies. *)
Theorem agent_sees_no_sentinel feature rs calls :
  let (answers, g) := gate_all feature calls (record_all new rs) in
  length answers = length calls /\
  (forall i c, calls !! i = Some c -> c_ctx c = Agent -> c_op c <> Handshake ->
     answers !! i = Some (Err NotPresent)) /\
  to_errno NotPresent = Syscall.errno_value Syscall.ENOSYS /\
  g = record_all new (rs ++ map probe (List.filter probing calls)) /\
  verify g = Ok (Z.of_nat (length rs + length (List.filter probing calls))).
Proof.
  pose proof (gate_all_spec feature calls (record_all new rs)) as H.
  destruct (gate_all feature calls (record_all new rs)) as [answers g]. destruct H as (Hl & Ha & ->).
  assert (E : record_all (record_all new rs) (map probe (List.filter probing calls)) =
              record_all new (rs ++ map probe (List.filter probing calls))).
  { unfold record_all. by rewrite fold_left_app. }
  split_and!; [exact Hl| |reflexivity|exact E|].
  - intros i c Hi Hc Ho. apply (Ha i c Hi). unfold probing. rewrite Hc. by destruct (c_op c).
  - rewrite E, record_all_verifies, length_app, length_map. reflexivity.
Qed.

(** An agent probes, shakes hands and probes again; an operator looks on. *)
Lemma agent_sees_no_sentinel_witness :
  let calls := [mkCall Agent ReadStatus "a" 1; mkCall Agent Handshake "a" 2; mkCall Operator ReadStatus "o" 3;
                mkCall Agent Configure "a" 4] in
  let (answers, g) := gate_all true calls new in
  answers !! 3%nat = Some (Err NotPresent) /\ verify g = Ok 2.
Proof.
  intros calls. pose proof (agent_sees_no_sentinel true [] calls) as H. cbn [record_all fold_left] in H.
  destruct (gate_all true calls new) as [answers g]. destruct H as (_ & Ha & _ & _ & Hv).
  split; [by apply (Ha 3%nat (mkCall Agent Configure "a" 4))|exact Hv].
Defined.

(**  The configuration interface exists in one place only: reading the
    audit trail or configuring is granted exactly to a Safe Mode caller of the
    Safe Mode build; every refusal of a caller other than an agent is EPERM and
    leaves the trail alone, and no grant writes to it. *)
Theorem configuration_only_in_safe_mode feature ctx op actor ts audit :
  (op = Configure \/ op = ReadAudit ->
   fst (gate feature ctx op actor ts audit) = Ok tt <-> feature = true /\ ctx = SafeMode) /\
  (ctx <> Agent \/ fst (gate feature ctx op actor ts audit) = Ok tt ->
   snd (gate feature ctx op actor ts audit) = audit) /\
  (ctx <> Agent -> forall e, fst (gate feature ctx op actor ts audit) = Err e ->
   e = Forbidden (op_name op) /\ to_errno e = 1).
Proof.
  unfold gate. split_and!.
  - intros [-> | ->]; destruct ctx, feature; cbn; naive_solver.
  - intros [H|H]; destruct (is_authorized feature ctx op); try reflexivity; destruct ctx; try done.
  - intros H e. destruct (is_authorized feature ctx op); [discriminate|].
    destruct ctx; [done|..]; cbn; intros [= <-]; done.
Qed.

Lemma configuration_only_in_safe_mode_witness :
  fst (gate true SafeMode Configure "op" 1 None) = Ok tt /\
  snd (gate true Operator Configure "op" 1 None) = None.
Proof.
  destruct (configuration_only_in_safe_mode true SafeMode Configure "op" 1 None) as (H & _ & _).
  destruct (configuration_only_in_safe_mode true Operator Configure "op" 1 None) as (_ & K & _).
  split; [apply H; [left; reflexivity|split; reflexivity]|apply K; left; discriminate].
Defined.

End Invisible.

Module Handshake.
Import Sha256 Audit.

Inductive PermissionTier := ReadOnly | Write | Execute.

#[export] Instance tier_eq_dec : EqDecision PermissionTier.
Proof. solve_decision. Defined.

Definition as_str (t : PermissionTier) : string :=
  match t with ReadOnly => "READ_ONLY" | Write => "WRITE" | Execute => "EXECUTE" end.

Definition downgrade (t : PermissionTier) : option PermissionTier :=
  match t with Execute => Some Write | Write => Some ReadOnly | ReadOnly => None end.

Record HandshakeRequest := mkRequest {
  rq_agent_id : string;
  rq_tier : PermissionTier;
  rq_heartbeat_interval_secs : Z
}.

Inductive HandshakeError := AlreadyRegistered | EmptyAgentId | AgentIdTooLong | HeartbeatOutOfRange.

Definition MAX_AGENT_ID_LEN : Z := 128.
Definition MIN_HEARTBEAT_SECS : Z := 1.
Definition MAX_HEARTBEAT_SECS : Z := 3600.

Record AgentRecord := mkRecord {
  agent_id : string;
  tier : PermissionTier;
  original_tier : PermissionTier;
  heartbeat_interval_secs : Z;
  registered_at : Z;
  last_heartbeat : Z;
  locked : bool
}.

Notation Registry := (gmap string AgentRecord) (only parsing).

Definition new : Registry := ∅.

Definition validate (req : HandshakeRequest) : result unit HandshakeError :=
  if bool_decide (rq_agent_id req = EmptyString) then Err EmptyAgentId
  else if MAX_AGENT_ID_LEN <? Z.of_nat (String.length (rq_agent_id req)) then Err AgentIdTooLong
  else if (rq_heartbeat_interval_secs req <? MIN_HEARTBEAT_SECS) ||
          (MAX_HEARTBEAT_SECS <? rq_heartbeat_interval_secs req) then Err HeartbeatOutOfRange
  else Ok tt.

(** [u64::clamp]. *)
Definition clamp_heartbeat (secs : Z) : Z :=
  if secs <? MIN_HEARTBEAT_SECS then MIN_HEARTBEAT_SECS
  else if MAX_HEARTBEAT_SECS <? secs then MAX_HEARTBEAT_SECS
  else secs.

Definition register (g : Registry) (req : HandshakeRequest) (now : Z)
  : result AgentRecord HandshakeError * Registry :=
  match validate req with
  | Err e => (Err e, g)
  | Ok _ =>
      match g !! rq_agent_id req with
      | Some _ => (Err AlreadyRegistered, g)
      | None =>
          let rec := mkRecord (rq_agent_id req) (rq_tier req) (rq_tier req)
                       (clamp_heartbeat (rq_heartbeat_interval_secs req)) now now false in
          (Ok rec, <[rq_agent_id req := rec]> g)
      end
  end.

Definition heartbeat (g : Registry) (id : string) (now : Z) : bool * Registry :=
  match g !! id with
  | Some r => (true, <[id := mkRecord (agent_id r) (tier r) (original_tier r)
                                (heartbeat_interval_secs r) (registered_at r) now (locked r)]> g)
  | None => (false, g)
  end.

Definition set_tier (g : Registry) (id : string) (t : PermissionTier)
  : option PermissionTier * Registry :=
  match g !! id with
  | None => (None, g)
  | Some r => (Some (tier r), <[id := mkRecord (agent_id r) t (original_tier r)
                                        (heartbeat_interval_secs r) (registered_at r)
                                        (last_heartbeat r) (locked r)]> g)
  end.

Definition lock (g : Registry) (id : string) : bool * Registry :=
  match g !! id with
  | Some r => (true, <[id := mkRecord (agent_id r) ReadOnly (original_tier r)
                                (heartbeat_interval_secs r) (registered_at r)
                                (last_heartbeat r) true]> g)
  | None => (false, g)
  end.

Definition get (g : Registry) (id : string) : option AgentRecord := g !! id.

Definition deregister (g : Registry) (id : string) : bool * Registry :=
  (bool_decide (is_Some (g !! id)), delete id g).

Definition len (g : Registry) : Z := Z.of_nat (size g).

(** The keys in the order of the map: bytewise, as [Ord] of strings. *)
Definition id_le (a b : string) : Prop := String.leb a b = true.

#[export] Instance id_le_dec : RelDecision id_le.
Proof. intros a b. unfold id_le. apply _. Defined.

Definition agent_ids (g : Registry) : list string := merge_sort id_le (fst <$> map_to_list g).

(** What the agent gets back. *)
Record HandshakeAck := mkAck { ack_agent_id : string; ack_token : string; ack_registered_at : Z }.

(** The first 32 bytes of the hash; the hash is ASCII, so they are characters. *)
Definition token_from_audit_hash (audit_hash : string) : string :=
  String.substring 0 (Nat.min (String.length audit_hash) 32) audit_hash.

(** The listing is sorted, without repetition, and of exactly the registered
    identifiers. *)
Lemma agent_ids_spec g :
  Sorted id_le (agent_ids g) /\ NoDup (agent_ids g) /\ Z.of_nat (length (agent_ids g)) = len g /\
  forall id, id ∈ agent_ids g <-> is_Some (get g id).
Proof.
  assert (Total id_le) by (intros a b; apply String.leb_total).
  pose proof (merge_sort_Permutation id_le (fst <$> map_to_list g)) as HP. fold (agent_ids g) in HP.
  split_and!.
  - by apply Sorted_merge_sort.
  - rewrite HP. apply NoDup_fst_map_to_list.
  - unfold len. by rewrite HP, length_fmap, length_map_to_list.
  - intros id. rewrite HP, list_elem_of_fmap. unfold get. split.
    + intros ([k r] & -> & Hr). apply elem_of_map_to_list in Hr. by exists r.
    + intros [r Hr]. exists (id, r). split; [done|]. by apply elem_of_map_to_list.
Qed.

(** ** Histories *)

Inductive op :=
| Register (req : HandshakeRequest) (now : Z)
| Heartbeat (id : string) (now : Z)
| SetTier (id : string) (t : PermissionTier)
| Lock (id : string)
| Deregister (id : string).

Definition step (g : Registry) (o : op) : Registry :=
  match o with
  | Register req now => snd (register g req now)
  | Heartbeat id now => snd (heartbeat g id now)
  | SetTier id t => snd (set_tier g id t)
  | Lock id => snd (lock g id)
  | Deregister id => snd (deregister g id)
  end.

Definition run (ops : list op) (g : Registry) : Registry := fold_left step ops g.

(** What holds of every stored record. *)
Record good (id : string) (r : AgentRecord) : Prop := {
  good_key : agent_id r = id;
  good_id : id <> EmptyString /\ Z.of_nat (String.length id) <= MAX_AGENT_ID_LEN;
  good_interval : MIN_HEARTBEAT_SECS <= heartbeat_interval_secs r <= MAX_HEARTBEAT_SECS
}.

(** A later record of the same registration: what cannot change has not, and a
    lock has not been lifted. *)
Record evolves (r r' : AgentRecord) : Prop := {
  ev_id : agent_id r' = agent_id r;
  ev_original : original_tier r' = original_tier r;
  ev_interval : heartbeat_interval_secs r' = heartbeat_interval_secs r;
  ev_registered : registered_at r' = registered_at r;
  ev_locked : locked r = true -> locked r' = true
}.

Lemma evolves_refl r : evolves r r.
Proof. by constructor. Qed.

Lemma evolves_trans r1 r2 r3 : evolves r1 r2 -> evolves r2 r3 -> evolves r1 r3.
Proof. intros [] []. constructor; try congruence. auto. Qed.

Definition deregisters (id : string) (o : op) : Prop := o = Deregister id.

Lemma validate_ok req : validate req = Ok tt <->
  rq_agent_id req <> EmptyString /\ Z.of_nat (String.length (rq_agent_id req)) <= MAX_AGENT_ID_LEN /\
  MIN_HEARTBEAT_SECS <= rq_heartbeat_interval_secs req <= MAX_HEARTBEAT_SECS.
Proof.
  unfold validate. case_bool_decide as E; [naive_solver|].
  destruct (Z.ltb_spec MAX_AGENT_ID_LEN (Z.of_nat (String.length (rq_agent_id req)))) as [L|L].
  - split; [discriminate|]. intros (_ & ? & _). lia.
  - destruct (Z.ltb_spec (rq_heartbeat_interval_secs req) MIN_HEARTBEAT_SECS) as [A|A];
      [split; [discriminate|lia]|].
    destruct (Z.ltb_spec MAX_HEARTBEAT_SECS (rq_heartbeat_interval_secs req)) as [B|B];
      [split; [discriminate|lia]|].
    split; [intros _; split_and!; [done|lia..]|done].
Qed.

Lemma clamp_id s : MIN_HEARTBEAT_SECS <= s <= MAX_HEARTBEAT_SECS -> clamp_heartbeat s = s.
Proof.
  intros H. unfold clamp_heartbeat.
  destruct (Z.ltb_spec s MIN_HEARTBEAT_SECS); [lia|].
  destruct (Z.ltb_spec MAX_HEARTBEAT_SECS s); [lia|reflexivity].
Qed.

(** One step: every stored record stays good, and each record either evolves
    or is removed by its deregistration. *)
Definition keeps (g g' : gmap string AgentRecord) (o : op) : Prop :=
  map_Forall good g' /\
  (forall id r, g !! id = Some r ->
     (exists r', g' !! id = Some r' /\ evolves r r') \/ deregisters id o).

Lemma keeps_refl g o : map_Forall good g -> keeps g g o.
Proof.
  intros Hg. split; [exact Hg|]. intros id r Hr. left. exists r. split; [exact Hr|apply evolves_refl].
Qed.

Lemma keeps_insert g id r o : map_Forall good g -> g !! id = None -> good id r -> keeps g (<[id := r]> g) o.
Proof.
  intros Hg Hn Hr. split; [by apply map_Forall_insert_2|]. intros k x Hk. left. exists x.
  rewrite lookup_insert_ne by congruence. split; [exact Hk|apply evolves_refl].
Qed.

Lemma keeps_update g id r r' o :
  map_Forall good g -> g !! id = Some r -> evolves r r' -> keeps g (<[id := r']> g) o.
Proof.
  intros Hg Hr Hev. pose proof (Hg id r Hr) as [K1 K2 K3]. split.
  - apply map_Forall_insert_2; [|exact Hg]. destruct Hev as [E1 E2 E3 E4 E5].
    constructor; [congruence|exact K2|by rewrite E3].
  - intros k x Hk. left. destruct (decide (k = id)) as [->|Hne].
    + exists r'. rewrite lookup_insert_eq. split; [done|]. by simplify_eq.
    + exists x. rewrite lookup_insert_ne by done. split; [done|apply evolves_refl].
Qed.

Lemma keeps_delete g id : map_Forall good g -> keeps g (delete id g) (Deregister id).
Proof.
  intros Hg. split; [by apply map_Forall_delete|]. intros k x Hk.
  destruct (decide (k = id)) as [->|Hne]; [by right|].
  left. exists x. rewrite lookup_delete_ne by done. split; [done|apply evolves_refl].
Qed.

Lemma step_keeps g o : map_Forall good g -> keeps g (step g o) o.
Proof.
  intros Hg. destruct o as [req now|id now|id t|id|id]; cbn [step].
  - unfold register. destruct (validate req) as [[]|e] eqn:Ev; [|by apply keeps_refl].
    destruct (g !! rq_agent_id req) as [old|] eqn:El; [by apply keeps_refl|].
    apply validate_ok in Ev as (H1 & H2 & H3).
    apply keeps_insert; [done..|]. constructor; [done..|]. cbn. by rewrite clamp_id.
  - unfold heartbeat. destruct (g !! id) as [r|] eqn:El; [|by apply keeps_refl].
    by apply (keeps_update g id r); [..|constructor].
  - unfold set_tier. destruct (g !! id) as [r|] eqn:El; [|by apply keeps_refl].
    by apply (keeps_update g id r); [..|constructor].
  - unfold lock. destruct (g !! id) as [r|] eqn:El; [|by apply keeps_refl].
    by apply (keeps_update g id r); [..|constructor].
  - by apply keeps_delete.
Qed.

Lemma run_keeps ops : forall g,
  map_Forall good g -> map_Forall good (run ops g) /\
  (forall id r, g !! id = Some r -> Forall (fun o => ~ deregisters id o) ops ->
     exists r', run ops g !! id = Some r' /\ evolves r r').
Proof.
  induction ops as [|o ops IH]; intros g Hg.
  - split; [exact Hg|]. intros id r Hr _. exists r. split; [exact Hr|apply evolves_refl].
  - destruct (step_keeps g o Hg) as [Hg' Hstep].
    destruct (IH (step g o) Hg') as [H1 H2]. split; [exact H1|].
    intros id r Hr Hall. apply Forall_cons in Hall as [Ho Hall].
    destruct (Hstep id r Hr) as [(r' & Hr' & Hev)|Hd]; [|done].
    destruct (H2 id r' Hr' Hall) as (r'' & Hr'' & Hev'). exists r''.
    split; [exact Hr''|by eapply evolves_trans].
Qed.

Lemma new_good : map_Forall good new.
Proof. apply map_Forall_empty. Qed.

(** C31.  A registration cannot be reset from inside: over any history from the
    empty registry, every record sits under its own identifier, within the
    limits; and from any point on, as long as the agent is not deregistered,
    its record keeps its identity, original tier, heartbeat interval and
    registration time, and a lock is never lifted. *)
Theorem registration_is_sticky before after id r :
  get (run before new) id = Some r ->
  Forall (fun o => ~ deregisters id o) after ->
  good id r /\
  exists r', get (run (before ++ after) new) id = Some r' /\ good id r' /\ evolves r r'.
Proof.
  unfold get, run. rewrite fold_left_app. intros Hr Hall.
  destruct (run_keeps before new new_good) as [Hg _].
  destruct (run_keeps after _ Hg) as [Hg' Hev].
  destruct (Hev id r Hr Hall) as (r' & Hr' & He). split; [exact (Hg id r Hr)|].
  exists r'. split_and!; [exact Hr'|exact (Hg' id r' Hr')|exact He].
Qed.

Lemma registration_is_sticky_witness :
  exists r', get (run ([Register (mkRequest "a1" Write 30) 100; Lock "a1"] ++ [SetTier "a1" Execute]) new) "a1"
             = Some r' /\ locked r' = true.
Proof.
  destruct (registration_is_sticky [Register (mkRequest "a1" Write 30) 100; Lock "a1"] [SetTier "a1" Execute] "a1"
              (mkRecord "a1" ReadOnly Write 30 100 100 true)) as (_ & r' & Hr' & _ & He).
  - reflexivity.
  - constructor; [|constructor]. unfold deregisters. discriminate.
  - exists r'. split; [exact Hr'|]. exact (ev_locked _ _ He eq_refl).
Defined.

(**  Every branch of registration: it succeeds exactly for a fresh, valid
    request, storing an unlocked record with the requested tier and interval
    (the clamp never changes an accepted interval); each error has its cause,
    and a refusal changes nothing. *)
Theorem register_every_branch g req now :
  match register g req now with
  | (Ok r, g') =>
      g !! rq_agent_id req = None /\ g' = <[rq_agent_id req := r]> g /\
      r = mkRecord (rq_agent_id req) (rq_tier req) (rq_tier req)
            (rq_heartbeat_interval_secs req) now now false /\ good (rq_agent_id req) r
  | (Err e, g') =>
      g' = g /\
      match e with
      | EmptyAgentId => rq_agent_id req = EmptyString
      | AgentIdTooLong => MAX_AGENT_ID_LEN < Z.of_nat (String.length (rq_agent_id req))
      | HeartbeatOutOfRange =>
          ~ MIN_HEARTBEAT_SECS <= rq_heartbeat_interval_secs req <= MAX_HEARTBEAT_SECS
      | AlreadyRegistered => is_Some (g !! rq_agent_id req)
      end
  end.
Proof.
  unfold register. destruct (validate req) as [[]|e] eqn:Ev.
  - apply validate_ok in Ev as (H1 & H2 & H3).
    destruct (g !! rq_agent_id req) as [old|] eqn:El; [by split|].
    rewrite clamp_id by exact H3. split_and!; [done..|]. by constructor.
  - split; [reflexivity|]. revert Ev. unfold validate.
    case_bool_decide as E; [by intros [= <-]|].
    destruct (Z.ltb_spec MAX_AGENT_ID_LEN (Z.of_nat (String.length (rq_agent_id req)))); [by intros [= <-]|].
    destruct (Z.ltb_spec (rq_heartbeat_interval_secs req) MIN_HEARTBEAT_SECS); [intros [= <-]; lia|].
    destruct (Z.ltb_spec MAX_HEARTBEAT_SECS (rq_heartbeat_interval_secs req)); [intros [= <-]; lia|].
    discriminate.
Qed.

(** A lock does not hold the tier down: a later tier change raises it again,
    and leaves the lock flag set. *)
Lemma set_tier_overrides_lock g id r t :
  g !! id = Some r ->
  exists r', set_tier (snd (lock g id)) id t = (Some ReadOnly, <[id := r']> g) /\
    locked r' = true /\ tier r' = t.
Proof.
  intros Hr. unfold lock, set_tier. rewrite Hr. cbn [snd].
  rewrite lookup_insert_eq, insert_insert_eq. eexists. split; [reflexivity|]. split; reflexivity.
Qed.

Lemma string_of_list_length cs : String.length (String.string_of_list_ascii cs) = length cs.
Proof. induction cs as [|c cs IH]; [reflexivity|]. exact (f_equal S IH). Qed.

(** The token an agent gets is 32 characters of the entry's hash. *)
Lemma token_length ts actor action target g :
  String.length (token_from_audit_hash (fst (record ts actor action target g))) = 32%nat.
Proof.
  unfold record, token_from_audit_hash. cbn [fst].
  match goal with |- context [sha256_hex ?d] => destruct (sha256_hex_shape d) as (cs & -> & Hl & _) end.
  rewrite string_of_list_length, Hl. change (Nat.min 64 32) with 32%nat.
  do 33 (destruct cs as [|? cs]; [discriminate Hl|]). reflexivity.
Qed.

End Handshake.
