(* ===== verification/Sync.v ===== *)
(** The spin locks: [SpinMutex] of src/src/memory/mod.rs and [SpinLock] of
    src/src/sentinel/mod.rs (the same code), under every interleaving of any
    number of threads.
    A thread runs a list of critical sections; inside one, the load and the
    store of the protected value are separate steps, so atomicity is proved and
    not assumed.  Steps interleave on one sequentially consistent memory, which
    the acquire and release orderings of the code give for the protected data. *)

From Stdlib Require Import ZArith Lia.
From stdpp Require Import base list.
From S2P Require Import Prelude.

Module Spin.
Section Lock.
Context {T : Type}.

(** Where a thread is in [lock]; use of the guard; [drop]. *)
Inductive Pc :=
| Acquiring
| Waiting
| Holding
| Loaded (v : T)
| Stored.

(** The critical sections still to run, each a function on the protected value;
    the first is the one in progress. *)
Record Thread := mkThread { pc : Pc; todo : list (T -> T) }.

Record SpinMutex := mkMutex { locked : bool; value : T }.

Definition new (v : T) : SpinMutex := mkMutex false v.

(** One step of [lock]: the compare-exchange, which a weak one may fail without
    reason ([fails]), or one round of the waiting loop. *)
Definition lock_step (fails : bool) (m : SpinMutex) (p : Pc) : SpinMutex * Pc :=
  match p with
  | Acquiring => if locked m || fails then (m, Waiting) else (mkMutex true (value m), Holding)
  | Waiting => if locked m then (m, Waiting) else (m, Acquiring)
  | _ => (m, p)
  end.

(** [SpinLock] of sentinel/mod.rs: the same two fields, and [lock] the same loop. *)
Definition SpinLock : Type := SpinMutex.
Definition SpinLock_new (v : T) : SpinLock := mkMutex false v.
Definition SpinLock_lock_step := lock_step.

(** [deref] reads the value, [deref_mut] writes it back. *)
Definition deref_step (m : SpinMutex) : Pc := Loaded (value m).
Definition deref_mut_step (m : SpinMutex) (v : T) : SpinMutex := mkMutex (locked m) v.

(** [drop]. *)
Definition drop_step (m : SpinMutex) : SpinMutex := mkMutex false (value m).

(** The guard of [SpinLock]. *)
Definition SpinLock_deref_step := deref_step.
Definition SpinLock_deref_mut_step := deref_mut_step.
Definition SpinLock_drop_step := drop_step.

(** ** The system *)

Record Sys := mkSys {
  mutex : SpinMutex;
  threads : list Thread;
  log : list (nat * (T -> T))
}.

(** Thread [i] takes one step; the log records the stores in order. *)
Definition step (i : nat) (fails : bool) (s : Sys) : option Sys :=
  match threads s !! i with
  | None => None
  | Some th =>
      match todo th with
      | [] => None
      | f :: rest =>
          match pc th with
          | Acquiring | Waiting =>
              let (m, p) := lock_step fails (mutex s) (pc th) in
              Some (mkSys m (<[i := mkThread p (todo th)]> (threads s)) (log s))
          | Holding =>
              Some (mkSys (mutex s) (<[i := mkThread (deref_step (mutex s)) (todo th)]> (threads s)) (log s))
          | Loaded v =>
              Some (mkSys (deref_mut_step (mutex s) (f v)) (<[i := mkThread Stored (todo th)]> (threads s))
                      (log s ++ [(i, f)]))
          | Stored =>
              Some (mkSys (drop_step (mutex s)) (<[i := mkThread Acquiring rest]> (threads s)) (log s))
          end
      end
  end.

Definition start (v : T) (progs : list (list (T -> T))) : Sys :=
  mkSys (new v) (map (mkThread Acquiring) progs) [].

Inductive reachable (s0 : Sys) : Sys -> Prop :=
| reachable_refl : reachable s0 s0
| reachable_step s i b s' : reachable s0 s -> step i b s = Some s' -> reachable s0 s'.

(** ** The invariant *)

Definition inside (th : Thread) : bool :=
  match pc th with Holding | Loaded _ | Stored => true | _ => false end.

(** Sections whose store is still to come. *)
Definition pending (th : Thread) : list (T -> T) :=
  match pc th with Stored => tail (todo th) | _ => todo th end.

Definition by_thread (i : nat) (l : list (nat * (T -> T))) : list (T -> T) :=
  map snd (filter (fun e => fst e = i) l).

Definition apply_all (l : list (nat * (T -> T))) (v : T) : T :=
  fold_left (fun v e => snd e v) l v.

Record Inv (v0 : T) (progs : list (list (T -> T))) (s : Sys) : Prop := {
  inv_excl : forall i j a b, threads s !! i = Some a -> threads s !! j = Some b ->
    inside a = true -> inside b = true -> i = j;
  inv_held : forall i a, threads s !! i = Some a -> inside a = true -> locked (mutex s) = true;
  inv_owner : locked (mutex s) = true -> exists i a, threads s !! i = Some a /\ inside a = true;
  inv_loaded : forall i a v, threads s !! i = Some a -> pc a = Loaded v -> v = value (mutex s);
  inv_busy : forall i a, threads s !! i = Some a -> inside a = true -> todo a <> [];
  inv_value : value (mutex s) = apply_all (log s) v0;
  inv_progs : forall i p, progs !! i = Some p ->
    exists a, threads s !! i = Some a /\ p = by_thread i (log s) ++ pending a
}.

Lemma by_thread_snoc i j f l :
  by_thread i (l ++ [(j, f)]) = by_thread i l ++ (if decide (j = i) then [f] else []).
Proof.
  unfold by_thread. rewrite filter_app, map_app. f_equal.
  rewrite filter_cons. cbn [fst]. by destruct (decide (j = i)).
Qed.

Lemma start_inv v progs : Inv v progs (start v progs).
Proof.
  assert (Hin : forall i a, threads (start v progs) !! i = Some a -> pc a = Acquiring).
  { intros i a. cbn. change (map ?f progs) with (f <$> progs). rewrite list_lookup_fmap.
    destruct (progs !! i); [|discriminate]. by intros [= <-]. }
  assert (Hno : forall i a, threads (start v progs) !! i = Some a -> inside a = false).
  { intros i a Ha. unfold inside. by rewrite (Hin i a Ha). }
  constructor.
  - intros i j a b Ha _ Hia. by rewrite (Hno i a Ha) in Hia.
  - intros i a Ha Hia. by rewrite (Hno i a Ha) in Hia.
  - discriminate.
  - intros i a x Ha Hx. by rewrite (Hin i a Ha) in Hx.
  - intros i a Ha Hia. by rewrite (Hno i a Ha) in Hia.
  - reflexivity.
  - intros i p Hp. exists (mkThread Acquiring p). split; [|reflexivity]. cbn.
    change (map ?f progs) with (f <$> progs). by rewrite list_lookup_fmap, Hp.
Qed.

Lemma updated (ts : list Thread) i th th' j a :
  ts !! i = Some th -> <[i := th']> ts !! j = Some a ->
  (j = i /\ a = th') \/ (j <> i /\ ts !! j = Some a).
Proof.
  intros Hi. destruct (decide (j = i)) as [->|Hne].
  - rewrite list_lookup_insert_eq by (eapply lookup_lt_Some; exact Hi). intros [= <-]. by left.
  - rewrite list_lookup_insert_ne by done. by right.
Qed.

(** One thread changes: what has to be checked of its change. *)
Lemma inv_update v0 progs s i th th' m' log' :
  Inv v0 progs s -> threads s !! i = Some th ->
  (inside th' = true -> inside th = true \/ locked (mutex s) = false) ->
  locked m' = (inside th' || (locked (mutex s) && negb (inside th))) ->
  (forall v, pc th' = Loaded v -> v = value m') ->
  (value m' = value (mutex s) \/ inside th = true) ->
  (inside th' = true -> todo th' <> []) ->
  value m' = apply_all log' v0 ->
  by_thread i log' ++ pending th' = by_thread i (log s) ++ pending th ->
  (forall j, j <> i -> by_thread j log' = by_thread j (log s)) ->
  Inv v0 progs (mkSys m' (<[i := th']> (threads s)) log').
Proof.
  intros [I1 I2 I3 I4 I5 I6 I7] Hi C1 C2 C3 C3' C4 C5 C6 C7.
  assert (Hother : forall j a, j <> i -> threads s !! j = Some a -> inside a = true ->
    locked (mutex s) = true /\ inside th = false /\ inside th' = false).
  { intros j a Hne Ha Hia. assert (Hl := I2 j a Ha Hia).
    assert (Hth : inside th = false).
    { destruct (inside th) eqn:E; [|done]. exfalso. exact (Hne (I1 j i a th Ha Hi Hia E)). }
    split_and!; [done..|]. destruct (inside th') eqn:E; [|done].
    destruct (C1 eq_refl); congruence. }
  constructor; cbn [mutex threads log].
  - intros j k a b Ha Hb Hia Hib.
    destruct (updated _ _ _ _ _ _ Hi Ha) as [[-> ->]|[Nj Ha']], (updated _ _ _ _ _ _ Hi Hb) as [[-> ->]|[Nk Hb']].
    + done.
    + destruct (Hother k b Nk Hb' Hib) as (_ & _ & ?). congruence.
    + destruct (Hother j a Nj Ha' Hia) as (_ & _ & ?). congruence.
    + by apply (I1 j k a b).
  - intros j a Ha Hia. rewrite C2. destruct (updated _ _ _ _ _ _ Hi Ha) as [[-> ->]|[Nj Ha']].
    + by rewrite Hia.
    + destruct (Hother j a Nj Ha' Hia) as (-> & -> & _). by rewrite orb_true_r.
  - rewrite C2. intros [Hin|[Hl Hn]%andb_true_iff]%orb_true_iff.
    + exists i, th'. split; [|done]. apply list_lookup_insert_eq. by eapply lookup_lt_Some.
    + destruct (I3 Hl) as (j & a & Ha & Hia). exists j, a. split; [|done].
      rewrite list_lookup_insert_ne; [done|]. intros ->. rewrite Hi in Ha. injection Ha as ->.
      by rewrite Hia in Hn.
  - intros j a v Ha Hp. destruct (updated _ _ _ _ _ _ Hi Ha) as [[-> ->]|[Nj Ha']]; [by apply C3|].
    rewrite (I4 j a v Ha' Hp). destruct C3' as [->|Hth]; [done|].
    assert (Hia : inside a = true) by (unfold inside; by rewrite Hp).
    destruct (Hother j a Nj Ha' Hia) as (_ & ? & _). congruence.
  - intros j a Ha Hia. destruct (updated _ _ _ _ _ _ Hi Ha) as [[-> ->]|[Nj Ha']]; [by apply C4|].
    by apply (I5 j a).
  - exact C5.
  - intros j p Hp. destruct (I7 j p Hp) as (a & Ha & ->). destruct (decide (j = i)) as [->|Hne].
    + exists th'. split; [apply list_lookup_insert_eq; by eapply lookup_lt_Some|].
      rewrite Hi in Ha. injection Ha as <-. by rewrite C6.
    + exists a. split; [by rewrite list_lookup_insert_ne|]. by rewrite C7.
Qed.

Lemma step_inv v0 progs i b s s' : Inv v0 progs s -> step i b s = Some s' -> Inv v0 progs s'.
Proof.
  intros HI. unfold step. destruct (threads s !! i) as [[p td]|] eqn:Hi; [|discriminate].
  cbn [todo pc]. destruct td as [|f rest]; [discriminate|].
  pose proof (inv_value _ _ _ HI) as Hv.
  destruct p as [| | |v|]; cbn [lock_step].
  - destruct (locked (mutex s)) eqn:El; cbn [orb].
    + intros [= <-]. apply (inv_update _ _ _ _ _ _ _ _ HI Hi); cbn; rewrite ?El; auto; discriminate.
    + destruct b; intros [= <-]; apply (inv_update _ _ _ _ _ _ _ _ HI Hi); cbn; rewrite ?El; auto; discriminate.
  - destruct (locked (mutex s)) eqn:El; intros [= <-];
      apply (inv_update _ _ _ _ _ _ _ _ HI Hi); cbn; rewrite ?El; auto; discriminate.
  - intros [= <-]. assert (El := inv_held _ _ _ HI i _ Hi eq_refl).
    apply (inv_update _ _ _ _ _ _ _ _ HI Hi); cbn; rewrite ?El; auto. by intros v [= ->].
  - intros [= <-]. assert (El := inv_held _ _ _ HI i _ Hi eq_refl).
    assert (Hl := inv_loaded _ _ _ HI i _ v Hi eq_refl).
    apply (inv_update _ _ _ _ _ _ _ _ HI Hi); cbn; rewrite ?El; auto; try discriminate.
    + rewrite Hl, Hv. unfold apply_all. by rewrite fold_left_app.
    + rewrite by_thread_snoc, decide_True by done. rewrite <- app_assoc. reflexivity.
    + intros j Hne. rewrite by_thread_snoc, decide_False by congruence. by rewrite app_nil_r.
  - intros [= <-]. assert (El := inv_held _ _ _ HI i _ Hi eq_refl).
    apply (inv_update _ _ _ _ _ _ _ _ HI Hi); cbn; rewrite ?El; auto; discriminate.
Qed.

Lemma reachable_inv v0 progs s : reachable (start v0 progs) s -> Inv v0 progs s.
Proof. induction 1 as [|s i b s' _ IH Hs]; [apply start_inv|by eapply step_inv]. Qed.

(** C12.  Mutual exclusion and atomicity, for any number of threads and every
    interleaving, weak compare-exchange failures included: at most one thread is
    between acquiring and releasing; the protected value is the result of whole
    critical sections run one after the other; each thread's sections take
    effect in its program order, each exactly once, and all of them when every
    thread is done. *)
Theorem critical_sections_are_atomic v0 progs s :
  reachable (start v0 progs) s ->
  (forall i j a b, threads s !! i = Some a -> threads s !! j = Some b ->
     inside a = true -> inside b = true -> i = j) /\
  value (mutex s) = apply_all (log s) v0 /\
  (forall i p, progs !! i = Some p -> exists rest, p = by_thread i (log s) ++ rest) /\
  (Forall (fun a => todo a = []) (threads s) ->
   forall i p, progs !! i = Some p -> p = by_thread i (log s)).
Proof.
  intros Hr. pose proof (reachable_inv _ _ _ Hr) as HI. split_and!.
  - apply HI.
  - apply HI.
  - intros i p Hp. destruct (inv_progs _ _ _ HI i p Hp) as (a & _ & E). by exists (pending a).
  - intros Hall i p Hp. destruct (inv_progs _ _ _ HI i p Hp) as (a & Ha & ->).
    assert (Ht : todo a = []) by (by eapply Forall_lookup_1 in Ha; [|exact Hall]).
    unfold pending. rewrite Ht. destruct (pc a); apply app_nil_r.
Qed.

(** ** Progress *)

(** Thread [i] takes [k] steps, its compare-exchanges not failing spuriously. *)
Fixpoint alone (k i : nat) (s : Sys) : option Sys :=
  match k with
  | O => Some s
  | S k' => match step i false s with Some s' => alone k' i s' | None => None end
  end.

(** Thread [i] is about to start its next section, with the lock free. *)
Definition left_section (i : nat) (rest : list (T -> T)) (s : Sys) : Prop :=
  threads s !! i = Some (mkThread Acquiring rest) /\ locked (mutex s) = false.

Lemma alone_stored s i f rest :
  threads s !! i = Some (mkThread Stored (f :: rest)) ->
  exists s', alone 1 i s = Some s' /\ left_section i rest s'.
Proof.
  intros Hi. cbn [alone]. unfold step. rewrite Hi. eexists. split; [reflexivity|].
  split; [|reflexivity]. apply list_lookup_insert_eq. by eapply lookup_lt_Some.
Qed.

Lemma alone_then k i s s1 rest :
  step i false s = Some s1 ->
  (exists s', alone k i s1 = Some s' /\ left_section i rest s') ->
  exists s', alone (S k) i s = Some s' /\ left_section i rest s'.
Proof. intros Hs H. cbn [alone]. rewrite Hs. exact H. Qed.

Ltac one_step Hi :=
  eapply alone_then;
  [unfold step; rewrite Hi; cbn [todo pc lock_step]; reflexivity|].

Lemma alone_loaded s i f rest v :
  threads s !! i = Some (mkThread (Loaded v) (f :: rest)) ->
  exists s', alone 2 i s = Some s' /\ left_section i rest s'.
Proof.
  intros Hi. one_step Hi. apply (alone_stored _ i f). cbn.
  apply list_lookup_insert_eq. by eapply lookup_lt_Some.
Qed.

Lemma alone_holding s i f rest :
  threads s !! i = Some (mkThread Holding (f :: rest)) ->
  exists s', alone 3 i s = Some s' /\ left_section i rest s'.
Proof.
  intros Hi. one_step Hi. eapply (alone_loaded _ i f). cbn.
  apply list_lookup_insert_eq. by eapply lookup_lt_Some.
Qed.

Lemma alone_acquiring s i f rest :
  threads s !! i = Some (mkThread Acquiring (f :: rest)) -> locked (mutex s) = false ->
  exists s', alone 4 i s = Some s' /\ left_section i rest s'.
Proof.
  intros Hi El. eapply alone_then.
  { unfold step. rewrite Hi. cbn [todo pc lock_step]. rewrite El. reflexivity. }
  apply (alone_holding _ i f). cbn. apply list_lookup_insert_eq. by eapply lookup_lt_Some.
Qed.

Lemma alone_waiting s i f rest :
  threads s !! i = Some (mkThread Waiting (f :: rest)) -> locked (mutex s) = false ->
  exists s', alone 5 i s = Some s' /\ left_section i rest s'.
Proof.
  intros Hi El. eapply alone_then.
  { unfold step. rewrite Hi. cbn [todo pc lock_step]. rewrite El. reflexivity. }
  apply (alone_acquiring _ i f); [|exact El]. cbn. apply list_lookup_insert_eq. by eapply lookup_lt_Some.
Qed.

(**  No deadlock: in every reachable state in which some thread still has a
    critical section to run, one thread, running alone for at most five steps,
    completes a section and leaves the lock free. *)
Theorem lock_never_deadlocks v0 progs s :
  reachable (start v0 progs) s ->
  ~ Forall (fun a => todo a = []) (threads s) ->
  exists i a k s', threads s !! i = Some a /\ todo a <> [] /\ (k <= 5)%nat /\
    alone k i s = Some s' /\ left_section i (tail (todo a)) s'.
Proof.
  intros Hr Hw. pose proof (reachable_inv _ _ _ Hr) as HI.
  destruct (locked (mutex s)) eqn:El.
  - destruct (inv_owner _ _ _ HI El) as (i & [p td] & Hi & Hin).
    pose proof (inv_busy _ _ _ HI i _ Hi Hin) as Hb. destruct td as [|f rest]; [done|].
    exists i, (mkThread p (f :: rest)). cbn [todo tail].
    destruct p as [| | |v|]; try discriminate Hin.
    + destruct (alone_holding s i f rest Hi) as (s' & ? & ?). exists 3%nat, s'. split_and!; auto with lia.
    + destruct (alone_loaded s i f rest v Hi) as (s' & ? & ?). exists 2%nat, s'. split_and!; auto with lia.
    + destruct (alone_stored s i f rest Hi) as (s' & ? & ?). exists 1%nat, s'. split_and!; auto with lia.
  - assert (Hdec : forall a : Thread, Decision (todo a = [])).
    { intros a. destruct (todo a) as [|f l]; [left; reflexivity|right; discriminate]. }
    apply (not_Forall_Exists (fun a => todo a = [])) in Hw.
    apply Exists_exists in Hw as (a & Ha & Hne). apply list_elem_of_lookup in Ha as [i Hi].
    assert (Hout : inside a = false).
    { destruct (inside a) eqn:E; [|done]. rewrite (inv_held _ _ _ HI i a Hi E) in El. discriminate. }
    destruct a as [p [|f rest]]; [by destruct Hne|]. exists i, (mkThread p (f :: rest)). cbn [todo tail].
    destruct p as [| | |v|]; try discriminate Hout.
    + destruct (alone_acquiring s i f rest Hi El) as (s' & ? & ?). exists 4%nat, s'. split_and!; auto with lia.
    + destruct (alone_waiting s i f rest Hi El) as (s' & ? & ?). exists 5%nat, s'. split_and!; auto with lia.
Qed.

End Lock.

(** Two threads that both add to a counter, stopped with one inside. *)
Definition demo : Sys (T := nat) := start 0%nat [[Nat.add 1]; [Nat.add 2]].

Lemma spin_demo_reachable : exists s, reachable demo s /\ value (mutex s) = 1%nat /\
  ~ Forall (fun a => todo a = []) (threads s).
Proof.
  pose proof (reachable_refl demo) as H0.
  pose proof (reachable_step _ _ 0%nat false _ H0 eq_refl) as H1.
  pose proof (reachable_step _ _ 0%nat false _ H1 eq_refl) as H2.
  pose proof (reachable_step _ _ 1%nat false _ H2 eq_refl) as H3.
  pose proof (reachable_step _ _ 0%nat false _ H3 eq_refl) as H4.
  eexists. split; [exact H4|]. split; [reflexivity|].
  intros H. apply Forall_cons in H as [H _]. discriminate H.
Defined.

Lemma critical_sections_are_atomic_witness :
  exists s, reachable demo s /\ value (mutex s) = apply_all (log s) 0%nat.
Proof.
  destruct spin_demo_reachable as (s & Hr & _). exists s. split; [exact Hr|].
  exact (proj1 (proj2 (critical_sections_are_atomic 0%nat [[Nat.add 1]; [Nat.add 2]] s Hr))).
Defined.

Lemma lock_never_deadlocks_witness :
  exists s i k s', reachable demo s /\ (k <= 5)%nat /\ alone k i s = Some s' /\ locked (mutex s') = false.
Proof.
  destruct spin_demo_reachable as (s & Hr & _ & Hw).
  destruct (lock_never_deadlocks 0%nat [[Nat.add 1]; [Nat.add 2]] s Hr Hw)
    as (i & a & k & s' & _ & _ & Hk & Hs & _ & Hl).
  exists s, i, k, s'. split_and!; assumption.
Defined.

End Spin.
