(* ===== verification/F32.v ===== *)
(** Binary32 arithmetic, as the kernel's [f32] values use it: the IEEE operations
    of the standard library's specification floats at precision 24, conversions
    between bit patterns, integers and floats, and the order and rounding facts
    the clients need.  Every finite float is an integer multiple of 2^-149; that
    integer is [scaled], and comparisons are comparisons of it. *)

From Stdlib Require Import ZArith Lia.
From Stdlib Require Import SpecFloat.
From stdpp Require Import base list.
From S2P Require Import Prelude.

Open Scope Z_scope.

Module F32.

Definition f32 : Type := spec_float.

Definition add : f32 -> f32 -> f32 := SFadd 24 128.
Definition sub : f32 -> f32 -> f32 := SFsub 24 128.
Definition mul : f32 -> f32 -> f32 := SFmul 24 128.
Definition div : f32 -> f32 -> f32 := SFdiv 24 128.
Definition neg : f32 -> f32 := SFopp.
Definition lt (x y : f32) : bool := SFltb x y.
Definition le (x y : f32) : bool := SFleb x y.

(** An unsigned integer converted with [as f32]: rounded to nearest even. *)
Definition of_int (n : Z) : f32 := binary_normalize 24 128 n 0 false.

Definition zero : f32 := S754_zero false.
Definition one : f32 := S754_finite false 8388608 (-23).

Definition is_nan (x : f32) : bool := match x with S754_nan => true | _ => false end.
Definition is_finite (x : f32) : bool :=
  match x with S754_zero _ | S754_finite _ _ _ => true | _ => false end.

(** [f32::clamp] keeps a NaN; [f32::min] prefers the other argument. *)
Definition clamp (x lo hi : f32) : f32 :=
  let x := if lt x lo then lo else x in
  if lt hi x then hi else x.

Definition min (x y : f32) : f32 :=
  if is_nan x then y else if is_nan y then x else if lt y x then y else x.

(** [x as u32]: truncation towards zero, saturating, NaN to 0. *)
Definition to_u32 (x : f32) : Z :=
  match x with
  | S754_finite false m e => Z.min (Z.shiftl (Zpos m) e) (U32 - 1)
  | S754_infinity false => U32 - 1
  | _ => 0
  end.

(** ** Bit patterns *)

Definition from_bits (b : Z) : f32 :=
  let s := Z.testbit b 31 in
  let e := Z.land (Z.shiftr b 23) 0xFF in
  let m := Z.land b 0x7FFFFF in
  if e =? 255 then (if m =? 0 then S754_infinity s else S754_nan)
  else if e =? 0 then
    match m with Zpos p => S754_finite s p (-149) | _ => S754_zero s end
  else
    match m + 0x800000 with Zpos p => S754_finite s p (e - 150) | _ => S754_nan end.

Definition sign_bit (s : bool) : Z := if s then 0x80000000 else 0.

(** The quiet NaN stands for every NaN. *)
Definition to_bits (x : f32) : Z :=
  match x with
  | S754_zero s => sign_bit s
  | S754_infinity s => sign_bit s + 0x7F800000
  | S754_nan => 0x7FC00000
  | S754_finite s m e =>
      if Zpos m <? 0x800000 then sign_bit s + Zpos m
      else sign_bit s + (e + 150) * 0x800000 + (Zpos m - 0x800000)
  end.

(** ** Values *)

(** The floats of the format. *)
Definition valid (x : f32) : bool := valid_binary 24 128 x.

(** [x * 2^149], for finite [x]. *)
Definition scaled (x : f32) : Z :=
  match x with
  | S754_finite s m e => let v := Zpos m * 2 ^ (e + 149) in if s then - v else v
  | _ => 0
  end.

Definition unit_scaled : Z := 2 ^ 149.

Lemma digits2_log2 p : Zpos (digits2_pos p) = Z.log2 (Zpos p) + 1.
Proof.
  induction p as [p IH|p IH|]; [| |reflexivity]; cbn [digits2_pos]; rewrite Pos2Z.inj_succ, IH.
  - change (Zpos p~1) with (2 * Zpos p + 1). rewrite Z.log2_succ_double by lia. lia.
  - change (Zpos p~0) with (2 * Zpos p). rewrite Z.log2_double by lia. lia.
Qed.

Lemma digits2_bounds p : 2 ^ (Zpos (digits2_pos p) - 1) <= Zpos p < 2 ^ Zpos (digits2_pos p).
Proof.
  rewrite digits2_log2. replace (Z.log2 (Zpos p) + 1 - 1) with (Z.log2 (Zpos p)) by lia.
  apply Z.log2_spec. lia.
Qed.

(** A finite float of the format: at most 24 bits, and 24 of them unless the
    exponent is the smallest. *)
Lemma valid_finite s m e :
  valid (S754_finite s m e) = true ->
  -149 <= e <= 104 /\ Zpos m < 2 ^ 24 /\ (-149 < e -> 2 ^ 23 <= Zpos m).
Proof.
  unfold valid, valid_binary, bounded, canonical_mantissa, fexp, emin.
  rewrite andb_true_iff, Z.eqb_eq, Z.leb_le. intros [H1 H2].
  pose proof (digits2_bounds m) as [Hl Hu].
  assert (Hd : Zpos (digits2_pos m) <= 24) by lia.
  split_and!; [lia|lia| |].
  - eapply Z.lt_le_trans; [exact Hu|]. apply Z.pow_le_mono_r; lia.
  - intros He. assert (Zpos (digits2_pos m) = 24) as Hd' by lia. rewrite Hd' in Hl. exact Hl.
Qed.

Lemma scaled_nonneg m e : 0 <= e + 149 -> 0 < scaled (S754_finite false m e).
Proof. intros H. cbn. apply Z.mul_pos_pos; [lia|apply Z.pow_pos_nonneg; lia]. Qed.

(** A smaller exponent means a smaller magnitude. *)
Lemma magnitude_lt m1 e1 m2 e2 :
  valid (S754_finite false m1 e1) = true -> valid (S754_finite false m2 e2) = true -> e1 < e2 ->
  Zpos m1 * 2 ^ (e1 + 149) < Zpos m2 * 2 ^ (e2 + 149).
Proof.
  intros H1 H2 He. apply valid_finite in H1 as (E1 & M1 & _), H2 as (E2 & _ & M2).
  specialize (M2 ltac:(lia)). assert (0 < 2 ^ (e1 + 149)) by (apply Z.pow_pos_nonneg; lia).
  apply Z.lt_le_trans with (2 ^ 24 * 2 ^ (e1 + 149)); [by apply Z.mul_lt_mono_pos_r|].
  apply Z.le_trans with (2 ^ 23 * 2 ^ (e2 + 149)); [|apply Z.mul_le_mono_nonneg_r; [lia|exact M2]].
  rewrite <- !Z.pow_add_r by lia. apply Z.pow_le_mono_r; lia.
Qed.

Lemma magnitude_compare m1 e1 m2 e2 :
  valid (S754_finite false m1 e1) = true -> valid (S754_finite false m2 e2) = true ->
  (Zpos m1 * 2 ^ (e1 + 149) ?= Zpos m2 * 2 ^ (e2 + 149)) =
  match e1 ?= e2 with Lt => Lt | Gt => Gt | Eq => Pos.compare_cont Eq m1 m2 end.
Proof.
  intros H1 H2. destruct (Z.compare_spec e1 e2) as [->|L|L].
  - assert (0 < 2 ^ (e2 + 149)) by (apply valid_finite in H2; apply Z.pow_pos_nonneg; lia).
    rewrite <- Zmult_compare_compat_r by lia. reflexivity.
  - apply Z.compare_lt_iff. by apply magnitude_lt.
  - apply Z.compare_gt_iff. by apply magnitude_lt.
Qed.

Lemma valid_sign s m e : valid (S754_finite s m e) = valid (S754_finite false m e).
Proof. reflexivity. Qed.

(** Comparison is comparison of the values. *)
Lemma compare_scaled x y :
  valid x = true -> valid y = true -> is_finite x = true -> is_finite y = true ->
  SFcompare x y = Some (scaled x ?= scaled y).
Proof.
  assert (Hpos : forall m e, valid (S754_finite false m e) = true -> 0 < Zpos m * 2 ^ (e + 149)).
  { intros m e H. apply valid_finite in H. apply Z.mul_pos_pos; [lia|apply Z.pow_pos_nonneg; lia]. }
  destruct x as [s1|s1| |s1 m1 e1]; try discriminate; destruct y as [s2|s2| |s2 m2 e2]; try discriminate;
    intros V1 V2 _ _; cbn [SFcompare scaled].
  - reflexivity.
  - rewrite valid_sign in V2. specialize (Hpos _ _ V2). f_equal. symmetry.
    destruct s2; [apply Z.compare_gt_iff|apply Z.compare_lt_iff]; lia.
  - rewrite valid_sign in V1. specialize (Hpos _ _ V1). f_equal. symmetry.
    destruct s1; [apply Z.compare_lt_iff|apply Z.compare_gt_iff]; lia.
  - rewrite valid_sign in V1, V2. pose proof (Hpos _ _ V1) as P1. pose proof (Hpos _ _ V2) as P2.
    f_equal. symmetry. destruct s1, s2; cbn zeta.
    + rewrite Z.compare_opp, magnitude_compare by assumption.
      rewrite (Z.compare_antisym e1 e2). destruct (e1 ?= e2); cbn [CompOpp]; try reflexivity.
      change (Pos.compare_cont Eq m2 m1) with (Pos.compare m2 m1).
      change (Pos.compare_cont Eq m1 m2) with (Pos.compare m1 m2). apply Pos.compare_antisym.
    + apply Z.compare_lt_iff. lia.
    + apply Z.compare_gt_iff. lia.
    + by apply magnitude_compare.
Qed.

Lemma lt_scaled x y :
  valid x = true -> valid y = true -> is_finite x = true -> is_finite y = true ->
  lt x y = (scaled x <? scaled y).
Proof.
  intros. unfold lt, SFltb. rewrite compare_scaled by assumption. unfold Z.ltb.
  by destruct (scaled x ?= scaled y).
Qed.

Lemma le_scaled x y :
  valid x = true -> valid y = true -> is_finite x = true -> is_finite y = true ->
  le x y = (scaled x <=? scaled y).
Proof.
  intros. unfold le, SFleb. rewrite compare_scaled by assumption. unfold Z.leb.
  by destruct (scaled x ?= scaled y).
Qed.

(** ** Rounding *)

Lemma shr_1_nonneg m r s :
  0 <= m -> shr_1 (Build_shr_record m r s) = Build_shr_record (m / 2) (Z.odd m) (r || s).
Proof.
  intros Hm. destruct m as [|p|p]; [reflexivity| |lia]. destruct p as [p|p|]; cbn [shr_1 Z.odd].
  - change (Zpos p~1) with (2 * Zpos p + 1). by rewrite <- (Z.div_unique_pos (2 * Zpos p + 1) 2 (Zpos p) 1) by lia.
  - change (Zpos p~0) with (2 * Zpos p). by rewrite <- (Z.div_unique_pos (2 * Zpos p) 2 (Zpos p) 0) by lia.
  - reflexivity.
Qed.

Lemma pow_xO p : 2 ^ Zpos p~0 = 2 ^ Zpos p * 2 ^ Zpos p.
Proof. change (Zpos p~0) with (2 * Zpos p). apply Z.pow_twice_r. Qed.

Lemma pow_xI p : 2 ^ Zpos p~1 = 2 * (2 ^ Zpos p * 2 ^ Zpos p).
Proof.
  change (Zpos p~1) with (2 * Zpos p + 1). rewrite Z.pow_add_r, Z.pow_twice_r by lia. lia.
Qed.

Lemma iter_shr p : forall m r s, 0 <= m ->
  exists r' s', SpecFloat.iter_pos shr_1 p (Build_shr_record m r s) = Build_shr_record (m / 2 ^ Zpos p) r' s'.
Proof.
  induction p as [p IH|p IH|]; intros m r s Hm; cbn [SpecFloat.iter_pos].
  - rewrite shr_1_nonneg by exact Hm.
    assert (H2 : 0 <= m / 2) by (apply Z.div_pos; lia).
    destruct (IH (m / 2) (Z.odd m) (r || s) H2) as (r1 & s1 & ->).
    destruct (IH (m / 2 / 2 ^ Zpos p) r1 s1) as (r2 & s2 & ->); [apply Z.div_pos; lia|].
    exists r2, s2. rewrite !Z.div_div, pow_xI by lia. f_equal; f_equal; lia.
  - destruct (IH m r s Hm) as (r1 & s1 & ->).
    destruct (IH (m / 2 ^ Zpos p) r1 s1) as (r2 & s2 & ->); [apply Z.div_pos; lia|].
    exists r2, s2. by rewrite Z.div_div, pow_xO by lia.
  - rewrite shr_1_nonneg by exact Hm. by exists (Z.odd m), (r || s).
Qed.

Lemma iter_shr_exact p : forall q, 0 <= q ->
  SpecFloat.iter_pos shr_1 p (Build_shr_record (q * 2 ^ Zpos p) false false) = Build_shr_record q false false.
Proof.
  assert (Hone : forall q, 0 <= q ->
    shr_1 (Build_shr_record (q * 2) false false) = Build_shr_record q false false).
  { intros q Hq. rewrite shr_1_nonneg, Z.div_mul by lia. by rewrite Z.mul_comm, Z.odd_mul. }
  induction p as [p IH|p IH|]; intros q Hq; cbn [SpecFloat.iter_pos].
  - replace (q * 2 ^ Zpos p~1) with (q * 2 ^ Zpos p * 2 ^ Zpos p * 2).
    2:{ rewrite pow_xI. lia. }
    rewrite Hone by (apply Z.mul_nonneg_nonneg; [apply Z.mul_nonneg_nonneg|]; lia).
    rewrite IH by (apply Z.mul_nonneg_nonneg; lia). by apply IH.
  - replace (q * 2 ^ Zpos p~0) with (q * 2 ^ Zpos p * 2 ^ Zpos p)
      by (rewrite pow_xO; lia).
    rewrite IH by (apply Z.mul_nonneg_nonneg; lia). by apply IH.
  - by apply Hone.
Qed.

Definition fexp32 : Z -> Z := fexp 24 128.

Lemma fexp32_val z : fexp32 z = Z.max (z - 24) (-149).
Proof. reflexivity. Qed.

(** One normalising shift: it drops the bits below the exponent of the format. *)
Lemma shr_fexp_spec m e l :
  0 <= m -> e <= fexp32 (Zdigits2 m + e) ->
  let n := fexp32 (Zdigits2 m + e) - e in
  exists r s, shr_fexp 24 128 m e l = (Build_shr_record (m / 2 ^ n) r s, e + n) /\
    (l = loc_Exact -> forall q, 0 <= q -> m = q * 2 ^ n -> r = false /\ s = false).
Proof.
  intros Hm He n. unfold shr_fexp. fold fexp32. fold n.
  assert (Hn : 0 <= n) by (unfold n; lia).
  assert (Hl : exists r s, shr_record_of_loc m l = Build_shr_record m r s /\ (l = loc_Exact -> r = false /\ s = false)).
  { destruct l as [|[]]; do 2 eexists; (split; [reflexivity|]); done. }
  destruct Hl as (r & s & -> & Hex). destruct n as [|p|p] eqn:En; [| |lia]; cbn [shr].
  - exists r, s. rewrite Z.pow_0_r, Z.div_1_r, Z.add_0_r. split; [reflexivity|]. intros; by apply Hex.
  - destruct (iter_shr p m r s Hm) as (r' & s' & Hit). exists r', s'. rewrite Hit. split; [reflexivity|].
    intros Hx q Hq ->. destruct (Hex Hx) as [-> ->]. rewrite iter_shr_exact in Hit by exact Hq.
    by injection Hit.
Qed.

Lemma zdigits_pos m : 0 < m -> 2 ^ (Zdigits2 m - 1) <= m < 2 ^ Zdigits2 m /\ 0 < Zdigits2 m.
Proof. intros Hm. destruct m as [|p|p]; [lia| |lia]. split; [apply digits2_bounds|reflexivity]. Qed.

Lemma zdigits_unique m k : 0 < k -> 2 ^ (k - 1) <= m < 2 ^ k -> Zdigits2 m = k.
Proof.
  intros Hk [Hl Hu]. assert (Hm : 0 < m) by (eapply Z.lt_le_trans; [|exact Hl]; apply Z.pow_pos_nonneg; lia).
  destruct (zdigits_pos m Hm) as [[Dl Du] Hd].
  destruct (Z.lt_trichotomy (Zdigits2 m) k) as [L|[E|L]]; [|exact E|]; exfalso.
  - assert (2 ^ Zdigits2 m <= 2 ^ (k - 1)) by (apply Z.pow_le_mono_r; lia). lia.
  - assert (2 ^ k <= 2 ^ (Zdigits2 m - 1)) by (apply Z.pow_le_mono_r; lia). lia.
Qed.

(** The truncated significand has at most 24 bits, and exactly 24 above the
    subnormal range. *)
Lemma truncated_bounds m e :
  0 <= m -> e <= fexp32 (Zdigits2 m + e) ->
  let e1 := fexp32 (Zdigits2 m + e) in
  0 <= m / 2 ^ (e1 - e) < 2 ^ 24 /\ (-149 < e1 -> 2 ^ 23 <= m / 2 ^ (e1 - e)).
Proof.
  intros Hm He e1. assert (E1 : e1 = Z.max (Zdigits2 m + e - 24) (-149)) by apply fexp32_val.
  fold e1 in He. clearbody e1.
  assert (Hp : 0 < 2 ^ (e1 - e)) by (apply Z.pow_pos_nonneg; lia).
  assert (H0 : 0 <= m / 2 ^ (e1 - e)) by (apply Z.div_pos; lia).
  destruct (Z.eq_dec m 0) as [->|Hne].
  { change (Zdigits2 0) with 0 in E1. rewrite Z.div_0_l by lia. split; [lia|]. lia. }
  destruct (zdigits_pos m ltac:(lia)) as [[Dl Du] Hd]. split.
  - split; [exact H0|]. apply Z.div_lt_upper_bound; [exact Hp|]. rewrite <- Z.pow_add_r by lia.
    eapply Z.lt_le_trans; [exact Du|]. apply Z.pow_le_mono_r; lia.
  - intros He1. apply Z.div_le_lower_bound; [exact Hp|]. rewrite <- Z.pow_add_r by lia.
    eapply Z.le_trans; [|exact Dl]. apply Z.pow_le_mono_r; lia.
Qed.

(** The second shift of a significand of at most 2^24 at a format exponent. *)
Lemma renormalise s mr e1 :
  0 < mr <= 2 ^ 24 -> -149 <= e1 -> (-149 < e1 -> 2 ^ 23 <= mr) ->
  exists m2 e2,
    match shr_m (fst (shr_fexp 24 128 mr e1 loc_Exact)) with
    | Zpos m => Some (m, snd (shr_fexp 24 128 mr e1 loc_Exact))
    | _ => None
    end = Some (m2, e2) /\
    Zpos m2 * 2 ^ (e2 - e1) = mr /\ e1 <= e2 /\ (e2 <= 104 -> valid (S754_finite s m2 e2) = true).
Proof.
  intros Hm He Hn. destruct (zdigits_pos mr ltac:(lia)) as [[Dl Du] Hd].
  assert (Hd25 : Zdigits2 mr <= 25).
  { destruct (Z.le_gt_cases (Zdigits2 mr) 25) as [|G]; [assumption|].
    assert (2 ^ 25 <= 2 ^ (Zdigits2 mr - 1)) by (apply Z.pow_le_mono_r; lia). lia. }
  assert (Hd24 : -149 < e1 -> 24 <= Zdigits2 mr).
  { intros G. specialize (Hn G). destruct (Z.le_gt_cases 24 (Zdigits2 mr)) as [|L]; [assumption|].
    assert (2 ^ Zdigits2 mr <= 2 ^ 23) by (apply Z.pow_le_mono_r; lia). lia. }
  assert (Hf : e1 <= fexp32 (Zdigits2 mr + e1)) by (rewrite fexp32_val; lia).
  destruct (shr_fexp_spec mr e1 loc_Exact ltac:(lia) Hf) as (r & t & -> & _). cbn [fst snd shr_m].
  set (n := fexp32 (Zdigits2 mr + e1) - e1).
  assert (Hv : forall m2 e2, e2 <= 104 -> fexp32 (Zdigits2 (Zpos m2) + e2) = e2 ->
    valid (S754_finite s m2 e2) = true).
  { intros m2 e2 H104 Hfx. unfold valid, valid_binary, bounded, canonical_mantissa.
    fold fexp32. cbn [Zdigits2] in Hfx. rewrite Hfx, Z.eqb_refl. by apply Z.leb_le. }
  destruct (Z.eq_dec (Zdigits2 mr) 25) as [E25|N25].
  - assert (mr = 2 ^ 24) as -> by (rewrite E25 in Dl; change (2 ^ (25 - 1)) with (2 ^ 24) in Dl; lia).
    assert (n = 1) as -> by (unfold n; rewrite E25, fexp32_val; lia).
    exists 8388608%positive, (e1 + 1). split; [reflexivity|]. split_and!; [|lia|].
    + replace (e1 + 1 - e1) with 1 by lia. reflexivity.
    + intros H104. apply Hv; [exact H104|]. change (Zdigits2 8388608) with 24. rewrite fexp32_val. lia.
  - assert (n = 0) as Hn0 by (unfold n; rewrite fexp32_val; lia). rewrite Hn0, Z.pow_0_r, Z.div_1_r.
    destruct mr as [|p|p]; [lia| |lia]. exists p, (e1 + 0). split; [reflexivity|]. split_and!; [|lia|].
    + replace (e1 + 0 - e1) with 0 by lia. lia.
    + intros H104. apply Hv; [exact H104|]. rewrite Z.add_0_r, fexp32_val. unfold n in Hn0.
      rewrite fexp32_val in Hn0. lia.
Qed.

(** What rounding returns: the float of significand [mr] at exponent [e1]. *)
Definition rounded (s : bool) (mr e1 : Z) (x : f32) : Prop :=
  (mr = 0 /\ x = S754_zero s) \/
  (0 < mr /\ exists m2 e2, x = (if e2 <=? 104 then S754_finite s m2 e2 else S754_infinity s) /\
     Zpos m2 * 2 ^ (e2 - e1) = mr /\ e1 <= e2 /\ (e2 <= 104 -> valid (S754_finite s m2 e2) = true)).

Lemma round_spec s m e l :
  0 <= m -> e <= fexp32 (Zdigits2 m + e) ->
  let e1 := fexp32 (Zdigits2 m + e) in
  let t := m / 2 ^ (e1 - e) in
  exists mr, t <= mr <= t + 1 /\ mr <= 2 ^ 24 /\
    (l = loc_Exact -> forall q, 0 <= q -> m = q * 2 ^ (e1 - e) -> mr = q) /\
    rounded s mr e1 (binary_round_aux 24 128 s m e l).
Proof.
  intros Hm He e1 t. destruct (truncated_bounds m e Hm He) as [[T0 T1] T2]. fold e1 t in T0, T1, T2.
  destruct (shr_fexp_spec m e l Hm He) as (r & st & Hs & Hex). fold e1 in Hs, Hex.
  unfold binary_round_aux. rewrite Hs. cbn [shr_m].
  replace (e + (e1 - e)) with e1 by lia. fold t.
  set (mr := round_nearest_even t (loc_of_shr_record (Build_shr_record t r st))).
  assert (Hr : t <= mr <= t + 1).
  { unfold mr. destruct r, st; cbn [loc_of_shr_record round_nearest_even]; try destruct (Z.even t); lia. }
  exists mr. split_and!; [lia|lia|lia| |].
  - intros Hl q Hq Hmq. destruct (Hex Hl q Hq Hmq) as [-> ->]. unfold mr. cbn.
    unfold t. rewrite Hmq. apply Z.div_mul. pose proof (Z.pow_pos_nonneg 2 (e1 - e)).
    fold e1 in He. lia.
  - destruct (Z.eq_dec mr 0) as [E0|N0].
    + left. split; [exact E0|]. rewrite E0. unfold shr_fexp. cbn [Zdigits2 shr_record_of_loc].
      destruct (fexp 24 128 (0 + e1) - e1) as [|p|p]; cbn [shr]; [reflexivity| |reflexivity].
      pose proof (iter_shr_exact p 0 ltac:(lia)) as Hi. rewrite Z.mul_0_l in Hi. rewrite Hi. reflexivity.
    + right. split; [lia|].
      assert (Hlow : -149 <= e1) by (unfold e1; rewrite fexp32_val; lia).
      destruct (renormalise s mr e1) as (m2 & e2 & Hm2 & Hv & Hle & Hval); [lia|exact Hlow|intros G; specialize (T2 G); lia|].
      exists m2, e2. split_and!; [|exact Hv|exact Hle|exact Hval].
      destruct (shr_fexp 24 128 mr e1 loc_Exact) as [rec e3]. cbn [fst snd] in Hm2.
      destruct (shr_m rec) as [|p|p]; try discriminate. by injection Hm2 as -> ->.
Qed.

Lemma rounded_valid s mr e1 x : rounded s mr e1 x -> valid x = true /\ is_nan x = false.
Proof.
  intros [[_ ->]|(_ & m2 & e2 & -> & _ & _ & Hv)]; [done|].
  destruct (Z.leb_spec e2 104); [|done]. split; [by apply Hv|reflexivity].
Qed.

Lemma rounded_scaled mr e1 x :
  -149 <= e1 -> 0 <= mr -> rounded false mr e1 x -> is_finite x = true -> scaled x = mr * 2 ^ (e1 + 149).
Proof.
  intros He Hm [[-> ->]|(_ & m2 & e2 & -> & <- & Hle & _)] Hf; [reflexivity|].
  destruct (Z.leb_spec e2 104); [|discriminate]. cbn [scaled].
  rewrite <- Z.mul_assoc, <- Z.pow_add_r by lia. do 2 f_equal. lia.
Qed.

(** A non-negative exact value of at most one rounds to a float of at most one. *)
Lemma round_unit m e l :
  0 <= m -> e <= fexp32 (Zdigits2 m + e) -> e <= 0 ->
  m < 2 ^ (- e) \/ (m = 2 ^ (- e) /\ l = loc_Exact) ->
  let x := binary_round_aux 24 128 false m e l in
  valid x = true /\ is_finite x = true /\ 0 <= scaled x <= unit_scaled.
Proof.
  intros Hm He He0 Hv x. destruct (round_spec false m e l Hm He) as (mr & Hr & _ & Hex & Hx). fold x in Hx.
  set (e1 := fexp32 (Zdigits2 m + e)) in *.
  assert (Hlow : -149 <= e1) by (unfold e1; rewrite fexp32_val; lia).
  assert (Hdig : Zdigits2 m + e <= 1).
  { destruct (Z.eq_dec m 0) as [->|Hne]; [cbn; lia|].
    destruct (zdigits_pos m ltac:(lia)) as [[Dl _] _].
    destruct (Z.le_gt_cases (Zdigits2 m + e) 1) as [|G]; [assumption|]. exfalso.
    assert (2 * 2 ^ (- e) <= 2 ^ (Zdigits2 m - 1)).
    { rewrite <- Z.pow_succ_r by lia. apply Z.pow_le_mono_r; lia. }
    assert (0 < 2 ^ (- e)) by (apply Z.pow_pos_nonneg; lia). lia. }
  assert (He1 : e1 <= 0) by (unfold e1; rewrite fexp32_val; lia).
  assert (Hp : 2 ^ (- e) = 2 ^ (- e1) * 2 ^ (e1 - e)) by (rewrite <- Z.pow_add_r by lia; f_equal; lia).
  assert (Hpp : 0 < 2 ^ (e1 - e)) by (apply Z.pow_pos_nonneg; lia).
  assert (Hmr : 0 <= mr <= 2 ^ (- e1)).
  { assert (0 <= m / 2 ^ (e1 - e)) by (apply Z.div_pos; lia). split; [lia|].
    destruct Hv as [Hlt|[Heq Hl]].
    - assert (m / 2 ^ (e1 - e) < 2 ^ (- e1)) by (apply Z.div_lt_upper_bound; lia). lia.
    - rewrite (Hex Hl (2 ^ (- e1))); [lia|apply Z.pow_nonneg; lia|lia]. }
  destruct (rounded_valid _ _ _ _ Hx) as [Hval _].
  assert (Hfin : is_finite x = true).
  { destruct Hx as [[_ ->]|(_ & m2 & e2 & -> & Hmul & Hle & _)]; [reflexivity|].
    destruct (Z.leb_spec e2 104) as [|G]; [reflexivity|]. exfalso.
    assert (2 ^ (- e1) < 2 ^ (e2 - e1)) by (apply Z.pow_lt_mono_r; lia).
    assert (1 * 2 ^ (e2 - e1) <= Zpos m2 * 2 ^ (e2 - e1)) by (apply Z.mul_le_mono_nonneg_r; lia). lia. }
  split_and!; [exact Hval|exact Hfin|..]; rewrite (rounded_scaled mr e1 x) by (lia || assumption).
  - apply Z.mul_nonneg_nonneg; [lia|apply Z.pow_nonneg; lia].
  - unfold unit_scaled. replace 149 with (- e1 + (e1 + 149)) at 2 by lia.
    rewrite (Z.pow_add_r 2 (- e1)) by lia. apply Z.mul_le_mono_nonneg_r; [apply Z.pow_nonneg|]; lia.
Qed.

(** ** The operations *)

Definition in_unit (x : f32) : Prop := valid x = true /\ is_finite x = true /\ 0 <= scaled x <= unit_scaled.

Lemma zdigits_shift m k : 0 < m -> 0 <= k -> Zdigits2 (m * 2 ^ k) = Zdigits2 m + k.
Proof.
  intros Hm Hk. destruct (zdigits_pos m Hm) as [[Dl Du] Hd]. apply zdigits_unique; [lia|].
  replace (Zdigits2 m + k - 1) with (Zdigits2 m - 1 + k) by lia. rewrite !Z.pow_add_r by lia.
  assert (0 < 2 ^ k) by (apply Z.pow_pos_nonneg; lia). split.
  - apply Z.mul_le_mono_nonneg_r; lia.
  - apply Z.mul_lt_mono_pos_r; lia.
Qed.


Lemma shl_align_spec m e e' :
  Zpos (fst (shl_align m e e')) = Zpos m * 2 ^ (e - snd (shl_align m e e')) /\
  snd (shl_align m e e') = Z.min e e'.
Proof.
  unfold shl_align. destruct (e' - e) as [|p|p] eqn:E; cbn [fst snd].
  - rewrite Z.sub_diag, Z.pow_0_r. lia.
  - rewrite Z.sub_diag, Z.pow_0_r. lia.
  - split; [|lia]. replace (e - e') with (Zpos p) by lia. clear E.
    revert m. induction p as [|p IH] using Pos.peano_ind; intros m; [cbn; lia|].
    rewrite Pos.iter_succ, Pos2Z.inj_succ, Z.pow_succ_r by lia.
    change (Zpos (Pos.iter xO m p)~0) with (2 * Zpos (Pos.iter xO m p)). rewrite IH. lia.
Qed.

(** Rounding an exact significand of any width. *)
Lemma binary_round_spec s m e :
  exists mr e1, -149 <= e1 /\ 0 <= mr /\ rounded s mr e1 (binary_round 24 128 s m e) /\
    (Zpos m < 2 ^ 24 -> -149 <= e -> mr * 2 ^ (e1 + 149) = Zpos m * 2 ^ (e + 149)).
Proof.
  unfold binary_round. fold fexp32. change (Zpos (digits2_pos m)) with (Zdigits2 (Zpos m)).
  pose proof (shl_align_spec m e (fexp32 (Zdigits2 (Zpos m) + e))) as [Hz He].
  destruct (shl_align m e (fexp32 (Zdigits2 (Zpos m) + e))) as [mz ez]. cbn [fst snd] in *.
  destruct (zdigits_pos (Zpos m) ltac:(lia)) as [[Dl Du] Hd].
  assert (Hdz : Zdigits2 (Zpos mz) + ez = Zdigits2 (Zpos m) + e).
  { rewrite Hz, zdigits_shift by lia. lia. }
  assert (Hpre : ez <= fexp32 (Zdigits2 (Zpos mz) + ez)) by (rewrite Hdz; lia).
  destruct (round_spec s (Zpos mz) ez loc_Exact ltac:(lia) Hpre) as (mr & Hr & _ & Hex & Hx).
  rewrite Hdz in *. set (e1 := fexp32 (Zdigits2 (Zpos m) + e)) in *.
  exists mr, e1. split_and!; [unfold e1; rewrite fexp32_val; lia| |exact Hx|].
  - assert (0 <= Zpos mz / 2 ^ (e1 - ez)) by (apply Z.div_pos; [lia|apply Z.pow_pos_nonneg; lia]). lia.
  - intros Hm24 Hlow.
    assert (Zdigits2 (Zpos m) <= 24).
    { destruct (Z.le_gt_cases (Zdigits2 (Zpos m)) 24) as [|G]; [assumption|].
      assert (2 ^ 24 <= 2 ^ (Zdigits2 (Zpos m) - 1)) by (apply Z.pow_le_mono_r; lia). lia. }
    assert (He1 : e1 <= e) by (unfold e1; rewrite fexp32_val; lia).
    assert (ez = e1) as -> by lia.
    assert (-149 <= e1) by (unfold e1; rewrite fexp32_val; lia).
    rewrite (Hex eq_refl (Zpos mz)) by (rewrite ?Z.sub_diag, ?Z.pow_0_r; lia).
    rewrite Hz, <- Z.mul_assoc, <- Z.pow_add_r by lia. do 2 f_equal. lia.
Qed.

Lemma normalize_valid m e z :
  valid (binary_normalize 24 128 m e z) = true /\ is_nan (binary_normalize 24 128 m e z) = false.
Proof.
  destruct m as [|p|p]; [done|..]; cbn [binary_normalize].
  - destruct (binary_round_spec false p e) as (mr & e1 & _ & _ & H & _). exact (rounded_valid _ _ _ _ H).
  - destruct (binary_round_spec true p e) as (mr & e1 & _ & _ & H & _). exact (rounded_valid _ _ _ _ H).
Qed.

(** Integers below 2^24 are exact. *)
Lemma of_int_exact n :
  0 <= n < 2 ^ 24 -> valid (of_int n) = true /\ is_finite (of_int n) = true /\ scaled (of_int n) = n * unit_scaled.
Proof.
  intros Hn. unfold of_int. destruct n as [|p|p]; [done| |lia]. cbn [binary_normalize].
  destruct (binary_round_spec false p 0) as (mr & e1 & He1 & Hmr & Hx & Hv).
  specialize (Hv ltac:(lia) ltac:(lia)). destruct (rounded_valid _ _ _ _ Hx) as [Hval Hnan].
  assert (Hfin : is_finite (binary_round 24 128 false p 0) = true).
  { destruct Hx as [[_ ->]|(_ & m2 & e2 & -> & Hmul & Hle & _)]; [reflexivity|].
    destruct (Z.leb_spec e2 104) as [|G]; [reflexivity|]. exfalso.
    rewrite <- Hmul, <- Z.mul_assoc, <- Z.pow_add_r in Hv by lia.
    assert (2 ^ (105 + 149) <= 2 ^ (e2 - e1 + (e1 + 149))) by (apply Z.pow_le_mono_r; lia).
    assert (Zpos p * 2 ^ (0 + 149) < 2 ^ 24 * 2 ^ 149) by lia.
    assert (2 ^ 24 * 2 ^ 149 <= 2 ^ (105 + 149)) by (rewrite <- Z.pow_add_r by lia; apply Z.pow_le_mono_r; lia).
    assert (1 * 2 ^ (e2 - e1 + (e1 + 149)) <= Zpos m2 * 2 ^ (e2 - e1 + (e1 + 149)))
      by (apply Z.mul_le_mono_nonneg_r; [apply Z.pow_nonneg|]; lia). lia. }
  split_and!; [exact Hval|exact Hfin|].
  rewrite (rounded_scaled mr e1) by (lia || assumption). rewrite Hv. reflexivity.
Qed.

Lemma mul_fexp m1 e1 m2 e2 :
  valid (S754_finite false m1 e1) = true -> valid (S754_finite false m2 e2) = true ->
  e1 + e2 <= fexp32 (Zdigits2 (Zpos (m1 * m2)) + (e1 + e2)).
Proof.
  intros V1 V2.
  pose proof (valid_finite _ _ _ V1) as (E1 & M1 & N1). pose proof (valid_finite _ _ _ V2) as (E2 & M2 & N2).
  destruct (zdigits_pos (Zpos m1 * Zpos m2) ltac:(lia)) as [[Dl Du] Hd].
  rewrite fexp32_val, Pos2Z.inj_mul. destruct (Z.le_gt_cases (e1 + e2) (-149)) as [|G]; [lia|].
  assert (24 <= Zdigits2 (Zpos m1 * Zpos m2)); [|lia].
  destruct (Z.le_gt_cases 24 (Zdigits2 (Zpos m1 * Zpos m2))) as [|L]; [assumption|]. exfalso.
  assert (2 ^ Zdigits2 (Zpos m1 * Zpos m2) <= 2 ^ 23) by (apply Z.pow_le_mono_r; lia).
  destruct (Z.lt_ge_cases (-149) e1) as [L1|L1]; [specialize (N1 L1); nia|].
  specialize (N2 ltac:(lia)). nia.
Qed.

Lemma mul_valid x y :
  valid x = true -> valid y = true -> is_finite x = true -> is_finite y = true ->
  valid (mul x y) = true /\ is_nan (mul x y) = false.
Proof.
  destruct x as [s1|s1| |s1 m1 e1]; try discriminate; destruct y as [s2|s2| |s2 m2 e2]; try discriminate;
    intros V1 V2 _ _; cbn [mul SFmul]; try done.
  rewrite valid_sign in V1, V2. pose proof (mul_fexp m1 e1 m2 e2 V1 V2) as Hpre.
  destruct (round_spec (xorb s1 s2) (Zpos (m1 * m2)) (e1 + e2) loc_Exact ltac:(lia) Hpre) as (mr & _ & _ & _ & Hx).
  exact (rounded_valid _ _ _ _ Hx).
Qed.

Lemma sub_valid x y :
  valid x = true -> valid y = true -> is_finite x = true -> is_finite y = true ->
  valid (sub x y) = true /\ is_nan (sub x y) = false.
Proof.
  destruct x as [s1|s1| |s1 m1 e1]; try discriminate; destruct y as [s2|s2| |s2 m2 e2]; try discriminate;
    intros V1 V2 _ _; cbn [sub SFsub].
  - by destruct s1, s2.
  - by rewrite valid_sign in V2 |- *.
  - by rewrite valid_sign in V1 |- *.
  - apply normalize_valid.
Qed.

(** The exact quotient that division rounds. *)
Lemma div_core_spec m1 e1 m2 e2 :
  let d1 := Zdigits2 (Zpos m1) in
  let d2 := Zdigits2 (Zpos m2) in
  let e := Z.min (fexp32 (d1 + e1 - (d2 + e2))) (e1 - e2) in
  exists q r, SFdiv_core_binary 24 128 (Zpos m1) e1 (Zpos m2) e2 = (q, e, new_location (Zpos m2) r) /\
    Zpos m1 * 2 ^ (e1 - e2 - e) = Zpos m2 * q + r /\ 0 <= r < Zpos m2 /\ 0 <= q.
Proof.
  intros d1 d2 e. unfold SFdiv_core_binary. fold fexp32 d1 d2 e.
  set (s := e1 - e2 - e). assert (Hs : 0 <= s) by lia.
  assert (Hm' : match s with Z0 => Zpos m1 | Zpos _ => Z.shiftl (Zpos m1) s | Zneg _ => 0 end = Zpos m1 * 2 ^ s).
  { destruct s as [|p|p] eqn:Es; [cbn; lia|by rewrite Z.shiftl_mul_pow2 by lia|lia]. }
  rewrite Hm'. pose proof (Z_div_mod (Zpos m1 * 2 ^ s) (Zpos m2) ltac:(lia)) as Hdiv.
  destruct (Z.div_eucl (Zpos m1 * 2 ^ s) (Zpos m2)) as [q r]. destruct Hdiv as [Hqr Hr].
  exists q, r. assert (0 < 2 ^ s) by (apply Z.pow_pos_nonneg; lia).
  split_and!; [reflexivity|exact Hqr|lia|lia|nia].
Qed.

(** Its significand is never too short for the format. *)
Lemma quotient_digits m1 m2 s q r :
  0 <= s -> Zpos m1 * 2 ^ s = Zpos m2 * q + r -> 0 <= r < Zpos m2 -> 0 <= q ->
  Zdigits2 (Zpos m1) + s - Zdigits2 (Zpos m2) <= Zdigits2 q.
Proof.
  intros Hs Hqr Hr Hq.
  destruct (zdigits_pos (Zpos m1) ltac:(lia)) as [[Dl1 _] Hd1].
  destruct (zdigits_pos (Zpos m2) ltac:(lia)) as [[_ Du2] Hd2].
  set (d1 := Zdigits2 (Zpos m1)) in *. set (d2 := Zdigits2 (Zpos m2)) in *.
  destruct (Z.le_gt_cases (d1 + s - d2) (Zdigits2 q)) as [|G]; [assumption|]. exfalso.
  assert (0 < 2 ^ s) by (apply Z.pow_pos_nonneg; lia).
  assert (2 ^ (d1 - 1) * 2 ^ s <= Zpos m1 * 2 ^ s) by (apply Z.mul_le_mono_nonneg_r; lia).
  destruct (Z.eq_dec q 0) as [->|Hne].
  - cbn [Zdigits2] in G. assert (Hp : 2 ^ d2 <= 2 ^ (d1 - 1 + s)) by (apply Z.pow_le_mono_r; lia).
    rewrite Z.pow_add_r in Hp by lia. lia.
  - destruct (zdigits_pos q ltac:(lia)) as [[_ Dq] Hdq].
    assert (Hp : 2 ^ (Zdigits2 q + d2) <= 2 ^ (d1 - 1 + s)) by (apply Z.pow_le_mono_r; lia).
    rewrite !Z.pow_add_r in Hp by lia.
    assert ((q + 1) * Zpos m2 <= 2 ^ Zdigits2 q * Zpos m2) by (apply Z.mul_le_mono_nonneg_r; lia).
    assert (2 ^ Zdigits2 q * Zpos m2 < 2 ^ Zdigits2 q * 2 ^ d2)
      by (apply Z.mul_lt_mono_pos_l; [apply Z.pow_pos_nonneg|]; lia). lia.
Qed.

Lemma quotient_fexp m1 e1 m2 e2 q r :
  let e := Z.min (fexp32 (Zdigits2 (Zpos m1) + e1 - (Zdigits2 (Zpos m2) + e2))) (e1 - e2) in
  Zpos m1 * 2 ^ (e1 - e2 - e) = Zpos m2 * q + r -> 0 <= r < Zpos m2 -> 0 <= q ->
  e <= fexp32 (Zdigits2 q + e).
Proof.
  intros e Hqr Hr Hq.
  pose proof (quotient_digits m1 m2 (e1 - e2 - e) q r ltac:(lia) Hqr Hr Hq) as Hd.
  assert (e <= fexp32 (Zdigits2 (Zpos m1) + e1 - (Zdigits2 (Zpos m2) + e2))) by lia.
  rewrite fexp32_val in *. lia.
Qed.

(** A smaller value has no more digits before the point. *)
Lemma digits_ordered m1 e1 m2 e2 :
  -149 <= e1 -> -149 <= e2 -> Zpos m1 * 2 ^ (e1 + 149) <= Zpos m2 * 2 ^ (e2 + 149) ->
  Zdigits2 (Zpos m1) + e1 <= Zdigits2 (Zpos m2) + e2.
Proof.
  intros E1 E2 Hle.
  destruct (zdigits_pos (Zpos m1) ltac:(lia)) as [[Dl1 _] Hd1].
  destruct (zdigits_pos (Zpos m2) ltac:(lia)) as [[_ Du2] Hd2].
  set (d1 := Zdigits2 (Zpos m1)) in *. set (d2 := Zdigits2 (Zpos m2)) in *.
  destruct (Z.le_gt_cases (d1 + e1) (d2 + e2)) as [|G]; [assumption|]. exfalso.
  assert (2 ^ (d1 - 1 + (e1 + 149)) <= Zpos m1 * 2 ^ (e1 + 149)).
  { rewrite (Z.pow_add_r 2 (d1 - 1)) by lia. apply Z.mul_le_mono_nonneg_r; [apply Z.pow_nonneg|]; lia. }
  assert (Zpos m2 * 2 ^ (e2 + 149) < 2 ^ (d2 + (e2 + 149))).
  { rewrite (Z.pow_add_r 2 d2) by lia. apply Z.mul_lt_mono_pos_r; [apply Z.pow_pos_nonneg|]; lia. }
  assert (2 ^ (d2 + (e2 + 149)) <= 2 ^ (d1 - 1 + (e1 + 149))) by (apply Z.pow_le_mono_r; lia). lia.
Qed.

(** Dividend at most divisor: the exact quotient is at most one. *)
Lemma div_core_unit m1 e1 m2 e2 :
  valid (S754_finite false m1 e1) = true -> valid (S754_finite false m2 e2) = true ->
  scaled (S754_finite false m1 e1) <= scaled (S754_finite false m2 e2) ->
  let '(q, e, l) := SFdiv_core_binary 24 128 (Zpos m1) e1 (Zpos m2) e2 in
  0 <= q /\ e <= fexp32 (Zdigits2 q + e) /\ e <= 0 /\
  (q < 2 ^ (- e) \/ (q = 2 ^ (- e) /\ l = loc_Exact)).
Proof.
  intros V1 V2 Hle. apply valid_finite in V1 as (E1 & _), V2 as (E2 & _). cbn [scaled] in Hle.
  pose proof (digits_ordered m1 e1 m2 e2 ltac:(lia) ltac:(lia) Hle) as Hord.
  destruct (div_core_spec m1 e1 m2 e2) as (q & r & -> & Hqr & Hr & Hq).
  pose proof (quotient_fexp m1 e1 m2 e2 q r Hqr Hr Hq) as Hfx. cbn zeta in Hfx.
  set (e := Z.min _ _) in *.
  assert (He : e <= 0) by (unfold e; rewrite fexp32_val; lia).
  assert (Hup : Zpos m1 * 2 ^ (e1 - e2 - e) <= Zpos m2 * 2 ^ (- e)).
  { apply (Z.mul_le_mono_pos_r _ _ (2 ^ (e2 + 149))); [apply Z.pow_pos_nonneg; lia|].
    rewrite <- !Z.mul_assoc, <- !Z.pow_add_r by lia.
    replace (e1 - e2 - e + (e2 + 149)) with (e1 + 149 + - e) by lia.
    replace (- e + (e2 + 149)) with (e2 + 149 + - e) by lia.
    rewrite (Z.pow_add_r 2 (e1 + 149)), (Z.pow_add_r 2 (e2 + 149)), !Z.mul_assoc by lia.
    apply Z.mul_le_mono_nonneg_r; [apply Z.pow_nonneg; lia|exact Hle]. }
  split_and!; [exact Hq|exact Hfx|exact He|].
  destruct (Z.lt_ge_cases q (2 ^ (- e))) as [|G]; [by left|]. right.
  assert (Hr0 : r = 0 /\ q = 2 ^ (- e)) by nia. destruct Hr0 as [-> ->]. split; [reflexivity|].
  unfold new_location, new_location_even, new_location_odd. by destruct (Z.even (Zpos m2)).
Qed.

(** A quotient of non-negative floats is a float, and not negative. *)
Lemma div_nonneg x y :
  valid x = true -> valid y = true -> is_finite x = true -> is_finite y = true ->
  0 <= scaled x -> 0 < scaled y ->
  valid (div x y) = true /\ is_nan (div x y) = false /\ (is_finite (div x y) = true -> 0 <= scaled (div x y)) /\
  (is_finite (div x y) = false -> div x y = S754_infinity false).
Proof.
  intros Vx Vy Fx Fy Hx Hy.
  destruct y as [s2|s2| |[] m2 e2]; try discriminate; try (cbn in Hy; lia).
  destruct x as [s1|s1| |[] m1 e1]; try discriminate; try (cbn in Hx; lia).
  { cbn. split_and!; try done; lia. }
  { exfalso. pose proof (valid_finite _ _ _ Vx). pose proof (scaled_nonneg m1 e1). cbn in *. lia. }
  unfold div, SFdiv. destruct (div_core_spec m1 e1 m2 e2) as (q & r & -> & Hqr & Hr & Hq).
  pose proof (quotient_fexp m1 e1 m2 e2 q r Hqr Hr Hq) as Hfx. cbn zeta in Hfx. cbn [xorb].
  destruct (round_spec false q _ (new_location (Zpos m2) r) Hq Hfx) as (mr & Hmr & _ & _ & Hx').
  destruct (rounded_valid _ _ _ _ Hx') as [Hv Hn]. split_and!; [exact Hv|exact Hn|..].
  - intros Hf. set (e := Z.min _ _) in *.
    assert (0 <= q / 2 ^ (fexp32 (Zdigits2 q + e) - e)) by (apply Z.div_pos; [lia|apply Z.pow_pos_nonneg; lia]).
    rewrite (rounded_scaled mr (fexp32 (Zdigits2 q + e))); [|rewrite fexp32_val; lia|lia|exact Hx'|exact Hf].
    apply Z.mul_nonneg_nonneg; [lia|apply Z.pow_nonneg; lia].
  - destruct Hx' as [[_ ->]|(_ & a & b & -> & _)]; [discriminate|]. by destruct (b <=? 104).
Qed.

(** The quotient of two non-negative floats is not the negative zero. *)
Lemma div_plus_zero m1 e1 m2 e2 : div (S754_finite false m1 e1) (S754_finite false m2 e2) <> S754_zero true.
Proof.
  unfold div, SFdiv. destruct (div_core_spec m1 e1 m2 e2) as (q & r & -> & Hqr & Hr & Hq).
  pose proof (quotient_fexp m1 e1 m2 e2 q r Hqr Hr Hq) as Hfx. cbn zeta in Hfx. cbn [xorb].
  destruct (round_spec false q _ (new_location (Zpos m2) r) Hq Hfx) as (mr & _ & _ & _ & Hx).
  destruct Hx as [[_ ->]|(_ & a & b & -> & _)]; [discriminate|]. by destruct (b <=? 104).
Qed.

(** A quotient of two non-negative floats, dividend at most divisor. *)
Lemma div_unit x y :
  valid x = true -> valid y = true -> is_finite x = true -> is_finite y = true ->
  0 <= scaled x <= scaled y -> 0 < scaled y -> in_unit (div x y).
Proof.
  intros Vx Vy Fx Fy Hle Hy.
  destruct y as [s2|s2| |[] m2 e2]; try discriminate; try (cbn in Hy; lia).
  destruct x as [s1|s1| |s1 m1 e1]; try discriminate.
  { cbn. unfold in_unit, unit_scaled. cbn. split_and!; try done; lia. }
  assert (s1 = false) as ->.
  { destruct s1; [|reflexivity]. pose proof (valid_finite _ _ _ Vx).
    pose proof (scaled_nonneg m1 e1). cbn in *. lia. }
  pose proof (div_core_unit m1 e1 m2 e2 Vx Vy (proj2 Hle)) as Hc.
  unfold div, SFdiv. destruct (SFdiv_core_binary 24 128 (Zpos m1) e1 (Zpos m2) e2) as [[q e] l].
  destruct Hc as (Hq & Hpre & He & Hv). exact (round_unit q e l Hq Hpre He Hv).
Qed.

(** The quotient of two counts. *)
Lemma ratio_unit a b : 0 <= a <= b -> 0 < b < 2 ^ 24 -> in_unit (div (of_int a) (of_int b)).
Proof.
  intros Ha Hb. destruct (of_int_exact a ltac:(lia)) as (Va & Fa & Sa).
  destruct (of_int_exact b ltac:(lia)) as (Vb & Fb & Sb).
  assert (0 < unit_scaled) by reflexivity.
  apply div_unit; try assumption; rewrite Sa, Sb || rewrite Sb.
  - split; [lia|apply Z.mul_le_mono_nonneg_r; lia].
  - lia.
Qed.

Lemma one_unit : in_unit one.
Proof. split_and!; [reflexivity|reflexivity|vm_compute; congruence..]. Qed.

Lemma zero_unit : in_unit zero.
Proof. split_and!; [reflexivity|reflexivity|vm_compute; congruence..]. Qed.

Lemma clamp_unit x : valid x = true -> is_nan x = false -> in_unit (clamp x zero one).
Proof.
  intros V N. unfold clamp. destruct (is_finite x) eqn:F.
  - rewrite (lt_scaled x zero) by done. change (scaled zero) with 0.
    destruct (Z.ltb_spec (scaled x) 0) as [L|L].
    + rewrite lt_scaled by done. change (scaled one <? scaled zero) with false. apply zero_unit.
    + rewrite lt_scaled by done. destruct (Z.ltb_spec (scaled one) (scaled x)) as [G|G]; [apply one_unit|].
      split_and!; [done|done|exact L|exact G].
  - destruct x as [s|s| |s m e]; try discriminate. destruct s; cbn; [apply zero_unit|apply one_unit].
Qed.

Lemma unit_not_nan x : in_unit x -> is_nan x = false.
Proof. intros (_ & F & _). by destruct x. Qed.

(** An exact value between zero and one stays there when rounded. *)
Lemma normalize_unit m e :
  -149 <= e -> 0 <= m * 2 ^ (e + 149) <= unit_scaled -> in_unit (binary_normalize 24 128 m e false).
Proof.
  intros He [Hm Hv]. assert (Hpow : 0 < 2 ^ (e + 149)) by (apply Z.pow_pos_nonneg; lia).
  destruct m as [|p|p]; [apply zero_unit| |nia]. cbn [binary_normalize].
  assert (He0 : e <= 0).
  { destruct (Z.le_gt_cases e 0) as [|G]; [assumption|]. exfalso. unfold unit_scaled in Hv.
    assert (2 ^ 149 < 2 ^ (e + 149)) by (apply Z.pow_lt_mono_r; lia). nia. }
  unfold binary_round. fold fexp32. change (Zpos (digits2_pos p)) with (Zdigits2 (Zpos p)).
  pose proof (shl_align_spec p e (fexp32 (Zdigits2 (Zpos p) + e))) as [Hz Hez].
  destruct (shl_align p e (fexp32 (Zdigits2 (Zpos p) + e))) as [mz ez]. cbn [fst snd] in *.
  assert (-149 <= ez) by (rewrite Hez, fexp32_val; lia).
  apply round_unit; [lia| |lia|].
  - rewrite Hz, zdigits_shift by lia. replace (Zdigits2 (Zpos p) + (e - ez) + ez) with (Zdigits2 (Zpos p) + e); lia.
  - assert (Zpos mz <= 2 ^ (- ez)); [|destruct (Z.eq_dec (Zpos mz) (2 ^ (- ez))); [right|left]; auto with lia].
    rewrite Hz. apply (Z.mul_le_mono_pos_r _ _ (2 ^ (ez + 149))); [apply Z.pow_pos_nonneg; lia|].
    rewrite <- Z.mul_assoc, <- !Z.pow_add_r by lia.
    replace (e - ez + (ez + 149)) with (e + 149) by lia. replace (- ez + (ez + 149)) with 149 by lia. exact Hv.
Qed.

(** Subtracting the smaller of two floats between zero and one. *)
Lemma sub_unit x y : in_unit x -> in_unit y -> scaled y <= scaled x -> in_unit (sub x y).
Proof.
  intros (Vx & Fx & Sx) (Vy & Fy & Sy) Hle.
  destruct x as [s1|s1| |s1 m1 e1]; try discriminate; destruct y as [s2|s2| |s2 m2 e2]; try discriminate;
    cbn [sub SFsub].
  - destruct s1, s2; (split_and!; [reflexivity|reflexivity|vm_compute; congruence..]).
  - rewrite valid_sign in Vy. pose proof (valid_finite _ _ _ Vy) as (E2 & _).
    pose proof (scaled_nonneg m2 e2 ltac:(lia)). cbn [scaled] in *. destruct s2; lia.
  - exact (conj Vx (conj Fx Sx)).
  - pose proof (valid_finite _ _ _ Vx) as (E1 & _). pose proof (valid_finite _ _ _ Vy) as (E2 & _).
    pose proof (scaled_nonneg m1 e1 ltac:(lia)) as P1. pose proof (scaled_nonneg m2 e2 ltac:(lia)) as P2.
    cbn [scaled] in *. destruct s1; [lia|]. destruct s2; [lia|]. cbn [cond_Zopp].
    assert (Hal : forall m e e', e' <= e -> -149 <= e' ->
              Zpos (fst (shl_align m e e')) * 2 ^ (e' + 149) = Zpos m * 2 ^ (e + 149)).
    { intros m e e' Hm Hlow. destruct (shl_align_spec m e e') as [-> Hs]. rewrite Hs.
      rewrite (Z.min_r e e') by lia. rewrite <- Z.mul_assoc, <- Z.pow_add_r by lia. do 2 f_equal. lia. }
    apply normalize_unit; [lia|]. rewrite Z.mul_sub_distr_r, !Hal by lia. lia.
Qed.

(** Comparing the other way round. *)
Lemma compare_swap x y : SFcompare y x = option_map CompOpp (SFcompare x y).
Proof.
  destruct x as [s1|s1| |s1 m1 e1], y as [s2|s2| |s2 m2 e2]; try destruct s1; try destruct s2; try reflexivity;
    cbn [SFcompare option_map]; rewrite (Z.compare_antisym e1 e2); destruct (e1 ?= e2); cbn [CompOpp];
    try reflexivity; rewrite (Pos.compare_cont_antisym m1 m2 Eq); reflexivity.
Qed.

Lemma lt_not_le x y : lt x y = true -> le y x = false.
Proof. unfold lt, le, SFltb, SFleb. rewrite (compare_swap x y). by destruct (SFcompare x y) as [[]|]. Qed.

(** Floats that are not negative, infinity included. *)
Definition nonneg (x : f32) : Prop :=
  valid x = true /\ ((is_finite x = true /\ 0 <= scaled x) \/ x = S754_infinity false).

Lemma of_int_nonneg n : 0 <= n -> nonneg (of_int n).
Proof.
  intros Hn. split; [apply normalize_valid|]. unfold of_int. destruct n as [|p|p]; [left; done| |lia].
  cbn [binary_normalize]. destruct (binary_round_spec false p 0) as (mr & e1 & He & Hm & Hx & _).
  destruct (is_finite (binary_round 24 128 false p 0)) eqn:F; [left|right].
  - split; [reflexivity|]. rewrite (rounded_scaled mr e1) by (lia || assumption).
    apply Z.mul_nonneg_nonneg; [lia|apply Z.pow_nonneg; lia].
  - destruct Hx as [[_ Hx]|(_ & a & b & Hx & _)]; rewrite Hx in *; [discriminate|]. by destruct (b <=? 104).
Qed.

Lemma div_stays_nonneg x n : nonneg x -> 0 < n < 2 ^ 24 -> nonneg (div x (of_int n)).
Proof.
  intros [V H] Hn. destruct (of_int_exact n ltac:(lia)) as (Vn & Fn & Sn).
  assert (P : 0 < scaled (of_int n)) by (rewrite Sn; unfold unit_scaled; lia).
  destruct H as [[F S]| ->].
  - destruct (div_nonneg x (of_int n) V Vn F Fn S P) as (V' & _ & S' & I). split; [exact V'|].
    destruct (is_finite (div x (of_int n))); [left|right]; auto.
  - destruct (of_int n) as [s|s| |[] m e]; try discriminate; [cbn in P; lia|].
    split; [reflexivity|]. by right.
Qed.

Lemma min_one_unit x : nonneg x -> in_unit (min x one).
Proof.
  intros [V [[F S]| ->]]; [|apply one_unit]. unfold min.
  replace (is_nan x) with false by (by destruct x). cbn [is_nan one].
  rewrite (lt_scaled one x) by done. destruct (Z.ltb_spec (scaled one) (scaled x)) as [G|G]; [apply one_unit|].
  split_and!; [done|done|exact S|exact G].
Qed.

(** ** Exact integer arithmetic *)

Lemma valid_unique m1 e1 m2 e2 :
  valid (S754_finite false m1 e1) = true -> valid (S754_finite false m2 e2) = true ->
  scaled (S754_finite false m1 e1) = scaled (S754_finite false m2 e2) ->
  S754_finite false m1 e1 = S754_finite false m2 e2.
Proof.
  intros V1 V2 H. cbn [scaled] in H. destruct (Z.lt_trichotomy e1 e2) as [L|[->|G]].
  - pose proof (magnitude_lt _ _ _ _ V1 V2 L). lia.
  - assert (0 < 2 ^ (e2 + 149)).
    { apply Z.pow_pos_nonneg; [lia|]. pose proof (valid_finite _ _ _ V2). lia. }
    assert (Zpos m1 = Zpos m2) as [= ->] by nia. reflexivity.
  - pose proof (magnitude_lt _ _ _ _ V2 V1 G). lia.
Qed.

Lemma positive_form x :
  valid x = true -> is_finite x = true -> 0 < scaled x -> exists m e, x = S754_finite false m e.
Proof.
  intros V F P. destruct x as [s|s| |[] m e]; try discriminate; [|by eauto].
  rewrite valid_sign in V. pose proof (valid_finite _ _ _ V) as (E & _).
  pose proof (scaled_nonneg m e ltac:(lia)). cbn [scaled] in *. lia.
Qed.

Lemma of_int_unique n x :
  0 < n < 2 ^ 24 -> valid x = true -> is_finite x = true -> scaled x = n * unit_scaled -> x = of_int n.
Proof.
  intros Hn V F S. destruct (of_int_exact n ltac:(lia)) as (Vn & Fn & Sn).
  assert (P : 0 < n * unit_scaled) by (unfold unit_scaled; lia).
  destruct (positive_form x V F ltac:(lia)) as (m1 & e1 & ->).
  destruct (positive_form (of_int n) Vn Fn ltac:(lia)) as (m2 & e2 & E). rewrite E in *.
  apply valid_unique; [exact V|exact Vn|lia].
Qed.

(** A small integer's significand and exponent. *)
Lemma of_int_form n : 0 < n < 2 ^ 24 ->
  exists m e, of_int n = S754_finite false m e /\ -149 <= e <= 0 /\ Zpos m = n * 2 ^ (- e).
Proof.
  intros Hn. destruct (of_int_exact n ltac:(lia)) as (V & F & S).
  destruct (positive_form _ V F) as (m & e & E); [rewrite S; unfold unit_scaled; lia|]. rewrite E in *.
  exists m, e. split; [reflexivity|]. pose proof (valid_finite _ _ _ V) as (He & Hm & Hlow). cbn [scaled] in S.
  unfold unit_scaled in S.
  assert (He0 : e <= 0).
  { destruct (Z.le_gt_cases e 0) as [|G]; [assumption|]. exfalso. specialize (Hlow ltac:(lia)).
    assert (2 * 2 ^ 149 <= 2 ^ (e + 149)) by (rewrite <- Z.pow_succ_r by lia; apply Z.pow_le_mono_r; lia).
    assert (2 ^ 23 * (2 * 2 ^ 149) <= Zpos m * 2 ^ (e + 149)) by (apply Z.mul_le_mono_nonneg; lia). lia. }
  split; [lia|].
  assert (P : 2 ^ 149 = 2 ^ (- e) * 2 ^ (e + 149)) by (rewrite <- Z.pow_add_r by lia; f_equal; lia).
  apply (Z.mul_cancel_r _ _ (2 ^ (e + 149))); [apply Z.pow_nonzero; lia|]. rewrite P in S. lia.
Qed.


Lemma fexp_small N e m : 0 < N < 2 ^ 24 -> e <= 0 -> m = N * 2 ^ (- e) -> fexp32 (Zdigits2 m + e) <= 0.
Proof.
  intros HN He ->. rewrite zdigits_shift by lia. rewrite fexp32_val.
  assert (Zdigits2 N <= 24); [|lia].
  destruct (zdigits_pos N ltac:(lia)) as [[Dl _] _].
  destruct (Z.le_gt_cases (Zdigits2 N) 24) as [|G]; [assumption|].
  assert (2 ^ 24 <= 2 ^ (Zdigits2 N - 1)) by (apply Z.pow_le_mono_r; lia). lia.
Qed.

(** Rounding a small integer held with extra bits below the point. *)
Lemma round_exact N m e :
  0 < N < 2 ^ 24 -> e <= 0 -> m = N * 2 ^ (- e) -> e <= fexp32 (Zdigits2 m + e) ->
  binary_round_aux 24 128 false m e loc_Exact = of_int N.
Proof.
  intros HN He Hm Hpre. assert (0 < 2 ^ (- e)) by (apply Z.pow_pos_nonneg; lia).
  destruct (round_spec false m e loc_Exact ltac:(nia) Hpre) as (mr & _ & _ & Hex & Hx).
  pose proof (fexp_small N e m HN He Hm) as Hf.
  set (e1 := fexp32 (Zdigits2 m + e)) in *.
  assert (Hlow : -149 <= e1) by (unfold e1; rewrite fexp32_val; lia).
  assert (Hmr : mr = N * 2 ^ (- e1)).
  { apply Hex; [reflexivity|apply Z.mul_nonneg_nonneg; [lia|apply Z.pow_nonneg; lia]|].
    rewrite Hm, <- Z.mul_assoc, <- Z.pow_add_r by lia. do 2 f_equal. lia. }
  destruct (rounded_valid _ _ _ _ Hx) as [Hv _].
  assert (Hfin : is_finite (binary_round_aux 24 128 false m e loc_Exact) = true).
  { destruct Hx as [[_ ->]|(_ & m2 & e2 & -> & Hmul & Hle & _)]; [reflexivity|].
    destruct (Z.leb_spec e2 104) as [|G]; [reflexivity|]. exfalso.
    assert (2 ^ 24 * 2 ^ (- e1) <= 2 ^ (e2 - e1)) by (rewrite <- Z.pow_add_r by lia; apply Z.pow_le_mono_r; lia).
    assert (0 < 2 ^ (- e1)) by (apply Z.pow_pos_nonneg; lia). nia. }
  apply of_int_unique; [exact HN|exact Hv|exact Hfin|].
  rewrite (rounded_scaled mr e1) by (assumption || (subst mr; apply Z.mul_nonneg_nonneg; [lia|apply Z.pow_nonneg; lia])).
  rewrite Hmr, <- Z.mul_assoc, <- Z.pow_add_r by lia. unfold unit_scaled. do 2 f_equal. lia.
Qed.

Lemma normalize_exact N p e :
  0 < N < 2 ^ 24 -> e <= 0 -> Zpos p = N * 2 ^ (- e) -> binary_normalize 24 128 (Zpos p) e false = of_int N.
Proof.
  intros HN He Hp. cbn [binary_normalize]. unfold binary_round. fold fexp32.
  change (Zpos (digits2_pos p)) with (Zdigits2 (Zpos p)).
  pose proof (shl_align_spec p e (fexp32 (Zdigits2 (Zpos p) + e))) as [Hz Hez].
  destruct (shl_align p e (fexp32 (Zdigits2 (Zpos p) + e))) as [mz ez]. cbn [fst snd] in *.
  apply round_exact; [exact HN|lia| |].
  - rewrite Hz, Hp, <- Z.mul_assoc, <- Z.pow_add_r by lia. do 2 f_equal. lia.
  - rewrite Hz, zdigits_shift by lia. replace (Zdigits2 (Zpos p) + (e - ez) + ez) with (Zdigits2 (Zpos p) + e); lia.
Qed.

Lemma of_int_zero : of_int 0 = zero.
Proof. reflexivity. Qed.

(** Sums and products of small integers are exact. *)
Lemma add_int a b : 0 <= a -> 0 <= b -> a + b < 2 ^ 24 -> add (of_int a) (of_int b) = of_int (a + b).
Proof.
  intros Ha Hb Hab. destruct (Z.eq_dec a 0) as [->|Na].
  { rewrite of_int_zero, Z.add_0_l. destruct (Z.eq_dec b 0) as [->|]; [reflexivity|].
    destruct (of_int_form b ltac:(lia)) as (m & e & -> & _). reflexivity. }
  destruct (of_int_form a ltac:(lia)) as (ma & ea & Ea & Hea & Hma). rewrite Ea.
  destruct (Z.eq_dec b 0) as [->|Nb]; [rewrite Z.add_0_r, Ea; reflexivity|].
  destruct (of_int_form b ltac:(lia)) as (mb & eb & Eb & Heb & Hmb). rewrite Eb. cbn [add SFadd cond_Zopp].
  pose proof (shl_align_spec ma ea (Z.min ea eb)) as [Za Sa]. pose proof (shl_align_spec mb eb (Z.min ea eb)) as [Zb Sb].
  rewrite Sa in Za. rewrite Sb in Zb. rewrite <- Pos2Z.inj_add. apply normalize_exact; [lia|lia|].
  rewrite Pos2Z.inj_add, Za, Zb, Hma, Hmb, <- !Z.mul_assoc, <- !Z.pow_add_r by lia.
  replace (- ea + (ea - Z.min ea (Z.min ea eb))) with (- Z.min ea eb) by lia.
  replace (- eb + (eb - Z.min eb (Z.min ea eb))) with (- Z.min ea eb) by lia. lia.
Qed.

Lemma mul_int a b :
  0 <= a < 2 ^ 24 -> 0 <= b < 2 ^ 24 -> a * b < 2 ^ 24 -> mul (of_int a) (of_int b) = of_int (a * b).
Proof.
  intros Ha Hb Hab. destruct (Z.eq_dec a 0) as [->|Na].
  { rewrite of_int_zero, Z.mul_0_l. destruct (Z.eq_dec b 0) as [->|]; [reflexivity|].
    destruct (of_int_form b ltac:(lia)) as (m & e & -> & _). reflexivity. }
  destruct (of_int_form a ltac:(lia)) as (ma & ea & Ea & Hea & Hma).
  destruct (Z.eq_dec b 0) as [->|Nb]; [rewrite Z.mul_0_r, Ea; reflexivity|].
  destruct (of_int_form b ltac:(lia)) as (mb & eb & Eb & Heb & Hmb).
  destruct (of_int_exact a Ha) as (Va & _). destruct (of_int_exact b Hb) as (Vb & _).
  rewrite Ea, Eb in *. cbn [mul SFmul xorb]. apply round_exact; [nia|lia| |by apply mul_fexp].
  rewrite Pos2Z.inj_mul, Hma, Hmb. replace (- (ea + eb)) with (- ea + - eb) by lia.
  rewrite (Z.pow_add_r 2 (- ea)) by lia. lia.
Qed.

(** ** Quotients of exact integers *)

(** The position of a remainder is a matter of twice the remainder only. *)
Lemma new_location_cmp n k : 0 <= k < n ->
  new_location n k = if k =? 0 then loc_Exact else loc_Inexact (2 * k ?= n).
Proof.
  intros Hk. unfold new_location, new_location_even, new_location_odd.
  destruct (Z.even n) eqn:Ev; [done|]. cbv beta. destruct (k =? 0); [done|]. f_equal.
  assert (Hodd : 2 * k <> n).
  { intros <-. by rewrite Z.even_mul in Ev. }
  destruct (Z.compare_spec (2 * k + 1) n), (Z.compare_spec (2 * k) n); done || lia.
Qed.

Lemma new_location_scale n k c : 0 <= k < n -> 0 < c -> new_location (n * c) (k * c) = new_location n k.
Proof.
  intros Hk Hc. rewrite !new_location_cmp by nia.
  replace (k * c =? 0) with (k =? 0) by (destruct (Z.eqb_spec k 0), (Z.eqb_spec (k * c) 0); nia).
  destruct (k =? 0); [done|]. f_equal. rewrite Z.mul_assoc. symmetry. by apply Zmult_compare_compat_r, Z.lt_gt.
Qed.

(** The quotient of two exact integers is the one correctly rounded quotient of the
    integers, however their mantissas are normalised. *)
Lemma div_of_int v w :
  Zpos v < 2 ^ 24 -> Zpos w < 2 ^ 24 ->
  div (of_int (Zpos v)) (of_int (Zpos w)) =
  let '(q, e, l) := SFdiv_core_binary 24 128 (Zpos v) 0 (Zpos w) 0 in binary_round_aux 24 128 false q e l.
Proof.
  intros Hv Hw.
  destruct (of_int_form (Zpos v)) as (m1 & e1 & E1 & R1 & M1); [lia|].
  destruct (of_int_form (Zpos w)) as (m2 & e2 & E2 & R2 & M2); [lia|].
  destruct (of_int_exact (Zpos v)) as (V1 & _); [lia|]. rewrite E1 in V1. apply valid_finite in V1.
  rewrite E1, E2. unfold div, SFdiv. cbn [xorb].
  destruct (div_core_spec m1 e1 m2 e2) as (q & r & -> & Hqr & Hr & Hq).
  destruct (div_core_spec v 0 w 0) as (q' & r' & -> & Hqr' & Hr' & Hq').
  set (dv := Zdigits2 (Zpos v)) in *. set (dw := Zdigits2 (Zpos w)) in *.
  assert (D1 : Zdigits2 (Zpos m1) = dv - e1).
  { rewrite M1, zdigits_shift by lia. unfold dv. lia. }
  assert (D2 : Zdigits2 (Zpos m2) = dw - e2).
  { rewrite M2, zdigits_shift by lia. unfold dw. lia. }
  assert (U1 : Zdigits2 (Zpos m1) <= 24).
  { destruct (zdigits_pos (Zpos m1) ltac:(lia)) as [[Hl _] _].
    destruct (Z.le_gt_cases (Zdigits2 (Zpos m1)) 24) as [|G]; [assumption|].
    assert (2 ^ 24 <= 2 ^ (Zdigits2 (Zpos m1) - 1)) by (apply Z.pow_le_mono_r; lia). lia. }
  assert (Dv : dv <= 24) by lia.
  assert (Dw : 0 < dw) by (apply zdigits_pos; lia).
  rewrite D1, D2 in *. replace (dv - e1 + e1 - (dw - e2 + e2)) with (dv + 0 - (dw + 0)) in * by lia.
  set (f := fexp32 (dv + 0 - (dw + 0))) in *.
  assert (Hf : f = Z.max (dv - dw - 24) (-149)) by (unfold f; rewrite fexp32_val; lia).
  clearbody f. replace (Z.min f (e1 - e2)) with f in * by lia. replace (Z.min f (0 - 0)) with f in * by lia.
  set (c := 2 ^ (- e2)) in *. assert (Hc : 0 < c) by (apply Z.pow_pos_nonneg; lia).
  assert (HE : Zpos m2 * q + r = Zpos m2 * q' + r' * c).
  { rewrite <- Hqr, M1, M2, <- Z.mul_assoc, <- Z.pow_add_r by lia.
    replace (- e1 + (e1 - e2 - f)) with (0 - 0 - f + - e2) by lia.
    rewrite Z.pow_add_r, Z.mul_assoc, Hqr' by lia. fold c. ring. }
  destruct (Z.div_mod_unique (Zpos m2) q q' r (r' * c)) as [-> ->]; [lia|rewrite M2; nia|exact HE|].
  by rewrite M2, new_location_scale.
Qed.

End F32.
