(* ===== verification/Monitor.v ===== *)
(** The degradation monitor (src/src/sentinel/monitor.rs): per-agent sliding
    windows, the four signals in binary32, their combination and the response
    tier.  Thresholds hold bit patterns, as they are stored and migrated; they
    are read as floats here.  Each method is one step on the two locked values. *)

From Stdlib Require Import ZArith Lia Ascii SpecFloat.
From stdpp Require Import base list gmap strings.
From S2P Require Import Prelude Sha256 AuditTrail ConfigBuffer F32.

Open Scope Z_scope.

Module Monitor.
Import ConfigBuffer F32.

Inductive SignalKind := RepetitionScore | SelfReferentialLoop | TokenVelocityStall | ToolRetryAnomaly.

#[export] Instance SignalKind_eq_dec : EqDecision SignalKind.
Proof. solve_decision. Defined.

Definition SignalKind_as_str (k : SignalKind) : string :=
  match k with
  | RepetitionScore => "repetition_score"
  | SelfReferentialLoop => "self_referential_loop"
  | TokenVelocityStall => "token_velocity_stall"
  | ToolRetryAnomaly => "tool_retry_anomaly"
  end.

Record Observation := mkObs {
  output_hash : string;
  token_count : Z;
  announced_without_action : bool;
  tool_call_hash : option string;
  task_state_advanced : bool
}.

Inductive ResponseTier := TNone | TSoft | TMedium | THard.

Definition ResponseTier_as_str (t : ResponseTier) : string :=
  match t with TNone => "none" | TSoft => "soft" | TMedium => "medium" | THard => "hard" end.

(** [last] is the map from signal kinds to their most recent score. *)
Record AgentBuffer := mkBuf {
  observations : list Observation;
  last : SignalKind -> option f32;
  tier : ResponseTier
}.

Definition AgentBuffer_new : AgentBuffer := mkBuf [] (fun _ => None) TNone.

Record Monitor := mkMonitor {
  cfg : Thresholds;
  state : gmap string AgentBuffer
}.

Definition new : Monitor := mkMonitor default_config ∅.

Definition set_thresholds (m : Monitor) (t : Thresholds) : Monitor := mkMonitor t (state m).
Definition thresholds (m : Monitor) : Thresholds := cfg m.
Definition forget (m : Monitor) (id : string) : Monitor := mkMonitor (cfg m) (delete id (state m)).

(** ** Signals *)

Definition count {A} (p : A -> bool) (l : list A) : Z := Z.of_nat (length (List.filter p l)).
Definition len {A} (l : list A) : Z := Z.of_nat (length l).

(** Entries equal to some earlier entry; [seen] are those already passed. *)
Fixpoint repeats (seen l : list string) : Z :=
  match l with
  | [] => 0
  | h :: l' => (if existsb (fun p => bool_decide (p = h)) seen then 1 else 0) + repeats (seen ++ [h]) l'
  end.

Definition repetition_score (obs : list Observation) : f32 :=
  if len obs <? 2 then zero
  else div (of_int (repeats [] (map output_hash obs))) (of_int (len obs)).

Definition self_referential_score (obs : list Observation) : f32 :=
  if len obs =? 0 then zero
  else div (of_int (count announced_without_action obs)) (of_int (len obs)).

(** The sum of the [u32] counts wraps in the release profile. *)
Definition total_tokens (obs : list Observation) : Z := fold_left (fun s o => add32 s (token_count o)) obs 0.

Definition token_velocity_score (obs : list Observation) : f32 :=
  if len obs =? 0 then zero
  else
    let total := total_tokens obs in
    let progressed := count task_state_advanced obs in
    if total =? 0 then zero
    else
      let progress_rate := div (of_int progressed) (of_int (len obs)) in
      let denom := min (div (div (of_int total) (of_int (len obs))) (of_int 256)) one in
      clamp (mul denom (sub one progress_rate)) zero one.

Definition tool_retry_score (obs : list Observation) : f32 :=
  if len obs <? 2 then zero
  else
    let calls := omap tool_call_hash obs in
    if len calls <? 2 then zero
    else div (of_int (repeats [] calls)) (of_int (len calls)).

(** ** Combination *)

Definition contrib (score gate : f32) : f32 :=
  if lt score gate then zero
  else
    let span := sub one gate in
    if le span zero then one else div (sub score gate) span.

Definition combine (rep srl tvs tra : f32) (c : Thresholds) : f32 :=
  let total := add (add (add (contrib rep (from_bits (t_repetition c)))
                             (contrib srl (from_bits (t_self_referential c))))
                        (contrib tvs (from_bits (t_token_velocity c))))
                   (contrib tra (from_bits (t_tool_retry c))) in
  clamp total zero one.

(** [cumulative >= x] is [x <= cumulative]. *)
Definition tier_for (cumulative : f32) (c : Thresholds) : ResponseTier :=
  if le (from_bits (t_hard c)) cumulative then THard
  else if le (from_bits (t_medium c)) cumulative then TMedium
  else if le (from_bits (t_soft c)) cumulative then TSoft
  else TNone.

(** ** The methods *)

Definition set_last (l : SignalKind -> option f32) (k : SignalKind) (x : f32) : SignalKind -> option f32 :=
  fun k' => if decide (k' = k) then Some x else l k'.

(** [while len > window { pop_front }]. *)
Fixpoint trim (window : Z) (obs : list Observation) : list Observation :=
  match obs with
  | [] => []
  | _ :: rest => if window <? len obs then trim window rest else obs
  end.

Definition buffer_of (m : Monitor) (id : string) : AgentBuffer := default AgentBuffer_new (state m !! id).

Definition observe (m : Monitor) (id : string) (obs : Observation) : ResponseTier * Monitor :=
  let buf := buffer_of m id in
  let os := trim (t_window (cfg m)) (observations buf ++ [obs]) in
  let rep := repetition_score os in
  let srl := self_referential_score os in
  let tvs := token_velocity_score os in
  let tra := tool_retry_score os in
  let l := set_last (last buf) RepetitionScore rep in
  let l := set_last l SelfReferentialLoop srl in
  let l := set_last l TokenVelocityStall tvs in
  let l := set_last l ToolRetryAnomaly tra in
  let t := tier_for (combine rep srl tvs tra (cfg m)) (cfg m) in
  (t, mkMonitor (cfg m) (<[id := mkBuf os l t]> (state m))).

Definition score_of (l : SignalKind -> option f32) (k : SignalKind) : f32 := default zero (l k).

Definition record_signal (m : Monitor) (id : string) (kind : SignalKind) (score : f32) : ResponseTier * Monitor :=
  let buf := buffer_of m id in
  let l := set_last (last buf) kind (clamp score zero one) in
  let t := tier_for (combine (score_of l RepetitionScore) (score_of l SelfReferentialLoop)
                       (score_of l TokenVelocityStall) (score_of l ToolRetryAnomaly) (cfg m)) (cfg m) in
  (t, mkMonitor (cfg m) (<[id := mkBuf (observations buf) l t]> (state m))).

Record SignalScores := mkScores {
  s_repetition : f32;
  s_self_referential : f32;
  s_token_velocity : f32;
  s_tool_retry : f32;
  s_tier : ResponseTier
}.

Definition scores (m : Monitor) (id : string) : option SignalScores :=
  match state m !! id with
  | None => None
  | Some buf => Some (mkScores (score_of (last buf) RepetitionScore) (score_of (last buf) SelfReferentialLoop)
                        (score_of (last buf) TokenVelocityStall) (score_of (last buf) ToolRetryAnomaly) (tier buf))
  end.

(** The output hash: runs of whitespace become one space, letters lower case, and
    the ends are trimmed.  Outside ASCII the classes are Unicode tables, which
    are not modelled: no value. *)
Definition is_whitespace (c : ascii) : bool :=
  let n := nat_of_ascii c in ((n =? 32) || ((9 <=? n) && (n <=? 13)))%nat.

Definition is_upper (c : ascii) : bool := let n := nat_of_ascii c in ((65 <=? n) && (n <=? 90))%nat.

Definition to_lowercase (c : ascii) : ascii :=
  if is_upper c then ascii_of_nat (nat_of_ascii c + 32) else c.

Fixpoint normalize (prev_ws : bool) (s : list ascii) : list ascii :=
  match s with
  | [] => []
  | c :: s' =>
      if is_whitespace c then (if prev_ws then [] else [" "%char]) ++ normalize true s'
      else to_lowercase c :: normalize false s'
  end.

Fixpoint trim_start (s : list ascii) : list ascii :=
  match s with
  | c :: s' => if is_whitespace c then trim_start s' else s
  | [] => []
  end.

Definition trim_ws (s : list ascii) : list ascii := rev (trim_start (rev (trim_start s))).

Definition is_ascii (c : ascii) : bool := (nat_of_ascii c <? 128)%nat.

Definition normalize_output_hash (s : string) : option string :=
  let cs := String.list_ascii_of_string s in
  if forallb is_ascii cs then
    Some (Sha256.sha256_hex (Audit.as_bytes (String.string_of_list_ascii (trim_ws (normalize false cs)))))
  else None.

(** ** Bounds of the scores *)

Lemma repeats_bounds l : forall seen, 0 <= repeats seen l <= len l.
Proof.
  unfold len. induction l as [|h l IH]; intros seen; cbn [repeats length]; [lia|].
  specialize (IH (seen ++ [h])). destruct (existsb _ seen); lia.
Qed.

Lemma count_bounds {A} (p : A -> bool) l : 0 <= count p l <= len l.
Proof. unfold count, len. pose proof (List.filter_length_le p l). lia. Qed.

Lemma omap_len {A B} (f : A -> option B) (l : list A) : len (omap f l) <= len l.
Proof. unfold len. induction l as [|a l IH]; cbn; [lia|]. destruct (f a); cbn [length]; lia. Qed.

Lemma len_map {A B} (f : A -> B) (l : list A) : len (map f l) = len l.
Proof. unfold len. by rewrite length_map. Qed.

Lemma total_tokens_range obs : 0 <= total_tokens obs.
Proof.
  unfold total_tokens. assert (G : forall s, 0 <= s -> 0 <= fold_left (fun s o => add32 s (token_count o)) obs s); [|by apply G].
  induction obs as [|o l IH]; intros s Hs; cbn [fold_left]; [exact Hs|]. apply IH. unfold add32, wrap32.
  apply Z.mod_pos_bound. reflexivity.
Qed.

Lemma repetition_unit obs : len obs < 2 ^ 24 -> in_unit (repetition_score obs).
Proof.
  intros H. unfold repetition_score. destruct (Z.ltb_spec (len obs) 2) as [|G]; [apply zero_unit|].
  apply ratio_unit; [|lia]. rewrite <- (len_map output_hash obs). apply repeats_bounds.
Qed.

Lemma self_referential_unit obs : len obs < 2 ^ 24 -> in_unit (self_referential_score obs).
Proof.
  intros H. unfold self_referential_score. destruct (Z.eqb_spec (len obs) 0) as [|G]; [apply zero_unit|].
  apply ratio_unit; [apply count_bounds|]. unfold len in *. lia.
Qed.

Lemma tool_retry_unit obs : len obs < 2 ^ 24 -> in_unit (tool_retry_score obs).
Proof.
  intros H. unfold tool_retry_score. destruct (Z.ltb_spec (len obs) 2) as [|G]; [apply zero_unit|].
  pose proof (omap_len tool_call_hash obs). cbv zeta.
  destruct (Z.ltb_spec (len (omap tool_call_hash obs)) 2) as [|G']; [apply zero_unit|].
  apply ratio_unit; [apply repeats_bounds|lia].
Qed.

Lemma token_velocity_unit obs : len obs < 2 ^ 24 -> in_unit (token_velocity_score obs).
Proof.
  intros H. unfold token_velocity_score. destruct (Z.eqb_spec (len obs) 0) as [|G]; [apply zero_unit|].
  assert (0 < len obs) by (unfold len in *; lia). cbv zeta.
  destruct (total_tokens obs =? 0); [apply zero_unit|].
  pose proof (ratio_unit _ _ (count_bounds task_state_advanced obs) ltac:(lia)) as Hr.
  destruct (sub_unit one _ one_unit Hr (proj2 (proj2 (proj2 Hr)))) as (Vs & Fs & _).
  assert (Hd : in_unit (min (div (div (of_int (total_tokens obs)) (of_int (len obs))) (of_int 256)) one)).
  { apply min_one_unit, div_stays_nonneg; [|lia]. apply div_stays_nonneg; [|lia].
    apply of_int_nonneg, total_tokens_range. }
  destruct Hd as (Vd & Fd & _). destruct (mul_valid _ _ Vd Vs Fd Fs). by apply clamp_unit.
Qed.

Lemma trim_spec w obs : trim w obs = drop (length obs - Z.to_nat w) obs \/ w < 0.
Proof.
  destruct (Z.lt_ge_cases w 0) as [|Hw]; [by right|left].
  induction obs as [|o l IH]; [reflexivity|]. cbn [trim]. unfold len in *. cbn [length] in *.
  destruct (Z.ltb_spec w (Z.of_nat (S (length l)))) as [H|H].
  - rewrite IH. replace (S (length l) - Z.to_nat w)%nat with (S (length l - Z.to_nat w)) by lia. reflexivity.
  - replace (S (length l) - Z.to_nat w)%nat with 0%nat by lia. reflexivity.
Qed.

(** The [n] most recent entries. *)
Definition latest {A} (n : nat) (l : list A) : list A := drop (length l - n) l.

Lemma trim_latest w obs : 0 <= w -> trim w obs = latest (Z.to_nat w) obs.
Proof. intros Hw. destruct (trim_spec w obs) as [|]; [assumption|lia]. Qed.

Lemma length_latest {A} n (l : list A) : length (latest n l) = Nat.min n (length l).
Proof. unfold latest. rewrite length_drop. lia. Qed.

(** Trimming after each push keeps the window of the whole history. *)
Lemma latest_push {A} n (l : list A) x : latest n (latest n l ++ [x]) = latest n (l ++ [x]).
Proof.
  unfold latest. rewrite !length_app, length_drop. cbn [length].
  rewrite <- (drop_app_le l [x] (length l - n)) by lia. rewrite drop_drop. f_equal. lia.
Qed.

(** C32.  Bounds of the signals: whatever is observed, with a window below 2^24
    entries, the four scores kept for the agent are finite binary32 values between
    zero and one (no NaN, no rounding above one), at most [window] observations are
    kept, and the tier reported by [scores] is the one [observe] returned. *)
Theorem observe_scores_in_unit m id o :
  0 <= t_window (cfg m) < 2 ^ 24 ->
  let '(t, m') := observe m id o in
  len (observations (buffer_of m' id)) <= t_window (cfg m) /\
  exists s, scores m' id = Some s /\ s_tier s = t /\
    in_unit (s_repetition s) /\ in_unit (s_self_referential s) /\
    in_unit (s_token_velocity s) /\ in_unit (s_tool_retry s).
Proof.
  intros Hw.
  assert (Hlen : len (trim (t_window (cfg m)) (observations (buffer_of m id) ++ [o])) <= t_window (cfg m)).
  { rewrite trim_latest by lia. unfold len. rewrite length_latest. lia. }
  unfold observe. cbv zeta. unfold scores, buffer_of. cbn [state cfg]. rewrite lookup_insert_eq.
  split; [exact Hlen|]. eexists. split; [reflexivity|]. split; [reflexivity|].
  split_and!; [apply repetition_unit|apply self_referential_unit|apply token_velocity_unit|apply tool_retry_unit];
    unfold buffer_of in *; lia.
Qed.

(** Two observations of the same output, on a fresh monitor. *)
Definition sample_obs : Observation := mkObs "h" 50 false (Some "t") false.

Lemma observe_scores_in_unit_witness :
  let '(t, m') := observe (snd (observe new "a" sample_obs)) "a" sample_obs in
  len (observations (buffer_of m' "a")) <= 16 /\ exists s, scores m' "a" = Some s /\ in_unit (s_token_velocity s).
Proof.
  pose proof (observe_scores_in_unit (snd (observe new "a" sample_obs)) "a" sample_obs) as H.
  assert (Hc : cfg (snd (observe new "a" sample_obs)) = default_config) by reflexivity.
  rewrite Hc in H. specialize (H ltac:(cbn; lia)). destruct (observe _ _ _) as [t m'].
  destruct H as (Hl & s & Hs & _ & _ & _ & Hv & _). split; [exact Hl|]. exists s. by split.
Defined.

(** ** Runs *)

Inductive Event :=
  | EObserve (id : string) (o : Observation)
  | ERecord (id : string) (k : SignalKind) (x : f32)
  | EForget (id : string)
  | ESetThresholds (t : Thresholds).

Definition step (m : Monitor) (e : Event) : Monitor :=
  match e with
  | EObserve id o => snd (observe m id o)
  | ERecord id k x => snd (record_signal m id k x)
  | EForget id => forget m id
  | ESetThresholds t => set_thresholds m t
  end.

Definition run (m : Monitor) (es : list Event) : Monitor := fold_left step es m.

(** The specification: all an agent was observed to do since it was last
    forgotten. *)
Definition history_step (id : string) (h : list Observation) (e : Event) : list Observation :=
  match e with
  | EObserve i o => if decide (i = id) then h ++ [o] else h
  | EForget i => if decide (i = id) then [] else h
  | _ => h
  end.

Definition history (id : string) (es : list Event) : list Observation := fold_left (history_step id) es [].

Definition keeps_config (e : Event) : Prop := match e with ESetThresholds _ => False | _ => True end.

Lemma step_config m e : keeps_config e -> cfg (step m e) = cfg m.
Proof. by destruct e. Qed.

Lemma buffer_insert m i id b : buffer_of (mkMonitor (cfg m) (<[i := b]> (state m))) id =
  if decide (i = id) then b else buffer_of m id.
Proof.
  unfold buffer_of. cbn [state]. destruct (decide (i = id)) as [->|Hne].
  - by rewrite lookup_insert_eq.
  - by rewrite lookup_insert_ne.
Qed.

Lemma buffer_forget m i id : buffer_of (forget m i) id = if decide (i = id) then AgentBuffer_new else buffer_of m id.
Proof.
  unfold buffer_of, forget. cbn [state]. destruct (decide (i = id)) as [->|Hne].
  - by rewrite lookup_delete_eq.
  - by rewrite lookup_delete_ne.
Qed.

(** The specification, second part: the window in force and how many of the agent's
    observations are kept.  Only an observation trims. *)
Definition kept_step (id : string) (k : Z * nat) (e : Event) : Z * nat :=
  let (w, n) := k in
  match e with
  | EObserve i o => (w, if decide (i = id) then Nat.min (Z.to_nat w) (S n) else n)
  | EForget i => (w, if decide (i = id) then O else n)
  | ESetThresholds t => (t_window t, n)
  | ERecord _ _ _ => (w, n)
  end.

Definition kept (c : Thresholds) (id : string) (es : list Event) : nat :=
  snd (fold_left (kept_step id) es (t_window c, O)).

(** A window is an unsigned number. *)
Definition window_ok (e : Event) : Prop := match e with ESetThresholds t => 0 <= t_window t | _ => True end.

Lemma latest_grow {A} (w n : nat) (l : list A) x :
  latest w (latest n l ++ [x]) = latest (Nat.min w (S n)) (l ++ [x]).
Proof.
  unfold latest. rewrite !length_app, length_drop. cbn [length].
  rewrite <- (drop_app_le l [x]) by lia. rewrite drop_drop. f_equal. lia.
Qed.

Lemma step_refines id m h w n e :
  0 <= w -> t_window (cfg m) = w -> (n <= length h)%nat -> observations (buffer_of m id) = latest n h ->
  let h' := history_step id h e in let '(w', n') := kept_step id (w, n) e in
  t_window (cfg (step m e)) = w' /\ (n' <= length h')%nat /\
  observations (buffer_of (step m e) id) = latest n' h'.
Proof.
  intros Hw Hwin Hn Hb. destruct e as [i o|i k x|i|t]; cbn [step history_step kept_step].
  - split; [exact Hwin|]. unfold observe. cbv zeta. cbn [snd]. rewrite buffer_insert.
    destruct (decide (i = id)) as [->|]; [|by split]. cbn [observations].
    split; [rewrite length_app; cbn; lia|]. rewrite Hwin, Hb, trim_latest by exact Hw. apply latest_grow.
  - split; [exact Hwin|]. split; [exact Hn|]. unfold record_signal. cbv zeta. cbn [snd]. rewrite buffer_insert.
    destruct (decide (i = id)) as [->|]; exact Hb.
  - split; [exact Hwin|]. rewrite buffer_forget. destruct (decide (i = id)) as [->|]; [|by split].
    split; [cbn; lia|reflexivity].
  - split; [reflexivity|]. by split.
Qed.

Lemma run_refines id es : forall m h w n,
  Forall window_ok es -> 0 <= w -> t_window (cfg m) = w -> (n <= length h)%nat ->
  observations (buffer_of m id) = latest n h ->
  observations (buffer_of (fold_left step es m) id) =
  latest (snd (fold_left (kept_step id) es (w, n))) (fold_left (history_step id) es h).
Proof.
  induction es as [|e es IH]; intros m h w n Hes Hw Hwin Hn Hb; [exact Hb|]. inversion Hes as [|? ? He Hes']; subst.
  pose proof (step_refines id m h _ n e Hw eq_refl Hn Hb) as H. cbv zeta in H. cbn [fold_left].
  destruct (kept_step id (t_window (cfg m), n) e) as [w' n'] eqn:E. destruct H as (Hw' & Hn' & Hb').
  apply IH; [done| |done..]. rewrite <- Hw'. by destruct e.
Qed.

(** With one window throughout, all but the trimmed observations are kept. *)
Lemma latest_kept id es : forall w n h,
  Forall keeps_config es -> latest n h = latest (Z.to_nat w) h ->
  let k := fold_left (kept_step id) es (w, n) in let h' := fold_left (history_step id) es h in
  latest (snd k) h' = latest (Z.to_nat w) h'.
Proof.
  induction es as [|e es IH]; intros w n h Hes Hn; [exact Hn|]. inversion Hes as [|? ? He Hes']; subst. cbn [fold_left].
  destruct e as [i o|i k x|i|t]; cbn [kept_step history_step]; [..|done]; [destruct (decide (i = id))| |destruct (decide (i = id))];
    apply IH; try done.
  by rewrite <- latest_grow, Hn, latest_push.
Qed.

(** C33.  The buffers refine the history: after any sequence of observations, injected
    signals, forgotten agents and changes of the thresholds, the observations held
    for an agent are the most recent of those made since it was last forgotten, in
    order, as many as [kept] says: each observation adds one and trims to the window
    in force, a smaller window trims nothing before the next observation, and a
    larger one brings nothing back.  As long as the thresholds are not changed that
    is the [window] most recent.  The events of other agents leave them alone. *)
Theorem buffers_refine_history c id es :
  0 <= t_window c -> Forall window_ok es ->
  let held := observations (buffer_of (run (mkMonitor c ∅) es) id) in
  held = latest (kept c id es) (history id es) /\
  (Forall keeps_config es -> held = latest (Z.to_nat (t_window c)) (history id es)).
Proof.
  intros Hw Hes held.
  assert (H : held = latest (kept c id es) (history id es)) by (apply run_refines; [done..|cbn; lia|reflexivity]).
  split; [exact H|]. intros Hk. rewrite H. by apply latest_kept.
Qed.

(** The window goes from 16 to 2 and back: the trimmed observations stay away. *)
Definition sized (w : Z) : Thresholds :=
  mkThresholds (t_repetition default_config) (t_self_referential default_config) (t_token_velocity default_config)
    (t_tool_retry default_config) (t_soft default_config) (t_medium default_config) (t_hard default_config) w.

Lemma buffers_refine_history_witness :
  let o h := EObserve "a" (mkObs h 50 false None true) in
  let es := [o "1"%string; o "2"%string; o "3"%string; ESetThresholds (sized 2); o "4"%string;
             ESetThresholds (sized 16); EObserve "b" sample_obs; o "5"%string] in
  map output_hash (observations (buffer_of (run new es) "a")) = ["3"%string; "4"%string; "5"%string] /\
  observations (buffer_of (run new [o "1"%string; EForget "a"; EObserve "a" sample_obs]) "a") = [sample_obs].
Proof.
  intros o es. split.
  - destruct (buffers_refine_history default_config "a" es) as [H _]; [cbn; lia|by repeat constructor|].
    change (run (mkMonitor default_config ∅) es) with (run new es) in H. rewrite H. reflexivity.
  - apply (buffers_refine_history default_config "a" [o "1"%string; EForget "a"; EObserve "a" sample_obs]);
      [cbn; lia|by repeat constructor..].
Defined.

(** ** Tiers *)

Definition quiet (s : SignalScores) (c : Thresholds) : Prop :=
  lt (s_repetition s) (from_bits (t_repetition c)) = true /\
  lt (s_self_referential s) (from_bits (t_self_referential c)) = true /\
  lt (s_token_velocity s) (from_bits (t_token_velocity c)) = true /\
  lt (s_tool_retry s) (from_bits (t_tool_retry c)) = true.

Definition positive_tiers (c : Thresholds) : Prop :=
  lt zero (from_bits (t_soft c)) = true /\ lt zero (from_bits (t_medium c)) = true /\
  lt zero (from_bits (t_hard c)) = true.

Lemma combine_below_gates rep srl tvs tra c :
  lt rep (from_bits (t_repetition c)) = true -> lt srl (from_bits (t_self_referential c)) = true ->
  lt tvs (from_bits (t_token_velocity c)) = true -> lt tra (from_bits (t_tool_retry c)) = true ->
  combine rep srl tvs tra c = zero.
Proof. intros H1 H2 H3 H4. unfold combine, contrib. rewrite H1, H2, H3, H4. reflexivity. Qed.

Lemma tier_for_zero c : positive_tiers c -> tier_for zero c = TNone.
Proof. intros (H1 & H2 & H3). unfold tier_for. by rewrite !lt_not_le. Qed.

(**  No false alarm: while each of an agent's four scores is below its own
    gate, [observe] recommends no response, however the four add up, under any
    configuration whose tiers are above zero. *)
Theorem below_gates_no_response m id o s :
  let '(t, m') := observe m id o in
  scores m' id = Some s -> quiet s (cfg m) -> positive_tiers (cfg m) -> t = TNone /\ s_tier s = TNone.
Proof.
  unfold observe. cbv zeta. unfold scores. cbn [state]. rewrite lookup_insert_eq.
  intros [= <-] (H1 & H2 & H3 & H4) Hp. cbn [s_repetition s_self_referential s_token_velocity s_tool_retry s_tier] in *.
  unfold score_of in *. cbn [last tier] in *.
  unfold set_last in *. cbn in H1, H2, H3, H4.
  rewrite combine_below_gates by assumption. by rewrite tier_for_zero.
Qed.

Lemma below_gates_no_response_witness :
  let m := run new [EObserve "a" (mkObs "h" 100 false None true)] in
  fst (observe m "a" (mkObs "k" 200 false (Some "t") false)) = TNone.
Proof.
  intros m. pose proof (below_gates_no_response m "a" (mkObs "k" 200 false (Some "t") false)) as H.
  set (m' := snd (observe m "a" (mkObs "k" 200 false (Some "t") false))) in *.
  destruct (scores m' "a") as [s|] eqn:E; [|by vm_compute in E]. specialize (H s).
  unfold m' in E. destruct (observe m "a" _) as [t mm] eqn:Eo. cbn [fst snd] in *.
  assert (Hcfg : cfg m = default_config) by reflexivity. rewrite Hcfg in H.
  refine (proj1 (H E _ _)); [|repeat split; reflexivity].
  vm_compute in Eo. injection Eo as <- <-. vm_compute in E. injection E as <-. repeat split; reflexivity.
Defined.

(** A float divided by itself. *)
Lemma div_self m e : div (S754_finite false m e) (S754_finite false m e) = one.
Proof.
  unfold div, SFdiv. destruct (div_core_spec m e m e) as (q & r & Hc & Hqr & Hr & Hq). rewrite Hc.
  cbn zeta in *. rewrite !Z.sub_diag in *. change (Z.min (fexp32 0) 0) with (-24) in *.
  change (0 - -24) with 24 in Hqr. assert (q = 2 ^ 24) as -> by nia. assert (r = 0) as -> by nia.
  unfold new_location, new_location_even, new_location_odd. cbn [Z.eqb]. destruct (Z.even (Zpos m)); reflexivity.
Qed.

Definition gates_in_unit (c : Thresholds) : Prop :=
  in_unit (from_bits (t_repetition c)) /\ in_unit (from_bits (t_self_referential c)) /\
  in_unit (from_bits (t_token_velocity c)) /\ in_unit (from_bits (t_tool_retry c)).

Lemma unit_cases x : in_unit x -> (exists s, x = S754_zero s) \/ (exists m e, x = S754_finite false m e).
Proof.
  intros (V & F & S). destruct x as [s|s| |[] m e]; try discriminate; eauto.
  pose proof (valid_finite _ _ _ V) as (E & _). pose proof (scaled_nonneg m e ltac:(lia)). cbn [scaled] in *. lia.
Qed.

(** A saturated signal contributes exactly one, a silent one exactly zero. *)
Lemma contrib_one g : in_unit g -> contrib one g = one.
Proof.
  intros Hg. pose proof Hg as (V & F & S). unfold contrib. rewrite lt_scaled by done.
  change (scaled one) with unit_scaled. destruct (Z.ltb_spec unit_scaled (scaled g)) as [|_]; [lia|].
  pose proof (sub_unit one g one_unit Hg (proj2 S)) as Hs. cbv zeta.
  destruct (le (sub one g) zero) eqn:L; [reflexivity|].
  destruct (unit_cases _ Hs) as [[s E]|(m & e & E)]; rewrite E in *; [by destruct s|]. apply div_self.
Qed.

Lemma contrib_zero g : in_unit g -> contrib zero g = zero.
Proof.
  intros Hg. unfold contrib. destruct (unit_cases g Hg) as [[s ->]|(m & e & ->)]; [by destruct s|reflexivity].
Qed.

(**  A saturated detector locks the agent: a userspace detector that reports
    1.0 for any one of the four signals of an agent not seen before gets the Hard
    tier at once, whatever the gates between zero and one, and the tier is kept. *)
Theorem saturated_signal_is_hard m id k :
  state m !! id = None -> gates_in_unit (cfg m) -> le (from_bits (t_hard (cfg m))) one = true ->
  let '(t, m') := record_signal m id k one in
  t = THard /\ tier (buffer_of m' id) = THard /\ observations (buffer_of m' id) = [].
Proof.
  intros Hnone (G1 & G2 & G3 & G4) Hh. unfold record_signal, buffer_of. cbv zeta. rewrite Hnone.
  cbn [state]. rewrite lookup_insert_eq. cbn [default from_option]. cbn [tier observations].
  assert (Ht : tier_for one (cfg m) = THard) by (unfold tier_for; by rewrite Hh).
  destruct k; unfold score_of, set_last, combine; cbn [AgentBuffer_new last];
    change (clamp one zero one) with one; cbn; rewrite ?contrib_one, ?contrib_zero by assumption;
    (split_and!; [exact Ht|exact Ht|reflexivity]).
Qed.

Lemma default_gates_in_unit : gates_in_unit default_config.
Proof. repeat split; vm_compute; congruence. Qed.

Lemma saturated_signal_is_hard_witness :
  fst (record_signal new "a" SelfReferentialLoop one) = THard.
Proof.
  pose proof (saturated_signal_is_hard new "a" SelfReferentialLoop) as H.
  destruct (record_signal new "a" SelfReferentialLoop one) as [t m'] eqn:E.
  exact (proj1 (H eq_refl default_gates_in_unit eq_refl)).
Defined.

(** A NaN gate turns every sum into a NaN. *)
Lemma contrib_nan x : contrib x S754_nan = S754_nan.
Proof. unfold contrib. replace (lt x S754_nan) with false by (by destruct x). cbn. by destruct x. Qed.

Lemma add_nan_r x : add x S754_nan = S754_nan.
Proof. by destruct x. Qed.

Lemma nan_is x : is_nan x = true -> x = S754_nan.
Proof. by destruct x. Qed.

Lemma tier_for_nan c : tier_for S754_nan c = TNone.
Proof.
  unfold tier_for. replace (le (from_bits (t_hard c)) S754_nan) with false by (by destruct (from_bits (t_hard c))).
  replace (le (from_bits (t_medium c)) S754_nan) with false by (by destruct (from_bits (t_medium c))).
  by replace (le (from_bits (t_soft c)) S754_nan) with false by (by destruct (from_bits (t_soft c))).
Qed.

Definition some_nan_gate (c : Thresholds) : Prop :=
  Exists (fun b => is_nan (from_bits b) = true)
    [t_repetition c; t_self_referential c; t_token_velocity c; t_tool_retry c].

Lemma combine_nan rep srl tvs tra c : some_nan_gate c -> combine rep srl tvs tra c = S754_nan.
Proof.
  unfold some_nan_gate. rewrite !Exists_cons, Exists_nil. intros H. unfold combine. cbv zeta.
  destruct H as [H|[H|[H|[H|[]]]]]; rewrite (nan_is _ H), contrib_nan; by rewrite ?add_nan_r.
Qed.

(**  One NaN gate silences the monitor: under a configuration in which a single
    signal threshold is a NaN, no observation and no injected signal of any agent
    ever yields a response. *)
Theorem nan_gate_silences m id :
  some_nan_gate (cfg m) ->
  (forall o, fst (observe m id o) = TNone) /\ (forall k x, fst (record_signal m id k x) = TNone).
Proof.
  intros H. split; intros; unfold observe, record_signal; cbv zeta; cbn [fst];
    rewrite combine_nan by exact H; apply tier_for_nan.
Qed.

Lemma nan_gate_silences_witness :
  fst (record_signal (set_thresholds new (mkThresholds 0x3F19999A 0x7FC00000 0x3F000000 0x3ECCCCCD 0x3ECCCCCD 0x3F333333 0x3F666666 16))
         "a" RepetitionScore one) = TNone.
Proof.
  apply nan_gate_silences. unfold some_nan_gate. rewrite !Exists_cons. right. left. reflexivity.
Defined.

(** The token sum is a wrapping [u32]: 2^32 tokens without progress score like no
    output at all. *)
Lemma token_sum_wraps :
  let flood := mkObs "h" 0x80000000 false None false in
  token_velocity_score [flood; flood] = zero /\ token_velocity_score [flood] = one.
Proof. split; reflexivity. Qed.

(** ** Normalised output *)

(** The reference: the words between the whitespace, in lower case, one space
    apart.  [cur] is the word being read. *)
Definition flush (cur : list ascii) : list (list ascii) := match cur with [] => [] | _ => [cur] end.

Fixpoint words (cur s : list ascii) : list (list ascii) :=
  match s with
  | [] => flush cur
  | c :: s' => if is_whitespace c then flush cur ++ words [] s' else words (cur ++ [to_lowercase c]) s'
  end.

Fixpoint join (ws : list (list ascii)) : list ascii :=
  match ws with
  | [] => []
  | [w] => w
  | w :: ws' => w ++ " "%char :: join ws'
  end.

Definition is_word (w : list ascii) : Prop := w <> [] /\ Forall (fun c => is_whitespace c = false) w.

Lemma lowercase_not_space c : is_whitespace (to_lowercase c) = is_whitespace c.
Proof. destruct c as [[] [] [] [] [] [] [] []]; reflexivity. Qed.

Lemma words_are_words s : forall cur, Forall (fun c => is_whitespace c = false) cur -> Forall is_word (words cur s).
Proof.
  assert (Hf : forall cur, Forall (fun c => is_whitespace c = false) cur -> Forall is_word (flush cur)).
  { intros [|c cur] H; cbn [flush]; [constructor|]. by apply Forall_singleton. }
  induction s as [|c s IH]; intros cur Hcur; cbn [words]; [by apply Hf|]. destruct (is_whitespace c) eqn:E.
  - apply Forall_app. split; [by apply Hf|by apply IH].
  - apply IH, Forall_app. split; [exact Hcur|]. constructor; [by rewrite lowercase_not_space|constructor].
Qed.

(** What [normalize] emits, up to trailing whitespace. *)
Lemma normalize_words s :
  (exists tail, forallb is_whitespace tail = true /\ normalize true s = join (words [] s) ++ tail) /\
  (forall cur, cur <> [] ->
     exists tail, forallb is_whitespace tail = true /\ cur ++ normalize false s = join (words cur s) ++ tail).
Proof.
  induction s as [|c s [IHa IHb]]; cbn [normalize words].
  { split; [by exists []|]. intros [|c cur] H; [done|]. by exists []. }
  destruct (is_whitespace c) eqn:E; cbn [app flush].
  - split; [exact IHa|]. intros [|c' cur] H; [done|]. destruct IHa as (tail & Ht & ->). cbn [flush app].
    destruct (words [] s) as [|w ws]; cbn [join app].
    + exists (" "%char :: tail). split; [exact Ht|reflexivity].
    + exists tail. split; [exact Ht|]. by rewrite <- !app_assoc.
  - split.
    + exact (IHb [to_lowercase c] ltac:(done)).
    + intros cur Hcur. destruct (IHb (cur ++ [to_lowercase c])) as (tail & Ht & Heq); [by destruct cur|].
      exists tail. split; [exact Ht|]. by rewrite <- Heq, <- app_assoc.
Qed.

Lemma trim_start_spaces t s : forallb is_whitespace t = true -> trim_start (t ++ s) = trim_start s.
Proof. induction t as [|c t IH]; cbn; [done|]. intros [-> H]%andb_true_iff. by apply IH. Qed.

(** A line that begins and ends in a word. *)
Lemma trim_start_word w s : is_word w -> trim_start (w ++ s) = w ++ s.
Proof. intros [Hne Hw]. destruct Hw as [|c w Hc Hw]; [done|]. cbn. by rewrite Hc. Qed.

Lemma join_prefix w ws : exists rest, join (w :: ws) = w ++ rest.
Proof. destruct ws as [|w' ws]; [by exists []; cbn; rewrite app_nil_r|by eexists]. Qed.

Lemma join_suffix ws : Forall is_word ws -> ws <> [] -> exists pre w, is_word w /\ join ws = pre ++ w.
Proof.
  induction 1 as [|w ws Hw Hws IH]; [done|]. intros _. destruct ws as [|w' ws]; [by exists [], w|].
  destruct IH as (pre & v & Hv & E); [done|]. exists (w ++ " "%char :: pre), v. split; [exact Hv|].
  change (join (w :: w' :: ws)) with (w ++ " "%char :: join (w' :: ws)). rewrite E. by rewrite <- app_assoc.
Qed.

Lemma rev_word_head w s : is_word w -> trim_start (rev w ++ s) = rev w ++ s.
Proof.
  intros [Hne Hw]. apply trim_start_word. split; [|by apply Forall_rev].
  intros E. apply Hne. by rewrite <- (rev_involutive w), E.
Qed.

Lemma trim_join ws tail :
  Forall is_word ws -> forallb is_whitespace tail = true -> trim_ws (join ws ++ tail) = join ws.
Proof.
  intros Hws Ht. unfold trim_ws. destruct ws as [|w ws].
  { cbn [join app]. rewrite <- (app_nil_r tail), trim_start_spaces by exact Ht. reflexivity. }
  destruct (join_prefix w ws) as [rest E].
  assert (trim_start (join (w :: ws) ++ tail) = join (w :: ws) ++ tail) as ->.
  { rewrite E, <- app_assoc. apply trim_start_word. by inversion Hws. }
  rewrite rev_app_distr, trim_start_spaces.
  - destruct (join_suffix (w :: ws) Hws) as (pre & v & Hv & ->); [done|].
    rewrite rev_app_distr, rev_word_head by exact Hv. by rewrite <- rev_app_distr, rev_involutive.
  - rewrite forallb_forall in *. intros x Hx. apply Ht. by apply in_rev.
Qed.

Lemma normalize_trim s : trim_ws (normalize false s) = join (words [] s).
Proof.
  assert (Hw : Forall is_word (words [] s)) by (by apply words_are_words). destruct s as [|c s]; [reflexivity|].
  cbn [normalize words] in *. destruct (is_whitespace c) eqn:E.
  - destruct (proj1 (normalize_words s)) as (tail & Ht & ->). cbn [flush app] in *.
    unfold trim_ws. cbn [trim_start]. change (is_whitespace " ") with true. cbv iota.
    by apply (trim_join (words [] s) tail).
  - destruct (proj2 (normalize_words s) [to_lowercase c] ltac:(done)) as (tail & Ht & Heq).
    cbn [app] in *. rewrite Heq. by apply trim_join.
Qed.

(**  What "the same output" means: for ASCII text the hash fed to the
    repetition signal is the SHA-256 of its lower-cased words joined by single
    spaces, so two outputs that differ only in case and in whitespace between,
    before or after words hash alike. *)
Theorem output_hash_is_hash_of_words s :
  forallb is_ascii (String.list_ascii_of_string s) = true ->
  normalize_output_hash s =
  Some (Sha256.sha256_hex (Audit.as_bytes (String.string_of_list_ascii
          (join (words [] (String.list_ascii_of_string s)))))).
Proof. intros H. unfold normalize_output_hash. cbv zeta. rewrite H. do 4 f_equal. apply normalize_trim. Qed.

Lemma output_hash_is_hash_of_words_witness :
  normalize_output_hash "Hello   World" = normalize_output_hash " hello world ".
Proof. rewrite !output_hash_is_hash_of_words by reflexivity. reflexivity. Defined.

End Monitor.
