(* ===== verification/SafeTerm.v ===== *)
(** The Safe Mode terminal (src/src/safemode/mod.rs): the COM1 driver at the level
    of port reads and writes, the console printers as the bytes they send, the
    line editor, the command interpreter and the migration block.  A command is a
    function from the working configuration and the block to their successors and
    the bytes sent; the session folds the operator's bytes through it. *)

From Stdlib Require Import ZArith Lia Ascii SpecFloat.
From stdpp Require Import base list strings.
From S2P Require Import Prelude Sha256 AuditTrail ConfigBuffer F32.

Open Scope Z_scope.

(** ** The UART *)

Module Serial.

Inductive PortOp := In (port value : Z) | Out (port value : Z).

Definition COM1 : Z := 0x3F8.
Definition RBR : Z := 0.
Definition THR : Z := 0.
Definition DLL : Z := 0.
Definition IER : Z := 1.
Definition DLM : Z := 1.
Definition FCR : Z := 2.
Definition LCR : Z := 3.
Definition MCR : Z := 4.
Definition LSR : Z := 5.
Definition LSR_DATA_READY : Z := Z.shiftl 1 0.
Definition LSR_THR_EMPTY : Z := Z.shiftl 1 5.
Definition LCR_DLAB : Z := Z.shiftl 1 7.
Definition LCR_8N1 : Z := 0x03.

Definition init : list PortOp :=
  [Out (COM1 + IER) 0x00; Out (COM1 + LCR) LCR_DLAB; Out (COM1 + DLL) 0x01; Out (COM1 + DLM) 0x00;
   Out (COM1 + LCR) LCR_8N1; Out (COM1 + FCR) 0xC7; Out (COM1 + MCR) 0x0B].

(** Polling: [status] is what successive reads of the line status register
    return.  The result is the trace so far and, once the bit is seen, the reads
    left; [None] while still spinning. *)
Fixpoint poll (mask : Z) (status : list Z) : list PortOp * option (list Z) :=
  match status with
  | [] => ([], None)
  | v :: rest =>
      if Z.land v mask =? 0 then let (tr, r) := poll mask rest in (In (COM1 + LSR) v :: tr, r)
      else ([In (COM1 + LSR) v], Some rest)
  end.

Definition write_byte (byte : Z) (status : list Z) : list PortOp * option (list Z) :=
  let (tr, r) := poll LSR_THR_EMPTY status in
  match r with
  | None => (tr, None)
  | Some rest => (tr ++ [Out (COM1 + THR) byte], Some rest)
  end.

(** [rbr] is what the receive buffer holds when it is read. *)
Definition read_byte (rbr : Z) (status : list Z) : list PortOp * option (Z * list Z) :=
  let (tr, r) := poll LSR_DATA_READY status in
  match r with
  | None => (tr, None)
  | Some rest => (tr ++ [In (COM1 + RBR) rbr], Some (rbr, rest))
  end.

Definition early_serial_write (s : string) : list PortOp := map (Out COM1) (Audit.as_bytes s).

Definition not_ready (mask v : Z) : Prop := Z.land v mask = 0.

Lemma poll_waits mask busy v rest :
  Forall (not_ready mask) busy -> Z.land v mask <> 0 ->
  poll mask (busy ++ v :: rest) = (map (In (COM1 + LSR)) (busy ++ [v]), Some rest).
Proof.
  intros Hb Hv. induction Hb as [|b busy Hb' Hb IH]; cbn [app poll map].
  - by destruct (Z.eqb_spec (Z.land v mask) 0).
  - unfold not_ready in Hb'. rewrite Hb', Z.eqb_refl, IH. reflexivity.
Qed.

(** A byte is transmitted once, after the first poll that finds the transmitter
    empty, and not before. *)
Lemma write_byte_waits byte busy v rest :
  Forall (not_ready LSR_THR_EMPTY) busy -> Z.land v LSR_THR_EMPTY <> 0 ->
  write_byte byte (busy ++ v :: rest) =
  (map (In (COM1 + LSR)) (busy ++ [v]) ++ [Out (COM1 + THR) byte], Some rest).
Proof. intros Hb Hv. unfold write_byte. by rewrite poll_waits. Qed.

End Serial.

Module SafeTerm.
Import ConfigBuffer F32.

(** ** Console printers *)

Definition print (s : list Z) : list Z := flat_map (fun b => if b =? 10 then [13; 10] else [b]) s.

(** A literal, and a literal that ends in a line feed. *)
Definition lit (s : string) : list Z := print (Audit.as_bytes s).
Definition ln (s : string) : list Z := print (Audit.as_bytes s ++ [10]).
Definition nl : list Z := print [10].

Definition putc (b : Z) : list Z := [b].

(** [while value > 0] over the ten-byte buffer; [None] is an index out of range.
    Ten turns are one more than any index can serve. *)
Fixpoint digits (fuel : nat) (value : Z) (i : nat) (buf : list Z) : option (nat * list Z) :=
  if value =? 0 then Some (i, buf)
  else
    match fuel, i with
    | S fuel, S i' => digits fuel (value / 10) i' (<[i' := 48 + value mod 10]> buf)
    | _, _ => None
    end.

Definition print_u32 (value : Z) : option (list Z) :=
  if value =? 0 then Some (putc 48)
  else
    match digits 11 value 10 (replicate 10 0) with
    | Some (i, buf) => Some (drop i buf)
    | None => None
    end.

Definition hex_digit (n : Z) : Z := if n <? 10 then 48 + n else 87 + n.

Definition shifts : list Z := [60; 56; 52; 48; 44; 40; 36; 32; 28; 24; 20; 16; 12; 8; 4; 0].

Definition print_hex64 (value : Z) : list Z :=
  putc 48 ++ putc 120 ++ map (fun s => hex_digit (Z.land (Z.shiftr value s) 0xF)) shifts.

Definition f32_1000 : f32 := of_int 1000.
Definition f32_half : f32 := div one (of_int 2).

Definition print_f32 (value : f32) : option (list Z) :=
  let '(sign, v) := if lt value zero then (putc 45, neg value) else ([], value) in
  let scaled := to_u32 (add (mul v f32_1000) f32_half) in
  let int := scaled / 1000 in
  let frac := scaled mod 1000 in
  match print_u32 int with
  | None => None
  | Some s => Some (sign ++ s ++ putc 46 ++ putc (48 + frac / 100) ++ putc (48 + (frac / 10) mod 10)
                      ++ putc (48 + frac mod 10))
  end.

Definition print_bytes (bs : list Z) : list Z := bs.

(** Printing in sequence; a panic ends it. *)
Fixpoint emits (l : list (option (list Z))) : option (list Z) :=
  match l with
  | [] => Some []
  | o :: l' => match o, emits l' with Some a, Some b => Some (a ++ b) | _, _ => None end
  end.

(** ** Configuration and migration block *)

Record SentinelConfig := mkConfig {
  repetition : f32;
  self_referential : f32;
  token_velocity : f32;
  tool_retry : f32;
  soft : f32;
  medium : f32;
  hard : f32;
  window : Z
}.

(** 0.6, 0.5, 0.5, 0.4, 0.4, 0.7, 0.9 as the compiler rounds them, and 16. *)
Definition DEFAULT : SentinelConfig :=
  mkConfig (from_bits 0x3F19999A) (from_bits 0x3F000000) (from_bits 0x3F000000) (from_bits 0x3ECCCCCD)
    (from_bits 0x3ECCCCCD) (from_bits 0x3F333333) (from_bits 0x3F666666) 16.

Definition fold_sum (sum : Z) (bytes : list Z) : Z := fold_left add32 bytes sum.

Definition checksum (c : SentinelConfig) : Z :=
  let le x := to_le_bytes 4 (to_bits x) in
  let sum := fold_sum 0 (le (repetition c)) in
  let sum := fold_sum sum (le (self_referential c)) in
  let sum := fold_sum sum (le (token_velocity c)) in
  let sum := fold_sum sum (le (tool_retry c)) in
  let sum := fold_sum sum (le (soft c)) in
  let sum := fold_sum sum (le (medium c)) in
  let sum := fold_sum sum (le (hard c)) in
  fold_sum sum (to_le_bytes 4 (window c)).

(** The bytes of "GLMSAFE0". *)
Definition MIGRATION_MAGIC : Z := from_le_bytes (Audit.as_bytes "GLMSAFE0").
Definition MIGRATION_VERSION : Z := 1.

Record MigrationBlock := mkBlock {
  magic : Z;
  version : Z;
  sequence : Z;
  b_config : SentinelConfig;
  b_checksum : Z;
  committed : Z
}.

Definition EMPTY : MigrationBlock := mkBlock 0 MIGRATION_VERSION 0 DEFAULT 0 0.

(** The state of the terminal: the working copy and SENTINEL_MIGRATION_BLOCK. *)
Record Term := mkTerm { config : SentinelConfig; block : MigrationBlock }.

Definition commit (prev : MigrationBlock) (c : SentinelConfig) : MigrationBlock * Z :=
  let next_seq := if magic prev =? MIGRATION_MAGIC then add32 (sequence prev) 1 else 1 in
  (mkBlock MIGRATION_MAGIC MIGRATION_VERSION next_seq c (checksum c) 1, next_seq).

(** ** Byte strings *)

(** [eq] after its length test: the loop over the indices. *)
Fixpoint eq_from (a b : list Z) : bool :=
  match a, b with
  | [], _ => true
  | x :: a', y :: b' => if negb (x =? y) then false else eq_from a' b'
  | _, [] => true
  end.

Definition eq (a b : list Z) : bool := (length a =? length b)%nat && eq_from a b.

Fixpoint skip_spaces (s : list Z) : list Z :=
  match s with
  | b :: s' => if b =? 32 then skip_spaces s' else s
  | [] => []
  end.

Fixpoint token_split (s : list Z) : list Z * list Z :=
  match s with
  | [] => ([], [])
  | b :: s' => if b =? 32 then ([], s) else let (t, r) := token_split s' in (b :: t, r)
  end.

Definition split_first_token (input : list Z) : list Z * list Z :=
  let (token, rest) := token_split (skip_spaces input) in (token, skip_spaces rest).

Definition is_ascii_digit (b : Z) : bool := (48 <=? b) && (b <=? 57).
Definition is_ascii_graphic (b : Z) : bool := (33 <=? b) && (b <=? 126).

Definition checked_mul32 (a b : Z) : option Z := if a * b <? U32 then Some (a * b) else None.
Definition checked_add32 (a b : Z) : option Z := if a + b <? U32 then Some (a + b) else None.

Fixpoint parse_u32_from (value : Z) (bytes : list Z) : option Z :=
  match bytes with
  | [] => Some value
  | b :: rest =>
      if negb (is_ascii_digit b) then None
      else
        match checked_mul32 value 10 with
        | None => None
        | Some v => match checked_add32 v (b - 48) with None => None | Some v => parse_u32_from v rest end
        end
  end.

Definition parse_u32 (bytes : list Z) : option Z :=
  match bytes with [] => None | _ => parse_u32_from 0 bytes end.

Definition ten : f32 := of_int 10.

(** The digits of the integer part, then those of the fraction with their scale;
    each loop returns what is left. *)
Fixpoint int_digits (int_part : f32) (saw : bool) (bytes : list Z) : f32 * bool * list Z :=
  match bytes with
  | b :: rest =>
      if is_ascii_digit b then int_digits (add (mul int_part ten) (of_int (b - 48))) true rest
      else (int_part, saw, bytes)
  | [] => (int_part, saw, [])
  end.

Fixpoint frac_digits (frac scale : f32) (saw : bool) (bytes : list Z) : f32 * f32 * bool * list Z :=
  match bytes with
  | b :: rest =>
      if is_ascii_digit b then
        frac_digits (add (mul frac ten) (of_int (b - 48))) (mul scale ten) true rest
      else (frac, scale, saw, bytes)
  | [] => (frac, scale, saw, [])
  end.

Definition parse_f32 (bytes : list Z) : option f32 :=
  match bytes with
  | [] => None
  | b0 :: tl =>
      let '(negative, rest) := if b0 =? 45 then (true, tl) else if b0 =? 43 then (false, tl) else (false, bytes) in
      let '(int_part, saw_digit, rest) := int_digits zero false rest in
      let '(frac, scale, saw_digit, rest) :=
        match rest with
        | b :: rest' => if b =? 46 then frac_digits zero one saw_digit rest' else (zero, one, saw_digit, rest)
        | [] => (zero, one, saw_digit, [])
        end in
      match rest with
      | _ :: _ => None
      | [] =>
          if negb saw_digit then None
          else
            let value := add int_part (div frac scale) in
            Some (if negative then neg value else value)
      end
  end.

(** ** Commands *)

Definition cmd_help : list Z :=
  ln "commands:" ++
  ln "  help                 show this help" ++
  ln "  show                 show the current working configuration" ++
  ln "  set <field> <value>  set a threshold (see fields below)" ++
  ln "  reset                restore architecture-default thresholds" ++
  ln "  commit               write the working config to the" ++
  ln "                       migration block for the standard OS" ++
  nl ++
  ln "fields (thresholds 0.000..=1.000, window a positive integer):" ++
  ln "  repetition        RepetitionScore signal threshold" ++
  ln "  self_referential  SelfReferentialLoop signal threshold" ++
  ln "  token_velocity    TokenVelocityStall signal threshold" ++
  ln "  tool_retry        ToolRetryAnomaly signal threshold" ++
  ln "  soft              Soft response-tier threshold" ++
  ln "  medium            Medium response-tier threshold" ++
  ln "  hard              Hard response-tier threshold" ++
  ln "  window            sliding output window width (observations)".

Definition cmd_show (c : SentinelConfig) : option (list Z) :=
  emits
    [Some (ln "Sentinel configuration (working copy):"); Some (ln "  signals:");
     Some (lit "    repetition        = "); print_f32 (repetition c);
     Some (nl ++ lit "    self_referential  = "); print_f32 (self_referential c);
     Some (nl ++ lit "    token_velocity    = "); print_f32 (token_velocity c);
     Some (nl ++ lit "    tool_retry        = "); print_f32 (tool_retry c);
     Some (nl ++ ln "  tiers:");
     Some (lit "    soft              = "); print_f32 (soft c);
     Some (nl ++ lit "    medium            = "); print_f32 (medium c);
     Some (nl ++ lit "    hard              = "); print_f32 (hard c);
     Some (nl ++ lit "  window              = "); print_u32 (window c);
     Some nl].

Inductive Field := FRepetition | FSelfReferential | FTokenVelocity | FToolRetry | FSoft | FMedium | FHard.

Definition field_of (name : list Z) : option Field :=
  if eq name (Audit.as_bytes "repetition") then Some FRepetition
  else if eq name (Audit.as_bytes "self_referential") then Some FSelfReferential
  else if eq name (Audit.as_bytes "token_velocity") then Some FTokenVelocity
  else if eq name (Audit.as_bytes "tool_retry") then Some FToolRetry
  else if eq name (Audit.as_bytes "soft") then Some FSoft
  else if eq name (Audit.as_bytes "medium") then Some FMedium
  else if eq name (Audit.as_bytes "hard") then Some FHard
  else None.

(** [*target = value]. *)
Definition store (f : Field) (x : f32) (c : SentinelConfig) : SentinelConfig :=
  let '(mkConfig r s t u so me ha w) := c in
  match f with
  | FRepetition => mkConfig x s t u so me ha w
  | FSelfReferential => mkConfig r x t u so me ha w
  | FTokenVelocity => mkConfig r s x u so me ha w
  | FToolRetry => mkConfig r s t x so me ha w
  | FSoft => mkConfig r s t u x me ha w
  | FMedium => mkConfig r s t u so x ha w
  | FHard => mkConfig r s t u so me x w
  end.

Definition set_window (v : Z) (c : SentinelConfig) : SentinelConfig :=
  mkConfig (repetition c) (self_referential c) (token_velocity c) (tool_retry c) (soft c) (medium c) (hard c) v.

Definition report_set (field : list Z) (printer : Z -> option (list Z)) (value : Z) : option (list Z) :=
  emits [Some (lit "set "); Some (print_bytes field); Some (lit " = "); printer value; Some nl].

(** The new configuration and the bytes printed. *)
Definition cmd_set (rest : list Z) (c : SentinelConfig) : SentinelConfig * option (list Z) :=
  let (field, value_tok) := split_first_token rest in
  if bool_decide (field = []) || bool_decide (value_tok = []) then (c, Some (ln "usage: set <field> <value>"))
  else if eq field (Audit.as_bytes "window") then
    match parse_u32 value_tok with
    | Some v =>
        if 0 <? v then let c' := set_window v c in (c', report_set field print_u32 (window c'))
        else (c, Some (ln "error: window must be a positive integer"))
    | None => (c, Some (ln "error: window must be a positive integer"))
    end
  else
    match parse_f32 value_tok with
    | None => (c, Some (ln "error: value must be a decimal number, e.g. 0.65"))
    | Some value =>
        if negb (le zero value && le value one) then
          (c, Some (ln "error: threshold must be in 0.000..=1.000"))
        else
          match field_of field with
          | None => (c, Some (lit "error: unknown field '" ++ print_bytes field ++ ln "'  (type 'help')"))
          | Some f =>
              let c' := store f value c in
              (c', emits
                [Some (lit "set "); Some (print_bytes field); Some (lit " = "); print_f32 value; Some nl;
                 Some (if negb (le (soft c') (medium c') && le (medium c') (hard c')) then
                         ln "  warning: tiers are not ordered soft <= medium <= hard" else [])])
          end
    end.

Section Session.
(** The address the linker gives the migration block. *)
Context (block_addr : Z).

Definition cmd_commit (t : Term) : Term * option (list Z) :=
  let (b, seq) := commit (block t) (config t) in
  (mkTerm (config t) b,
   emits [Some (ln "committed Sentinel config to migration block");
          Some (ln "  symbol   : SENTINEL_MIGRATION_BLOCK");
          Some (lit "  address  : "); Some (print_hex64 block_addr);
          Some (nl ++ lit "  sequence : "); print_u32 seq;
          Some (nl ++ lit "  checksum : "); print_u32 (checksum (config t));
          Some nl;
          Some (ln "The standard OS will detect and migrate this on next boot.")]).

Definition is_cmd (cmd : list Z) (name : string) : bool := eq cmd (Audit.as_bytes name).

Definition dispatch (input : list Z) (t : Term) : Term * option (list Z) :=
  let (cmd, rest) := split_first_token input in
  if bool_decide (cmd = []) then (t, Some [])
  else if is_cmd cmd "help" || is_cmd cmd "?" then (t, Some cmd_help)
  else if is_cmd cmd "show" || is_cmd cmd "print" then (t, cmd_show (config t))
  else if is_cmd cmd "set" then
    let (c', out) := cmd_set rest (config t) in (mkTerm c' (block t), out)
  else if is_cmd cmd "reset" then
    (mkTerm DEFAULT (block t), Some (ln "config reset to defaults (working copy; 'commit' to publish)"))
  else if is_cmd cmd "commit" || is_cmd cmd "save" then cmd_commit t
  else if is_cmd cmd "register" || is_cmd cmd "agent" || is_cmd cmd "llm" || is_cmd cmd "spawn" then
    (t, Some (lit "refused: Safe Mode registers no agents or LLM processes. " ++ ln "No exceptions."))
  else (t, Some (lit "unknown command: '" ++ print_bytes cmd ++ ln "'  (type 'help')")).

(** ** The line editor and the loop *)

Definition LINE_MAX : nat := 128.

(** One byte: the buffer, its fill and the echo, or the end of the line. *)
Inductive Key := Ended | Edited (buf : list Z) (len : nat).

Definition key (byte : Z) (buf : list Z) (len : nat) : Key * list Z :=
  if (byte =? 13) || (byte =? 10) then (Ended, nl)
  else if (byte =? 8) || (byte =? 0x7F) then
    match len with
    | O => (Edited buf len, [])
    | S len' => (Edited buf len', print [8; 32; 8])
    end
  else if is_ascii_graphic byte || (byte =? 32) then
    if (len <? LINE_MAX)%nat then (Edited (<[len := byte]> buf) (S len), putc byte)
    else (Edited buf len, putc 7)
  else (Edited buf len, []).

(** The echo, and the buffer, its length and the unread bytes once the line ended;
    [None] while it waits for more. *)
Fixpoint read_line (buf : list Z) (len : nat) (input : list Z) : list Z * option (list Z * nat * list Z) :=
  match input with
  | [] => ([], None)
  | byte :: rest =>
      let (k, echo) := key byte buf len in
      match k with
      | Ended => (echo, Some (buf, len, rest))
      | Edited buf' len' => let (out, r) := read_line buf' len' rest in (echo ++ out, r)
      end
  end.

Definition banner : list Z :=
  nl ++
  ln "==============================================================" ++
  ln " Golem Linux — Safe Mode Sentinel Configuration" ++
  ln "==============================================================" ++
  ln " Agent-free recovery environment. No scheduler, no syscalls," ++
  ln " no filesystem, no agent or LLM registration." ++
  ln " This is the only context in which Sentinel may be configured." ++
  nl ++ ln " Type 'help' for commands." ++ nl.

(** The loop, until the operator's bytes run out.  Each turn reads at least one of
    them, so [fuel] above their number is never used up. *)
Fixpoint repl (fuel : nat) (line : list Z) (t : Term) (input : list Z) : Term * option (list Z) :=
  match fuel with
  | O => (t, None)
  | S fuel =>
      let (echo, r) := read_line line 0 input in
      match r with
      | None => (t, Some (lit "safemode> " ++ echo))
      | Some (line', len, rest) =>
          let (t', out) := dispatch (take len line') t in
          let (t'', more) := repl fuel line' t' rest in
          (t'', emits [Some (lit "safemode> " ++ echo); out; more])
      end
  end.

Definition run (blk : MigrationBlock) (input : list Z) : Term * option (list Z) :=
  let (t, out) := repl (S (length input)) (replicate LINE_MAX 0) (mkTerm DEFAULT blk) input in
  (t, emits [Some banner; out]).

End Session.

(** ** Decimal numbers *)

(** The number a string of digits denotes. *)
Definition dec_value (v : Z) (bs : list Z) : Z := fold_left (fun a b => a * 10 + (b - 48)) bs v.

Lemma digit_range b : is_ascii_digit b = true <-> 48 <= b <= 57.
Proof. unfold is_ascii_digit. rewrite andb_true_iff, !Z.leb_le. lia. Qed.

Lemma dec_value_ge bs : forall v, 0 <= v -> forallb is_ascii_digit bs = true -> v <= dec_value v bs.
Proof.
  induction bs as [|b bs IH]; intros v Hv Hd; cbn [dec_value fold_left]; [lia|].
  cbn in Hd. apply andb_true_iff in Hd as [Hb Hd]. apply digit_range in Hb.
  specialize (IH (v * 10 + (b - 48)) ltac:(lia) Hd). unfold dec_value in IH. lia.
Qed.

Lemma parse_from_spec bs : forall v, 0 <= v < U32 ->
  parse_u32_from v bs =
  if forallb is_ascii_digit bs && (dec_value v bs <? U32) then Some (dec_value v bs) else None.
Proof.
  induction bs as [|b bs IH]; intros v Hv; cbn [parse_u32_from forallb dec_value fold_left].
  - destruct (Z.ltb_spec v U32); [reflexivity|lia].
  - destruct (is_ascii_digit b) eqn:Hb; [|reflexivity]. cbn [negb andb]. apply digit_range in Hb.
    unfold checked_mul32, checked_add32. change (fold_left _ bs ?x) with (dec_value x bs).
    assert (Hbig : U32 <= v * 10 + (b - 48) -> forallb is_ascii_digit bs && (dec_value (v * 10 + (b - 48)) bs <? U32) = false).
    { intros Hge. destruct (forallb is_ascii_digit bs) eqn:Hd; [|reflexivity].
      pose proof (dec_value_ge bs (v * 10 + (b - 48)) ltac:(lia) Hd). apply Z.ltb_ge. lia. }
    destruct (Z.ltb_spec (v * 10) U32) as [H1|H1]; [|by rewrite Hbig by lia].
    destruct (Z.ltb_spec (v * 10 + (b - 48)) U32) as [H2|H2]; [|by rewrite Hbig by lia].
    apply IH. lia.
Qed.

(**  The integer parser: it accepts exactly the non-empty strings of decimal
    digits whose value fits 32 bits, and returns that value; a digit string that
    overflows part-way is refused, never wrapped. *)
Theorem parse_u32_is_decimal bytes :
  parse_u32 bytes =
  if negb (bool_decide (bytes = [])) && forallb is_ascii_digit bytes && (dec_value 0 bytes <? U32)
  then Some (dec_value 0 bytes) else None.
Proof.
  unfold parse_u32. destruct bytes as [|b bs]; [reflexivity|].
  rewrite parse_from_spec by (unfold U32; lia). by rewrite bool_decide_false by done.
Qed.

Lemma dec_value_app v a b : dec_value v (a ++ b) = dec_value (dec_value v a) b.
Proof. unfold dec_value. apply fold_left_app. Qed.

(** The printer fills the buffer from the right with the digits of [value]. *)
Lemma digits_spec i : forall fuel value buf,
  (i <= fuel)%nat -> (i <= length buf)%nat -> 0 <= value < 10 ^ Z.of_nat i ->
  exists j buf' ds, digits fuel value i buf = Some (j, buf') /\ drop j buf' = ds ++ drop i buf /\
    forallb is_ascii_digit ds = true /\ dec_value 0 ds = value /\ (length ds <= i)%nat /\
    (ds = [] <-> value = 0) /\ head ds <> Some 48.
Proof.
  induction i as [|i IH]; intros fuel value buf Hf Hb Hv.
  { assert (value = 0) as -> by lia. exists 0%nat, buf, []. destruct fuel; cbn; (split_and!; [done..|lia|done|done]). }
  destruct (Z.eq_dec value 0) as [->|Hne].
  { exists (S i), buf, []. destruct fuel; cbn; (split_and!; [done..|lia|done|done]). }
  destruct fuel as [|fuel]; [lia|]. cbn [digits]. destruct (Z.eqb_spec value 0) as [|_]; [lia|].
  set (buf1 := <[i:=48 + value mod 10]> buf).
  assert (Hp : 10 ^ Z.of_nat (S i) = 10 * 10 ^ Z.of_nat i) by (rewrite Nat2Z.inj_succ, Z.pow_succ_r; lia).
  pose proof (Z.div_mod value 10 ltac:(lia)) as Hdm. pose proof (Z.mod_pos_bound value 10 ltac:(lia)) as Hm.
  destruct (IH fuel (value / 10) buf1) as (j & buf' & ds & Hd & Hdrop & Hdig & Hval & Hlen & Hlead & Hhead).
  { lia. } { unfold buf1. rewrite length_insert. lia. }
  { split; [apply Z.div_pos; lia|apply Z.div_lt_upper_bound; lia]. }
  exists j, buf', (ds ++ [48 + value mod 10]). split_and!; [exact Hd| | | | | |].
  - rewrite Hdrop, <- app_assoc. f_equal. unfold buf1.
    rewrite (drop_S _ (48 + value mod 10)) by (apply list_lookup_insert_eq; lia).
    by rewrite drop_insert_lt by lia.
  - rewrite forallb_app, Hdig. cbn. rewrite (proj2 (digit_range _)) by lia. reflexivity.
  - rewrite dec_value_app, Hval. cbn. lia.
  - rewrite length_app. cbn. lia.
  - split; [by destruct ds|lia].
  - destruct ds as [|d ds]; [|exact Hhead]. cbn. intros [= E]. assert (value / 10 = 0) by (by apply Hlead). lia.
Qed.

Lemma print_u32_spec v :
  0 <= v < U32 ->
  exists ds, print_u32 v = Some ds /\ forallb is_ascii_digit ds = true /\ dec_value 0 ds = v /\ (0 < length ds <= 10)%nat.
Proof.
  intros Hv. unfold print_u32, U32 in *. destruct (Z.eqb_spec v 0) as [->|Hne].
  { exists [48]. split_and!; [done..|cbn; lia|cbn; lia]. }
  destruct (digits_spec 10 11 v (replicate 10 0)) as (j & buf & ds & -> & Hdrop & Hd & Hval & Hlen & Hz & _);
    [lia|cbn; lia|lia|].
  exists ds. rewrite Hdrop. change (drop 10 (replicate 10 0)) with (@nil Z). rewrite app_nil_r. split_and!; [done|done|done| |lia]. destruct ds; [|cbn; lia].
  exfalso. by apply Hne, Hz.
Qed.

(**  Printing and parsing integers: the ten-byte buffer holds every 32-bit
    number, what is printed is one to ten digits, and parsing it gives the number
    back. *)
Theorem print_parse_u32 v :
  0 <= v < U32 -> exists ds, print_u32 v = Some ds /\ (1 <= length ds <= 10)%nat /\ parse_u32 ds = Some v.
Proof.
  intros Hv. destruct (print_u32_spec v Hv) as (ds & Hp & Hd & Hval & Hlen). exists ds. split; [exact Hp|].
  split; [lia|]. unfold parse_u32. destruct ds as [|d ds]; [cbn in Hlen; lia|].
  rewrite parse_from_spec by (unfold U32; lia). rewrite Hd, Hval. cbn [andb].
  destruct (Z.ltb_spec v U32); [reflexivity|lia].
Qed.

Lemma print_parse_u32_witness : exists ds, print_u32 4294967295 = Some ds /\ parse_u32 ds = Some 4294967295.
Proof.
  destruct (print_parse_u32 4294967295) as (ds & Hp & _ & Hr); [split; [lia|reflexivity]|]. by exists ds.
Defined.

(** ** The line editor *)

Definition printable (b : Z) : bool := is_ascii_graphic b || (b =? 32).

(** The reference: a line as a stack of at most [LINE_MAX] printable bytes. *)
Definition edit (line : list Z) (byte : Z) : list Z :=
  if (byte =? 8) || (byte =? 0x7F) then take (length line - 1) line
  else if printable byte && (length line <? LINE_MAX)%nat then line ++ [byte]
  else line.

Definition ends (byte : Z) : bool := (byte =? 13) || (byte =? 10).

Lemma key_edits byte buf len :
  length buf = LINE_MAX -> (len <= LINE_MAX)%nat -> ends byte = false ->
  exists buf' len' echo, key byte buf len = (Edited buf' len', echo) /\ length buf' = LINE_MAX /\ (len' <= LINE_MAX)%nat /\
    take len' buf' = edit (take len buf) byte.
Proof.
  intros Hb Hl He. unfold key, edit, ends, printable in *. rewrite He.
  assert (Hlen : length (take len buf) = len) by (rewrite length_take; lia). rewrite Hlen.
  destruct ((byte =? 8) || (byte =? 127)).
  - destruct len as [|len']; eexists _, _, _; (split; [reflexivity|]); (split_and!; [exact Hb|lia|]); [reflexivity|].
    rewrite take_take. f_equal. lia.
  - destruct (is_ascii_graphic byte || (byte =? 32)); cbn [andb]; [|eexists _, _, _; by split_and!].
    destruct (Nat.ltb_spec len LINE_MAX) as [H|H]; eexists _, _, _; (split; [reflexivity|]).
    + rewrite length_insert. split_and!; [exact Hb|lia|].
      rewrite (take_S_r _ _ byte) by (apply list_lookup_insert_eq; lia). by rewrite take_insert_ge by lia.
    + by split_and!.
Qed.

Lemma read_line_edits keys : forall buf len byte rest,
  length buf = LINE_MAX -> (len <= LINE_MAX)%nat ->
  forallb (fun b => negb (ends b)) keys = true -> ends byte = true ->
  exists buf' len' out, read_line buf len (keys ++ byte :: rest) = (out, Some (buf', len', rest)) /\
    length buf' = LINE_MAX /\ (len' <= LINE_MAX)%nat /\ take len' buf' = fold_left edit keys (take len buf).
Proof.
  induction keys as [|k keys IH]; intros buf len byte rest Hb Hl Hk He; cbn [app read_line fold_left].
  - unfold key. unfold ends in He. rewrite He. by eexists _, _, _.
  - cbn in Hk. apply andb_true_iff in Hk as [Hk1 Hk]. apply negb_true_iff in Hk1.
    destruct (key_edits k buf len Hb Hl Hk1) as (buf1 & len1 & echo & -> & Hb1 & Hl1 & <-).
    destruct (IH buf1 len1 byte rest Hb1 Hl1 Hk He) as (buf' & len' & out & -> & H). by eexists _, _, _.
Qed.

Lemma edit_bound line b : (length line <= LINE_MAX)%nat -> (length (edit line b) <= LINE_MAX)%nat.
Proof.
  intros H. unfold edit. destruct (_ || _); [rewrite length_take; lia|].
  destruct (printable b && _) eqn:E; [|exact H]. apply andb_true_iff in E as [_ E].
  apply Nat.ltb_lt in E. rewrite length_app. cbn. lia.
Qed.

Lemma edit_printable line b : forallb printable line = true -> forallb printable (edit line b) = true.
Proof.
  intros H. unfold edit. destruct (_ || _).
  - rewrite <- (take_drop (length line - 1) line), forallb_app in H. by apply andb_true_iff in H as [H _].
  - destruct (printable b && _) eqn:E; [|exact H]. apply andb_true_iff in E as [E _].
    rewrite forallb_app, H. cbn. by rewrite E.
Qed.

Lemma edits_printable keys : forall line,
  (length line <= LINE_MAX)%nat -> forallb printable line = true ->
  (length (fold_left edit keys line) <= LINE_MAX)%nat /\ forallb printable (fold_left edit keys line) = true.
Proof.
  induction keys as [|k keys IH]; intros line Hl Hp; cbn [fold_left]; [done|].
  apply IH; [by apply edit_bound|by apply edit_printable].
Qed.

(**  The line editor on arbitrary operator bytes: a line ends at the first CR or
    LF, the command handed on is what the keys edit on a stack of at most 128
    printable bytes (a rub-out on an empty line and bytes beyond the limit are
    dropped), and the fixed buffer is never indexed out of range. *)
Theorem read_line_bounded keys byte rest buf :
  length buf = LINE_MAX -> forallb (fun b => negb (ends b)) keys = true -> ends byte = true ->
  exists buf' len out, read_line buf 0 (keys ++ byte :: rest) = (out, Some (buf', len, rest)) /\
    length buf' = LINE_MAX /\ (len <= LINE_MAX)%nat /\ take len buf' = fold_left edit keys [] /\
    forallb printable (take len buf') = true.
Proof.
  intros Hb Hk He. destruct (read_line_edits keys buf 0 byte rest Hb ltac:(lia) Hk He) as (buf' & len & out & -> & H1 & H2 & H3).
  exists buf', len, out. rewrite take_0 in H3. split_and!; try assumption; [reflexivity|].
  rewrite H3. apply (edits_printable keys []); [cbn; lia|reflexivity].
Qed.

Lemma read_line_bounded_witness :
  exists buf' len out,
    read_line (replicate LINE_MAX 0) 0 (replicate 130 65 ++ [8] ++ [13; 66]) = (out, Some (buf', len, [66])) /\
    take len buf' = replicate 127 65.
Proof.
  destruct (read_line_bounded (replicate 130 65 ++ [8]) 13 [66] (replicate LINE_MAX 0)) as (b & l & o & H1 & _ & _ & H2 & _);
    [reflexivity..|].
  exists b, l, o. split; [exact H1|exact H2].
Defined.

(** ** The session *)

Lemma to_u32_range x : 0 <= to_u32 x < U32.
Proof.
  unfold to_u32, U32. destruct x as [s|[]| |[] m e]; try lia.
  assert (0 <= Z.shiftl (Zpos m) e) by (apply Z.shiftl_nonneg; lia). lia.
Qed.

Lemma print_f32_total x : exists out, print_f32 x = Some out.
Proof.
  unfold print_f32. destruct (if lt x zero then _ else _) as [sign v].
  pose proof (to_u32_range (add (mul v f32_1000) f32_half)) as Hr.
  set (n := to_u32 _) in *. cbv zeta. destruct (print_u32_spec (n / 1000)) as (ds & -> & _); [|by eexists].
  split; [apply Z.div_pos; lia|]. apply Z.div_lt_upper_bound; lia.
Qed.

Lemma emits_total l : Forall (fun o => exists out, o = Some out) l -> exists out, emits l = Some out.
Proof. induction 1 as [|o l [a ->] _ [b IH]]; cbn; [by eexists|]. rewrite IH. by eexists. Qed.

Lemma fold_sum_range bs s : 0 <= s < U32 -> 0 <= fold_sum s bs < U32.
Proof.
  unfold fold_sum. revert s. induction bs as [|b bs IH]; intros s Hs; cbn [fold_left]; [exact Hs|].
  apply IH. apply Z.mod_pos_bound. reflexivity.
Qed.

Lemma checksum_range c : 0 <= checksum c < U32.
Proof. unfold checksum. repeat apply fold_sum_range. split; [lia|reflexivity]. Qed.

Definition unit_range (x : f32) : bool := le zero x && le x one.

(** What the rest of the system may rely on. *)
Definition good_config (c : SentinelConfig) : bool :=
  unit_range (repetition c) && unit_range (self_referential c) && unit_range (token_velocity c) &&
  unit_range (tool_retry c) && unit_range (soft c) && unit_range (medium c) && unit_range (hard c) &&
  (0 <? window c) && (window c <? U32).

Definition good_block (b : MigrationBlock) : Prop :=
  0 <= sequence b < U32 /\
  (magic b = MIGRATION_MAGIC ->
   version b = MIGRATION_VERSION /\ committed b = 1 /\ good_config (b_config b) = true /\
   b_checksum b = checksum (b_config b)).

Lemma EMPTY_good : good_block EMPTY.
Proof. split; [split; [cbn; lia|reflexivity]|]. intros H. discriminate. Qed.

Lemma good_window c : good_config c = true -> 0 <= window c < U32.
Proof. unfold good_config. rewrite !andb_true_iff, !Z.ltb_lt. lia. Qed.

Lemma store_good f x c : unit_range x = true -> good_config c = true -> good_config (store f x c) = true.
Proof.
  unfold good_config. intros Hx. rewrite !andb_true_iff. intros H. destruct c, f; cbn in *; tauto.
Qed.

Lemma set_window_good v c : 0 < v < U32 -> good_config c = true -> good_config (set_window v c) = true.
Proof. unfold good_config. rewrite !andb_true_iff, !Z.ltb_lt. cbn. intros. tauto. Qed.

Lemma parse_u32_range bs v : parse_u32 bs = Some v -> v < U32.
Proof.
  unfold parse_u32. destruct bs as [|b bs]; [done|]. rewrite parse_from_spec by (unfold U32; lia).
  destruct (_ && _) eqn:E; [|done]. intros [= <-]. apply andb_true_iff in E as [_ E]. by apply Z.ltb_lt in E.
Qed.

Ltac totals :=
  repeat first
    [ apply emits_total
    | apply print_f32_total
    | match goal with |- Forall _ (_ :: _) => constructor | |- Forall _ [] => constructor
                    | |- exists out, Some _ = Some out => by eexists end ].

Lemma print_u32_total v : 0 <= v < U32 -> exists out, print_u32 v = Some out.
Proof. intros H. destruct (print_u32_spec v H) as (ds & -> & _). by eexists. Qed.

Lemma cmd_set_safe rest c :
  good_config c = true ->
  let (c', out) := cmd_set rest c in good_config c' = true /\ exists o, out = Some o.
Proof.
  intros Hc. unfold cmd_set. destruct (split_first_token rest) as [field tok].
  destruct (_ || _); [by eauto|]. destruct (eq field _).
  - destruct (parse_u32 tok) as [v|] eqn:Hp; [|by eauto]. destruct (Z.ltb_spec 0 v) as [Hv|]; [|by eauto].
    pose proof (parse_u32_range _ _ Hp). cbv zeta. split; [apply set_window_good; [lia|exact Hc]|].
    unfold report_set. totals. apply print_u32_total. cbn. lia.
  - destruct (parse_f32 tok) as [x|]; [|by eauto]. destruct (le zero x && le x one) eqn:Hr; cbn [negb]; [|by eauto].
    destruct (field_of field) as [f|]; [|by eauto]. split; [by apply store_good|]. totals.
Qed.

Lemma cmd_show_total c : good_config c = true -> exists out, cmd_show c = Some out.
Proof. intros H. unfold cmd_show. totals. by apply print_u32_total, good_window. Qed.

Section Safety.
Context (addr : Z).

Definition good_term (t : Term) : Prop := good_config (config t) = true /\ good_block (block t).

Lemma commit_good b c : good_config c = true -> good_block b -> good_block (fst (commit b c)) /\ 0 <= snd (commit b c) < U32.
Proof.
  intros Hc [Hs _]. unfold commit. cbn [fst snd].
  assert (Hn : 0 <= (if magic b =? MIGRATION_MAGIC then add32 (sequence b) 1 else 1) < U32).
  { destruct (_ =? _); [|split; [lia|reflexivity]]. apply Z.mod_pos_bound. reflexivity. }
  split; [|exact Hn]. split; [exact Hn|]. intros _. by cbn.
Qed.

(** One command: no panic, the invariant, and the block changes only by publishing
    the working copy as it stands. *)
Lemma dispatch_safe input t :
  good_term t ->
  let (t', out) := dispatch addr input t in
  good_term t' /\ (exists o, out = Some o) /\
  (block t' = block t \/ (config t' = config t /\ block t' = fst (commit (block t) (config t)))).
Proof.
  intros [Hc Hb]. unfold dispatch. destruct (split_first_token input) as [cmd rest].
  destruct (bool_decide _); [by unfold good_term; eauto 10|].
  destruct (_ || _); [by unfold good_term; eauto 10|].
  destruct (_ || _); [split_and!; [done|by apply cmd_show_total|by left]|].
  destruct (is_cmd cmd "set").
  { pose proof (cmd_set_safe rest (config t) Hc) as Hs. destruct (cmd_set rest (config t)) as [c' out].
    destruct Hs. split_and!; [done|done|by left]. }
  destruct (is_cmd cmd "reset"); [split; [by split|]; split; [by eexists|by left]|].
  destruct (_ || _).
  { unfold cmd_commit. pose proof (commit_good (block t) (config t) Hc Hb) as [Hg Hs].
    destruct (commit (block t) (config t)) as [b seq]. cbn [fst snd] in *.
    split; [by split|]. split; [|by right]. totals; apply print_u32_total; [exact Hs|apply checksum_range]. }
  destruct (_ || _); (split; [by split|]; split; [by eexists|by left]).
Qed.

Lemma read_line_shape input : forall buf len, length buf = LINE_MAX -> (len <= LINE_MAX)%nat ->
  match snd (read_line buf len input) with
  | None => True
  | Some (buf', len', rest) => length buf' = LINE_MAX /\ (len' <= LINE_MAX)%nat /\ (length rest < length input)%nat
  end.
Proof.
  induction input as [|b input IH]; intros buf len Hb Hl; cbn [read_line]; [done|].
  destruct (ends b) eqn:He.
  - unfold key. unfold ends in He. rewrite He. cbn. auto with lia.
  - destruct (key_edits b buf len Hb Hl He) as (buf1 & len1 & echo & -> & Hb1 & Hl1 & _).
    specialize (IH buf1 len1 Hb1 Hl1). destruct (read_line buf1 len1 input) as [out [[[buf' len'] rest]|]]; cbn in *; [|done].
    destruct IH as (? & ? & ?). auto with lia.
Qed.

Lemma repl_safe fuel : forall line t input,
  (length input < fuel)%nat -> length line = LINE_MAX -> good_term t ->
  let (t', out) := repl addr fuel line t input in good_term t' /\ exists o, out = Some o.
Proof.
  induction fuel as [|fuel IH]; intros line t input Hf Hl Ht; [lia|]. cbn [repl].
  pose proof (read_line_shape input line 0 Hl ltac:(lia)) as Hs.
  destruct (read_line line 0 input) as [echo [[[line' len] rest]|]]; cbn [snd] in Hs; [|by eauto].
  destruct Hs as (Hl' & _ & Hr). pose proof (dispatch_safe (take len line') t Ht) as Hd.
  destruct (dispatch addr (take len line') t) as [t1 out]. destruct Hd as (Ht1 & [o ->] & _).
  specialize (IH line' t1 rest ltac:(lia) Hl' Ht1). destruct (repl addr fuel line' t1 rest) as [t2 more].
  destruct IH as [Ht2 [m ->]]. split; [exact Ht2|]. totals.
Qed.
End Safety.

(** C34.  Whatever bytes the operator types, for as long as they type, the terminal
    never panics and every turn of its loop ends; the working configuration keeps
    all seven thresholds between zero and one (so never a NaN) and a positive
    32-bit window; and a published migration block carries such a configuration
    with its own checksum. *)
Theorem terminal_keeps_config_valid addr blk input :
  good_block blk ->
  let (t, out) := run addr blk input in
  good_config (config t) = true /\ good_block (block t) /\ exists bytes, out = Some bytes.
Proof.
  intros Hb. unfold run.
  pose proof (repl_safe addr (S (length input)) (replicate LINE_MAX 0) (mkTerm DEFAULT blk) input) as H.
  destruct (repl addr _ _ _ input) as [t out]. destruct H as [[Hc Hg] [o ->]];
    [lia|reflexivity|split; [reflexivity|exact Hb]|].
  split_and!; [exact Hc|exact Hg|]. totals.
Qed.

Lemma terminal_keeps_config_valid_witness :
  let (t, out) := run 0x200000 EMPTY (Audit.as_bytes "set soft 0.25" ++ [13] ++ Audit.as_bytes "commit" ++ [13]) in
  good_config (config t) = true /\ sequence (block t) = 1 /\ soft (b_config (block t)) = from_bits 0x3E800000.
Proof.
  pose proof (terminal_keeps_config_valid 0x200000 EMPTY
    (Audit.as_bytes "set soft 0.25" ++ [13] ++ Audit.as_bytes "commit" ++ [13]) EMPTY_good) as H.
  destruct (run _ _ _) as [t out] eqn:E. destruct H as (H & _ & _). split; [exact H|].
  assert (Ht : t = fst (run 0x200000 EMPTY (Audit.as_bytes "set soft 0.25" ++ [13] ++ Audit.as_bytes "commit" ++ [13])))
    by (by rewrite E).
  rewrite Ht. split; vm_compute; reflexivity.
Defined.

(** ** Decimal fractions *)

Lemma digit_step a b :
  0 <= a -> 48 <= b <= 57 -> a * 10 + (b - 48) < 2 ^ 24 ->
  add (mul (of_int a) ten) (of_int (b - 48)) = of_int (a * 10 + (b - 48)).
Proof. intros Ha Hb H. unfold ten. rewrite mul_int by lia. apply add_int; lia. Qed.

Lemma int_digits_exact ip : forall a saw rest,
  0 <= a -> forallb is_ascii_digit ip = true -> dec_value a ip < 2 ^ 24 ->
  match rest with [] => True | b :: _ => is_ascii_digit b = false end ->
  int_digits (of_int a) saw (ip ++ rest) = (of_int (dec_value a ip), saw || negb (bool_decide (ip = [])), rest).
Proof.
  induction ip as [|b ip IH]; intros a saw rest Ha Hd Hv Hr; cbn [app].
  { rewrite orb_false_r. destruct rest as [|b rest]; cbn [int_digits]; [reflexivity|]. by rewrite Hr. }
  cbn in Hd. apply andb_true_iff in Hd as [Hb Hd]. pose proof (proj1 (digit_range b) Hb) as Hb'.
  cbn [int_digits]. rewrite Hb. unfold dec_value in *. cbn [fold_left] in *. fold (dec_value (a * 10 + (b - 48)) ip) in *.
  pose proof (dec_value_ge ip (a * 10 + (b - 48)) ltac:(lia) Hd).
  rewrite digit_step by lia. rewrite IH by (assumption || lia). f_equal. f_equal.
  rewrite (bool_decide_false (b :: ip = [])) by done. by destruct saw.
Qed.

Lemma frac_digits_exact fp : forall a j saw,
  0 <= a -> 0 <= j -> j + Z.of_nat (length fp) <= 7 -> forallb is_ascii_digit fp = true -> dec_value a fp < 2 ^ 24 ->
  frac_digits (of_int a) (of_int (10 ^ j)) saw fp =
  (of_int (dec_value a fp), of_int (10 ^ (j + Z.of_nat (length fp))), saw || negb (bool_decide (fp = [])), []).
Proof.
  induction fp as [|b fp IH]; intros a j saw Ha Hj Hlen Hd Hv.
  { cbn. by rewrite Z.add_0_r, orb_false_r. }
  cbn in Hd. apply andb_true_iff in Hd as [Hb Hd]. pose proof (proj1 (digit_range b) Hb) as Hb'.
  cbn [frac_digits length] in *. rewrite Hb. unfold dec_value in *. cbn [fold_left] in *.
  fold (dec_value (a * 10 + (b - 48)) fp) in *.
  pose proof (dec_value_ge fp (a * 10 + (b - 48)) ltac:(lia) Hd).
  assert (10 ^ j <= 10 ^ 6) by (apply Z.pow_le_mono_r; lia).
  assert (0 < 10 ^ j) by (apply Z.pow_pos_nonneg; lia).
  assert (Hm : mul (of_int (10 ^ j)) ten = of_int (10 ^ (j + 1))).
  { unfold ten. rewrite mul_int by lia. rewrite Z.pow_add_r by lia. reflexivity. }
  rewrite digit_step, Hm, IH by (assumption || lia).
  rewrite Nat2Z.inj_succ, (bool_decide_false (b :: fp = [])) by done.
  replace (j + 1 + Z.of_nat (length fp)) with (j + Z.succ (Z.of_nat (length fp))) by lia. by destruct saw.
Qed.

Lemma dec_value_lt bs : forall v, 0 <= v -> forallb is_ascii_digit bs = true ->
  dec_value v bs < (v + 1) * 10 ^ Z.of_nat (length bs).
Proof.
  induction bs as [|b bs IH]; intros v Hv Hd; [cbn; lia|]. cbn [dec_value fold_left forallb length] in *.
  apply andb_true_iff in Hd as [Hb Hd]. apply digit_range in Hb.
  specialize (IH (v * 10 + (b - 48)) ltac:(lia) Hd). unfold dec_value in IH.
  rewrite Nat2Z.inj_succ, Z.pow_succ_r by lia.
  assert (0 < 10 ^ Z.of_nat (length bs)) by (apply Z.pow_pos_nonneg; lia). nia.
Qed.

Lemma add_zero_l x : in_unit x -> x <> S754_zero true -> add zero x = x.
Proof. intros (_ & F & _) H. destruct x as [[]|s| |s m e]; done. Qed.

Lemma parse_f32_short ip fp :
  forallb is_ascii_digit ip = true -> dec_value 0 ip = 0 ->
  forallb is_ascii_digit fp = true -> (1 <= length fp <= 7)%nat ->
  parse_f32 (ip ++ 46 :: fp) =
  Some (div (of_int (dec_value 0 fp)) (of_int (10 ^ Z.of_nat (length fp)))).
Proof.
  intros Hip Hz Hfp Hlen.
  assert (Hn : dec_value 0 fp < 10 ^ Z.of_nat (length fp)) by (pose proof (dec_value_lt fp 0 ltac:(lia) Hfp); lia).
  assert (Hk : 10 ^ Z.of_nat (length fp) <= 10 ^ 7) by (apply Z.pow_le_mono_r; lia).
  pose proof (dec_value_ge fp 0 ltac:(lia) Hfp) as Hn0.
  assert (Hmain : let '(int_part, saw_digit, rest) := int_digits zero false (ip ++ 46 :: fp) in
            int_part = zero /\ rest = 46 :: fp).
  { rewrite <- of_int_zero, int_digits_exact by (done || lia). by rewrite Hz. }
  unfold parse_f32.
  assert (Hhead : exists b0 tl, ip ++ 46 :: fp = b0 :: tl /\ (b0 =? 45) = false /\ (b0 =? 43) = false).
  { destruct ip as [|b ip]; [by eexists _, _|]. cbn in Hip. apply andb_true_iff in Hip as [Hb _].
    apply digit_range in Hb. eexists _, _. split; [reflexivity|]. rewrite !Z.eqb_neq. lia. }
  destruct Hhead as (b0 & tl & E & H45 & H43). rewrite E, H45, H43, <- E.
  destruct (int_digits zero false (ip ++ 46 :: fp)) as [[int_part saw] rest]. destruct Hmain as [-> ->]. cbn [Z.eqb Pos.eqb].
  change one with (of_int (10 ^ 0)). rewrite <- of_int_zero, frac_digits_exact by (done || lia).
  rewrite (bool_decide_false (fp = [])) by (by intros ->; cbn in Hlen; lia).
  rewrite orb_true_r. cbn [negb]. f_equal. rewrite of_int_zero, Z.add_0_l. apply add_zero_l.
  - apply ratio_unit; lia.
  - destruct (of_int_form (10 ^ Z.of_nat (length fp))) as (m2 & e2 & -> & _); [split; [apply Z.pow_pos_nonneg|]; lia|].
    destruct (Z.eq_dec (dec_value 0 fp) 0) as [->|Hne]; [done|].
    destruct (of_int_form (dec_value 0 fp) ltac:(lia)) as (m1 & e1 & -> & _). apply div_plus_zero.
Qed.

(** C35.  Decimal thresholds are read exactly: for a fraction written with at most
    seven digits whose digits denote [n], the terminal stores the binary32 nearest
    to [n / 10^k] (one correctly rounded division of two exact integers), whatever
    leading zeros precede the point. *)
Theorem parse_f32_correctly_rounded ip fp :
  forallb is_ascii_digit ip = true -> dec_value 0 ip = 0 ->
  forallb is_ascii_digit fp = true -> (1 <= length fp <= 7)%nat ->
  parse_f32 (ip ++ 46 :: fp) =
  Some (div (of_int (dec_value 0 fp)) (of_int (10 ^ Z.of_nat (length fp)))).
Proof. apply parse_f32_short. Qed.

Lemma parse_f32_correctly_rounded_witness :
  parse_f32 (Audit.as_bytes "0.65") = Some (div (of_int 65) (of_int 100)).
Proof.
  exact (parse_f32_correctly_rounded [48] [54; 53] eq_refl eq_refl eq_refl ltac:(cbn; lia)).
Defined.

(** Beyond 38 fraction digits the scale is infinite: one tenth written with 38
    trailing zeros reads as zero. *)
Lemma parse_f32_long_fraction_is_zero :
  parse_f32 (Audit.as_bytes "0.1" ++ replicate 38 48) = Some zero /\
  parse_f32 (Audit.as_bytes "0.1" ++ replicate 37 48) <> Some zero.
Proof. split; [vm_compute; reflexivity|vm_compute; discriminate]. Qed.

End SafeTerm.
