(* ===== verification/Ipc.v ===== *)
(** The registration protocol of the agent channel (src/src/sentinel/ipc.rs): the
    request scanner, the response writer, the digest and the clock.  Text is the
    list of its bytes; the UTF-8 checks of the standard library are executable. *)

From Stdlib Require Import ZArith Lia Ascii String.
From stdpp Require Import base list strings.
From S2P Require Import Prelude Sha256 AuditTrail.

Open Scope Z_scope.

Module Ipc.

Inductive IpcError :=
  DeviceNotFound | FeatureNegotiationFailed | QueueSetupFailed | MessageTooLarge | MalformedRequest | NotInitialised.

Definition IpcError_fmt (e : IpcError) : string :=
  match e with
  | DeviceNotFound => "virtio-serial device not found"
  | FeatureNegotiationFailed => "feature negotiation failed"
  | QueueSetupFailed => "virtqueue setup failed"
  | MessageTooLarge => "message exceeds channel buffer"
  | MalformedRequest => "malformed registration request"
  | NotInitialised => "ipc channel not initialised"
  end.

(** The tiers, in the derived order. *)
Inductive PermissionTier := ReadOnly | Write | Execute.

#[export] Instance PermissionTier_eq_dec : EqDecision PermissionTier.
Proof. solve_decision. Defined.

Definition lit (s : string) : list Z := Audit.as_bytes s.

Definition from_wire (s : list Z) : option PermissionTier :=
  if bool_decide (s = lit "READ_ONLY") then Some ReadOnly
  else if bool_decide (s = lit "WRITE") then Some Write
  else if bool_decide (s = lit "EXECUTE") then Some Execute
  else None.

Definition as_wire (t : PermissionTier) : list Z :=
  match t with ReadOnly => lit "READ_ONLY" | Write => lit "WRITE" | Execute => lit "EXECUTE" end.

Definition MAX_AGENT_ID : nat := 128.

(** ** UTF-8, as [core::str::from_utf8] accepts it *)

Definition between (lo hi b : Z) : bool := (lo <=? b) && (b <=? hi).
Definition is_continuation (b : Z) : bool := between 0x80 0xBF b.

Fixpoint utf8 (l : list Z) : bool :=
  match l with
  | [] => true
  | b :: r =>
      if between 0 0x7F b then utf8 r
      else
        match r with
        | [] => false
        | c1 :: r1 =>
            if between 0xC2 0xDF b then is_continuation c1 && utf8 r1
            else
              match r1 with
              | [] => false
              | c2 :: r2 =>
                  let second3 := if b =? 0xE0 then between 0xA0 0xBF c1
                                 else if b =? 0xED then between 0x80 0x9F c1 else is_continuation c1 in
                  if between 0xE0 0xEF b then second3 && is_continuation c2 && utf8 r2
                  else
                    match r2 with
                    | [] => false
                    | c3 :: r3 =>
                        let second4 := if b =? 0xF0 then between 0x90 0xBF c1
                                       else if b =? 0xF4 then between 0x80 0x8F c1 else is_continuation c1 in
                        between 0xF0 0xF4 b && second4 && is_continuation c2 && is_continuation c3 && utf8 r3
                    end
              end
        end
  end.

(** [unwrap_or("")]. *)
Definition str_or_empty (bs : list Z) : list Z := if utf8 bs then bs else [].

(** A position is a character boundary when what follows does not continue a
    character. *)
Definition boundary (rest : list Z) : bool := match rest with [] => true | b :: _ => negb (is_continuation b) end.

(** ** Protocol types *)

Record RegisterRequest := mkRequest {
  rq_agent_id : list Z;
  rq_agent_id_len : nat;
  permission_tier : PermissionTier
}.

Definition agent_id (r : RegisterRequest) : list Z := str_or_empty (take (rq_agent_id_len r) (rq_agent_id r)).

Record RegisterResponse := mkResponse {
  success : bool;
  rs_agent_id : list Z;
  rs_agent_id_len : nat;
  rs_audit_hash : list Z;
  rs_timestamp : list Z;
  rs_timestamp_len : nat
}.

Definition response_agent_id (r : RegisterResponse) : list Z := str_or_empty (take (rs_agent_id_len r) (rs_agent_id r)).
Definition response_audit_hash (r : RegisterResponse) : list Z := str_or_empty (rs_audit_hash r).
Definition response_timestamp (r : RegisterResponse) : list Z := str_or_empty (take (rs_timestamp_len r) (rs_timestamp r)).

(** ** The request scanner *)

Definition is_ascii_whitespace (b : Z) : bool := (b =? 32) || (b =? 9) || (b =? 10) || (b =? 12) || (b =? 13).

Fixpoint skip_ws (l : list Z) : list Z :=
  match l with
  | b :: r => if is_ascii_whitespace b then skip_ws r else l
  | [] => []
  end.

(** What follows the first occurrence of [needle]. *)
Fixpoint find_needle (needle l : list Z) : option (list Z) :=
  if (length l <? length needle)%nat then None
  else if bool_decide (take (length needle) l = needle) then Some (drop (length needle) l)
  else match l with [] => None | _ :: r => find_needle needle r end.

(** The length of the value up to the closing quote, honouring escapes. *)
Fixpoint close_quote (j : nat) (l : list Z) : option nat :=
  match l with
  | [] => None
  | b :: r =>
      if b =? 92 then match r with [] => None | _ :: r' => close_quote (S (S j)) r' end
      else if b =? 34 then Some j
      else close_quote (S j) r
  end.

Definition expect (c : Z) (l : list Z) : option (list Z) :=
  match l with
  | b :: r => if negb (b =? c) then None else Some r
  | [] => None
  end.

Definition json_string_field (src key : list Z) : option (list Z) :=
  if (64 <? length key + 2)%nat then None
  else
    let needle := 34 :: key ++ [34] in
    match find_needle needle src with
    | None => None
    | Some l =>
        match expect 58 (skip_ws l) with
        | None => None
        | Some l =>
            match expect 34 (skip_ws l) with
            | None => None
            | Some value =>
                match close_quote 0 value with
                | None => None
                | Some j => if boundary value && boundary (drop j value) then Some (take j value) else None
                end
            end
        end
    end.

(** [buf[..n].copy_from_slice(..)] into a zeroed array. *)
Definition into_array (n : nat) (bs : list Z) : list Z := bs ++ replicate (n - length bs) 0.

Definition parse_register_request (raw : list Z) : result RegisterRequest IpcError :=
  if negb (utf8 raw) then Err MalformedRequest
  else
    match json_string_field raw (lit "method") with
    | None => Err MalformedRequest
    | Some method =>
        if negb (bool_decide (method = lit "register")) then Err MalformedRequest
        else
          match json_string_field raw (lit "agent_id") with
          | None => Err MalformedRequest
          | Some id =>
              if (MAX_AGENT_ID <? length id)%nat then Err MessageTooLarge
              else
                match json_string_field raw (lit "permission_tier") with
                | None => Err MalformedRequest
                | Some tier_str =>
                    match from_wire tier_str with
                    | None => Err MalformedRequest
                    | Some t => Ok (mkRequest (into_array MAX_AGENT_ID id) (length id) t)
                    end
                end
          end
    end.

(** ** The bounded writer *)

Record FixedWriter := mkWriter { w_buf : list Z; pos : nat; overflow : bool }.

Definition FixedWriter_new (buf : list Z) : FixedWriter := mkWriter buf 0 false.
Definition written (w : FixedWriter) : nat := pos w.

(** [buf[pos..pos + len].copy_from_slice(bytes)]. *)
Definition splice (buf : list Z) (pos : nat) (bytes : list Z) : list Z :=
  take pos buf ++ bytes ++ drop (pos + length bytes) buf.

(** [true] is [Ok(())]. *)
Definition write_str (w : FixedWriter) (bytes : list Z) : bool * FixedWriter :=
  if (length (w_buf w) <? pos w + length bytes)%nat then (false, mkWriter (w_buf w) (pos w) true)
  else (true, mkWriter (splice (w_buf w) (pos w) bytes) (pos w + length bytes) (overflow w)).

(** [write!]: the pieces in turn, up to the first error. *)
Fixpoint write_all (w : FixedWriter) (pieces : list (list Z)) : bool * FixedWriter :=
  match pieces with
  | [] => (true, w)
  | s :: rest => let (ok, w') := write_str w s in if ok then write_all w' rest else (false, w')
  end.

Definition quote : list Z := [34].

Definition response_pieces (r : RegisterResponse) : list (list Z) :=
  [lit "{" ++ quote ++ lit "success" ++ quote ++ lit ":"; (if success r then lit "true" else lit "false");
   lit "," ++ quote ++ lit "agent_id" ++ quote ++ lit ":" ++ quote; response_agent_id r;
   quote ++ lit "," ++ quote ++ lit "audit_hash" ++ quote ++ lit ":" ++ quote; response_audit_hash r;
   quote ++ lit "," ++ quote ++ lit "timestamp" ++ quote ++ lit ":" ++ quote; response_timestamp r;
   quote ++ lit "}"].

(** The count written, and the buffer as it is left. *)
Definition serialize_response (r : RegisterResponse) (out : list Z) : result nat IpcError * list Z :=
  let (ok, w) := write_all (FixedWriter_new out) (response_pieces r) in
  if negb ok || overflow w then (Err MessageTooLarge, w_buf w) else (Ok (written w), w_buf w).

(** ** Digest *)

Definition FNV_OFFSET : Z := 0xcbf29ce484222325.
Definition FNV_PRIME : Z := 0x100000001b3.

Definition fnv1a (bytes : list Z) : Z :=
  fold_left (fun h b => wrap64 (Z.lxor h b * FNV_PRIME)) bytes FNV_OFFSET.

Definition hex_char (n : Z) : Z := if n <? 10 then 48 + n else 87 + n.

Definition hex16 (value : Z) : list Z :=
  map (fun i => hex_char (Z.land (Z.shiftr value ((15 - Z.of_nat i) * 4)) 0xf)) (seq 0 16).

Definition audit_hash_for (r : RegisterRequest) : list Z := hex16 (fnv1a (agent_id r ++ as_wire (permission_tier r))).

(** ** Clock *)

(** Decimal display; twenty digits are enough for 64 bits. *)
Fixpoint dec_digits (fuel : nat) (n : Z) (acc : list Z) : list Z :=
  match fuel with
  | O => acc
  | S fuel => let acc := (48 + n mod 10) :: acc in if n / 10 =? 0 then acc else dec_digits fuel (n / 10) acc
  end.

Definition decimal (n : Z) : list Z := dec_digits 20 n [].

(** The counter before the call gives the stamp; the error of [write!] is dropped. *)
Definition now_string (mono : Z) : list Z * nat * Z :=
  let (_, w) := write_all (FixedWriter_new (replicate 24 0)) [lit "mono+"; decimal mono] in
  (w_buf w, written w, add64 mono 1).

Definition build_response (mono : Z) (r : RegisterRequest) : RegisterResponse * Z :=
  let '(timestamp, timestamp_len, mono') := now_string mono in
  let id := agent_id r in
  (mkResponse true (into_array MAX_AGENT_ID id) (length id) (audit_hash_for r) timestamp timestamp_len, mono').

(** What the agent side sends. *)
Definition member (key value : list Z) : list Z := quote ++ key ++ quote ++ lit ":" ++ quote ++ value ++ quote.

Definition request_text (id : list Z) (t : PermissionTier) : list Z :=
  lit "{" ++ member (lit "method") (lit "register") ++ lit "," ++ member (lit "agent_id") id ++ lit "," ++
  member (lit "permission_tier") (as_wire t) ++ lit "}".

Example parses_a_well_formed_request :
  exists r, parse_register_request (request_text (lit "agent-7") Execute) = Ok r /\
            agent_id r = lit "agent-7" /\ permission_tier r = Execute.
Proof. eexists. split; [vm_compute; reflexivity|]. split; vm_compute; reflexivity. Qed.

(** ** UTF-8 slices *)

Lemma cont_boundary b r : is_continuation b = true -> boundary (b :: r) = false.
Proof. cbn. by intros ->. Qed.

(** The second byte of a longer character always continues it. *)
Lemma second_continues (b c lo hi : Z) (x y : bool) :
  (if x then between lo 0xBF c else if y then between 0x80 hi c else is_continuation c) = true ->
  0x80 <= lo -> hi <= 0xBF -> is_continuation c = true.
Proof.
  unfold is_continuation, between. intros H Hlo Hhi.
  destruct x; [|destruct y]; [..|exact H]; rewrite andb_true_iff, !Z.leb_le in *; lia.
Qed.

Ltac utf8_step :=
  repeat match goal with
  | H : _ && _ = true |- _ => apply andb_true_iff in H as [? ?]
  end.

(** Valid text cut at a character boundary gives two valid texts. *)
Lemma utf8_split n : forall a b, (length a <= n)%nat ->
  utf8 (a ++ b) = true -> boundary b = true -> utf8 a = true /\ utf8 b = true.
Proof.
  induction n as [|n IH]; intros a b Hn Hu Hb; [by destruct a; [|cbn in Hn; lia]|].
  destruct a as [|x a]; [done|]. cbn [app utf8 length] in *.
  destruct (between 0 127 x); [apply (IH a b); [lia|done|done]|].
  destruct a as [|c1 a]; cbn [app length] in *.
  { exfalso. destruct b as [|c1 b]; [done|]. apply negb_true_iff in Hb.
    destruct (between 194 223 x); [utf8_step; congruence|].
    destruct b as [|c2 b]; [done|]. destruct (between 224 239 x).
    - utf8_step. assert (is_continuation c1 = true); [|congruence].
      eapply (second_continues x); [eassumption|lia|lia].
    - destruct b as [|c3 b]; [done|]. utf8_step. assert (is_continuation c1 = true); [|congruence].
      eapply (second_continues x); [eassumption|lia|lia]. }
  destruct (between 194 223 x).
  { utf8_step. destruct (IH a b) as [-> ->]; [lia|done|done|]. by rewrite andb_true_r. }
  destruct a as [|c2 a]; cbn [app length] in *.
  { exfalso. destruct b as [|c2 b]; [done|]. apply negb_true_iff in Hb.
    destruct (between 224 239 x); [utf8_step; congruence|]. destruct b as [|c3 b]; [done|]. utf8_step. congruence. }
  destruct (between 224 239 x).
  { utf8_step. destruct (IH a b) as [-> ->]; [lia|done|done|]. split; [|done]. by rewrite !andb_true_iff. }
  destruct a as [|c3 a]; cbn [app length] in *.
  { exfalso. destruct b as [|c3 b]; [done|]. apply negb_true_iff in Hb. utf8_step. congruence. }
  utf8_step. destruct (IH a b) as [-> ->]; [lia|done|done|]. split; [|done]. by rewrite !andb_true_iff.
Qed.

Lemma find_needle_sound needle l r : find_needle needle l = Some r -> exists pre, l = pre ++ needle ++ r.
Proof.
  revert r. induction l as [|b l IH]; intros r; cbn [find_needle];
    (destruct (_ <? _)%nat; [done|]); destruct (bool_decide _) eqn:E; try done.
  - intros [= <-]. apply bool_decide_eq_true in E. exists []. cbn [app].
    rewrite <- E at 1. by rewrite take_drop.
  - intros [= <-]. apply bool_decide_eq_true in E. exists []. cbn [app].
    rewrite <- E at 1. by rewrite take_drop.
  - intros H. destruct (IH r H) as [pre ->]. by exists (b :: pre).
Qed.

Lemma skip_ws_suffix l : exists pre, l = pre ++ skip_ws l.
Proof.
  induction l as [|b l [pre IH]]; cbn [skip_ws]; [by exists []|].
  destruct (is_ascii_whitespace b); [|by exists []]. exists (b :: pre). cbn. by rewrite <- IH.
Qed.

Lemma expect_sound c l r : expect c l = Some r -> l = c :: r.
Proof. destruct l as [|b l]; cbn; [done|]. destruct (Z.eqb_spec b c) as [->|]; cbn; [by intros [= <-]|done]. Qed.

Lemma close_quote_sound n : forall l j k, (length l <= n)%nat -> close_quote j l = Some k ->
  exists i post, k = (j + i)%nat /\ drop i l = 34 :: post.
Proof.
  induction n as [|n IH]; intros l j k Hn; destruct l as [|b l]; cbn [close_quote length] in *; [done|lia|done|].
  destruct (b =? 92).
  - destruct l as [|c l]; [done|]. cbn [length] in Hn. intros H. destruct (IH l _ _ ltac:(lia) H) as (i & post & -> & Hd).
    exists (S (S i)), post. split; [lia|exact Hd].
  - destruct (Z.eqb_spec b 34) as [->|_].
    + intros [= <-]. exists 0%nat, l. split; [lia|reflexivity].
    + intros H. destruct (IH l _ _ ltac:(lia) H) as (i & post & -> & Hd). exists (S i), post. split; [lia|exact Hd].
Qed.

(** A field found is a slice of the text that a quote ends, cut at boundaries. *)
Lemma field_slice src key v :
  json_string_field src key = Some v ->
  exists pre post, src = pre ++ v ++ 34 :: post /\ boundary (v ++ 34 :: post) = true.
Proof.
  unfold json_string_field. destruct (64 <? _)%nat; [done|]. cbv zeta.
  destruct (find_needle _ src) as [l|] eqn:E1; [|done]. apply find_needle_sound in E1 as [p1 ->].
  destruct (expect 58 (skip_ws l)) as [l2|] eqn:E2; [|done]. apply expect_sound in E2.
  destruct (expect 34 (skip_ws l2)) as [value|] eqn:E3; [|done]. apply expect_sound in E3.
  destruct (close_quote 0 value) as [j|] eqn:E4; [|done].
  destruct (close_quote_sound _ _ _ _ (le_n _) E4) as (i & post & -> & Hd). rewrite Nat.add_0_l in *.
  destruct (boundary value) eqn:B1; cbn [andb]; [|done]. destruct (boundary (drop i value)); [|done]. intros [= <-].
  destruct (skip_ws_suffix l) as [p2 Hl]. destruct (skip_ws_suffix l2) as [p3 Hl2]. rewrite E2 in Hl. rewrite E3 in Hl2.
  exists (p1 ++ (34 :: key ++ [34]) ++ p2 ++ 58 :: p3 ++ [34]), post.
  rewrite <- Hd, take_drop. split; [|exact B1]. rewrite Hl at 1. rewrite Hl2 at 1.
  repeat (cbn [app]; rewrite <- app_assoc). reflexivity.
Qed.

(** C37.  What a parsed request holds: whatever bytes arrive, the parser answers, and
    a request it accepts has the scanned [agent_id] field as its identifier: valid
    UTF-8 of at most 128 bytes in a zero-padded 128-byte array, with method
    "register" and a tier named on the wire.  The empty-string fallback of the
    accessor is never taken. *)
Theorem parsed_request_well_formed raw r :
  parse_register_request raw = Ok r ->
  json_string_field raw (lit "method") = Some (lit "register") /\
  json_string_field raw (lit "agent_id") = Some (agent_id r) /\
  json_string_field raw (lit "permission_tier") = Some (as_wire (permission_tier r)) /\
  utf8 (agent_id r) = true /\ rq_agent_id_len r = length (agent_id r) /\ (length (agent_id r) <= MAX_AGENT_ID)%nat /\
  rq_agent_id r = into_array MAX_AGENT_ID (agent_id r).
Proof.
  unfold parse_register_request. destruct (utf8 raw) eqn:Hu; cbn [negb]; [|done].
  destruct (json_string_field raw (lit "method")) as [m|]; [|done].
  destruct (bool_decide (m = lit "register")) eqn:Hm; cbn [negb]; [|done]. apply bool_decide_eq_true in Hm as ->.
  destruct (json_string_field raw (lit "agent_id")) as [i|] eqn:Hi; [|done].
  destruct (Nat.ltb_spec MAX_AGENT_ID (length i)) as [|Hlen]; [done|].
  destruct (json_string_field raw (lit "permission_tier")) as [ts|] eqn:Ht; [|done].
  destruct (from_wire ts) as [t|] eqn:Hw; [|done]. intros [= <-].
  destruct (field_slice _ _ _ Hi) as (pre & post & Hraw & Hb). rewrite Hraw in Hu.
  destruct (utf8_split _ pre _ (le_n _) Hu Hb) as [_ Hu2].
  destruct (utf8_split _ i (34 :: post) (le_n _) Hu2 eq_refl) as [Hui _].
  assert (Hid : agent_id (mkRequest (into_array MAX_AGENT_ID i) (length i) t) = i).
  { unfold agent_id, into_array. cbn [rq_agent_id rq_agent_id_len]. rewrite take_app_length. unfold str_or_empty. by rewrite Hui. }
  rewrite Hid. cbn [permission_tier rq_agent_id rq_agent_id_len]. split_and!; try done.
  f_equal. revert Hw. unfold from_wire.
  repeat (destruct (bool_decide _) eqn:E; [apply bool_decide_eq_true in E as ->; by intros [= <-]|clear E]). done.
Qed.

Lemma parsed_request_well_formed_witness :
  exists r, parse_register_request (request_text (lit "svc") Write) = Ok r /\ agent_id r = lit "svc" /\
            utf8 (agent_id r) = true.
Proof.
  assert (H : exists r, parse_register_request (request_text (lit "svc") Write) = Ok r) by (eexists; vm_compute; reflexivity).
  destruct H as [r H]. exists r. split; [exact H|].
  destruct (parsed_request_well_formed _ r H) as (_ & Hf & _ & Hu & _). split; [|exact Hu].
  assert (E : json_string_field (request_text (lit "svc") Write) (lit "agent_id") = Some (lit "svc")) by (vm_compute; reflexivity).
  rewrite E in Hf. congruence.
Defined.

(** ** Finding a member in well-formed text *)

Definition plain (s : list Z) : bool := forallb (fun b => negb (b =? 34)) s.

(** Quoted text as the segments between its quotes. *)
Fixpoint segs_text (ss : list (list Z)) : list Z :=
  match ss with [] => [] | s :: ss' => 34 :: s ++ segs_text ss' end.

Definition needle_of (key : list Z) : list Z := 34 :: key ++ [34].

Lemma find_short needle l : (length l < length needle)%nat -> find_needle needle l = None.
Proof. intros H. destruct l; cbn [find_needle]; by rewrite (proj2 (Nat.ltb_lt _ _) H). Qed.

Lemma find_cons needle b l :
  take (length needle) (b :: l) <> needle -> find_needle needle (b :: l) = find_needle needle l.
Proof.
  intros H. cbn [find_needle]. destruct (Nat.ltb_spec (length (b :: l)) (length needle)) as [Hs|Hs].
  - symmetry. apply find_short. cbn in Hs. lia.
  - by rewrite bool_decide_false.
Qed.

Lemma find_skip_plain key pre l :
  plain pre = true -> find_needle (needle_of key) (pre ++ l) = find_needle (needle_of key) l.
Proof.
  unfold plain. induction pre as [|b pre IH]; [done|]. cbn [forallb app]. intros [Hb Hp]%andb_true_iff.
  rewrite find_cons; [by apply IH|].
  unfold needle_of. cbn [length take]. intros [= ->]. done.
Qed.

(** Two plain segments that a quote ends. *)
Lemma plain_prefix key seg rest :
  plain key = true -> plain seg = true -> take (length key + 1) (seg ++ 34 :: rest) = key ++ [34] -> seg = key.
Proof.
  revert seg. induction key as [|k key IH]; intros seg Hk Hs; destruct seg as [|s seg]; cbn in *.
  - done.
  - intros [= ->]. by apply andb_true_iff in Hs as [? _].
  - intros [= <- _]. by apply andb_true_iff in Hk as [? _].
  - apply andb_true_iff in Hk as [_ Hk]. apply andb_true_iff in Hs as [_ Hs]. intros [= -> H]. f_equal. by apply IH.
Qed.

Lemma find_in_segs key ss1 s ss2 :
  plain key = true -> forallb plain ss1 = true -> ~ In key ss1 ->
  find_needle (needle_of key) (segs_text (ss1 ++ key :: s :: ss2)) = Some (s ++ segs_text ss2).
Proof.
  intros Hk. induction ss1 as [|s1 ss1 IH]; intros Hs Hn; cbn [app segs_text].
  - replace (34 :: key ++ 34 :: s ++ segs_text ss2) with (needle_of key ++ s ++ segs_text ss2)
      by (unfold needle_of; cbn [app]; by rewrite <- app_assoc).
    cbn [find_needle needle_of app]. fold (needle_of key). change (34 :: (key ++ [34]) ++ s ++ segs_text ss2) with (needle_of key ++ s ++ segs_text ss2).
    destruct (Nat.ltb_spec (length (needle_of key ++ s ++ segs_text ss2)) (length (needle_of key))) as [Hlt|_];
      [rewrite length_app in Hlt; lia|].
    by rewrite take_app_length, bool_decide_true, drop_app_length by done.
  - cbn in Hs. apply andb_true_iff in Hs as [Hs1 Hs]. rewrite find_cons.
    + rewrite find_skip_plain by exact Hs1. apply IH; [exact Hs|]. intros H. apply Hn. by right.
    + unfold needle_of. cbn [length take]. intros [= H]. apply Hn. left.
      rewrite length_app in H. cbn in H.
      destruct (ss1 ++ key :: s :: ss2) as [|x xs] eqn:E; [by destruct ss1|]. cbn [segs_text] in H.
      exact (plain_prefix key s1 _ Hk Hs1 H).
Qed.

(** Text that needs no escapes. *)
Definition unescaped (s : list Z) : bool := forallb (fun b => negb (b =? 34) && negb (b =? 92)) s.

Lemma unescaped_plain s : unescaped s = true -> plain s = true.
Proof.
  unfold unescaped, plain. rewrite !forallb_forall. intros H x Hx. specialize (H x Hx).
  by apply andb_true_iff in H as [? _].
Qed.

Lemma close_quote_plain v rest : forall j, unescaped v = true -> close_quote j (v ++ 34 :: rest) = Some (j + length v)%nat.
Proof.
  induction v as [|b v IH]; intros j Hv; cbn [app close_quote length unescaped forallb] in *.
  - cbn. by rewrite Nat.add_0_r.
  - apply andb_true_iff in Hv as [Hb Hv]. apply andb_true_iff in Hb as [H1 H2].
    rewrite (proj1 (negb_true_iff _) H1), (proj1 (negb_true_iff _) H2). rewrite IH by exact Hv. f_equal. lia.
Qed.

Lemma utf8_boundary v rest : utf8 v = true -> boundary rest = true -> boundary (v ++ rest) = true.
Proof.
  destruct v as [|b v]; [done|]. intros H _. cbn [app boundary]. destruct (is_continuation b) eqn:E; [|done]. exfalso.
  unfold is_continuation, between in E. rewrite andb_true_iff, !Z.leb_le in E.
  assert (Hf : forall lo hi, hi < b \/ b < lo -> between lo hi b = false).
  { intros lo hi Hl. unfold between. apply andb_false_iff. rewrite !Z.leb_gt. lia. }
  cbn [utf8] in H. rewrite (Hf 0 127), (Hf 194 223), (Hf 224 239), (Hf 240 244) in H by lia.
  by destruct v as [|? [|? [|? ?]]].
Qed.

(** A member whose value needs no escapes, after members that do not mention its
    key. *)
Lemma field_found pre ss1 key v s ss2 :
  plain pre = true -> plain key = true -> (length key <= 62)%nat -> forallb plain ss1 = true -> ~ In key ss1 ->
  unescaped v = true -> utf8 v = true ->
  json_string_field (pre ++ segs_text (ss1 ++ key :: [58] :: v :: s :: ss2)) key = Some v.
Proof.
  intros Hp Hk Hlen Hs Hn Hv Hu. unfold json_string_field.
  destruct (Nat.ltb_spec 64 (length key + 2)) as [|_]; [lia|]. cbv zeta. fold (needle_of key).
  rewrite find_skip_plain, find_in_segs by assumption. cbn [segs_text app skip_ws].
  change (is_ascii_whitespace 58) with false. cbv iota. cbn [expect Z.eqb Pos.eqb negb skip_ws].
  change (is_ascii_whitespace 34) with false. cbv iota. cbn [expect Z.eqb Pos.eqb negb].
  rewrite close_quote_plain by exact Hv. rewrite Nat.add_0_l, take_app_length, drop_app_length.
  by rewrite utf8_boundary by done.
Qed.

Lemma utf8_app n : forall a b, (length a <= n)%nat -> utf8 a = true -> utf8 b = true -> utf8 (a ++ b) = true.
Proof.
  induction n as [|n IH]; intros a b Hn Ha Hb; [by destruct a; [|cbn in Hn; lia]|].
  destruct a as [|x a]; [done|]. cbn [app utf8 length] in *.
  destruct (between 0 127 x); [apply IH; [lia|done|done]|]. destruct a as [|c1 a]; [done|]. cbn [app length] in *.
  destruct (between 194 223 x); [utf8_step; rewrite IH by (done || lia); by rewrite andb_true_r|].
  destruct a as [|c2 a]; [done|]. cbn [app length] in *.
  destruct (between 224 239 x); [utf8_step; rewrite IH by (done || lia); by rewrite !andb_true_iff|].
  destruct a as [|c3 a]; [done|]. cbn [app length] in *. utf8_step. rewrite IH by (done || lia). by rewrite !andb_true_iff.
Qed.

Lemma as_wire_unescaped t : unescaped (as_wire t) = true /\ utf8 (as_wire t) = true /\ from_wire (as_wire t) = Some t.
Proof. by destruct t. Qed.

Lemma request_text_utf8 i t : utf8 i = true -> utf8 (request_text i t) = true.
Proof.
  intros Hi. unfold request_text, member. rewrite <- !app_assoc.
  repeat (apply (utf8_app _ _ _ (le_n _)); [first [exact Hi|reflexivity|apply as_wire_unescaped]|]). reflexivity.
Qed.

(** C38.  Registration round trip: for every identifier of valid UTF-8 without quotes
    or backslashes, of at most 128 bytes, and every tier, the request text is
    accepted with exactly that identifier and tier, unless the identifier is the
    word permission_tier. *)
Theorem request_round_trip i t :
  utf8 i = true -> unescaped i = true -> (length i <= MAX_AGENT_ID)%nat -> i <> lit "permission_tier" ->
  exists r, parse_register_request (request_text i t) = Ok r /\ agent_id r = i /\ permission_tier r = t.
Proof.
  intros Hu He Hlen Hne. destruct (as_wire_unescaped t) as (Wt & Ut & Ft).
  set (ss1 := [lit "method"; [58]; lit "register"; [44]]).
  set (ss2 := ss1 ++ [lit "agent_id"; [58]; i; [44]]).
  assert (E1 : request_text i t = [123] ++ segs_text ([] ++ lit "method" :: [58] :: lit "register" :: [44] ::
            [lit "agent_id"; [58]; i; [44]; lit "permission_tier"; [58]; as_wire t; [125]])).
  { unfold request_text, member, quote. cbn [segs_text app]. repeat (cbn [app]; rewrite <- app_assoc).
    rewrite ?app_nil_r. reflexivity. }
  unfold parse_register_request. rewrite request_text_utf8 by exact Hu. cbn [negb]. rewrite E1.
  rewrite (field_found [123] [] (lit "method")) by (first [reflexivity|done|cbn; lia]).
  rewrite bool_decide_true by reflexivity. cbn [negb app].
  change (lit "method" :: [58] :: lit "register" :: [44] :: lit "agent_id" :: ?x) with (ss1 ++ lit "agent_id" :: x).
  change (123 :: ?x) with ([123] ++ x).
  rewrite (field_found [123] ss1 (lit "agent_id")) by (first [assumption|reflexivity|cbn; lia|by cbn; intuition discriminate]).
  destruct (Nat.ltb_spec MAX_AGENT_ID (length i)) as [|_]; [lia|].
  change (ss1 ++ lit "agent_id" :: [58] :: i :: [44] :: ?x) with (ss2 ++ x).
  rewrite (field_found [123] ss2 (lit "permission_tier"));
    [|reflexivity|reflexivity|cbn; lia| | |exact Wt|exact Ut].
  - rewrite Ft. eexists. split; [reflexivity|]. split; [|reflexivity]. unfold agent_id, into_array.
    cbn [rq_agent_id rq_agent_id_len]. rewrite take_app_length. unfold str_or_empty. by rewrite Hu.
  - unfold ss2, ss1. rewrite forallb_app. cbn [forallb]. by rewrite (unescaped_plain i He).
  - unfold ss2, ss1. rewrite in_app_iff. cbn [In]. intuition (discriminate || congruence).
Qed.

Lemma request_round_trip_witness :
  exists r, parse_register_request (request_text (lit "method") Execute) = Ok r /\ agent_id r = lit "method" /\
            permission_tier r = Execute.
Proof. apply (request_round_trip (lit "method") Execute); [reflexivity|reflexivity|unfold MAX_AGENT_ID; cbn; lia|discriminate]. Defined.

(** The excepted word: the scanner takes the value for the key. *)
Lemma key_as_identifier_refused :
  parse_register_request (request_text (lit "permission_tier") Write) = Err MalformedRequest.
Proof. vm_compute. reflexivity. Qed.

(** ** The response *)

Lemma length_splice buf p bytes : (p + length bytes <= length buf)%nat -> length (splice buf p bytes) = length buf.
Proof. intros H. unfold splice. rewrite !length_app, length_take, length_drop. lia. Qed.

Lemma take_splice buf p bytes :
  (p + length bytes <= length buf)%nat -> take (p + length bytes) (splice buf p bytes) = take p buf ++ bytes.
Proof.
  intros H. unfold splice. rewrite app_assoc.
  replace (p + length bytes)%nat with (length (take p buf ++ bytes)) at 1 by (rewrite length_app, length_take; lia).
  apply take_app_length.
Qed.

(** Pieces that fit are written one after the other. *)
Lemma write_all_fits pieces : forall w,
  (pos w + length (concat pieces) <= length (w_buf w))%nat ->
  let (ok, w') := write_all w pieces in
  ok = true /\ overflow w' = overflow w /\ pos w' = (pos w + length (concat pieces))%nat /\
  length (w_buf w') = length (w_buf w) /\ take (pos w') (w_buf w') = take (pos w) (w_buf w) ++ concat pieces.
Proof.
  induction pieces as [|s pieces IH]; intros w H; cbn [write_all concat] in *.
  - cbn. rewrite Nat.add_0_r, app_nil_r. done.
  - rewrite length_app in H. unfold write_str.
    destruct (Nat.ltb_spec (length (w_buf w)) (pos w + length s)) as [|_]; [lia|].
    specialize (IH (mkWriter (splice (w_buf w) (pos w) s) (pos w + length s) (overflow w))).
    cbn [pos w_buf overflow] in IH. rewrite length_splice in IH by lia. specialize (IH ltac:(lia)).
    destruct (write_all _ pieces) as [ok w']. destruct IH as (-> & -> & -> & -> & ->).
    rewrite take_splice, length_app, <- app_assoc by lia. split_and!; [done|done|lia|done|done].
Qed.

(** The wire text of a response. *)
Definition response_text (r : RegisterResponse) : list Z := concat (response_pieces r).

Lemma serialize_fits r out :
  (length (response_text r) <= length out)%nat ->
  exists buf, serialize_response r out = (Ok (length (response_text r)), buf) /\
              take (length (response_text r)) buf = response_text r.
Proof.
  intros H. unfold serialize_response. pose proof (write_all_fits (response_pieces r) (FixedWriter_new out)) as W.
  fold (response_text r) in W. specialize (W H). destruct (write_all _ _) as [ok w]. cbn [FixedWriter_new pos w_buf overflow] in W.
  destruct W as (-> & -> & Hp & _ & Ht). cbn. exists (w_buf w). unfold written. by rewrite Hp in *.
Qed.

Lemma take_length_le {A} n (l : list A) : (length (take n l) <= n)%nat.
Proof. rewrite length_take. lia. Qed.

Lemma str_or_empty_length l : (length (str_or_empty l) <= length l)%nat.
Proof. unfold str_or_empty. destruct (utf8 l); cbn; lia. Qed.

Lemma now_string_length mono : let '(buf, n, _) := now_string mono in length buf = 24%nat /\ (n <= 24)%nat.
Proof.
  unfold now_string. cbn [write_all]. unfold write_str at 1. cbn [FixedWriter_new w_buf pos]. rewrite length_replicate.
  destruct (Nat.ltb_spec 24 (0 + length (lit "mono+"))) as [H|_]; [cbn in H; lia|].
  unfold write_str. cbn [w_buf pos]. rewrite length_splice by (cbn; lia). rewrite length_replicate.
  destruct (Nat.ltb_spec 24 (0 + length (lit "mono+") + length (decimal mono))) as [H|H]; cbn [write_all written w_buf pos].
  - rewrite length_splice by (cbn; lia). cbn. lia.
  - rewrite !length_splice by (rewrite ?length_splice, ?length_replicate; cbn in *; lia). cbn in *. lia.
Qed.

Definition BUF_SIZE : nat := 4096.
Definition MAX_MESSAGE : nat := BUF_SIZE.

Lemma ascii_utf8 l : forallb (between 0 0x7F) l = true -> utf8 l = true.
Proof. induction l as [|b l IH]; [done|]. cbn [forallb utf8]. intros [-> H]%andb_true_iff. by apply IH. Qed.

Lemma hex16_ascii v : length (hex16 v) = 16%nat /\ utf8 (hex16 v) = true.
Proof.
  split; [unfold hex16; by rewrite length_map, length_seq|]. apply ascii_utf8, forallb_forall. intros b Hb.
  unfold hex16 in Hb. apply in_map_iff in Hb as (i & <- & _). set (s := Z.shiftr _ _).
  change 0xf with (Z.ones 4). rewrite Z.land_ones by lia. pose proof (Z.mod_pos_bound s (2 ^ 4) ltac:(lia)).
  unfold hex_char, between. destruct (Z.ltb_spec (s mod 2 ^ 4) 10); apply andb_true_iff; rewrite !Z.leb_le; lia.
Qed.

Lemma parsed_identifier raw r :
  parse_register_request raw = Ok r -> utf8 (agent_id r) = true /\ (length (agent_id r) <= MAX_AGENT_ID)%nat.
Proof.
  unfold parse_register_request. repeat (case_match; try done). intros [= <-].
  match goal with H : (MAX_AGENT_ID <? length ?i)%nat = false |- _ => apply Nat.ltb_ge in H end.
  unfold agent_id, into_array. cbn [rq_agent_id rq_agent_id_len]. rewrite take_app_length. unfold str_or_empty.
  case_match; [done|]. split; [done|cbn; lia].
Qed.

Lemma reply_fits mono r :
  utf8 (agent_id r) = true -> (length (agent_id r) <= MAX_AGENT_ID)%nat ->
  let (resp, _) := build_response mono r in
  exists n buf, serialize_response resp (replicate MAX_MESSAGE 0) = (Ok n, buf) /\ (n < 256)%nat /\
    take n buf = response_text resp /\
    response_agent_id resp = agent_id r /\ response_audit_hash resp = audit_hash_for r /\
    length (response_audit_hash resp) = 16%nat.
Proof.
  intros Hu Hlen. unfold build_response. pose proof (now_string_length mono) as Hn.
  destruct (now_string mono) as [[ts tl] m']. destruct Hn as [Hts Htl]. cbv zeta.
  set (resp := mkResponse _ _ _ _ _ _).
  assert (Hid : response_agent_id resp = agent_id r).
  { unfold resp, response_agent_id, into_array. cbn [rs_agent_id rs_agent_id_len]. rewrite take_app_length.
    unfold str_or_empty. by rewrite Hu. }
  destruct (hex16_ascii (fnv1a (agent_id r ++ as_wire (permission_tier r)))) as [Hh Hhu].
  assert (Hhash : response_audit_hash resp = audit_hash_for r).
  { unfold resp, response_audit_hash, str_or_empty. cbn [rs_audit_hash]. unfold audit_hash_for at 1. by rewrite Hhu. }
  assert (Hsize : (length (response_text resp) < 256)%nat).
  { unfold response_text, response_pieces. rewrite Hid, Hhash. cbn [success resp concat]. rewrite !length_app.
    unfold audit_hash_for. rewrite Hh. unfold response_timestamp.
    pose proof (str_or_empty_length (take (rs_timestamp_len resp) (rs_timestamp resp))) as H1.
    pose proof (take_length_le (rs_timestamp_len resp) (rs_timestamp resp)) as H2.
    change (rs_timestamp_len resp) with tl in *. change (rs_timestamp resp) with ts in *. unfold MAX_AGENT_ID in Hlen.
    generalize dependent (length (str_or_empty (take tl ts))). generalize dependent (length (agent_id r)).
    intros a Ha k Hk. cbn. lia. }
  destruct (serialize_fits resp (replicate MAX_MESSAGE 0)) as (buf & Hs & Ht).
  { rewrite length_replicate. unfold MAX_MESSAGE, BUF_SIZE. lia. }
  exists (length (response_text resp)), buf. split_and!; try assumption. rewrite Hhash. exact Hh.
Qed.

(**  A reply always fits: for every accepted request and every clock value the
    response is written without overflow into the message buffer, takes fewer than
    256 of its 4096 bytes, and is the response text with the identifier of the
    request and a hash of sixteen characters. *)
Theorem response_fits mono raw r :
  parse_register_request raw = Ok r ->
  let (resp, _) := build_response mono r in
  exists n buf, serialize_response resp (replicate MAX_MESSAGE 0) = (Ok n, buf) /\ (n < 256)%nat /\
    take n buf = response_text resp /\
    response_agent_id resp = agent_id r /\ response_audit_hash resp = audit_hash_for r /\
    length (response_audit_hash resp) = 16%nat.
Proof. intros Hp. destruct (parsed_identifier raw r Hp). by apply reply_fits. Qed.

Lemma response_fits_witness :
  exists n buf r, parse_register_request (request_text (lit "svc") Write) = Ok r /\
    serialize_response (fst (build_response 7 r)) (replicate MAX_MESSAGE 0) = (Ok n, buf) /\ (n < 256)%nat.
Proof.
  assert (H : exists r, parse_register_request (request_text (lit "svc") Write) = Ok r) by (eexists; vm_compute; reflexivity).
  destruct H as [r H]. pose proof (response_fits 7 _ r H) as F. destruct (build_response 7 r) as [resp m] eqn:E.
  destruct F as (n & buf & Hs & Hn & _). exists n, buf, r. rewrite E. exact (conj H (conj Hs Hn)).
Defined.

(** ** The clock *)

Lemma dec_digits_length k : forall fuel n acc, (k < fuel)%nat -> 0 <= n ->
  (n < 10 ^ Z.of_nat (S k) -> (length (dec_digits fuel n acc) <= S k + length acc)%nat) /\
  (10 ^ Z.of_nat k <= n -> (S k + length acc <= length (dec_digits fuel n acc))%nat).
Proof.
  induction k as [|k IH]; intros fuel n acc Hf Hn; (destruct fuel as [|fuel]; [lia|]); cbn [dec_digits]; cbv zeta.
  - split; intros H.
    + rewrite Z.div_small by (cbn in H; lia). cbn. lia.
    + assert (G : forall f m a, (length a <= length (dec_digits f m a))%nat).
      { induction f as [|f IHf]; intros m a; cbn [dec_digits]; [lia|]. cbv zeta. destruct (_ =? 0); [cbn; lia|].
        specialize (IHf (m / 10) ((48 + m mod 10) :: a)). cbn [length] in IHf. lia. }
      destruct (n / 10 =? 0); [cbn; lia|]. specialize (G fuel (n / 10) ((48 + n mod 10) :: acc)). cbn [length] in G. lia.
  - rewrite !Nat2Z.inj_succ, !Z.pow_succ_r by lia. rewrite <- Z.pow_succ_r, <- Nat2Z.inj_succ by lia.
    pose proof (Z.div_pos n 10 Hn ltac:(lia)) as Hd.
    specialize (IH fuel (n / 10) ((48 + n mod 10) :: acc) ltac:(lia) Hd) as [IH1 IH2]. cbn [length] in IH1, IH2.
    assert (0 < 10 ^ Z.of_nat k) by (apply Z.pow_pos_nonneg; lia).
    split; intros H'.
    + destruct (n / 10 =? 0); [cbn; lia|].
      assert (n / 10 < 10 ^ Z.of_nat (S k)) by (apply Z.div_lt_upper_bound; lia). specialize (IH1 ltac:(assumption)). lia.
    + assert (10 ^ Z.of_nat k <= n / 10).
      { apply Z.div_le_lower_bound; [lia|]. rewrite Nat2Z.inj_succ, Z.pow_succ_r in H' by lia. lia. }
      destruct (Z.eqb_spec (n / 10) 0) as [E|_]; [lia|]. specialize (IH2 ltac:(assumption)). lia.
Qed.

(** The stamp: the counter, until it needs twenty digits. *)
Lemma now_string_stamp mono :
  0 <= mono < U64 ->
  let '(buf, n, mono') := now_string mono in
  take n buf = lit "mono+" ++ (if mono <? 10 ^ 19 then decimal mono else []) /\ mono' = add64 mono 1.
Proof.
  intros Hm. destruct (dec_digits_length 18 20 mono [] ltac:(lia) ltac:(lia)) as [H19 _].
  destruct (dec_digits_length 19 20 mono [] ltac:(lia) ltac:(lia)) as [_ H20]. fold (decimal mono) in H19, H20.
  unfold now_string. destruct (Z.ltb_spec mono (10 ^ 19)) as [Hlt|Hge].
  - pose proof (write_all_fits [lit "mono+"; decimal mono] (FixedWriter_new (replicate 24 0))) as W.
    specialize (H19 Hlt). cbn [concat] in W. rewrite app_nil_r in W. cbn [FixedWriter_new pos w_buf overflow] in W.
    specialize (W ltac:(rewrite length_app, length_replicate; cbn in *; lia)).
    destruct (write_all _ _) as [ok w]. destruct W as (_ & _ & _ & _ & Ht). split; [exact Ht|reflexivity].
  - specialize (H20 Hge). cbn [length] in H20. cbn [write_all].
    destruct (write_str (FixedWriter_new (replicate 24 0)) (lit "mono+")) as [ok w] eqn:E.
    vm_compute in E. injection E as <- <-. unfold write_str. cbn [w_buf pos length].
    destruct (Nat.ltb_spec 24 (5 + length (decimal mono))) as [_|]; [|lia]. split; reflexivity.
Qed.

End Ipc.
