(* ===== verification/Virtio.v ===== *)
(** The virtio-serial driver of the agent channel (src/src/sentinel/ipc.rs): device
    discovery, feature negotiation, the split queues, the global channel and the
    registration service.

    Driver code is a tree of device accesses, [Cmd]: register reads and writes,
    stores into the queue memory the device reads, and volatile reads of what the
    device writes there (used ring and receive buffer).  The order of the tree is the
    program order that the fences of the code keep: a device sees every store made
    before the notification that announces it.
    [run] plays a tree against any device, given as a state with its answers, so
    the theorems hold whatever the device does. *)

From Stdlib Require Import ZArith Lia.
From stdpp Require Import base list strings.
From S2P Require Import Prelude Sha256 AuditTrail Ipc.

Open Scope Z_scope.

Module Virtio.
Import Ipc.

(** ** Registers *)

Definition MAGIC_VALUE : Z := 0x000.
Definition VERSION : Z := 0x004.
Definition DEVICE_ID : Z := 0x008.
Definition DEVICE_FEATURES : Z := 0x010.
Definition DEVICE_FEATURES_SEL : Z := 0x014.
Definition DRIVER_FEATURES : Z := 0x020.
Definition DRIVER_FEATURES_SEL : Z := 0x024.
Definition QUEUE_SEL : Z := 0x030.
Definition INTERRUPT_STATUS : Z := 0x060.
Definition INTERRUPT_ACK : Z := 0x064.
Definition VENDOR_ID : Z := 0x00c.
Definition QUEUE_NUM_MAX : Z := 0x034.
Definition QUEUE_NUM : Z := 0x038.
Definition QUEUE_READY : Z := 0x044.
Definition QUEUE_NOTIFY : Z := 0x050.
Definition STATUS : Z := 0x070.
Definition QUEUE_DESC_LOW : Z := 0x080.
Definition QUEUE_DESC_HIGH : Z := 0x084.
Definition QUEUE_DRIVER_LOW : Z := 0x090.
Definition QUEUE_DRIVER_HIGH : Z := 0x094.
Definition QUEUE_DEVICE_LOW : Z := 0x0a0.
Definition QUEUE_DEVICE_HIGH : Z := 0x0a4.

Definition MAGIC : Z := 0x74726976.
Definition VERSION_MODERN : Z := 2.
Definition DEVICE_ID_CONSOLE : Z := 3.
Definition STATUS_ACKNOWLEDGE : Z := 1.
Definition STATUS_DRIVER : Z := 2.
Definition STATUS_DRIVER_OK : Z := 4.
Definition STATUS_FEATURES_OK : Z := 8.
Definition VIRTIO_F_VERSION_1 : Z := Z.shiftl 1 32.
Definition VIRTIO_CONSOLE_F_MULTIPORT : Z := Z.shiftl 1 1.

Definition QEMU_VIRT_MMIO_BASE : Z := 0x0a000000.
Definition QEMU_VIRT_MMIO_STRIDE : Z := 0x200.
Definition QEMU_VIRT_MMIO_COUNT : nat := 32.

Definition QUEUE_SIZE : nat := 16.
Definition VIRTQ_DESC_F_WRITE : Z := 2.
Definition SENTINEL_RX_QUEUE : Z := 4.
Definition SENTINEL_TX_QUEUE : Z := 5.

(** ** Queue memory *)

Record VirtqDesc := mkDesc { d_addr : Z; d_len : Z; d_flags : Z; d_next : Z }.
Record VirtqAvail := mkAvail { a_flags : Z; a_idx : Z; a_ring : list Z; used_event : Z }.
Record VirtqUsedElem := mkElem { el_id : Z; el_len : Z }.
Record VirtqUsed := mkUsed { u_flags : Z; u_idx : Z; u_ring : list VirtqUsedElem; avail_event : Z }.

Record QueueMem := mkMem { desc : list VirtqDesc; avail : VirtqAvail; used : VirtqUsed; buffer : list Z }.

Definition QueueMem_new : QueueMem :=
  mkMem (replicate QUEUE_SIZE (mkDesc 0 0 0 0)) (mkAvail 0 0 (replicate QUEUE_SIZE 0) 0)
    (mkUsed 0 0 (replicate QUEUE_SIZE (mkElem 0 0)) 0) (replicate BUF_SIZE 0).

(** Field offsets of the C layout: 16 descriptors of 16 bytes, an available ring of
    38 bytes, then the used ring on the next multiple of four and its 136 bytes. *)
Definition off_desc : Z := 0.
Definition off_avail : Z := 256.
Definition off_used : Z := 296.
Definition off_buffer : Z := 432.

Record VirtQueue := mkQueue { mem : Z; index : Z; avail_idx : Z; last_used_idx : Z }.

Record MmioTransport := mkTransport { base : Z }.

Definition MmioTransport_new (b : Z) : MmioTransport := mkTransport b.

Record Channel := mkChannel { transport : MmioTransport; rx : VirtQueue; tx : VirtQueue }.

(** ** Device accesses *)

(** What the device may have changed in a queue's memory when it is read. *)
Record View := mkView { v_used : VirtqUsed; v_buffer : list Z }.

(** A store of the driver into a queue's memory: descriptor 0, a ring slot, the
    published index, or a copy to the start of the buffer. *)
Inductive MemStore :=
  | SDesc (d : VirtqDesc)
  | SRing (slot : nat) (v : Z)
  | SIdx (idx : Z)
  | SBuffer (data : list Z).

Definition apply_store (m : QueueMem) (st : MemStore) : QueueMem :=
  let a := avail m in
  match st with
  | SDesc d => mkMem (<[0%nat := d]> (desc m)) a (used m) (buffer m)
  | SRing slot v => mkMem (desc m) (mkAvail (a_flags a) (a_idx a) (<[slot := v]> (a_ring a)) (used_event a)) (used m) (buffer m)
  | SIdx idx => mkMem (desc m) (mkAvail (a_flags a) idx (a_ring a) (used_event a)) (used m) (buffer m)
  | SBuffer data => mkMem (desc m) a (used m) (data ++ drop (length data) (buffer m))
  end.

Inductive Cmd (A : Type) : Type :=
  | Ret (a : A)
  | Store (mem : Z) (st : MemStore) (k : Cmd A)
  | Read32 (addr : Z) (k : Z -> Cmd A)
  | Write32 (addr v : Z) (k : Cmd A)
  | Volatile (queue : Z) (k : View -> Cmd A).
Arguments Ret {A}. Arguments Read32 {A}. Arguments Write32 {A}. Arguments Volatile {A}. Arguments Store {A}.

Fixpoint bind {A B} (c : Cmd A) (f : A -> Cmd B) : Cmd B :=
  match c with
  | Ret a => f a
  | Store q st k => Store q st (bind k f)
  | Read32 addr k => Read32 addr (fun v => bind (k v) f)
  | Write32 addr v k => Write32 addr v (bind k f)
  | Volatile q k => Volatile q (fun v => bind (k v) f)
  end.

Declare Scope cmd_scope.
Delimit Scope cmd_scope with cmd.
Notation "'let!' x ':=' c 'in' k" := (bind c (fun x => k)) (at level 100, x pattern, c at level 99, k at level 100) : cmd_scope.
Notation "c ';;;' k" := (bind c (fun _ => k)) (at level 100, right associativity) : cmd_scope.
Open Scope cmd_scope.

Definition read32 (t : MmioTransport) (offset : Z) : Cmd Z := Read32 (base t + offset) Ret.
Definition write32 (t : MmioTransport) (offset value : Z) : Cmd unit := Write32 (base t + offset) value (Ret tt).

(** A volatile write through the queue's pointer: the device can read it from here on. *)
Definition publish (q : VirtQueue) (m : QueueMem) (st : MemStore) : Cmd QueueMem := Store (mem q) st (Ret (apply_store m st)).

(** [?] on a result. *)
Definition try_cmd {A B E} (c : Cmd (result A E)) (f : A -> Cmd (result B E)) : Cmd (result B E) :=
  bind c (fun r => match r with Ok a => f a | Err e => Ret (Err e) end).

(** The accesses made, with the answers. *)
Inductive Op := Rd (addr v : Z) | Wr (addr v : Z) | Vol (queue : Z) | St (mem : Z) (st : MemStore).

Section Device.
Context {S : Type} (rd : S -> Z -> Z * S) (wr : S -> Z -> Z -> S) (vol : S -> Z -> View * S) (mst : S -> Z -> MemStore -> S).

Fixpoint run {A} (c : Cmd A) (s : S) : A * S * list Op :=
  match c with
  | Ret a => (a, s, [])
  | Store q st k => let '(a, s2, tr) := run k (mst s q st) in (a, s2, St q st :: tr)
  | Read32 addr k => let (v, s1) := rd s addr in let '(a, s2, tr) := run (k v) s1 in (a, s2, Rd addr v :: tr)
  | Write32 addr v k => let '(a, s2, tr) := run k (wr s addr v) in (a, s2, Wr addr v :: tr)
  | Volatile q k => let (v, s1) := vol s q in let '(a, s2, tr) := run (k v) s1 in (a, s2, Vol q :: tr)
  end.

Lemma run_bind {A B} (c : Cmd A) (f : A -> Cmd B) s :
  run (bind c f) s = let '(a, s1, tr1) := run c s in let '(b, s2, tr2) := run (f a) s1 in (b, s2, tr1 ++ tr2).
Proof.
  revert s. induction c as [a|q st k IH|addr k IH|addr v k IH|q k IH]; intros s; cbn [bind run].
  - by destruct (run (f a) s) as [[b s2] tr].
  - rewrite IH. destruct (run k (mst s q st)) as [[a s2] tr]. by destruct (run (f a) s2) as [[b s3] tr2].
  - destruct (rd s addr) as [v s1]. rewrite IH. destruct (run (k v) s1) as [[a s2] tr].
    by destruct (run (f a) s2) as [[b s3] tr2].
  - rewrite IH. destruct (run k (wr s addr v)) as [[a s2] tr]. by destruct (run (f a) s2) as [[b s3] tr2].
  - destruct (vol s q) as [v s1]. rewrite IH. destruct (run (k v) s1) as [[a s2] tr].
    by destruct (run (f a) s2) as [[b s3] tr2].
Qed.
End Device.

(** ** Discovery and negotiation *)

Definition slot_base (slot : nat) : Z := QEMU_VIRT_MMIO_BASE + Z.of_nat slot * QEMU_VIRT_MMIO_STRIDE.

Fixpoint discover_from (slots : list nat) : Cmd (result MmioTransport IpcError) :=
  match slots with
  | [] => Ret (Err DeviceNotFound)
  | slot :: rest =>
      let t := mkTransport (slot_base slot) in
      let! magic := read32 t MAGIC_VALUE in
      if negb (magic =? MAGIC) then discover_from rest
      else
        let! version := read32 t VERSION in
        if negb (version =? VERSION_MODERN) then discover_from rest
        else
          let! dev := read32 t DEVICE_ID in
          if dev =? DEVICE_ID_CONSOLE then Ret (Ok t) else discover_from rest
  end.

Definition discover_device : Cmd (result MmioTransport IpcError) := discover_from (seq 0 QEMU_VIRT_MMIO_COUNT).

Definition negotiate_multiport (t : MmioTransport) : Cmd (result unit IpcError) := Ret (Ok tt).

Definition reset_and_negotiate (t : MmioTransport) : Cmd (result unit IpcError) :=
  write32 t STATUS 0 ;;;
  write32 t STATUS STATUS_ACKNOWLEDGE ;;;
  write32 t STATUS (Z.lor STATUS_ACKNOWLEDGE STATUS_DRIVER) ;;;
  write32 t DEVICE_FEATURES_SEL 0 ;;;
  let! feat_lo := read32 t DEVICE_FEATURES in
  write32 t DEVICE_FEATURES_SEL 1 ;;;
  let! feat_hi := read32 t DEVICE_FEATURES in
  let device_features := Z.lor feat_lo (Z.shiftl feat_hi 32) in
  if Z.land device_features VIRTIO_F_VERSION_1 =? 0 then
    write32 t STATUS 0x80 ;;; Ret (Err FeatureNegotiationFailed)
  else
    let driver_features :=
      if negb (Z.land device_features VIRTIO_CONSOLE_F_MULTIPORT =? 0)
      then Z.lor VIRTIO_F_VERSION_1 VIRTIO_CONSOLE_F_MULTIPORT else VIRTIO_F_VERSION_1 in
    write32 t DRIVER_FEATURES_SEL 0 ;;;
    write32 t DRIVER_FEATURES (wrap32 driver_features) ;;;
    write32 t DRIVER_FEATURES_SEL 1 ;;;
    write32 t DRIVER_FEATURES (wrap32 (Z.shiftr driver_features 32)) ;;;
    write32 t STATUS (Z.lor (Z.lor STATUS_ACKNOWLEDGE STATUS_DRIVER) STATUS_FEATURES_OK) ;;;
    let! st := read32 t STATUS in
    if Z.land st STATUS_FEATURES_OK =? 0 then
      write32 t STATUS 0x80 ;;; Ret (Err FeatureNegotiationFailed)
    else Ret (Ok tt).

(** ** Queues *)

Definition configure (t : MmioTransport) (idx mem : Z) : Cmd (result VirtQueue IpcError) :=
  write32 t QUEUE_SEL idx ;;;
  let! max := read32 t QUEUE_NUM_MAX in
  if max =? 0 then Ret (Err QueueSetupFailed)
  else
    let size := Z.min max (Z.of_nat QUEUE_SIZE) in
    write32 t QUEUE_NUM size ;;;
    let desc_addr := mem + off_desc in
    let avail_addr := mem + off_avail in
    let used_addr := mem + off_used in
    write32 t QUEUE_DESC_LOW (wrap32 desc_addr) ;;;
    write32 t QUEUE_DESC_HIGH (wrap32 (Z.shiftr desc_addr 32)) ;;;
    write32 t QUEUE_DRIVER_LOW (wrap32 avail_addr) ;;;
    write32 t QUEUE_DRIVER_HIGH (wrap32 (Z.shiftr avail_addr 32)) ;;;
    write32 t QUEUE_DEVICE_LOW (wrap32 used_addr) ;;;
    write32 t QUEUE_DEVICE_HIGH (wrap32 (Z.shiftr used_addr 32)) ;;;
    write32 t QUEUE_READY 1 ;;;
    let! ready := read32 t QUEUE_READY in
    if negb (ready =? 1) then Ret (Err QueueSetupFailed) else Ret (Ok (mkQueue mem idx 0 0)).

Definition add16 (a b : Z) : Z := (a + b) mod 2 ^ 16.

Definition slot_of (idx : Z) : nat := Z.to_nat (idx mod Z.of_nat QUEUE_SIZE).

(** The driver's stores into its queue memory in program order (the index after the
    descriptor and the slot), then the notification. *)
Definition submit (q : VirtQueue) (m : QueueMem) (t : MmioTransport) (len : Z) (writable : bool)
  : Cmd (VirtQueue * QueueMem) :=
  let d := mkDesc (mem q + off_buffer) len (if writable then VIRTQ_DESC_F_WRITE else 0) 0 in
  let! m := publish q m (SDesc d) in
  let slot := slot_of (avail_idx q) in
  let! m := publish q m (SRing slot 0) in
  let q := mkQueue (mem q) (index q) (add16 (avail_idx q) 1) (last_used_idx q) in
  let! m := publish q m (SIdx (avail_idx q)) in
  write32 t QUEUE_NOTIFY (index q) ;;;
  Ret (q, m).

(** One turn of the poll: the index, then the element.  [spins] bounds the turns;
    [None] is still spinning. *)
Fixpoint poll_used (spins : nat) (q : VirtQueue) : Cmd (option (Z * VirtQueue)) :=
  match spins with
  | O => Ret None
  | Datatypes.S spins =>
      Volatile (index q) (fun v =>
        if negb (u_idx (v_used v) =? last_used_idx q) then
          Volatile (index q) (fun v' =>
            let slot := slot_of (last_used_idx q) in
            let elem := nth slot (u_ring (v_used v')) (mkElem 0 0) in
            Ret (Some (el_len elem, mkQueue (mem q) (index q) (avail_idx q) (add16 (last_used_idx q) 1))))
        else poll_used spins q)
  end.

Definition fill_tx (q : VirtQueue) (m : QueueMem) (data : list Z) : Cmd (result (Z * QueueMem) IpcError) :=
  if (BUF_SIZE <? length data)%nat then Ret (Err MessageTooLarge)
  else let! m := publish q m (SBuffer data) in Ret (Ok (Z.of_nat (length data), m)).

(** The count, and [out] after the copy. *)
Definition read_rx (q : VirtQueue) (len : Z) (out : list Z) : Cmd (nat * list Z) :=
  let n := Nat.min (Z.to_nat len) (Nat.min (length out) BUF_SIZE) in
  Volatile (index q) (fun v => Ret (n, take n (v_buffer v) ++ drop n out)).

(** ** The channel *)

(** The statics of the module: both queue memories with their addresses, the
    channel, its lock and the clock's counter. *)
Record World := mkWorld {
  rx_mem : QueueMem;
  tx_mem : QueueMem;
  channel : option Channel;
  channel_lock : bool;
  mono : Z
}.

Definition boot_world : World := mkWorld QueueMem_new QueueMem_new None false 0.

(** Some answer, or [None] for a call that is still spinning (on the lock or on the
    used ring). *)
Definition outcome (A : Type) : Type := (option A * World)%type.

Definition unlocked (w : World) : World := mkWorld (rx_mem w) (tx_mem w) (channel w) false (mono w).

(** [ChannelGuard::acquire], the body, and the guard's drop on every way out. *)
Definition with_guard {A} (w : World) (body : World -> Cmd (outcome A)) : Cmd (outcome A) :=
  if channel_lock w then Ret (None, w)
  else
    let! (r, w') := body (mkWorld (rx_mem w) (tx_mem w) (channel w) true (mono w)) in
    Ret (r, match r with Some _ => unlocked w' | None => w' end).

Definition set_channel (w : World) (ch : Channel) : World := mkWorld (rx_mem w) (tx_mem w) (Some ch) (channel_lock w) (mono w).

(** The bring-up after the guard's test: discovery to the first receive buffer. *)
Definition init_channel (rx_addr tx_addr : Z) (w : World) : Cmd (result World IpcError) :=
  try_cmd discover_device (fun t =>
  try_cmd (reset_and_negotiate t) (fun _ =>
  try_cmd (configure t SENTINEL_RX_QUEUE rx_addr) (fun rxq =>
  try_cmd (configure t SENTINEL_TX_QUEUE tx_addr) (fun txq =>
  try_cmd (negotiate_multiport t) (fun _ =>
    write32 t STATUS (Z.lor (Z.lor (Z.lor STATUS_ACKNOWLEDGE STATUS_DRIVER) STATUS_FEATURES_OK) STATUS_DRIVER_OK) ;;;
    let! (rxq', m) := submit rxq (rx_mem w) t (Z.of_nat BUF_SIZE) true in
    Ret (Ok (mkWorld m (tx_mem w) (Some (mkChannel t rxq' txq)) (channel_lock w) (mono w)))))))).

Definition init (rx_addr tx_addr : Z) (w : World) : Cmd (outcome (result unit IpcError)) :=
  with_guard w (fun w =>
    match channel w with
    | Some _ => Ret (Some (Ok tt), w)
    | None =>
        let! r := init_channel rx_addr tx_addr w in
        Ret (match r with Ok w' => (Some (Ok tt), w') | Err e => (Some (Err e), w) end)
    end).

Definition read_message (spins : nat) (w : World) (ch : Channel) (out : list Z) : Cmd (outcome (nat * list Z)) :=
  let! r := poll_used spins (rx ch) in
  match r with
  | None => Ret (None, w)
  | Some (len, q) =>
      let! (n, out') := read_rx q len out in
      let! (q', m) := submit q (rx_mem w) (transport ch) (Z.of_nat BUF_SIZE) true in
      Ret (Some (n, out'),
           mkWorld m (tx_mem w) (Some (mkChannel (transport ch) q' (tx ch))) (channel_lock w) (mono w))
  end.

Definition write_message (spins : nat) (w : World) (ch : Channel) (data : list Z) : Cmd (outcome (result unit IpcError)) :=
  let! filled := fill_tx (tx ch) (tx_mem w) data in
  match filled with
  | Err e => Ret (Some (Err e), w)
  | Ok (len, m) =>
      let! (q, m') := submit (tx ch) m (transport ch) len false in
      let! r := poll_used spins q in
      Ret (match r with
           | None => (None, mkWorld (rx_mem w) m' (Some (mkChannel (transport ch) (rx ch) q)) (channel_lock w) (mono w))
           | Some (_, q') =>
               (Some (Ok tt), mkWorld (rx_mem w) m' (Some (mkChannel (transport ch) (rx ch) q')) (channel_lock w) (mono w))
           end)
  end.

Definition read_request (spins : nat) (w : World) (out : list Z) : Cmd (outcome (result (nat * list Z) IpcError)) :=
  with_guard w (fun w =>
    match channel w with
    | None => Ret (Some (Err NotInitialised), w)
    | Some ch => let! (r, w') := read_message spins w ch out in Ret (Ok <$> r, w')
    end).

Definition write_response_bytes (spins : nat) (w : World) (data : list Z) : Cmd (outcome (result unit IpcError)) :=
  with_guard w (fun w =>
    match channel w with
    | None => Ret (Some (Err NotInitialised), w)
    | Some ch => write_message spins w ch data
    end).

Definition set_mono (w : World) (n : Z) : World := mkWorld (rx_mem w) (tx_mem w) (channel w) (channel_lock w) n.

(** One registration: read, parse, reply. *)
Definition handle_one (spins : nat) (w : World) : Cmd (outcome (result RegisterRequest IpcError)) :=
  let! (r, w) := read_request spins w (replicate MAX_MESSAGE 0) in
  match r with
  | None => Ret (None, w)
  | Some (Err e) => Ret (Some (Err e), w)
  | Some (Ok (n, req_buf)) =>
      match parse_register_request (take n req_buf) with
      | Err e => Ret (Some (Err e), w)
      | Ok req =>
          let (resp, mono') := build_response (mono w) req in
          let w := set_mono w mono' in
          let (m, resp_buf) := serialize_response resp (replicate MAX_MESSAGE 0) in
          match m with
          | Err e => Ret (Some (Err e), w)
          | Ok m =>
              let! (r, w) := write_response_bytes spins w (take m resp_buf) in
              Ret (match r with
                   | None => (None, w)
                   | Some (Err e) => (Some (Err e), w)
                   | Some (Ok _) => (Some (Ok req), w)
                   end)
          end
      end
  end.

(** ** Feature negotiation *)

Section AnyDevice.
Context {S : Type} (rd : S -> Z -> Z * S) (wr : S -> Z -> Z -> S) (vol : S -> Z -> View * S) (mst : S -> Z -> MemStore -> S).

(** The bits the driver takes up from an offer. *)
Definition chosen (offered : Z) : Z :=
  if negb (Z.land offered VIRTIO_CONSOLE_F_MULTIPORT =? 0)
  then Z.lor VIRTIO_F_VERSION_1 VIRTIO_CONSOLE_F_MULTIPORT else VIRTIO_F_VERSION_1.

Lemma land_bit x n : 0 <= n -> Z.land x (Z.shiftl 1 n) = if Z.testbit x n then Z.shiftl 1 n else 0.
Proof.
  intros Hn. rewrite Z.shiftl_1_l. apply Z.bits_inj'. intros i Hi. rewrite Z.land_spec.
  destruct (Z.eq_dec i n) as [->|Hne].
  - rewrite Z.pow2_bits_true by lia. destruct (Z.testbit x n); [by rewrite Z.pow2_bits_true by lia|by rewrite Z.bits_0].
  - rewrite Z.pow2_bits_false by lia. rewrite andb_false_r.
    destruct (Z.testbit x n); [by rewrite Z.pow2_bits_false by lia|by rewrite Z.bits_0].
Qed.

Lemma chosen_offered offered :
  Z.land offered VIRTIO_F_VERSION_1 <> 0 -> Z.land offered (chosen offered) = chosen offered.
Proof.
  unfold chosen, VIRTIO_F_VERSION_1, VIRTIO_CONSOLE_F_MULTIPORT. intros H.
  rewrite (land_bit offered 32) in H by lia. destruct (Z.testbit offered 32) eqn:B32; [|done].
  destruct (Z.eqb_spec (Z.land offered (Z.shiftl 1 1)) 0) as [E|E]; cbn [negb].
  - rewrite land_bit by lia. by rewrite B32.
  - rewrite Z.land_lor_distr_r, !land_bit by lia. rewrite land_bit in E by lia. rewrite B32.
    by destruct (Z.testbit offered 1).
Qed.

(**  Feature negotiation with any device: the driver resets it, acknowledges,
    reads the 64 offered bits, and succeeds only when VERSION_1 is offered and the
    device keeps FEATURES_OK; it then has asked for a subset of the offer that
    contains VERSION_1.  In both failure cases the last access marks the device
    FAILED.  The trace is the exact sequence of register accesses. *)
Theorem negotiation_every_branch t s :
  let '(res, _, tr) := run rd wr vol mst (reset_and_negotiate t) s in
  exists lo hi,
  let b := base t in
  let offered := Z.lor lo (Z.shiftl hi 32) in
  let opening := [Wr (b + STATUS) 0; Wr (b + STATUS) 1; Wr (b + STATUS) 3; Wr (b + DEVICE_FEATURES_SEL) 0;
                  Rd (b + DEVICE_FEATURES) lo; Wr (b + DEVICE_FEATURES_SEL) 1; Rd (b + DEVICE_FEATURES) hi] in
  if Z.land offered VIRTIO_F_VERSION_1 =? 0 then
    res = Err FeatureNegotiationFailed /\ tr = opening ++ [Wr (b + STATUS) 0x80]
  else
    exists st,
    let request := [Wr (b + DRIVER_FEATURES_SEL) 0; Wr (b + DRIVER_FEATURES) (wrap32 (chosen offered));
                    Wr (b + DRIVER_FEATURES_SEL) 1; Wr (b + DRIVER_FEATURES) (wrap32 (Z.shiftr (chosen offered) 32));
                    Wr (b + STATUS) 11; Rd (b + STATUS) st] in
    Z.land offered (chosen offered) = chosen offered /\
    if Z.land st STATUS_FEATURES_OK =? 0 then
      res = Err FeatureNegotiationFailed /\ tr = opening ++ request ++ [Wr (b + STATUS) 0x80]
    else res = Ok tt /\ tr = opening ++ request.
Proof.
  unfold reset_and_negotiate, read32, write32. cbn [bind run].
  destruct (rd _ _) as [lo s1]. destruct (rd _ _) as [hi s2].
  destruct (Z.eqb_spec (Z.land (Z.lor lo (Z.shiftl hi 32)) VIRTIO_F_VERSION_1) 0) as [E|E]; cbn [bind run].
  - exists lo, hi. cbv zeta. rewrite E, Z.eqb_refl. done.
  - fold (chosen (Z.lor lo (Z.shiftl hi 32))). destruct (rd _ _) as [st s3].
    destruct (Z.land st STATUS_FEATURES_OK =? 0) eqn:F; cbn [bind run]; exists lo, hi; cbv zeta;
      rewrite (proj2 (Z.eqb_neq _ _) E); exists st; rewrite F; (split; [by apply chosen_offered|done]).
Qed.

(** ** Queue operations *)

(** Memory the driver owns, with its single descriptor within the buffer. *)
Definition mem_ok (m : QueueMem) : Prop :=
  length (desc m) = QUEUE_SIZE /\ length (a_ring (avail m)) = QUEUE_SIZE /\ Forall (eq 0) (a_ring (avail m)) /\
  length (buffer m) = BUF_SIZE /\ (forall d, desc m !! 0%nat = Some d -> 0 <= d_len d <= Z.of_nat BUF_SIZE).

Definition is_u16 (x : Z) : Prop := 0 <= x < 2 ^ 16.

Definition queue_ok (q : VirtQueue) (m : QueueMem) : Prop :=
  mem_ok m /\ a_idx (avail m) = avail_idx q /\ is_u16 (avail_idx q) /\ is_u16 (last_used_idx q).

Lemma add16_u16 a b : is_u16 (add16 a b).
Proof. apply Z.mod_pos_bound. reflexivity. Qed.

(** The queue and memory a submission leaves. *)
Definition submitted (q : VirtQueue) (m : QueueMem) (len : Z) (writable : bool) : VirtQueue * QueueMem :=
  (mkQueue (mem q) (index q) (add16 (avail_idx q) 1) (last_used_idx q),
   mkMem (<[0%nat := mkDesc (mem q + off_buffer) len (if writable then VIRTQ_DESC_F_WRITE else 0) 0]> (desc m))
     (mkAvail (a_flags (avail m)) (add16 (avail_idx q) 1) (<[slot_of (avail_idx q) := 0]> (a_ring (avail m)))
        (used_event (avail m))) (used m) (buffer m)).

(** Its accesses: the descriptor, the slot, the index, and only then the register. *)
Definition submission (q : VirtQueue) (t : MmioTransport) (len : Z) (writable : bool) : list Op :=
  [St (mem q) (SDesc (mkDesc (mem q + off_buffer) len (if writable then VIRTQ_DESC_F_WRITE else 0) 0));
   St (mem q) (SRing (slot_of (avail_idx q)) 0); St (mem q) (SIdx (add16 (avail_idx q) 1));
   Wr (base t + QUEUE_NOTIFY) (index q)].

Lemma run_submit q m t len writable s :
  exists s', run rd wr vol mst (submit q m t len writable) s = (submitted q m len writable, s', submission q t len writable).
Proof. eexists. reflexivity. Qed.

Lemma submitted_ok q m len writable :
  mem_ok m -> is_u16 (last_used_idx q) -> 0 <= len <= Z.of_nat BUF_SIZE ->
  let (q', m') := submitted q m len writable in queue_ok q' m'.
Proof.
  intros (H1 & H2 & H3 & H4 & _) Hl Hlen. unfold submitted, queue_ok, mem_ok. cbn.
  rewrite !length_insert. split_and!; try done; [by apply Forall_insert| |apply add16_u16..].
  intros d. rewrite list_lookup_insert_eq by (rewrite H1; unfold QUEUE_SIZE; lia). by intros [= <-].
Qed.

(** Polling only reads, and only moves the used index. *)
Lemma poll_used_frame spins : forall q s,
  let '(r, _, tr) := run rd wr vol mst (poll_used spins q) s in
  Forall (eq (Vol (index q))) tr /\
  match r with
  | None => True
  | Some (_, q') => q' = mkQueue (mem q) (index q) (avail_idx q) (add16 (last_used_idx q) 1)
  end.
Proof.
  induction spins as [|spins IH]; intros q s; cbn [poll_used run]; [done|].
  destruct (vol s (index q)) as [v s1]. destruct (negb _); cbn [run].
  - destruct (vol s1 (index q)) as [v' s2]. split; [by repeat constructor|done].
  - specialize (IH q s1). destruct (run rd wr vol mst (poll_used spins q) s1) as [[r s2] tr].
    destruct IH as [Hv Hr]. split; [by constructor|exact Hr].
Qed.

Lemma run_read_rx q len out s :
  let n := Nat.min (Z.to_nat len) (Nat.min (length out) BUF_SIZE) in
  exists v s', vol s (index q) = (v, s') /\
    run rd wr vol mst (read_rx q len out) s = ((n, take n (v_buffer v) ++ drop n out), s', [Vol (index q)]).
Proof. unfold read_rx. cbn [run]. destruct (vol s (index q)) as [v s1]. by exists v, s1. Qed.

(** The accesses of a receive that ends: reads of the device's side, then the buffer
    posted anew; and of a send: the reply copied, its descriptor published, and
    reads until the device has consumed it. *)
Definition reception (ch : Channel) (tr : list Op) : Prop :=
  exists polls, Forall (eq (Vol (index (rx ch)))) polls /\
    tr = polls ++ submission (rx ch) (transport ch) (Z.of_nat BUF_SIZE) true.

Definition transmission (ch : Channel) (data : list Z) (tr : list Op) : Prop :=
  exists polls, Forall (eq (Vol (index (tx ch)))) polls /\
    tr = St (mem (tx ch)) (SBuffer data) ::
         submission (tx ch) (transport ch) (Z.of_nat (length data)) false ++ polls.

(** The buffers are arrays of fixed size, whatever the device stores in them. *)
Hypothesis views_sized : forall s q, length (v_buffer (fst (vol s q))) = BUF_SIZE.

(** ** The channel's invariant *)

Definition world_inv (w : World) : Prop :=
  mem_ok (rx_mem w) /\ mem_ok (tx_mem w) /\
  match channel w with
  | None => a_idx (avail (tx_mem w)) = 0
  | Some ch => queue_ok (rx ch) (rx_mem w) /\ queue_ok (tx ch) (tx_mem w)
  end.

(** What a receive may do to the caller's buffer. *)
Definition received (n : nat) (out out' : list Z) : Prop :=
  (n <= BUF_SIZE)%nat /\ (n <= length out)%nat /\ length out' = length out /\ drop n out' = drop n out.

Lemma read_message_spec spins w ch out s :
  channel w = Some ch -> world_inv w ->
  let '((r, w'), _, tr) := run rd wr vol mst (read_message spins w ch out) s in
  world_inv w' /\ tx_mem w' = tx_mem w /\ channel_lock w' = channel_lock w /\ mono w' = mono w /\
  (exists rx', channel w' = Some (mkChannel (transport ch) rx' (tx ch))) /\
  match r with None => w' = w | Some (n, out') => received n out out' /\ reception ch tr end.
Proof.
  intros Hch Hinv. unfold read_message. rewrite run_bind. pose proof (poll_used_frame spins (rx ch) s) as Hp.
  destruct (run rd wr vol mst (poll_used spins (rx ch)) s) as [[[[len q]|] s1] tr1]; destruct Hp as [Hv1 Hp]; cbn [run].
  2:{ rewrite Hch. split_and!; try done. exists (rx ch). by destruct ch. }
  rewrite run_bind. destruct (run_read_rx q len out s1) as (v & s2 & Hv & ->). rewrite run_bind.
  destruct (run_submit q (rx_mem w) (transport ch) (Z.of_nat BUF_SIZE) true s2) as [s3 ->].
  pose proof (views_sized s1 (index q)) as Hsz. rewrite Hv in Hsz. cbn [fst] in Hsz.
  destruct Hinv as (Hr & Ht & Hq). rewrite Hch in Hq. destruct Hq as [(_ & _ & _ & Hl) Htx].
  assert (Hl' : is_u16 (last_used_idx q)) by (subst q; apply add16_u16).
  pose proof (submitted_ok q (rx_mem w) (Z.of_nat BUF_SIZE) true Hr Hl' ltac:(lia)) as Hs.
  destruct (submitted q (rx_mem w) (Z.of_nat BUF_SIZE) true) as [q' m']. cbn [run].
  set (n := Nat.min (Z.to_nat len) (Nat.min (length out) BUF_SIZE)).
  split; [by destruct Hs|]. split; [done|]. split; [done|]. split; [done|]. split; [by eexists|]. split.
  - split_and!; [unfold n; lia|unfold n; lia| |].
    + rewrite length_app, length_take, length_drop. unfold n. lia.
    + rewrite <- (length_take_le (v_buffer v) n) at 1 by (unfold n; lia). apply drop_app_length.
  - exists (tr1 ++ [Vol (index q)]). subst q. cbn [index]. split; [apply Forall_app; split; [exact Hv1|by repeat constructor]|].
    rewrite <- app_assoc, app_nil_r. reflexivity.
Qed.

(** [data] lies in the transmit buffer and the descriptor hands it to the device,
    read-only. *)
Definition handed_over (q : VirtQueue) (m : QueueMem) (data : list Z) : Prop :=
  take (length data) (buffer m) = data /\
  desc m !! 0%nat = Some (mkDesc (mem q + off_buffer) (Z.of_nat (length data)) 0 0).

Lemma write_message_spec spins w ch data s :
  channel w = Some ch -> world_inv w ->
  let '((r, w'), _, tr) := run rd wr vol mst (write_message spins w ch data) s in
  world_inv w' /\ channel_lock w' = channel_lock w /\ mono w' = mono w /\
  match r with
  | None => True
  | Some (Err e) => w' = w /\ e = MessageTooLarge /\ (BUF_SIZE < length data)%nat
  | Some (Ok _) => handed_over (tx ch) (tx_mem w') data /\ transmission ch data tr
  end.
Proof.
  intros Hch Hinv. unfold write_message, fill_tx. rewrite run_bind.
  destruct (Nat.ltb_spec BUF_SIZE (length data)) as [Hbig|Hfit]; [done|]. cbn [publish bind run].
  destruct Hinv as (Hr & Ht & Hq). rewrite Hch in Hq. destruct Hq as [Hrx (_ & _ & _ & Hl)].
  set (m := apply_store (tx_mem w) (SBuffer data)).
  assert (Hm : mem_ok m).
  { destruct Ht as (H1 & H2 & H3 & H4 & H5). split_and!; try done. cbn. rewrite length_app, length_drop. lia. }
  rewrite run_bind. set (s0 := mst s _ _).
  destruct (run_submit (tx ch) m (transport ch) (Z.of_nat (length data)) false s0) as [s1 ->].
  pose proof (submitted_ok (tx ch) m (Z.of_nat (length data)) false Hm Hl ltac:(lia)) as Hs.
  assert (Ho : handed_over (tx ch) (snd (submitted (tx ch) m (Z.of_nat (length data)) false)) data).
  { split; cbn; [apply take_app_length|]. apply list_lookup_insert_eq.
    destruct Hm as (Hm & _). cbn in Hm. rewrite Hm. unfold QUEUE_SIZE. lia. }
  assert (Hix : index (fst (submitted (tx ch) m (Z.of_nat (length data)) false)) = index (tx ch)) by done.
  destruct (submitted (tx ch) m (Z.of_nat (length data)) false) as [q m']. cbn [fst snd] in Ho, Hix.
  rewrite run_bind. pose proof (poll_used_frame spins q s1) as Hp.
  destruct (run rd wr vol mst (poll_used spins q) s1) as [[[[len q']|] s2] tr1]; destruct Hp as [Hv Hp]; cbn [run];
    (split; [|split; [done|]; split; [done|]; try done]);
    [| |]; destruct Hs as (Hm' & Hi & Hu & Hl'); unfold world_inv; cbn.
  - split_and!; [exact Hr|exact Hm'|exact Hrx|]. subst q'. split_and!; try done. apply add16_u16.
  - split; [exact Ho|]. exists tr1. split; [by rewrite <- Hix|]. rewrite app_nil_r. reflexivity.
  - split; [exact Hr|]. split; [exact Hm'|]. split; [exact Hrx|]. split; [exact Hm'|]. by split.
Qed.

Lemma run_guard {A} w (body : World -> Cmd (outcome A)) s :
  channel_lock w = false ->
  run rd wr vol mst (with_guard w body) s =
  let '((r, w'), s1, tr) := run rd wr vol mst (body (mkWorld (rx_mem w) (tx_mem w) (channel w) true (mono w))) s in
  ((r, match r with Some _ => unlocked w' | None => w' end), s1, tr).
Proof.
  intros Hl. unfold with_guard. rewrite Hl, run_bind. destruct (run rd wr vol mst (body _) s) as [[[r w'] s1] tr].
  destruct r; cbn [run]; by rewrite app_nil_r.
Qed.

Lemma read_request_spec spins w out s :
  channel_lock w = false -> world_inv w ->
  let '((r, w'), _, tr) := run rd wr vol mst (read_request spins w out) s in
  world_inv w' /\ tx_mem w' = tx_mem w /\ mono w' = mono w /\
  match r with
  | None => True
  | Some x => channel_lock w' = false /\
      match x with
      | Err e => e = NotInitialised /\ channel w = None /\ tr = []
      | Ok (n, out') => received n out out' /\ exists ch rx', channel w = Some ch /\
          channel w' = Some (mkChannel (transport ch) rx' (tx ch)) /\ reception ch tr
      end
  end.
Proof.
  intros Hl Hinv. unfold read_request. rewrite run_guard by exact Hl. cbn [channel].
  destruct (channel w) as [ch|] eqn:Hch; [|unfold world_inv in *; cbn; rewrite Hch in *; tauto]. rewrite run_bind.
  pose proof (read_message_spec spins (mkWorld (rx_mem w) (tx_mem w) (Some ch) true (mono w)) ch out s eq_refl) as H.
  destruct (run rd wr vol mst (read_message _ _ _ _) s) as [[[r w'] s1] tr]. cbn [run].
  destruct H as (Hi & Htx & _ & Hm & [rx' Hc] & Hr); [unfold world_inv in *; cbn; by rewrite Hch in Hinv|].
  destruct r as [[n out']|]; cbn; [|done]. destruct Hr as [Hr Ht]. split_and!; try done.
  exists ch, rx'. rewrite app_nil_r. by split_and!.
Qed.

Lemma write_response_spec spins w data s :
  channel_lock w = false -> world_inv w -> (length data <= BUF_SIZE)%nat ->
  let '((r, w'), _, tr) := run rd wr vol mst (write_response_bytes spins w data) s in
  world_inv w' /\ mono w' = mono w /\
  match r with
  | None => True
  | Some x => channel_lock w' = false /\
      match x with
      | Err e => e = NotInitialised /\ channel w = None
      | Ok _ => exists ch, channel w = Some ch /\ handed_over (tx ch) (tx_mem w') data /\ transmission ch data tr
      end
  end.
Proof.
  intros Hl Hinv Hd. unfold write_response_bytes. rewrite run_guard by exact Hl. cbn [channel].
  destruct (channel w) as [ch|] eqn:Hch; [|unfold world_inv in *; cbn; rewrite Hch in *; tauto].
  pose proof (write_message_spec spins (mkWorld (rx_mem w) (tx_mem w) (Some ch) true (mono w)) ch data s eq_refl) as H.
  destruct (run rd wr vol mst (write_message _ _ _ _) s) as [[[r w'] s1] tr].
  destruct H as (Hi & _ & Hm & Hr); [unfold world_inv in *; cbn; by rewrite Hch in Hinv|].
  destruct r as [[x|e]|]; [|destruct Hr as (_ & _ & Hbig); lia|done]. split_and!; try done. by exists ch.
Qed.

(** C13.  One registration with any device that keeps its buffers to their size,
    however it fills them and whatever length it reports: the queues stay
    consistent and the lock is released.  On success the accesses are those of one
    receive and then of one send through the channel the module holds: the reply to
    the request that is returned is copied into the transmit buffer, then the
    descriptor with that buffer's address and the reply's length, the ring slot and
    the index are stored, and only then the device is notified; so at that moment
    the descriptor hands it exactly the reply.  On an error nothing is sent - there
    is no access at all, or those of the receive only - and the clock does not move:
    the channel was not initialised, or the parser refused the bytes received. *)
Theorem handle_one_every_outcome spins w s :
  channel_lock w = false -> world_inv w ->
  let '((r, w'), _, tr) := run rd wr vol mst (handle_one spins w) s in
  world_inv w' /\
  match r with
  | None => True
  | Some x => channel_lock w' = false /\
      match x with
      | Ok req => exists ch tr1 tr2,
          let reply := response_text (fst (build_response (mono w) req)) in
          channel w = Some ch /\ tr = tr1 ++ tr2 /\ reception ch tr1 /\ transmission ch reply tr2 /\
          handed_over (tx ch) (tx_mem w') reply
      | Err e => tx_mem w' = tx_mem w /\ mono w' = mono w /\
                 (e = NotInitialised /\ channel w = None /\ tr = [] \/
                  (e = MalformedRequest \/ e = MessageTooLarge) /\ exists ch, channel w = Some ch /\ reception ch tr)
      end
  end.
Proof.
  intros Hl Hinv. unfold handle_one. rewrite run_bind.
  pose proof (read_request_spec spins w (replicate MAX_MESSAGE 0) s Hl Hinv) as Hr.
  destruct (run rd wr vol mst (read_request _ _ _) s) as [[[r w1] s1] tr1]. destruct Hr as (Hi1 & Htx & Hm1 & Hr).
  destruct r as [[[n buf]|e]|]; cbn [run]; rewrite ?app_nil_r; [|destruct Hr as (? & -> & ? & ?); split_and!; try done; by left|done].
  destruct Hr as (Hl1 & _ & ch & rx1 & Hc & Hc1 & Hrec).
  destruct (parse_register_request (take n buf)) as [req|e] eqn:Hp; cbn [run]; rewrite ?app_nil_r.
  2:{ split_and!; try done. right. split; [|by exists ch]. revert Hp. unfold parse_register_request.
      repeat (case_match; try done); intros [= <-]; auto. }
  destruct (parsed_identifier _ _ Hp) as [Hu Hlen]. pose proof (reply_fits (mono w) req Hu Hlen) as Hf. rewrite Hm1.
  destruct (build_response (mono w) req) as [resp m'] eqn:Eb. cbv zeta.
  destruct Hf as (k & rbuf & -> & Hk & Ht & _). rewrite Ht.
  assert (Hkl : (length (response_text resp) <= BUF_SIZE)%nat).
  { rewrite <- Ht. etransitivity; [apply take_length_le|]. unfold BUF_SIZE. lia. }
  rewrite run_bind.
  pose proof (write_response_spec spins (set_mono w1 m') (response_text resp) s1 Hl1 Hi1 Hkl) as Hw.
  destruct (run rd wr vol mst (write_response_bytes _ _ _) s1) as [[[r2 w2] s2] tr2]. destruct Hw as (Hi2 & _ & Hw).
  destruct r2 as [[x|e]|]; cbn [run]; rewrite ?app_nil_r; [..|done].
  - destruct Hw as (Hl2 & ch2 & Hc2 & Ho & Hsend). cbn in Hc2. rewrite Hc1 in Hc2. injection Hc2 as <-.
    split_and!; try done. exists ch, tr1, tr2. by rewrite Eb.
  - destruct Hw as (_ & _ & Hbad). cbn in Hbad. congruence.
Qed.

(** ** Bring-up *)

Lemma run_try {A B E} (c : Cmd (result A E)) (f : A -> Cmd (result B E)) s :
  run rd wr vol mst (try_cmd c f) s =
  let '(r, s1, tr1) := run rd wr vol mst c s in
  match r with
  | Ok a => let '(b, s2, tr2) := run rd wr vol mst (f a) s1 in (b, s2, tr1 ++ tr2)
  | Err e => (Err e, s1, tr1 ++ [])
  end.
Proof. unfold try_cmd. rewrite run_bind. by destruct (run rd wr vol mst c s) as [[[a|e] s1] tr1]. Qed.

Lemma discover_errors slots : forall s e, fst (fst (run rd wr vol mst (discover_from slots) s)) = Err e -> e = DeviceNotFound.
Proof.
  induction slots as [|slot slots IH]; intros s e; cbn [discover_from]; [by intros [= <-]|].
  unfold read32. cbn [bind run]. destruct (rd s _) as [v1 s1].
  destruct (negb (v1 =? MAGIC)); cbn [bind run].
  { specialize (IH s1 e). by destruct (run rd wr vol mst (discover_from slots) s1) as [[r s2] tr]. }
  destruct (rd s1 _) as [v2 s2]. destruct (negb (v2 =? VERSION_MODERN)); cbn [bind run].
  { specialize (IH s2 e). by destruct (run rd wr vol mst (discover_from slots) s2) as [[r s3] tr]. }
  destruct (rd s2 _) as [v3 s3]. destruct (v3 =? DEVICE_ID_CONSOLE); cbn [bind run]; [done|].
  specialize (IH s3 e). by destruct (run rd wr vol mst (discover_from slots) s3) as [[r s4] tr].
Qed.

Lemma discover_device_errors s e : fst (fst (run rd wr vol mst discover_device s)) = Err e -> e = DeviceNotFound.
Proof. exact (discover_errors (seq 0 QEMU_VIRT_MMIO_COUNT) s e). Qed.

Lemma negotiate_errors t s e : fst (fst (run rd wr vol mst (reset_and_negotiate t) s)) = Err e -> e = FeatureNegotiationFailed.
Proof.
  unfold reset_and_negotiate, read32, write32. cbn [bind run]. destruct (rd _ _) as [lo s1]. destruct (rd _ _) as [hi s2].
  destruct (_ =? 0); cbn [bind run]; [by intros [= <-]|]. destruct (rd _ _) as [st s3].
  destruct (_ =? 0); cbn [bind run]; [by intros [= <-]|done].
Qed.

Lemma configure_outcome t idx a s :
  match fst (fst (run rd wr vol mst (configure t idx a) s)) with
  | Ok q => q = mkQueue a idx 0 0
  | Err e => e = QueueSetupFailed
  end.
Proof.
  unfold configure, read32, write32. cbn [bind run]. destruct (rd _ _) as [mx s1]. destruct (mx =? 0); cbn [bind run]; [done|].
  destruct (rd _ _) as [ready s2]. by destruct (negb _).
Qed.

(** The receive side once a channel is up: one writable buffer posted. *)
Definition posted (rx_addr : Z) (ch : Channel) (m : QueueMem) : Prop :=
  index (rx ch) = SENTINEL_RX_QUEUE /\ index (tx ch) = SENTINEL_TX_QUEUE /\
  avail_idx (rx ch) = 1 /\ avail_idx (tx ch) = 0 /\
  desc m !! 0%nat = Some (mkDesc (rx_addr + off_buffer) (Z.of_nat BUF_SIZE) VIRTQ_DESC_F_WRITE 0).

Lemma init_channel_outcome rx_addr tx_addr w s :
  channel w = None -> world_inv w ->
  match fst (fst (run rd wr vol mst (init_channel rx_addr tx_addr w) s)) with
  | Err e => e = DeviceNotFound \/ e = FeatureNegotiationFailed \/ e = QueueSetupFailed
  | Ok w' => world_inv w' /\ channel_lock w' = channel_lock w /\ exists ch, channel w' = Some ch /\ posted rx_addr ch (rx_mem w')
  end.
Proof.
  intros Hc (Hr & Ht & Hz). rewrite Hc in Hz. unfold init_channel. rewrite run_try.
  pose proof (discover_device_errors s) as H1. destruct (run rd wr vol mst discover_device s) as [[[t|e] s1] tr1]; cbn [fst] in *; [|by left; apply H1].
  rewrite run_try. pose proof (negotiate_errors t s1) as H2.
  destruct (run rd wr vol mst (reset_and_negotiate t) s1) as [[[u|e] s2] tr2]; cbn [fst] in *; [|by right; left; apply H2].
  rewrite run_try. pose proof (configure_outcome t SENTINEL_RX_QUEUE rx_addr s2) as H3.
  destruct (run rd wr vol mst (configure t SENTINEL_RX_QUEUE rx_addr) s2) as [[[rq|e] s3] tr3]; cbn [fst] in *; [|by right; right].
  rewrite run_try. pose proof (configure_outcome t SENTINEL_TX_QUEUE tx_addr s3) as H4.
  destruct (run rd wr vol mst (configure t SENTINEL_TX_QUEUE tx_addr) s3) as [[[tq|e] s4] tr4]; cbn [fst] in *; [|by right; right].
  subst rq tq. rewrite run_try. cbn [negotiate_multiport run write32 bind]. rewrite run_bind.
  destruct (run_submit (mkQueue rx_addr SENTINEL_RX_QUEUE 0 0) (rx_mem w) t (Z.of_nat BUF_SIZE) true
              (wr s4 (base t + STATUS)
                 (Z.lor (Z.lor (Z.lor STATUS_ACKNOWLEDGE STATUS_DRIVER) STATUS_FEATURES_OK) STATUS_DRIVER_OK))) as [s5 ->].
  pose proof (submitted_ok (mkQueue rx_addr SENTINEL_RX_QUEUE 0 0) (rx_mem w) (Z.of_nat BUF_SIZE) true Hr) as Hs.
  specialize (Hs ltac:(split; cbn; lia) ltac:(lia)).
  assert (Hd : desc (snd (submitted (mkQueue rx_addr SENTINEL_RX_QUEUE 0 0) (rx_mem w) (Z.of_nat BUF_SIZE) true)) !! 0%nat =
               Some (mkDesc (rx_addr + off_buffer) (Z.of_nat BUF_SIZE) VIRTQ_DESC_F_WRITE 0)).
  { apply list_lookup_insert_eq. destruct Hr as (-> & _). unfold QUEUE_SIZE. lia. }
  destruct (submitted _ _ _ _) as [q m] eqn:Eq. cbn [run fst snd] in *.
  assert (Hq : q = mkQueue rx_addr SENTINEL_RX_QUEUE 1 0) by (unfold submitted in Eq; injection Eq as <- _; reflexivity).
  split; [|split; [reflexivity|]].
  - unfold world_inv. cbn [rx_mem tx_mem channel rx tx]. split; [apply Hs|]. split; [exact Ht|]. split; [exact Hs|].
    split; [exact Ht|]. split; [exact Hz|]. split; (split; cbn; lia).
  - eexists. split; [reflexivity|]. unfold posted. cbn [rx tx rx_mem]. subst q. by split_and!.
Qed.

(** C36.  Bring-up with any device: it ends with the lock free and the queues
    consistent.  A second call is a no-op without a single device access.  A first
    call either fails with one of its three errors and leaves the module's state as
    it was, or leaves a channel on queues 4 and 5 with one writable 4096-byte buffer
    posted for the first request. *)
Theorem init_every_outcome rx_addr tx_addr w s :
  channel_lock w = false -> world_inv w ->
  let '((r, w'), _, tr) := run rd wr vol mst (init rx_addr tx_addr w) s in
  channel_lock w' = false /\ world_inv w' /\
  match channel w with
  | Some _ => r = Some (Ok tt) /\ tr = [] /\ w' = w
  | None =>
      (r = Some (Ok tt) /\ exists ch, channel w' = Some ch /\ posted rx_addr ch (rx_mem w')) \/
      (w' = w /\ (r = Some (Err DeviceNotFound) \/ r = Some (Err FeatureNegotiationFailed) \/ r = Some (Err QueueSetupFailed)))
  end.
Proof.
  intros Hl Hinv. unfold init. rewrite run_guard by exact Hl. cbn [channel].
  assert (Hw : unlocked (mkWorld (rx_mem w) (tx_mem w) (channel w) true (mono w)) = w) by (destruct w; cbn in *; by subst).
  destruct (channel w) as [ch|] eqn:Hch; cbn [run]; rewrite ?Hw; [done|]. rewrite run_bind.
  pose proof (init_channel_outcome rx_addr tx_addr (mkWorld (rx_mem w) (tx_mem w) None true (mono w)) s eq_refl) as Ho.
  specialize (Ho ltac:(unfold world_inv in *; cbn; by rewrite Hch in Hinv)).
  destruct (run rd wr vol mst (init_channel _ _ _) s) as [[[w1|e] s1] tr1]; cbn [fst] in Ho; cbn [run].
  - destruct Ho as (Hi & _ & ch & Hc & Hp). split_and!; [done|exact Hi|]. left. split; [done|]. by exists ch.
  - rewrite Hw. split_and!; [exact Hl|exact Hinv|]. right. split; [done|]. naive_solver.
Qed.

End AnyDevice.

(** ** A concrete device *)

(** A console in the first slot that accepts everything and delivers one request. *)
Definition demo_rd (s : unit) (addr : Z) : Z * unit :=
  let off := addr - QEMU_VIRT_MMIO_BASE in
  (if off =? MAGIC_VALUE then MAGIC else if off =? VERSION then VERSION_MODERN
   else if off =? DEVICE_ID then DEVICE_ID_CONSOLE else if off =? DEVICE_FEATURES then 3
   else if off =? STATUS then 15 else if off =? QUEUE_NUM_MAX then 64 else if off =? QUEUE_READY then 1 else 0, s).

Definition demo_wr (s : unit) (addr v : Z) : unit := s.

Definition demo_text : list Z := request_text (lit "svc") Write.

Definition demo_view : View :=
  mkView (mkUsed 0 1 (mkElem 0 (Z.of_nat (length demo_text)) :: replicate 15 (mkElem 0 0)) 0)
    (demo_text ++ replicate (BUF_SIZE - length demo_text) 0).

Definition demo_mst (s : unit) (mem : Z) (st : MemStore) : unit := s.

Definition demo_vol (s : unit) (queue : Z) : View * unit := (demo_view, s).

Lemma demo_sized s q : length (v_buffer (fst (demo_vol s q))) = BUF_SIZE.
Proof. cbn [demo_vol fst v_buffer demo_view]. rewrite length_app, length_replicate. vm_compute. reflexivity. Qed.

Lemma QueueMem_new_ok : mem_ok QueueMem_new.
Proof.
  split_and!; [reflexivity|reflexivity|by apply Forall_replicate|apply length_replicate|]. by intros d [= <-].
Qed.

Lemma boot_world_inv : world_inv boot_world.
Proof. split_and!; [apply QueueMem_new_ok..|reflexivity]. Qed.

Lemma init_every_outcome_witness :
  let '((r, w'), _, _) := run demo_rd demo_wr demo_vol demo_mst (init 0x300000 0x310000 boot_world) tt in
  r = Some (Ok tt) /\ channel_lock w' = false /\ is_Some (channel w').
Proof.
  pose proof (init_every_outcome demo_rd demo_wr demo_vol demo_mst 0x300000 0x310000 boot_world tt eq_refl boot_world_inv) as H.
  destruct (run demo_rd demo_wr demo_vol demo_mst (init 0x300000 0x310000 boot_world) tt) as [[[r w'] s'] tr] eqn:E.
  assert (Hr : r = fst (fst (fst (run demo_rd demo_wr demo_vol demo_mst (init 0x300000 0x310000 boot_world) tt)))) by (by rewrite E).
  vm_compute in Hr. destruct H as (Hl & _ & H). cbn [boot_world channel] in H.
  destruct H as [(Hok & ch & Hc & _)|(_ & [Hbad|[Hbad|Hbad]])]; [|rewrite Hr in Hbad; discriminate..].
  split; [exact Hok|]. split; [exact Hl|]. by exists ch.
Defined.

Definition demo_rx : VirtQueue * QueueMem := submitted (mkQueue 0x300000 SENTINEL_RX_QUEUE 0 0) QueueMem_new (Z.of_nat BUF_SIZE) true.

Definition demo_world : World :=
  mkWorld (snd demo_rx) QueueMem_new
    (Some (mkChannel (mkTransport QEMU_VIRT_MMIO_BASE) (fst demo_rx) (mkQueue 0x310000 SENTINEL_TX_QUEUE 0 0))) false 0.

Lemma demo_world_inv : world_inv demo_world.
Proof.
  pose proof (submitted_ok (mkQueue 0x300000 SENTINEL_RX_QUEUE 0 0) QueueMem_new (Z.of_nat BUF_SIZE) true QueueMem_new_ok) as H.
  specialize (H ltac:(split; cbn; lia) ltac:(lia)).
  split; [apply H|]. split; [apply QueueMem_new_ok|]. split; [exact H|]. split; [apply QueueMem_new_ok|].
  split; [reflexivity|]. split; (split; cbn; lia).
Qed.

Lemma handle_one_every_outcome_witness :
  let '((r, w'), _, tr) := run demo_rd demo_wr demo_vol demo_mst (handle_one 3 demo_world) tt in
  channel_lock w' = false /\
  exists req tr1 tr2 ch, r = Some (Ok req) /\ agent_id req = lit "svc" /\ tr = tr1 ++ tr2 /\
    transmission ch (response_text (fst (build_response 0 req))) tr2 /\ mem (tx ch) = 0x310000.
Proof.
  pose proof (handle_one_every_outcome demo_rd demo_wr demo_vol demo_mst demo_sized 3 demo_world tt eq_refl demo_world_inv) as H.
  destruct (run demo_rd demo_wr demo_vol demo_mst (handle_one 3 demo_world) tt) as [[[r w'] s'] tr] eqn:E.
  assert (Hr : r = fst (fst (fst (run demo_rd demo_wr demo_vol demo_mst (handle_one 3 demo_world) tt)))) by (by rewrite E).
  destruct H as (_ & H). destruct r as [[req|e]|]; [|vm_compute in Hr; discriminate..].
  destruct H as (Hl & ch & tr1 & tr2 & Hch & Htr & _ & Hsend & _). split; [exact Hl|]. exists req, tr1, tr2, ch.
  split_and!; [done| |exact Htr|exact Hsend|by injection Hch as <-].
  vm_compute in Hr. injection Hr as ->. vm_compute. reflexivity.
Defined.

(** ** Queues shorter than the driver's ring *)

(** A device whose queues have [size] entries, as [configure] allows, uses the first
    [size] slots of the ring in turn; the others keep their initial value. *)
Definition used_by_device (size : nat) (elems : list VirtqUsedElem) (idx : Z) : VirtqUsed :=
  mkUsed 0 idx (elems ++ replicate (QUEUE_SIZE - size) (mkElem 0 0)) 0.

(**  A device with shorter queues: [configure] accepts any maximum from one up
    and programs the smaller size, but the driver goes on counting slots modulo 16.
    When its used index reaches a slot the device does not use, the message
    delivered by the device is taken to be empty, whatever its length. *)
Theorem short_queue_loses_messages size elems idx buf q spins :
  (0 < size < QUEUE_SIZE)%nat -> length elems = size ->
  (size <= slot_of (last_used_idx q))%nat -> idx <> last_used_idx q ->
  let vol (s : unit) (_ : Z) := (mkView (used_by_device size elems idx) buf, s) in
  fst (fst (run demo_rd demo_wr vol demo_mst (poll_used (Datatypes.S spins) q) tt)) =
  Some (0, mkQueue (mem q) (index q) (avail_idx q) (add16 (last_used_idx q) 1)).
Proof.
  intros Hs Hlen Hslot Hidx. cbn [poll_used run v_used used_by_device u_idx].
  rewrite (proj2 (Z.eqb_neq _ _) Hidx). cbn [negb run fst v_used u_ring].
  unfold used_by_device. cbn [u_ring]. rewrite app_nth2 by lia.
  assert (Hn : forall k n, nth k (replicate n (mkElem 0 0)) (mkElem 0 0) = mkElem 0 0).
  { induction k as [|k IH]; intros [|n]; cbn; try done. }
  by rewrite Hn.
Qed.

(** Eight entries, the ninth message of 75 bytes. *)
Lemma short_queue_loses_messages_witness :
  let q := mkQueue 0x300000 SENTINEL_RX_QUEUE 9 8 in
  let vol (s : unit) (_ : Z) := (mkView (used_by_device 8 (replicate 8 (mkElem 0 75)) 9) (replicate 80 0), s) in
  fst (fst (run demo_rd demo_wr vol demo_mst (poll_used 1 q) tt)) = Some (0, mkQueue 0x300000 SENTINEL_RX_QUEUE 9 9).
Proof.
  apply (short_queue_loses_messages 8 (replicate 8 (mkElem 0 75)) 9 (replicate 80 0) (mkQueue 0x300000 SENTINEL_RX_QUEUE 9 8) 0);
    [unfold QUEUE_SIZE; lia|reflexivity|vm_compute; lia|cbn; lia].
Defined.

End Virtio.
