(* ===== verification/Cpuid.v ===== *)
(** CPU identification (src/src/drivers/cpuid.rs, src/src/drivers/mod.rs): decoding
    of the CPUID registers and the boot-log block.  The instruction itself is a
    parameter, a function from a leaf to the four registers. *)

From Stdlib Require Import ZArith Lia.
From stdpp Require Import base list strings.
From S2P Require Import Prelude Sha256 AuditTrail ConfigBuffer SafeTerm Ipc.

Open Scope Z_scope.

Module Cpuid.
Import Ipc.

Definition EXPECTED_VENDOR : list Z := lit "GenuineIntel".

Record Features := mkFeatures { sse : bool; sse2 : bool; avx : bool }.

Definition SSE_BIT : Z := Z.shiftl 1 25.
Definition SSE2_BIT : Z := Z.shiftl 1 26.
Definition AVX_BIT : Z := Z.shiftl 1 28.

Definition decode (ecx edx : Z) : Features :=
  mkFeatures (negb (Z.land edx SSE_BIT =? 0)) (negb (Z.land edx SSE2_BIT =? 0)) (negb (Z.land ecx AVX_BIT =? 0)).

Record CpuInfo := mkInfo {
  max_leaf : Z;
  vendor : list Z;
  family : Z;
  model : Z;
  stepping : Z;
  features : Features
}.

Definition decode_vendor (ebx ecx edx : Z) : list Z :=
  ConfigBuffer.to_le_bytes 4 ebx ++ ConfigBuffer.to_le_bytes 4 edx ++ ConfigBuffer.to_le_bytes 4 ecx.

Definition decode_version (eax : Z) : Z * Z * Z :=
  let stepping := Z.land eax 0xF in
  let base_model := Z.land (Z.shiftr eax 4) 0xF in
  let base_family := Z.land (Z.shiftr eax 8) 0xF in
  let ext_model := Z.land (Z.shiftr eax 16) 0xF in
  let ext_family := Z.land (Z.shiftr eax 20) 0xFF in
  let family := if base_family =? 0xF then base_family + ext_family else base_family in
  let model := if (base_family =? 0x6) || (base_family =? 0xF) then Z.lor (Z.shiftl ext_model 4) base_model else base_model in
  (family, model, stepping).

Definition vendor_str (i : CpuInfo) : option (list Z) := if utf8 (vendor i) then Some (vendor i) else None.

Definition vendor_matches_expected (i : CpuInfo) : bool := bool_decide (vendor i = EXPECTED_VENDOR).

Definition detect (raw_cpuid : Z -> Z * Z * Z * Z) : CpuInfo :=
  let '(max_leaf, ebx0, ecx0, edx0) := raw_cpuid 0 in
  let vendor := decode_vendor ebx0 ecx0 edx0 in
  if 1 <=? max_leaf then
    let '(eax1, _, ecx1, edx1) := raw_cpuid 1 in
    let '(family, model, stepping) := decode_version eax1 in
    mkInfo max_leaf vendor family model stepping (decode ecx1 edx1)
  else mkInfo max_leaf vendor 0 0 0 (mkFeatures false false false).

(** Lower-case hexadecimal display of a [u32]; eight digits are enough. *)
Fixpoint hex_digits (fuel : nat) (n : Z) (acc : list Z) : list Z :=
  match fuel with
  | O => acc
  | S fuel => let acc := hex_char (n mod 16) :: acc in if n / 16 =? 0 then acc else hex_digits fuel (n / 16) acc
  end.

Definition hex (n : Z) : list Z := hex_digits 8 n [].

Definition yn (b : bool) : list Z := if b then lit "yes" else lit "no".

Definition nl : list Z := [10].

Definition fmt (i : CpuInfo) : list Z :=
  lit "    vendor: " ++ default (lit "<non-ascii>") (vendor_str i) ++ nl ++
  (if vendor_matches_expected i
   then lit "    vendor check: ok (expected " ++ EXPECTED_VENDOR ++ lit ")" ++ nl
   else lit "    vendor check: MISMATCH (expected " ++ EXPECTED_VENDOR ++ lit ")" ++ nl) ++
  lit "    family/model/stepping: " ++ decimal (family i) ++ lit "/" ++ decimal (model i) ++ lit "/" ++ decimal (stepping i) ++
  lit " (0x" ++ hex (family i) ++ lit "/0x" ++ hex (model i) ++ lit "/0x" ++ hex (stepping i) ++ lit ")" ++ nl ++
  lit "    features: SSE=" ++ yn (sse (features i)) ++ lit " SSE2=" ++ yn (sse2 (features i)) ++
  lit " AVX=" ++ yn (avx (features i)) ++ nl ++
  lit "    max cpuid leaf: 0x" ++ hex (max_leaf i).

(** The serial sink: the port writes for a byte and for a string. *)
Definition COM1 : Z := 0x3F8.
Definition outb_com1 (byte : Z) : list Serial.PortOp := [Serial.Out COM1 byte].
Definition write_str (s : list Z) : list Serial.PortOp := flat_map outb_com1 s.

(** [drivers::init]: what it returns and what it sends to COM1. *)
Definition init (raw_cpuid : Z -> Z * Z * Z * Z) : CpuInfo * list Z :=
  let info := detect raw_cpuid in
  (info, (lit "  cpuid: detecting CPU" ++ nl) ++ (fmt info ++ nl)).

(** [init] as it drives the port: every byte is written once, in order. *)
Definition init_ports (raw_cpuid : Z -> Z * Z * Z * Z) : CpuInfo * list Serial.PortOp :=
  let info := detect raw_cpuid in
  (info, write_str (lit "  cpuid: detecting CPU" ++ nl) ++ write_str (fmt info ++ nl)).

Lemma init_ports_sends raw_cpuid :
  init_ports raw_cpuid = (fst (init raw_cpuid), map (Serial.Out COM1) (snd (init raw_cpuid))).
Proof.
  assert (E : forall s, write_str s = map (Serial.Out COM1) s).
  { induction s as [|b s IH]; [done|]. cbn. by f_equal. }
  unfold init_ports, init. cbn [fst snd]. by rewrite !E, <- map_app.
Qed.

(** ** The version word *)

(** The word a processor reports for the fields of Intel's manual. *)
Definition encode_version (base_family base_model stepping ext_family ext_model : Z) : Z :=
  stepping + 16 * base_model + 256 * base_family + 65536 * ext_model + 1048576 * ext_family.

Lemma field_of_word lo f hi n k :
  0 <= n -> 0 <= k -> 0 <= lo < 2 ^ n -> 0 <= f < 2 ^ k ->
  Z.land (Z.shiftr (lo + 2 ^ n * (f + 2 ^ k * hi)) n) (Z.ones k) = f.
Proof.
  intros Hn Hk Hlo Hf. rewrite Z.land_ones, Z.shiftr_div_pow2 by lia.
  rewrite Z.mul_comm, Z.div_add by (apply Z.pow_nonzero; lia). rewrite (Z.div_small lo) by lia.
  rewrite Z.add_0_l, Z.mul_comm, Z.mod_add by (apply Z.pow_nonzero; lia). by apply Z.mod_small.
Qed.

Lemma lor_nibbles em bm : 0 <= em -> 0 <= bm < 16 -> Z.lor (Z.shiftl em 4) bm = 16 * em + bm.
Proof.
  intros He Hb. assert (Hd : Z.land (Z.shiftl em 4) bm = 0).
  { apply Z.bits_inj'. intros i Hi. rewrite Z.land_spec, Z.bits_0. destruct (Z.lt_ge_cases i 4) as [L|G].
    - by rewrite Z.shiftl_spec_low.
    - rewrite <- (Z.mod_small bm (2 ^ 4)) by lia. rewrite Z.mod_pow2_bits_high by lia. apply andb_false_r. }
  pose proof (Z.add_lor_land (Z.shiftl em 4) bm) as H. rewrite Hd, Z.add_0_r in H.
  rewrite H, Z.shiftl_mul_pow2 by lia. lia.
Qed.

(**  Version decoding: for every base family, base model, stepping, extended
    family and extended model in their field widths, decoding the word that packs
    them gives the displayed family (extended only for 15), the displayed model
    (extended for 6 and 15) and the stepping; no other bit of the word matters. *)
Theorem decode_version_correct bf bm st ef em reserved :
  0 <= st < 16 -> 0 <= bm < 16 -> 0 <= bf < 16 -> 0 <= em < 16 -> 0 <= ef < 256 ->
  decode_version (encode_version bf bm st ef em + 2 ^ 12 * (reserved mod 16)) =
  ((if bf =? 15 then 15 + ef else bf), (if (bf =? 6) || (bf =? 15) then 16 * em + bm else bm), st).
Proof.
  intros Hst Hbm Hbf Hem Hef. pose proof (Z.mod_pos_bound reserved 16 ltac:(lia)) as Hr. set (r := reserved mod 16) in *.
  unfold decode_version, encode_version. set (w := _ + 2 ^ 12 * r).
  assert (H0 : Z.land w 0xF = st).
  { rewrite <- (field_of_word 0 st (bm + 16 * (bf + 16 * (r + 16 * (em + 16 * ef)))) 0 4) by lia.
    rewrite Z.shiftr_0_r. f_equal. unfold w. lia. }
  assert (H4 : Z.land (Z.shiftr w 4) 0xF = bm).
  { rewrite <- (field_of_word st bm (bf + 16 * (r + 16 * (em + 16 * ef))) 4 4) by lia. do 2 f_equal. unfold w. lia. }
  assert (H8 : Z.land (Z.shiftr w 8) 0xF = bf).
  { rewrite <- (field_of_word (st + 16 * bm) bf (r + 16 * (em + 16 * ef)) 8 4) by lia. do 2 f_equal. unfold w. lia. }
  assert (H16 : Z.land (Z.shiftr w 16) 0xF = em).
  { rewrite <- (field_of_word (st + 16 * bm + 256 * bf + 4096 * r) em ef 16 4) by lia. do 2 f_equal. unfold w. lia. }
  assert (H20 : Z.land (Z.shiftr w 20) 0xFF = ef).
  { rewrite <- (field_of_word (st + 16 * bm + 256 * bf + 4096 * r + 65536 * em) ef 0 20 8) by lia. do 2 f_equal. unfold w. lia. }
  cbv zeta. rewrite H0, H4, H8, H16, H20. clear w H0 H4 H8 H16 H20.
  rewrite lor_nibbles by lia. destruct (Z.eqb_spec bf 15) as [->|]; reflexivity.
Qed.

Lemma decode_version_correct_witness : decode_version 0x306C3 = (6, 0x3C, 3).
Proof. exact (decode_version_correct 6 0xC 3 0 3 0 ltac:(lia) ltac:(lia) ltac:(lia) ltac:(lia) ltac:(lia)). Defined.

(** The vendor bytes give back the registers, and only Intel's three spell the
    expected name. *)
Lemma vendor_registers ebx ecx edx :
  is_u32 ebx -> is_u32 ecx -> is_u32 edx ->
  (decode_vendor ebx ecx edx = EXPECTED_VENDOR <->
   ebx = 0x756E6547 /\ edx = 0x49656E69 /\ ecx = 0x6C65746E).
Proof.
  intros Hb Hc Hd. unfold decode_vendor.
  change EXPECTED_VENDOR with (ConfigBuffer.to_le_bytes 4 0x756E6547 ++ ConfigBuffer.to_le_bytes 4 0x49656E69 ++
                               ConfigBuffer.to_le_bytes 4 0x6C65746E).
  split; [|by intros (-> & -> & ->)]. intros H.
  apply app_inj_1 in H as [H1 H]; [|by rewrite !ConfigBuffer.to_le_bytes_length].
  apply app_inj_1 in H as [H2 H3]; [|by rewrite !ConfigBuffer.to_le_bytes_length].
  split_and!; (apply ConfigBuffer.le_bytes_eq_u32; [assumption|split; [lia|reflexivity]|assumption]).
Qed.

Definition u32_registers (r : Z * Z * Z * Z) : Prop :=
  let '(a, b, c, d) := r in is_u32 a /\ is_u32 b /\ is_u32 c /\ is_u32 d.

(**  Detection on any processor: the vendor check passes exactly when leaf 0
    spells GenuineIntel in EBX, EDX, ECX; and a processor that reports no leaf 1
    gets zero version fields and no features, without leaf 1 being read. *)
Theorem detect_correct raw_cpuid :
  u32_registers (raw_cpuid 0) ->
  let info := detect raw_cpuid in
  let '(eax, ebx, ecx, edx) := raw_cpuid 0 in
  (vendor_matches_expected info = true <-> ebx = 0x756E6547 /\ edx = 0x49656E69 /\ ecx = 0x6C65746E) /\
  length (vendor info) = 12%nat /\ max_leaf info = eax /\
  (eax = 0 -> info = detect (fun leaf => if leaf =? 0 then raw_cpuid 0 else (0, 0, 0, 0)) /\
              family info = 0 /\ model info = 0 /\ stepping info = 0 /\ features info = mkFeatures false false false).
Proof.
  unfold detect. destruct (raw_cpuid 0) as [[[eax ebx] ecx] edx] eqn:E0. intros (_ & Hb & Hc & Hd). cbn [Z.eqb].
  set (v := decode_vendor ebx ecx edx).
  assert (Hv : bool_decide (v = EXPECTED_VENDOR) = true <-> ebx = 0x756E6547 /\ edx = 0x49656E69 /\ ecx = 0x6C65746E).
  { rewrite bool_decide_eq_true. by apply vendor_registers. }
  assert (Hl : length v = 12%nat) by (unfold v, decode_vendor; by rewrite !length_app, !ConfigBuffer.to_le_bytes_length).
  destruct (raw_cpuid 1) as [[[eax1 ebx1] ecx1] edx1]. destruct (decode_version eax1) as [[fa mo] st].
  cbv zeta. destruct (Z.leb_spec 1 eax) as [H1|H1];
    (split; [exact Hv|]); (split; [exact Hl|]); (split; [reflexivity|]); intros ->; [lia|done].
Qed.

Lemma detect_correct_witness :
  vendor_matches_expected (detect (fun leaf => if leaf =? 0 then (0, 0x756E6547, 0x6C65746E, 0x49656E69) else (0, 0, 0, 0))) = true.
Proof.
  pose proof (detect_correct (fun leaf => if leaf =? 0 then (0, 0x756E6547, 0x6C65746E, 0x49656E69) else (0, 0, 0, 0))) as H.
  cbn [Z.eqb u32_registers] in H. apply H; repeat split; vm_compute; congruence.
Defined.

End Cpuid.
