(* ===== verification/Boot.v ===== *)
(** The entry points (src/src/main.rs, src/src/safemode/main.rs): the order in which
    the subsystems are brought up, what the serial log says, and where the boot
    stops.

    [Subsystems] is what the kernel asks of the parts: one operation per call of
    [kernel_main].  The theorems about order and log are proved against it; the
    instance [golem] puts the models of the other files in place, and the theorem
    about configurations is proved of that whole machine.  There the migration page
    is a frame of the physical memory of Paging.v, reached through the page tables. *)

From Stdlib Require Import ZArith Lia String.
From stdpp Require Import base list gmap strings.
From S2P Require Import Prelude MemLayout FrameAlloc Paging Heap MemInit Process Scheduler VfsTypes RamFs Vfs Syscall.
From S2P Require Import Sha256 AuditTrail ConfigBuffer Migration Ipc Virtio Cpuid F32 SafeTerm.

Open Scope Z_scope.

Module Boot.

(** [None] is a call that does not come back: a panic, whose handler halts. *)
Class Subsystems (W : Type) := {
  sentinel_init : W -> option (result unit Ipc.IpcError * W);
  memory_init : W -> option (result unit string * W);
  migration_run : W -> option (result unit Migration.MigrationError * W);
  fs_init : W -> option W;
  drivers_init : W -> list Z;
  scheduler_init : W -> result unit Sched.SchedError * W;
  syscall_init : W -> W
}.

(** Where the CPU is parked. *)
Inductive Stop := AtMemory | AtMigration | AtScheduler | AtReady | Panicked.

Definition serial_write (s : string) : list Z := Audit.as_bytes s.
Definition line (s : string) : list Z := serial_write s ++ [10].

Section KernelMain.
Context {W : Type} `{Subsystems W}.

(** The serial log, the final state and the place of the halt. *)
Definition boot_result : Type := (list Z * W * Stop)%type.

Definition log (l : list Z) (r : boot_result) : boot_result := let '(out, w, st) := r in (l ++ out, w, st).

Definition halt (w : W) (st : Stop) : boot_result := ([], w, st).

Definition boot_syscall (w : W) : boot_result :=
  let w := syscall_init w in
  log (line "  syscall: initialized") (log (line "Golem Linux ready") (halt w AtReady)).

Definition boot_scheduler (w : W) : boot_result :=
  match scheduler_init w with
  | (Err _, w) => log (line "  scheduler: FAILED") (halt w AtScheduler)
  | (Ok _, w) => log (line "  scheduler: initialized") (boot_syscall w)
  end.

Definition boot_fs (w : W) : boot_result :=
  match fs_init w with
  | None => halt w Panicked
  | Some w => log (line "  fs: initialized") (log (drivers_init w) (boot_scheduler w))
  end.

Definition boot_migration (w : W) : boot_result :=
  match migration_run w with
  | None => halt w Panicked
  | Some (Err e, w) =>
      log (serial_write "  migration: FAILED — " ++ serial_write (Migration.reason e) ++ [10]) (halt w AtMigration)
  | Some (Ok _, w) => log (line "  migration: ok") (boot_fs w)
  end.

Definition boot_memory (w : W) : boot_result :=
  match memory_init w with
  | None => halt w Panicked
  | Some (Err _, w) => log (line "  memory: FAILED") (halt w AtMemory)
  | Some (Ok _, w) => log (line "  memory: initialized") (boot_migration w)
  end.

(** The result of [sentinel::init] is dropped. *)
Definition kernel_main (w : W) : boot_result :=
  log (line "Golem Linux gkern v0.1.0")
    (match sentinel_init w with
     | None => halt w Panicked
     | Some (_, w) => log (line "  sentinel: initialized") (boot_memory w)
     end).

(** The log of a complete boot. *)
Definition full_log (cpu : list Z) : list Z :=
  line "Golem Linux gkern v0.1.0" ++ line "  sentinel: initialized" ++ line "  memory: initialized" ++
  line "  migration: ok" ++ line "  fs: initialized" ++ cpu ++ line "  scheduler: initialized" ++
  line "  syscall: initialized" ++ line "Golem Linux ready".

(**  The kernel announces readiness only after memory, migration, filesystem and
    scheduler have come up in that order, each from the state the one before left,
    with system calls enabled last; the serial log is then the full boot log.  The
    outcome of the Sentinel channel does not matter: the log calls it initialised
    and the boot goes on even when it failed. *)
Theorem ready_means_every_step w out w' :
  kernel_main w = (out, w', AtReady) <->
  exists sentinel w1 w2 w3 w4 w5,
    sentinel_init w = Some (sentinel, w1) /\ memory_init w1 = Some (Ok tt, w2) /\
    migration_run w2 = Some (Ok tt, w3) /\ fs_init w3 = Some w4 /\
    scheduler_init w4 = (Ok tt, w5) /\ w' = syscall_init w5 /\ out = full_log (drivers_init w4).
Proof.
  unfold kernel_main, boot_memory, boot_migration, boot_fs, boot_scheduler, boot_syscall. split.
  - destruct (sentinel_init w) as [[r1 w1]|] eqn:E1; [|done].
    destruct (memory_init w1) as [[[[]|e2] w2]|] eqn:E2; [|done..].
    destruct (migration_run w2) as [[[[]|e3] w3]|] eqn:E3; [|done..].
    destruct (fs_init w3) as [w4|] eqn:E4; [|done].
    destruct (scheduler_init w4) as [[[]|e5] w5] eqn:E5; [|done]. cbn [log halt]. intros [= <- <-].
    exists r1, w1, w2, w3, w4, w5. split_and!; first [assumption|reflexivity].
  - intros (r1 & w1 & w2 & w3 & w4 & w5 & -> & -> & -> & -> & -> & -> & ->). cbn [log halt].
    reflexivity.
Qed.

End KernelMain.

(** ** The migration page

    The page is a frame of physical memory: its 4096 bytes are the 512 words that
    the page tables and the rest of memory are made of. *)

Definition page_bytes (m : Z -> Z) (F : Z) : list Z :=
  flat_map (fun i => ConfigBuffer.to_le_bytes 8 (m (F + 8 * Z.of_nat i))) (seq 0 512).

Definition write_page (m : Z -> Z) (F : Z) (bytes : list Z) : Z -> Z :=
  fun a => if (F <=? a) && (a <? F + PAGE_SIZE) then ConfigBuffer.field (Z.to_nat (a - F)) 8 bytes else m a.

Lemma page_bytes_ext m m' F :
  (forall a, F <= a < F + PAGE_SIZE -> m' a = m a) -> page_bytes m' F = page_bytes m F.
Proof.
  intros H. unfold page_bytes. rewrite !flat_map_concat_map. f_equal. apply map_ext_in. intros i Hi%in_seq.
  rewrite H; [reflexivity|unfold PAGE_SIZE; lia].
Qed.

Lemma page_bytes_byte m F : Forall ConfigBuffer.is_byte (page_bytes m F).
Proof.
  unfold page_bytes. induction (seq 0 512) as [|i l IH]; [constructor|].
  apply Forall_app. split; [apply ConfigBuffer.to_le_bytes_byte|exact IH].
Qed.

Lemma words_length (f : nat -> list Z) l : (forall i, length (f i) = 8%nat) -> length (flat_map f l) = (8 * length l)%nat.
Proof. intros H. induction l as [|i l IH]; [reflexivity|]. cbn [flat_map length]. rewrite length_app, H, IH. lia. Qed.

Lemma page_bytes_length m F : length (page_bytes m F) = 4096%nat.
Proof.
  unfold page_bytes. rewrite words_length by (intros; apply ConfigBuffer.to_le_bytes_length).
  by rewrite length_seq.
Qed.

Lemma chunks (bytes : list Z) n : forall k, length bytes = (8 * (k + n))%nat ->
  flat_map (fun i => take 8 (drop (8 * i) bytes)) (seq k n) = drop (8 * k) bytes.
Proof.
  induction n as [|n IH]; intros k Hl; cbn [seq flat_map]; [rewrite drop_ge by lia; reflexivity|].
  rewrite IH by lia. replace (8 * Datatypes.S k)%nat with (8 * k + 8)%nat by lia.
  rewrite <- drop_drop. apply take_drop.
Qed.

(** What is written to the page is read back. *)
Lemma page_round_trip m F bytes :
  length bytes = 4096%nat -> Forall ConfigBuffer.is_byte bytes -> page_bytes (write_page m F bytes) F = bytes.
Proof.
  intros Hl Hb. transitivity (drop (8 * 0) bytes); [|reflexivity]. rewrite <- (chunks bytes 512 0) by exact Hl.
  unfold page_bytes. rewrite !flat_map_concat_map. f_equal. apply map_ext_in. intros i Hi%in_seq.
  unfold write_page. replace ((F <=? F + 8 * Z.of_nat i) && (F + 8 * Z.of_nat i <? F + PAGE_SIZE)) with true
    by (symmetry; apply andb_true_iff; unfold PAGE_SIZE; lia).
  replace (Z.to_nat (F + 8 * Z.of_nat i - F)) with (8 * i)%nat by lia.
  unfold ConfigBuffer.field, ConfigBuffer.bytes_at. set (w := take 8 (drop (8 * i) bytes)).
  assert (Hw : length w = 8%nat) by (unfold w; rewrite length_take, length_drop; lia).
  rewrite <- Hw at 1. apply ConfigBuffer.le_bytes_round_trip. by apply Forall_take, Forall_drop.
Qed.

(** ** The whole machine *)

Section Golem.
Context {S : Type} (rd : S -> Z -> Z * S) (wr : S -> Z -> Z -> S) (vol : S -> Z -> Virtio.View * S)
        (mst : S -> Z -> Virtio.MemStore -> S).
Context (rx_addr tx_addr : Z) (memory_map : option MemInit.BootHandoff) (raw_cpuid : Z -> Z * Z * Z * Z).
Context (trampoline idle_loop idle_stack ramfs_handle syscall_entry : Z).
Context {U : Type} (hooks : Syscall.Hooks U).

Record Golem := mkGolem {
  g_channel : Virtio.World;
  g_device : S;
  g_memory : MemInit.Machine Bitmap.Statics;
  g_thresholds : ConfigBuffer.Thresholds;
  g_trail : Audit.AuditInner;
  g_fs_up : bool;
  g_vfs : Vfs.Vfs RamFs.Inner;
  g_kernel : Sched.Kernel;
  g_syscalls : list (@Syscall.Handler U) * Syscall.msrs
}.

Definition golem_sentinel (g : Golem) : option (result unit Ipc.IpcError * Golem) :=
  let '((r, w), s, _) := Virtio.run rd wr vol mst (Virtio.init rx_addr tx_addr (g_channel g)) (g_device g) in
  match r with
  | None => None
  | Some r => Some (r, mkGolem w s (g_memory g) (g_thresholds g) (g_trail g) (g_fs_up g) (g_vfs g) (g_kernel g) (g_syscalls g))
  end.

Definition golem_memory (g : Golem) : option (result unit string * Golem) :=
  match MemInit.init memory_map (g_memory g) with
  | Some (Ret (r, m)) =>
      Some (r, mkGolem (g_channel g) (g_device g) m (g_thresholds g) (g_trail g) (g_fs_up g) (g_vfs g) (g_kernel g) (g_syscalls g))
  | _ => None
  end.

(** Where the processor finds the fixed address of the page. *)
Definition page_frame (g : Golem) : option Z :=
  Paging.cpu_translate (MemInit.pg (g_memory g)) ConfigBuffer.MIGRATION_BUFFER_ADDR.

Definition page_at (F : Z) (g : Golem) : list Z := page_bytes (Paging.mem (MemInit.pg (g_memory g))) F.

(** What migration sees of the machine, and the machine after it. *)
Definition config (F : Z) (g : Golem) : Migration.World :=
  Migration.mkWorld (page_at F g) (g_thresholds g) (g_trail g).

Definition set_page (F : Z) (bytes : list Z) (m : MemInit.Machine Bitmap.Statics) : MemInit.Machine Bitmap.Statics :=
  MemInit.mkMachine (Paging.set_mem (MemInit.pg m) (write_page (Paging.mem (MemInit.pg m)) F bytes)) (MemInit.kheap m).

(** The page is stored to only when its contents change. *)
Definition set_config (F : Z) (c : Migration.World) (g : Golem) : Golem :=
  mkGolem (g_channel g) (g_device g)
    (if bool_decide (Migration.page c = page_at F g) then g_memory g else set_page F (Migration.page c) (g_memory g))
    (Migration.cfg c) (Migration.trail c) (g_fs_up g) (g_vfs g) (g_kernel g) (g_syscalls g).

(** An unmapped page faults, and the fault does not come back. *)
Definition golem_migration (g : Golem) : option (result unit Migration.MigrationError * Golem) :=
  match page_frame g with
  | None => None
  | Some F =>
      match Migration.run (config F g) with
      | None => None
      | Some (r, c) => Some (r, set_config F c g)
      end
  end.

Definition golem_fs (g : Golem) : option Golem :=
  match Vfs.init (g_fs_up g) (g_vfs g) ramfs_handle with
  | Ret (up, v) => Some (mkGolem (g_channel g) (g_device g) (g_memory g) (g_thresholds g) (g_trail g) up v (g_kernel g) (g_syscalls g))
  | Panic => None
  end.

Definition golem_scheduler (g : Golem) : result unit Sched.SchedError * Golem :=
  let (r, k) := Sched.mod_init trampoline idle_loop (g_kernel g) idle_stack in
  (r, mkGolem (g_channel g) (g_device g) (g_memory g) (g_thresholds g) (g_trail g) (g_fs_up g) (g_vfs g) k (g_syscalls g)).

Definition golem_syscall (g : Golem) : Golem :=
  mkGolem (g_channel g) (g_device g) (g_memory g) (g_thresholds g) (g_trail g) (g_fs_up g) (g_vfs g) (g_kernel g)
    (Syscall.mod_init hooks syscall_entry (g_syscalls g)).

#[export] Instance golem : Subsystems Golem := {
  sentinel_init := golem_sentinel;
  memory_init := golem_memory;
  migration_run := golem_migration;
  fs_init := golem_fs;
  drivers_init _ := snd (Cpuid.init raw_cpuid);
  scheduler_init := golem_scheduler;
  syscall_init := golem_syscall
}.

(** ** What the steps leave alone *)

(** Everything but memory and the Sentinel channel. *)
Definition same_rest (g g' : Golem) : Prop :=
  g_fs_up g' = g_fs_up g /\ g_vfs g' = g_vfs g /\ g_kernel g' = g_kernel g /\ g_syscalls g' = g_syscalls g.

Lemma same_rest_trans g1 g2 g3 : same_rest g1 g2 -> same_rest g2 g3 -> same_rest g1 g3.
Proof. intros (? & ? & ? & ?) (? & ? & ? & ?). by split_and!; etransitivity. Qed.

Definition same_policy (g g' : Golem) : Prop := g_thresholds g' = g_thresholds g /\ g_trail g' = g_trail g.

Lemma sentinel_rest g r g' :
  golem_sentinel g = Some (r, g') -> same_rest g g' /\ same_policy g g' /\ g_memory g' = g_memory g.
Proof.
  unfold golem_sentinel. destruct (Virtio.run _ _ _ _ _ _) as [[[[x|] w] s] tr]; [|done]. intros [= _ <-].
  by repeat split.
Qed.

(** The machine the boot stub hands over: page tables as memory bring-up asks for
    them, the page mapped, and its frame in no usable region and no page table. *)
Record page_reserved (F : Z) (g : Golem) : Prop := {
  pr_mapped : page_frame g = Some F;
  pr_aside : forall info, MemInit.handoff_info memory_map = Some info ->
    MemInit.boot_ok info (g_memory g) /\ MemInit.set_aside info (g_memory g) F
}.

Lemma page_off_heap j :
  0 <= j < MemInit.HEAP_PAGES -> ~ MemInit.in_page ConfigBuffer.MIGRATION_BUFFER_ADDR j.
Proof.
  intros Hj. unfold MemInit.in_page. rewrite MemInit.heap_page_vpn by exact Hj.
  change (Paging.vpn ConfigBuffer.MIGRATION_BUFFER_ADDR) with 278528. lia.
Qed.

(** Memory bring-up returns, keeps the page, and on success its mapping. *)
Lemma memory_rest F g :
  page_reserved F g ->
  exists r g', golem_memory g = Some (r, g') /\ same_rest g g' /\ same_policy g g' /\ page_at F g' = page_at F g /\
    (r = Ok tt -> page_frame g' = Some F).
Proof.
  intros [Hm Ha]. destruct (MemInit.init_undisturbed memory_map (g_memory g) F Ha) as (r & m' & E & [Hk Ht]).
  unfold golem_memory. rewrite E. eexists _, _. split; [reflexivity|]. split; [by repeat split|]. split; [by split|]. split.
  - apply page_bytes_ext, Hk.
  - intros ->. unfold page_frame. cbn [g_memory]. rewrite (Ht eq_refl _ page_off_heap). exact Hm.
Qed.

(** What migration leaves is in the machine, the page read back from memory. *)
Lemma set_config_config F c g :
  length (Migration.page c) = 4096%nat -> Forall ConfigBuffer.is_byte (Migration.page c) ->
  config F (set_config F c g) = c.
Proof.
  intros Hl Hb. destruct c as [p t a]. unfold config, set_config. cbn [Migration.page g_thresholds g_trail] in *.
  f_equal. unfold page_at at 1. cbn [g_memory]. case_bool_decide as E; [by rewrite E|]. by apply page_round_trip.
Qed.

(** ** The refusals of a buffer that carries the magic *)

Inductive refusal (b : ConfigBuffer.MigrationBuffer) : string -> Prop :=
| bad_version : ConfigBuffer.version b <> ConfigBuffer.MIGRATION_VERSION -> refusal b "version"
| bad_checksum : ConfigBuffer.version b = ConfigBuffer.MIGRATION_VERSION ->
    ConfigBuffer.compute_checksum b <> ConfigBuffer.checksum b -> refusal b "checksum".

Definition refused (b : ConfigBuffer.MigrationBuffer) : bool :=
  (ConfigBuffer.magic b =? ConfigBuffer.MIGRATION_MAGIC) && negb (ConfigBuffer.is_valid b).

Lemma run_refused c b :
  ConfigBuffer.read_migration_buffer (Migration.page c) = Some b -> refused b = true ->
  exists e why, Migration.run c = Some (Err e, Migration.audit_reject b why c) /\ refusal b why.
Proof.
  intros Hr [Hm%Z.eqb_eq Hv%negb_true_iff]%andb_true_iff. unfold Migration.run. rewrite Hr.
  unfold Migration.decide_buffer, ConfigBuffer.is_valid in *. rewrite Hm, Z.eqb_refl in *. cbn [negb andb] in *.
  destruct (Z.eqb_spec (ConfigBuffer.version b) ConfigBuffer.MIGRATION_VERSION) as [E|E]; cbn [negb andb] in *.
  - rewrite bool_decide_eq_false in Hv. rewrite bool_decide_eq_false_2 by congruence.
    eexists _, _. split; [reflexivity|]. apply bad_checksum; congruence.
  - eexists _, _. split; [reflexivity|]. by apply bad_version.
Qed.

Lemma run_unrelated c b :
  ConfigBuffer.read_migration_buffer (Migration.page c) = Some b ->
  ConfigBuffer.magic b <> ConfigBuffer.MIGRATION_MAGIC -> Migration.run c = Some (Ok tt, c).
Proof.
  intros Hr Hm. unfold Migration.run. rewrite Hr. unfold Migration.decide_buffer.
  by rewrite (proj2 (Z.eqb_neq _ _) Hm).
Qed.

(** What a boot makes of a buffer it does not refuse. *)
Definition migrated (b : ConfigBuffer.MigrationBuffer) (c c' : Migration.World) : Prop :=
  if negb (ConfigBuffer.magic b =? ConfigBuffer.MIGRATION_MAGIC) then c' = c
  else if ConfigBuffer.dirty b then
    Migration.cfg c' = ConfigBuffer.to_thresholds b /\
    Migration.audited c c' (ConfigBuffer.timestamp b) Migration.ACTION_APPLY (Migration.checksum_hex b) /\
    exists b', ConfigBuffer.read_migration_buffer (Migration.page c') = Some b' /\ ConfigBuffer.is_valid b' = true /\
      ConfigBuffer.dirty b' = false /\ ConfigBuffer.to_thresholds b' = ConfigBuffer.to_thresholds b /\
      ConfigBuffer.timestamp b' = ConfigBuffer.timestamp b
  else
    Migration.cfg c' = Migration.cfg c /\ Migration.page c' = Migration.page c /\
    Migration.audited c c' (ConfigBuffer.timestamp b) Migration.ACTION_NOOP (Migration.checksum_hex b).

(** A page of memory, whatever it holds, is read, judged and rewritten as bytes. *)
Lemma run_accepted F g b :
  ConfigBuffer.read_migration_buffer (page_at F g) = Some b -> refused b = false ->
  exists c', Migration.run (config F g) = Some (Ok tt, c') /\ migrated b (config F g) c' /\
    config F (set_config F c' g) = c'.
Proof.
  intros Hr Hf. unfold migrated.
  destruct (Z.eqb_spec (ConfigBuffer.magic b) ConfigBuffer.MIGRATION_MAGIC) as [Hm|Hm]; cbn [negb].
  2:{ exists (config F g). split_and!; [by apply (run_unrelated _ b)|done|].
      apply set_config_config; [apply page_bytes_length|apply page_bytes_byte]. }
  assert (Hv : ConfigBuffer.is_valid b = true).
  { unfold refused in Hf. rewrite Hm, Z.eqb_refl in Hf. by apply negb_false_iff in Hf. }
  destruct (ConfigBuffer.decode_wf (page_at F g) b (page_bytes_byte _ F)) as [Hwf Hres];
    [unfold page_at; rewrite page_bytes_length; lia|exact Hr|].
  rewrite (Migration.run_valid (config F g) b Hr Hv). eexists. split; [reflexivity|].
  destruct (ConfigBuffer.dirty b).
  - split; [split_and!; [reflexivity|apply Migration.audit_record_audited|]|].
    + exists (ConfigBuffer.seal (Migration.clear_dirty b)). split_and!; try reflexivity.
      * by apply ConfigBuffer.read_after_write, Migration.cleared_wf.
      * by apply Migration.cleared_valid.
    + apply set_config_config; cbn [Migration.page config].
      * rewrite ConfigBuffer.write_keeps_size; [apply page_bytes_length|by apply Migration.cleared_wf|].
        apply page_bytes_length.
      * unfold ConfigBuffer.write_to_fixed_address. apply Forall_app. split.
        -- apply ConfigBuffer.encode_byte; [exact Hres|apply ConfigBuffer.compute_checksum_byte].
        -- apply Forall_drop, page_bytes_byte.
  - split; [split_and!; [reflexivity..|apply Migration.audit_record_audited]|].
    apply set_config_config; [apply page_bytes_length|apply page_bytes_byte].
Qed.

(** ** The steps after migration *)

Definition same_config (g g' : Golem) : Prop := same_policy g g' /\ g_memory g' = g_memory g.

Lemma same_config_world F g g' : same_config g g' -> config F g' = config F g.
Proof. intros [[Ht Ha] Hm]. unfold config, page_at. by rewrite Ht, Ha, Hm. Qed.

Lemma fs_rest g g' : golem_fs g = Some g' -> same_config g g'.
Proof. unfold golem_fs. repeat case_match; try done. intros [= <-]. by repeat split. Qed.

Lemma scheduler_rest g r g' : golem_scheduler g = (r, g') ->
  same_config g g' /\ (r = Ok tt -> Sched.initialized (Sched.k_sched (g_kernel g')) = true).
Proof.
  unfold golem_scheduler, Sched.mod_init, Sched.init_with, Sched.init.
  repeat case_match; intros; simplify_eq/=; by repeat split.
Qed.

Lemma boot_fs_rest g :
  let '(_, g', stop) := boot_fs (H := golem) g in
  same_config g g' /\ stop <> AtMigration /\
  (stop = AtReady -> Sched.initialized (Sched.k_sched (g_kernel g')) = true).
Proof.
  unfold boot_fs. cbn [fs_init golem]. destruct (golem_fs g) as [g1|] eqn:E1; [|by repeat split].
  destruct (fs_rest _ _ E1) as [[T1 A1] M1]. unfold boot_scheduler.
  cbn [scheduler_init golem]. destruct (golem_scheduler g1) as [r g2] eqn:E2.
  destruct (scheduler_rest _ _ _ E2) as [[[T2 A2] M2] Hi].
  destruct r as [[]|e]; cbn; repeat split; cbn; congruence || auto.
Qed.

(** Sentinel has been tried and memory is up. *)
Definition comes_up (g g2 : Golem) : Prop :=
  exists sentinel g1, golem_sentinel g = Some (sentinel, g1) /\ golem_memory g1 = Some (Ok tt, g2).

(** How a boot that gets to migration goes on. *)
Lemma from_migration F g b :
  page_frame g = Some F -> ConfigBuffer.read_migration_buffer (page_at F g) = Some b ->
  let '(_, g', stop) := boot_migration (H := golem) g in
  if refused b then
    stop = AtMigration /\ same_rest g g' /\
    exists why, refusal b why /\ config F g' = Migration.audit_reject b why (config F g)
  else stop <> AtMigration /\ migrated b (config F g) (config F g') /\
    (stop = AtReady -> Sched.initialized (Sched.k_sched (g_kernel g')) = true).
Proof.
  intros Hp Hb. unfold boot_migration. cbn [migration_run golem]. unfold golem_migration. rewrite Hp.
  destruct (refused b) eqn:Hf.
  - destruct (run_refused (config F g) b Hb Hf) as (e & why & -> & Hw). cbn.
    split_and!; [done|by repeat split|]. exists why. split; [exact Hw|].
    apply set_config_config; [apply page_bytes_length|apply page_bytes_byte].
  - destruct (run_accepted F g b Hb Hf) as (c & -> & Hc & Hs). pose proof (boot_fs_rest (set_config F c g)) as Hr.
    destruct (boot_fs (set_config F c g)) as [[out g'] stop]. cbn. destruct Hr as (Hk & Hst & Hi).
    rewrite (same_config_world F _ _ Hk), Hs. by repeat split.
Qed.


End Golem.

(** ** A concrete boot

    The first gibibyte above the first is mapped one to one by a single entry, the
    migration page lies in it, and 16 MiB below it are usable. *)

Definition demo_frame : Z := ConfigBuffer.MIGRATION_BUFFER_ADDR.

Definition demo_mem (b : ConfigBuffer.MigrationBuffer) : Z -> Z :=
  fun a => if a =? 0x1000 then 0x2003 else if a =? 0x2008 then 0x40000083
           else write_page (fun _ => 0) demo_frame
                  (ConfigBuffer.write_to_fixed_address b (replicate 4096 0)) a.

Definition demo_machine (b : ConfigBuffer.MigrationBuffer) : MemInit.Machine Bitmap.Statics :=
  MemInit.mkMachine (Paging.mkState u64_max 0x1000 (demo_mem b) Bitmap.boot_statics []) Heap.new.

Definition demo_handoff : option MemInit.BootHandoff :=
  Some (MemInit.mkHandoff BOOT_HANDOFF_MAGIC 0xFFFF800000000000 2
          (Some (fun n => nth n MemInit.boot_map (mkRegion 0 0 Reserved)))).

Definition demo_golem (b : ConfigBuffer.MigrationBuffer) : Golem :=
  mkGolem Virtio.boot_world tt (demo_machine b) ConfigBuffer.default_config Audit.new
    false (Vfs.mkVfs [] (fun _ => RamFs.new)) (Sched.mkKernel Sched.new 2 (fun _ => 0) false)
    ([] : list (@Syscall.Handler unit), fun _ => 0).

Lemma demo_tables b p a : Paging.vpath p ->
  Paging.table_at (demo_mem b) 0x1000 p = Some a -> (p = [] /\ a = 0x1000) \/ (p = [0] /\ a = 0x2000).
Proof.
  assert (Hz : forall x, x <> 0x1000 -> x <> 0x2008 -> x < demo_frame -> demo_mem b x = 0).
  { intros x H1 H2 H3. unfold demo_mem, write_page. rewrite !(proj2 (Z.eqb_neq _ _)) by assumption.
    by rewrite (proj2 (Z.leb_gt _ _) H3). }
  assert (Hf : demo_frame = 0x44000000) by reflexivity.
  intros Hp. destruct p as [|i p]; [intros [= <-]; by left|]. inversion_clear Hp as [|? ? Hi Hp'].
  cbn [Paging.table_at]. destruct (Z.eq_dec i 0) as [->|Hi0].
  - change (Paging.is_present _ && _) with true. cbv iota.
    change (Paging.frame_addr (demo_mem b (0x1000 + 8 * 0))) with 0x2000.
    destruct p as [|j p]; [intros [= <-]; by right|]. inversion_clear Hp' as [|? ? Hj _]. cbn [Paging.table_at].
    destruct (Z.eq_dec j 1) as [->|Hj1]; [discriminate|]. rewrite Hz by lia. discriminate.
  - rewrite Hz by lia. discriminate.
Qed.

(** The heap lies under the 385th entry of the root. *)
Lemma heap_top j : 0 <= j < MemInit.HEAP_PAGES -> Z.land (Z.shiftr (MemInit.heap_page j) 39) 0x1FF = 384.
Proof.
  change MemInit.HEAP_PAGES with 2048. intros Hj. rewrite Paging.index_mod by lia.
  unfold MemInit.heap_page, HEAP_START, PAGE_SIZE. change (2 ^ 39) with 549755813888. Z.div_mod_to_equations. lia.
Qed.

Lemma demo_boot_ok b : MemInit.boot_ok MemInit.boot_info (demo_machine b).
Proof.
  split.
  - reflexivity.
  - exact (MemInit.bo_regions _ _ MemInit.boot_machine_ok).
  - intros p q a Hp Hq _ _ H1 H2. apply demo_tables in H1, H2; [|assumption..].
    destruct H1 as [[-> ->]|[-> ->]], H2 as [[-> H]|[-> H]]; congruence || discriminate H.
  - intros p i Hp _ Ht r Hr. apply demo_tables in Ht; [|exact Hp].
    assert (i = 1 \/ i = 2) as Hi by (unfold PAGE_SIZE in Ht; lia).
    apply elem_of_cons in Hr as [->|Hr%list_elem_of_singleton]; [intros (? & _); discriminate|].
    subst r. intros (_ & H & _). vm_compute in H. destruct Hi as [->| ->]; congruence.
  - intros i Hi. destruct (Z.eq_dec i 0) as [->|Hi0]; [reflexivity|].
    change (Paging.root _) with 0x1000. change (Paging.mem _) with (demo_mem b).
    intros Hp. exfalso. revert Hp. unfold demo_mem, write_page.
    rewrite !(proj2 (Z.eqb_neq _ _)) by lia. rewrite (proj2 (Z.leb_gt _ _)) by (change demo_frame with 0x44000000; lia).
    discriminate.
  - intros j off Hj. unfold Paging.translate, Paging.split_indices. rewrite (heap_top j Hj).
    destruct (_ =? u64_max); reflexivity.
Qed.

Lemma demo_set_aside b : MemInit.set_aside MemInit.boot_info (demo_machine b) demo_frame.
Proof.
  split; [reflexivity| |].
  - intros r Hr. apply elem_of_cons in Hr as [->|Hr%list_elem_of_singleton]; [intros (? & _); discriminate|].
    subst r. intros (_ & _ & H). vm_compute in H. congruence.
  - intros p Hp _ Ht. apply demo_tables in Ht; [|exact Hp]. destruct Ht as [[_ Ht]|[_ Ht]]; discriminate Ht.
Qed.

(** The 16 MiB are enough for the tables and the frames of the heap. *)
Lemma demo_memory_up b : exists m, MemInit.init demo_handoff (demo_machine b) = Some (Ret (Ok tt, m)).
Proof.
  assert (H : match MemInit.init demo_handoff (demo_machine b) with Some (Ret (Ok tt, _)) => true | _ => false end = true)
    by (vm_compute; reflexivity).
  destruct (MemInit.init _ _) as [[[[[]|] m]|]|]; try discriminate H. by exists m.
Qed.
(** A version of the future, and a change of the window saved in Safe Mode. *)
Definition future_buffer : ConfigBuffer.MigrationBuffer :=
  ConfigBuffer.mkBuffer ConfigBuffer.MIGRATION_MAGIC 2 true [0; 0; 0] 0 0 0 0 0 0 0 16 42 (replicate 32 0).

Definition saved_buffer : ConfigBuffer.MigrationBuffer :=
  ConfigBuffer.sealed_from_thresholds
    (ConfigBuffer.mkThresholds 0x3F000000 0x3F000000 0x3F000000 0x3F000000 0x3F000000 0x3F000000 0x3F000000 8) true 7.

Definition demo_instance : Subsystems (Golem (S := unit) (U := unit)) :=
  golem Virtio.demo_rd Virtio.demo_wr Virtio.demo_vol Virtio.demo_mst 0x300000 0x310000 demo_handoff
    (fun _ => (0, 0, 0, 0)) 0x1000 0x2000 0x3000 1 0x4000 (Syscall.mkHooks None None).

Lemma demo_reserved b : page_reserved demo_handoff demo_frame (demo_golem b).
Proof.
  split; [reflexivity|]. intros info [= <-]. split; [apply demo_boot_ok|apply demo_set_aside].
Qed.

Lemma demo_comes_up b : exists g2,
  comes_up Virtio.demo_rd Virtio.demo_wr Virtio.demo_vol Virtio.demo_mst 0x300000 0x310000 demo_handoff (demo_golem b) g2.
Proof.
  destruct (demo_memory_up b) as [m Hm].
  destruct (golem_sentinel Virtio.demo_rd Virtio.demo_wr Virtio.demo_vol Virtio.demo_mst 0x300000 0x310000 (demo_golem b))
    as [[r g1]|] eqn:E.
  - destruct (sentinel_rest _ _ _ _ _ _ _ _ _ E) as (_ & _ & M). eexists _, r, g1. split; [exact E|].
    unfold golem_memory. rewrite M. cbn [g_memory demo_golem]. rewrite Hm. reflexivity.
  - exfalso. assert (H : match golem_sentinel Virtio.demo_rd Virtio.demo_wr Virtio.demo_vol Virtio.demo_mst
      0x300000 0x310000 (demo_golem b) with Some _ => true | None => false end = true) by (vm_compute; reflexivity).
    by rewrite E in H.
Qed.


(** ** Safe Mode *)

(** [gkern-safemode]: memory, then the terminal for as long as the operator types.
    The log, and the terminal's state if it was reached. *)
Definition safemode_main (block_addr : Z) (memory_map : option MemInit.BootHandoff) (m : MemInit.Machine Bitmap.Statics)
    (blk : SafeTerm.MigrationBlock) (input : list Z) : list Z * option SafeTerm.Term :=
  let banner := line "Golem Linux gkern-safemode v0.1.0 (SAFE MODE)" in
  match MemInit.init memory_map m with
  | Some (Ret (Ok _, _)) =>
      let (t, out) := SafeTerm.run block_addr blk input in
      (banner ++ line "  memory: initialized" ++ default [] out, Some t)
  | Some (Ret (Err _, _)) => (banner ++ line "  memory: FAILED", None)
  | _ => (banner, None)
  end.

(** Safe Mode without memory never reaches the terminal, so nothing is published. *)
Lemma safemode_needs_memory addr m blk input :
  safemode_main addr None m blk input =
  (line "Golem Linux gkern-safemode v0.1.0 (SAFE MODE)" ++ line "  memory: FAILED", None).
Proof. reflexivity. Qed.

End Boot.
