(* ===== verification/ConfigSession.v ===== *)
(** The Safe Mode configuration session (src/src/safemode/sentinel_config.rs): the
    validated edits, the confirmation state machine and the console around it.

    A line is the list of its characters (code points below 256, as the console
    makes them from bytes); text is the bytes sent.  The decimal conversions of the
    standard library are executable: reading rounds the exact quotient once,
    printing is the shortest decimal that reads back. *)

From Stdlib Require Import ZArith Lia SpecFloat.
From stdpp Require Import base list strings.
From S2P Require Import Prelude Sha256 AuditTrail ConfigBuffer Migration F32 SafeTerm Ipc Cpuid.

Open Scope Z_scope.

Module ConfigSession.
Import ConfigBuffer F32.

Definition lit (s : string) : list Z := Audit.as_bytes s.
Definition ln (s : string) : list Z := lit s ++ [10].

(** UTF-8 of a line. *)
Definition enc1 (c : Z) : list Z := if c <? 128 then [c] else [0xC0 + c / 64; 0x80 + c mod 64].
Definition enc (s : list Z) : list Z := flat_map enc1 s.

(** ** Reading numbers *)

Definition is_digit : Z -> bool := SafeTerm.is_ascii_digit.

Fixpoint take_digits (s : list Z) : list Z * list Z :=
  match s with
  | c :: s' => if is_digit c then let (d, r) := take_digits s' in (c :: d, r) else ([], s)
  | [] => ([], [])
  end.

Definition take_sign (s : list Z) : bool * list Z :=
  match s with
  | c :: s' => if c =? 45 then (true, s') else if c =? 43 then (false, s') else (false, s)
  | [] => (false, [])
  end.

(** The binary32 nearest to [n / d]. *)
Definition round_ratio (sign : bool) (n d : positive) : f32 :=
  let '(q, e, l) := SFdiv_core_binary 24 128 (Zpos n) 0 (Zpos d) 0 in binary_round_aux 24 128 sign q e l.

(** The binary32 nearest to [n * 10^e]. *)
Definition of_decimal (sign : bool) (n e : Z) : f32 :=
  match n with
  | Zpos p =>
      if 0 <=? e then match p * Z.to_pos (10 ^ e) with q => round_ratio sign q 1 end%positive
      else round_ratio sign p (Z.to_pos (10 ^ (- e)))
  | _ => S754_zero sign
  end.

Definition lower (c : Z) : Z := if (65 <=? c) && (c <=? 90) then c + 32 else c.

(** [str::parse::<f32>]: sign, then inf, infinity or nan in any case, or digits with
    an optional point and an optional exponent. *)
Definition parse_exp (s : list Z) : option Z :=
  match s with
  | [] => Some 0
  | c :: s' =>
      if lower c =? 101 then
        let (neg, r) := take_sign s' in
        let (d, r) := take_digits r in
        match d, r with
        | _ :: _, [] => let v := SafeTerm.dec_value 0 d in Some (if neg then - v else v)
        | _, _ => None
        end
      else None
  end.

Definition parse_f32 (s : list Z) : option f32 :=
  let (neg, r) := take_sign s in
  let l := map lower r in
  if bool_decide (l = lit "inf") || bool_decide (l = lit "infinity") then Some (S754_infinity neg)
  else if bool_decide (l = lit "nan") then Some S754_nan
  else
    let (ip, r) := take_digits r in
    let (fp, r) := match r with c :: r' => if c =? 46 then take_digits r' else ([], r) | [] => ([], []) end in
    match ip ++ fp with
    | [] => None
    | ds =>
        match parse_exp r with
        | None => None
        | Some e => Some (of_decimal neg (SafeTerm.dec_value 0 ds) (e - Z.of_nat (length fp)))
        end
    end.

(** [str::parse::<u32>]: an optional plus sign, then digits without overflow. *)
Definition parse_u32 (s : list Z) : option Z :=
  match s with
  | c :: s' => if c =? 43 then SafeTerm.parse_u32 s' else SafeTerm.parse_u32 s
  | [] => None
  end.

(** ** Printing numbers *)

Definition pow2 (n : Z) : Z := 2 ^ Z.max n 0.
Definition pow10 (n : Z) : Z := 10 ^ Z.max n 0.

(** The better of the two decimals around [m * 2^e] with [p] places that read back
    as it, if one does. *)
Definition decimal_at (m : positive) (e p : Z) : option Z :=
  let num := Zpos m * pow2 e * pow10 p in
  let den := pow2 (- e) * pow10 (- p) in
  let lo := num / den in
  let rem := num mod den in
  let hi := if rem =? 0 then lo else lo + 1 in
  let reads_back d := (0 <? d) && bool_decide (to_bits (of_decimal false d (- p)) = to_bits (S754_finite false m e)) in
  if reads_back lo && negb (reads_back hi && (den <=? 2 * rem)) then Some lo
  else if reads_back hi then Some hi
  else None.

(** The fewest places from [p] on; [fuel] covers every exponent of the format. *)
Fixpoint shortest (fuel : nat) (m : positive) (e p : Z) : Z * Z :=
  match fuel with
  | O => (0, p)
  | S fuel => match decimal_at m e p with Some d => (d, p) | None => shortest fuel m e (p + 1) end
  end.

Definition zeros (n : Z) : list Z := replicate (Z.to_nat n) 48.

Definition positional (d p : Z) : list Z :=
  let ds := Ipc.decimal d in
  if p <=? 0 then ds ++ zeros (- p)
  else
    let i := (length ds - Z.to_nat p)%nat in
    if (Z.to_nat p <? length ds)%nat then take i ds ++ [46] ++ drop i ds
    else lit "0." ++ zeros (p - Z.of_nat (length ds)) ++ ds.

(** [{}] of an [f32]. *)
Definition display_f32 (x : f32) : list Z :=
  match x with
  | S754_nan => lit "NaN"
  | S754_zero s => (if s then [45] else []) ++ lit "0"
  | S754_infinity s => (if s then [45] else []) ++ lit "inf"
  | S754_finite s m e => let (d, p) := shortest 100 m e (-39) in (if s then [45] else []) ++ positional d p
  end.

Definition show_bits (b : Z) : list Z := display_f32 (from_bits b).

Example display_samples :
  show_bits 0x3F19999A = lit "0.6" /\ show_bits 0x3ECCCCCD = lit "0.4" /\ show_bits 0x3F800000 = lit "1" /\
  show_bits 0x3F400000 = lit "0.75".
Proof. vm_compute. split_and!; reflexivity. Qed.

(** ** Validation *)

Definition VALID_KEYS : list (list Z) :=
  [lit "repetition"; lit "self_referential"; lit "token_velocity"; lit "tool_retry"; lit "soft"; lit "medium";
   lit "hard"; lit "window"].

Definition MAX_WINDOW : Z := 4096.

Fixpoint join (sep : list Z) (l : list (list Z)) : list Z :=
  match l with
  | [] => []
  | [x] => x
  | x :: l' => x ++ sep ++ join sep l'
  end.

Definition quoted (s : list Z) : list Z := lit "'" ++ s ++ lit "'".

Definition out_of_unit (v : f32) : bool := negb (is_finite v) || lt v zero || lt one v.

(** The fields by name. *)
Definition field_of (key : list Z) : option SafeTerm.Field := SafeTerm.field_of key.

Definition store (f : SafeTerm.Field) (v : f32) (t : Thresholds) : Thresholds :=
  let '(mkThresholds r s k u so me ha w) := t in
  let b := to_bits v in
  match f with
  | SafeTerm.FRepetition => mkThresholds b s k u so me ha w
  | SafeTerm.FSelfReferential => mkThresholds r b k u so me ha w
  | SafeTerm.FTokenVelocity => mkThresholds r s b u so me ha w
  | SafeTerm.FToolRetry => mkThresholds r s k b so me ha w
  | SafeTerm.FSoft => mkThresholds r s k u b me ha w
  | SafeTerm.FMedium => mkThresholds r s k u so b ha w
  | SafeTerm.FHard => mkThresholds r s k u so me b w
  end.

Definition set_window (w : Z) (t : Thresholds) : Thresholds :=
  let '(mkThresholds r s k u so me ha _) := t in mkThresholds r s k u so me ha w.

Definition apply_set (base : Thresholds) (key raw : list Z) : result Thresholds (list Z) :=
  if bool_decide (key = lit "window") then
    match parse_u32 raw with
    | None => Err (quoted (enc raw) ++ lit " is not a whole number")
    | Some w =>
        if (w <? 1) || (MAX_WINDOW <? w) then
          Err (lit "window must be in 1..=" ++ Ipc.decimal MAX_WINDOW ++ lit ", got " ++ Ipc.decimal w)
        else Ok (set_window w base)
    end
  else
    match field_of key with
    | Some f =>
        match parse_f32 raw with
        | None => Err (quoted (enc raw) ++ lit " is not a number")
        | Some v =>
            if out_of_unit v then Err (enc key ++ lit " must be in 0.0..=1.0, got " ++ enc raw)
            else Ok (store f v base)
        end
    | None => Err (lit "unknown key " ++ quoted (enc key) ++ lit ". valid keys: " ++ join (lit ", ") VALID_KEYS)
    end.

Definition named (t : Thresholds) : list (list Z * Z) :=
  [(lit "repetition", t_repetition t); (lit "self_referential", t_self_referential t);
   (lit "token_velocity", t_token_velocity t); (lit "tool_retry", t_tool_retry t); (lit "soft", t_soft t);
   (lit "medium", t_medium t); (lit "hard", t_hard t)].

Fixpoint check_ranges (l : list (list Z * Z)) : result unit (list Z) :=
  match l with
  | [] => Ok tt
  | (name, b) :: l' =>
      if out_of_unit (from_bits b) then Err (name ++ lit " out of range 0.0..=1.0: " ++ show_bits b)
      else check_ranges l'
  end.

Definition validate_config (t : Thresholds) : result unit (list Z) :=
  let soft := from_bits (t_soft t) in
  let medium := from_bits (t_medium t) in
  let hard := from_bits (t_hard t) in
  if negb (le soft medium && le medium hard) then
    Err (lit "control thresholds must satisfy soft <= medium <= hard (got soft=" ++ show_bits (t_soft t) ++
         lit ", medium=" ++ show_bits (t_medium t) ++ lit ", hard=" ++ show_bits (t_hard t) ++ lit ")")
  else if (t_window t <? 1) || (MAX_WINDOW <? t_window t) then
    Err (lit "window must be in 1..=" ++ Ipc.decimal MAX_WINDOW ++ lit ", got " ++ Ipc.decimal (t_window t))
  else check_ranges (named t).

Definition thresholds_differ (a b : Thresholds) : bool :=
  negb (t_repetition a =? t_repetition b) || negb (t_self_referential a =? t_self_referential b) ||
  negb (t_token_velocity a =? t_token_velocity b) || negb (t_tool_retry a =? t_tool_retry b) ||
  negb (t_soft a =? t_soft b) || negb (t_medium a =? t_medium b) || negb (t_hard a =? t_hard b) ||
  negb (t_window a =? t_window b).

(** ** The session *)

Inductive SessionAction := Continue | Saved | Exit.

Record Response := mkResponse { text : list Z; action : SessionAction; buffer : option MigrationBuffer }.

Definition cont (t : list Z) : Response := mkResponse t Continue None.

Inductive Pending := PNone | SaveConfirm | ExitConfirm.

Record ConfigSession := mkSession {
  original : Thresholds;
  working : Thresholds;
  pending : Pending;
  committed : bool
}.

Definition new (current : Thresholds) : ConfigSession := mkSession current current PNone false.

Definition is_dirty (s : ConfigSession) : bool := thresholds_differ (working s) (original s).

Definition set_pending (s : ConfigSession) (p : Pending) : ConfigSession :=
  mkSession (original s) (working s) p (committed s).

Definition one_if (b : bool) : Z := if b then 1 else 0.

Definition changed_field_count (s : ConfigSession) : Z :=
  let o := original s in
  let w := working s in
  one_if (negb (t_repetition w =? t_repetition o)) + one_if (negb (t_self_referential w =? t_self_referential o)) +
  one_if (negb (t_token_velocity w =? t_token_velocity o)) + one_if (negb (t_tool_retry w =? t_tool_retry o)) +
  one_if (negb (t_soft w =? t_soft o)) + one_if (negb (t_medium w =? t_medium o)) +
  one_if (negb (t_hard w =? t_hard o)) + one_if (negb (t_window w =? t_window o)).

(** Whitespace among the characters below 256. *)
Definition is_whitespace (c : Z) : bool := ((9 <=? c) && (c <=? 13)) || (c =? 32) || (c =? 0x85) || (c =? 0xA0).

Fixpoint trim_start (s : list Z) : list Z :=
  match s with
  | c :: s' => if is_whitespace c then trim_start s' else s
  | [] => []
  end.

Definition trim (s : list Z) : list Z := rev (trim_start (rev (trim_start s))).

(** [split_whitespace]; [cur] is the word being read. *)
Fixpoint words (cur s : list Z) : list (list Z) :=
  match s with
  | [] => match cur with [] => [] | _ => [cur] end
  | c :: s' =>
      if is_whitespace c then match cur with [] => words [] s' | _ => cur :: words [] s' end
      else words (cur ++ [c]) s'
  end.

Definition mark (changed : bool) : list Z := if changed then lit " *" else [].

Definition show_line (label : string) (w o : Z) : list Z :=
  lit "    " ++ lit label ++ lit " = " ++ show_bits w ++ mark (negb (w =? o)) ++ [10].

Definition render_show (s : ConfigSession) : list Z :=
  let w := working s in
  let o := original s in
  ln "current Safe Mode configuration ('*' = unsaved change):" ++
  ln "  signal thresholds:" ++
  show_line "repetition        " (t_repetition w) (t_repetition o) ++
  show_line "self_referential  " (t_self_referential w) (t_self_referential o) ++
  show_line "token_velocity    " (t_token_velocity w) (t_token_velocity o) ++
  show_line "tool_retry        " (t_tool_retry w) (t_tool_retry o) ++
  ln "  control thresholds:" ++
  show_line "soft              " (t_soft w) (t_soft o) ++
  show_line "medium            " (t_medium w) (t_medium o) ++
  show_line "hard              " (t_hard w) (t_hard o) ++
  ln "  window:" ++
  lit "    window             = " ++ Ipc.decimal (t_window w) ++ mark (negb (t_window w =? t_window o)) ++ [10] ++
  lit "  status: " ++ (if is_dirty s then ln "MODIFIED (unsaved)" else ln "clean").

Definition exit_text (c : bool) : list Z :=
  if c then ln "exiting Safe Mode. the saved config will be migrated on the next main-OS boot."
  else ln "exiting Safe Mode. no config was saved; the main OS will boot with its existing thresholds.".

Definition render_help : list Z :=
  ln "Safe Mode — Sentinel configuration" ++ ln "commands:" ++
  ln "  show                 show current working config" ++
  ln "  set <key> <value>    change one value (validated)" ++
  ln "  save                 seal config to the migration buffer (confirm)" ++
  ln "  exit                 leave Safe Mode (migration on next boot)" ++
  ln "  help                 this message" ++
  lit "keys: " ++ join (lit ", ") VALID_KEYS ++ [10] ++
  ln "  signal/control thresholds: 0.0..=1.0   window: 1..=4096".

Definition cmd_set (s : ConfigSession) (key value : option (list Z)) (extra : bool) : Response * ConfigSession :=
  match key, value with
  | Some k, Some v =>
      if extra then (cont (ln "usage: set <key> <value>   (one value only)"), s)
      else
        match apply_set (working s) k v with
        | Ok updated =>
            let s := mkSession (original s) updated (pending s) (committed s) in
            (cont (lit "ok: " ++ enc k ++ lit " = " ++ enc v ++ lit "   (" ++ Ipc.decimal (changed_field_count s) ++
                   ln " unsaved change(s))"), s)
        | Err e => (cont (lit "rejected: " ++ e ++ [10]), s)
        end
  | _, _ => (cont (ln "usage: set <key> <value>   (try 'help' for valid keys)"), s)
  end.

Definition cmd_save (s : ConfigSession) : Response * ConfigSession :=
  if negb (is_dirty s) then (cont (ln "nothing to save: working config matches the loaded config."), s)
  else
    match validate_config (working s) with
    | Err e => (cont (lit "cannot save: " ++ e ++ [10] ++ ln "fix the value(s) with 'set' and try again."), s)
    | Ok _ =>
        (cont (lit "ABOUT TO SAVE " ++ Ipc.decimal (changed_field_count s) ++
               lit " change(s) to the migration buffer at 0x" ++ Cpuid.hex MIGRATION_BUFFER_ADDR ++ ln "." ++
               ln "This is IRREVERSIBLE and takes effect on the next main-OS boot." ++
               ln "Type 'yes' to confirm, anything else to cancel."),
         set_pending s SaveConfirm)
    end.

Definition bool_text (b : bool) : list Z := if b then lit "true" else lit "false".

Definition resolve_save_confirm (s : ConfigSession) (line : list Z) (timestamp : Z) : Response * ConfigSession :=
  let s := set_pending s PNone in
  if negb (bool_decide (line = lit "yes")) then (cont (ln "save cancelled. no changes written."), s)
  else
    match validate_config (working s) with
    | Err e => (cont (lit "save aborted: " ++ e ++ [10]), s)
    | Ok _ =>
        let dirty := is_dirty s in
        let buf := sealed_from_thresholds (working s) dirty timestamp in
        (mkResponse
           (ln "saved. migration buffer sealed:" ++
            lit "  address    : 0x" ++ Cpuid.hex MIGRATION_BUFFER_ADDR ++ [10] ++
            lit "  magic      : 0x" ++ Ipc.hex16 MIGRATION_MAGIC ++ [10] ++
            lit "  version    : " ++ Ipc.decimal MIGRATION_VERSION ++ [10] ++
            lit "  dirty      : " ++ bool_text dirty ++ [10] ++
            lit "  timestamp  : " ++ Ipc.decimal timestamp ++ [10] ++
            lit "  checksum   : " ++ lit (bytes_to_hex (checksum buf)) ++ [10] ++
            ln "migration will apply this config on the next main-OS boot.")
           Saved (Some buf),
         mkSession (working s) (working s) (pending s) true)
    end.

Definition cmd_exit (s : ConfigSession) : Response * ConfigSession :=
  if is_dirty s then
    (cont (ln "you have UNSAVED changes that will be lost on exit." ++
           ln "type 'yes' to exit anyway, or anything else to stay and 'save' first."), set_pending s ExitConfirm)
  else (mkResponse (exit_text (committed s)) Exit None, s).

Definition resolve_exit_confirm (s : ConfigSession) (line : list Z) : Response * ConfigSession :=
  let s := set_pending s PNone in
  if negb (bool_decide (line = lit "yes")) then (cont (ln "staying in Safe Mode. unsaved changes kept."), s)
  else (mkResponse (exit_text (committed s)) Exit None, s).

Definition handle_line (s : ConfigSession) (line : list Z) (timestamp : Z) : Response * ConfigSession :=
  let line := trim line in
  match pending s with
  | SaveConfirm => resolve_save_confirm s line timestamp
  | ExitConfirm => resolve_exit_confirm s line
  | PNone =>
      match line with
      | [] => (cont [], s)
      | _ =>
          match words [] line with
          | [] => (cont (lit "unknown command ''. type 'help' for the command list." ++ [10]), s)
          | cmd :: parts =>
              if bool_decide (cmd = lit "show") then (cont (render_show s), s)
              else if bool_decide (cmd = lit "help") then (cont render_help, s)
              else if bool_decide (cmd = lit "set") then
                cmd_set s (map lower <$> head parts) (head (tail parts)) (bool_decide (drop 2 parts <> []))
              else if bool_decide (cmd = lit "save") then cmd_save s
              else if bool_decide (cmd = lit "exit") || bool_decide (cmd = lit "quit") then cmd_exit s
              else (cont (lit "unknown command " ++ quoted (enc cmd) ++ ln ". type 'help' for the command list."), s)
          end
      end
  end.

(** ** The console *)

Inductive SafeModeOutcome := ExitedWithSave | ExitedWithoutSave.

(** The session, the line being typed, the migration page and the MONOTONIC
    counter. *)
Record Console := mkConsole { session : ConfigSession; typed : list Z; page : list Z; monotonic : Z }.

Definition monotonic_now (n : Z) : Z * Z := (n, add64 n 1).

Definition is_control (c : Z) : bool := (c <? 32) || ((127 <=? c) && (c <=? 159)).

(** One byte: what is sent, the next state, and whether the loop is left. *)
Definition console_byte (c : Console) (byte : Z) : list Z * Console * bool :=
  if (byte =? 13) || (byte =? 10) then
    let (ts, n) := monotonic_now (monotonic c) in
    let (resp, s) := handle_line (session c) (typed c) ts in
    let p := match buffer resp with Some b => write_to_fixed_address b (page c) | None => page c end in
    let out := [10] ++ text resp in
    match action resp with
    | Exit => (out, mkConsole s [] p n, true)
    | _ => (out ++ [10] ++ lit "> ", mkConsole s [] p n, false)
    end
  else if (byte =? 8) || (byte =? 0x7F) then
    match rev (typed c) with
    | [] => ([], c, false)
    | _ :: r => ([8; 32; 8], mkConsole (session c) (rev r) (page c) (monotonic c), false)
    end
  else if negb (is_control byte) then
    ([byte], mkConsole (session c) (typed c ++ [byte]) (page c) (monotonic c), false)
  else ([], c, false).

(** The bytes typed, until the operator leaves. *)
Fixpoint console (c : Console) (input : list Z) : list Z * Console * bool :=
  match input with
  | [] => ([], c, false)
  | b :: rest =>
      let '(out, c, gone) := console_byte c b in
      if gone then (out, c, true) else let '(more, c, gone) := console c rest in (out ++ more, c, gone)
  end.

(** [None] while the operator is still there. *)
Definition run_safe_mode_console (current : Thresholds) (pg : list Z) (n : Z) (input : list Z)
  : list Z * Console * option SafeModeOutcome :=
  let banner := [10] ++ ln "=== Golem Linux Safe Mode — Sentinel configuration ===" ++ render_help ++ [10] ++ lit "> " in
  let '(out, c, gone) := console (mkConsole (new current) [] pg n) input in
  (banner ++ out, c,
   if gone then Some (if committed (session c) then ExitedWithSave else ExitedWithoutSave) else None).

(** ** What a save is *)

(** A pending save is of a changed and valid configuration. *)
Definition session_inv (s : ConfigSession) : Prop :=
  pending s = SaveConfirm -> is_dirty s = true /\ validate_config (working s) = Ok tt.

Lemma cmd_set_frame s k v x :
  let (r, s') := cmd_set s k v x in
  buffer r = None /\ action r = Continue /\ original s' = original s /\ pending s' = pending s /\ committed s' = committed s.
Proof.
  unfold cmd_set. destruct k as [k|], v as [v|]; [destruct x; [|destruct (apply_set (working s) k v)]|..];
    (split_and!; reflexivity).
Qed.

(** Answers that only print. *)
Ltac unchanged := split; [assumption|split; reflexivity].

(** One line: a buffer comes out exactly when a pending save is answered with yes,
    and it is then the seal of the working configuration. *)
Lemma handle_line_saves s line ts :
  session_inv s ->
  let (r, s') := handle_line s line ts in
  session_inv s' /\
  match buffer r with
  | None => original s' = original s /\ committed s' = committed s
  | Some b =>
      pending s = SaveConfirm /\ trim line = lit "yes" /\ action r = Saved /\
      b = sealed_from_thresholds (working s) true ts /\ validate_config (working s) = Ok tt /\
      original s' = working s /\ working s' = working s /\ committed s' = true
  end.
Proof.
  intros Hinv. unfold handle_line. destruct (pending s) eqn:Hp.
  - destruct (trim line) as [|c0 l0]; [unchanged|].
    destruct (words [] (c0 :: l0)) as [|cmd parts]; [unchanged|].
    destruct (bool_decide (cmd = lit "show")); [unchanged|]. destruct (bool_decide (cmd = lit "help")); [unchanged|].
    destruct (bool_decide (cmd = lit "set")).
    { pose proof (cmd_set_frame s (map lower <$> head parts) (head (tail parts)) (bool_decide (drop 2 parts <> []))) as H.
      destruct (cmd_set _ _ _ _) as [r s']. destruct H as (-> & _ & -> & Hp' & ->). split; [|split; reflexivity].
      intros H. congruence. }
    destruct (bool_decide (cmd = lit "save")).
    { unfold cmd_save. destruct (is_dirty s) eqn:Hd; cbn [negb]; [|unchanged].
      destruct (validate_config (working s)) as [[]|e] eqn:Hv; [|unchanged].
      split; [intros _; exact (conj Hd Hv)|split; reflexivity]. }
    destruct (_ || _); [|unchanged]. unfold cmd_exit. destruct (is_dirty s); (split; [|split; reflexivity]); [discriminate|exact Hinv].
  - destruct (Hinv Hp) as [Hd Hv]. unfold resolve_save_confirm. cbn [set_pending working].
    destruct (bool_decide (trim line = lit "yes")) eqn:Hy; cbn [negb]; [|split; [discriminate|split; reflexivity]].
    apply bool_decide_eq_true in Hy. rewrite Hv. change (is_dirty _) with (is_dirty s). rewrite Hd.
    split; [discriminate|]. cbn [buffer action original working committed].
    split_and!; first [exact Hy|exact Hv|reflexivity].
  - unfold resolve_exit_confirm. cbn [set_pending]. destruct (negb _); (split; [discriminate|split; reflexivity]).
Qed.

(** ** Confirmation *)

(** Only a save command leaves a save pending. *)
Lemma pending_save s line ts :
  let (r, s') := handle_line s line ts in
  pending s' = SaveConfirm -> (exists rest, words [] (trim line) = lit "save" :: rest) /\ working s' = working s.
Proof.
  unfold handle_line. destruct (pending s) eqn:Hp.
  - destruct (trim line) as [|c0 l0] eqn:Ht; [congruence|]. destruct (words [] (c0 :: l0)) as [|cmd parts]; [congruence|].
    destruct (bool_decide _); [congruence|]. destruct (bool_decide _); [congruence|]. destruct (bool_decide _).
    { pose proof (cmd_set_frame s (map lower <$> head parts) (head (tail parts)) (bool_decide (drop 2 parts <> []))) as H.
      destruct (cmd_set _ _ _ _) as [r s']. destruct H as (_ & _ & _ & -> & _). congruence. }
    destruct (bool_decide (cmd = lit "save")) eqn:Hc.
    { apply bool_decide_eq_true in Hc as ->. unfold cmd_save. destruct (negb _); [congruence|].
      destruct (validate_config _); [|congruence]. intros _. split; [by exists parts|reflexivity]. }
    destruct (_ || _); [|congruence]. unfold cmd_exit. destruct (is_dirty s); [discriminate|congruence].
  - unfold resolve_save_confirm. destruct (negb _); [discriminate|]. destruct (validate_config _); discriminate.
  - unfold resolve_exit_confirm. destruct (negb _); discriminate.
Qed.

(** The state after some lines, each with its timestamp. *)
Definition lines (s : ConfigSession) (ls : list (list Z * Z)) : ConfigSession :=
  fold_left (fun s l => snd (handle_line s (fst l) (snd l))) ls s.

Lemma lines_inv ls : forall s, session_inv s -> session_inv (lines s ls).
Proof.
  induction ls as [|[l ts] ls IH]; intros s Hs; [exact Hs|]. cbn [lines fold_left fst snd]. apply IH.
  pose proof (handle_line_saves s l ts Hs) as H. destruct (handle_line s l ts) as [r s']. apply H.
Qed.

(**  No save without confirmation: in any session, a line yields a buffer to
    write only if it is the word yes and the line before it was a save command; the
    buffer is then the dirty, sealed working configuration of that moment, which
    differs from the loaded one and passed validation. *)
Theorem save_needs_confirmation current before prev t1 line t2 b :
  let s0 := lines (new current) before in
  let s1 := snd (handle_line s0 prev t1) in
  buffer (fst (handle_line s1 line t2)) = Some b ->
  (exists rest, words [] (trim prev) = lit "save" :: rest) /\ trim line = lit "yes" /\
  b = sealed_from_thresholds (working s0) true t2 /\ is_valid b = true /\
  validate_config (working s0) = Ok tt /\ is_dirty s1 = true.
Proof.
  intros s0 s1 Hb.
  assert (Hi0 : session_inv s0) by (by apply lines_inv).
  pose proof (handle_line_saves s0 prev t1 Hi0) as H0. pose proof (pending_save s0 prev t1) as Hp.
  assert (E : snd (handle_line s0 prev t1) = s1) by reflexivity. clearbody s1.
  destruct (handle_line s0 prev t1) as [r1 s1']. cbn [snd] in E. subst s1'. destruct H0 as [Hi1 _].
  pose proof (handle_line_saves s1 line t2 Hi1) as H1. destruct (handle_line s1 line t2) as [r2 s2]. cbn [fst] in Hb.
  rewrite Hb in H1. destruct H1 as (_ & Hsave & Hyes & _ & -> & Hv & _). destruct (Hp Hsave) as [Hw Hwork].
  rewrite Hwork in *. split; [exact Hw|]. split; [exact Hyes|]. split; [reflexivity|].
  split; [by apply seal_valid|]. split; [exact Hv|]. apply (Hi1 Hsave).
Qed.

Lemma save_needs_confirmation_witness :
  exists b, b = sealed_from_thresholds (working (lines (new default_config) [(lit "set soft 0.25", 1)])) true 3 /\
            is_valid b = true.
Proof.
  pose (s0 := lines (new default_config) [(lit "set soft 0.25", 1)]). pose (s1 := snd (handle_line s0 (lit "save") 2)).
  assert (H : buffer (fst (handle_line s1 (lit "yes") 3)) = Some (sealed_from_thresholds (working s0) true 3)).
  { assert (Hp : pending s1 = SaveConfirm) by (vm_compute; reflexivity).
  assert (Hv : validate_config (working s1) = Ok tt) by (vm_compute; reflexivity).
  assert (Hd : is_dirty s1 = true) by (vm_compute; reflexivity).
  assert (Hw : working s1 = working s0) by (vm_compute; reflexivity). clearbody s1. clearbody s0.
  unfold handle_line. rewrite Hp. unfold resolve_save_confirm. rewrite bool_decide_true by reflexivity.
  cbn [negb set_pending working]. rewrite Hv. change (is_dirty _) with (is_dirty s1). rewrite Hd, <- Hw. reflexivity. }
  pose proof (save_needs_confirmation default_config [(lit "set soft 0.25", 1)] (lit "save") 2 (lit "yes") 3 _ H) as F.
  eexists. split; [reflexivity|]. exact (proj1 (proj2 (proj2 (proj2 F)))).
Defined.

(** ** Stored values fit the buffer *)

Lemma round_ratio_valid sign n d : valid (round_ratio sign n d) = true.
Proof.
  unfold round_ratio. destruct (div_core_spec n 0 d 0) as (q & r & -> & Hqr & Hr & Hq).
  pose proof (quotient_fexp n 0 d 0 q r Hqr Hr Hq) as Hfx. cbn zeta in Hfx.
  destruct (round_spec sign q _ (new_location (Zpos d) r) Hq Hfx) as (mr & _ & _ & _ & Hx).
  exact (proj1 (rounded_valid _ _ _ _ Hx)).
Qed.

Lemma of_decimal_valid sign n e : valid (of_decimal sign n e) = true.
Proof. unfold of_decimal. destruct n; [reflexivity| |reflexivity]. destruct (0 <=? e); apply round_ratio_valid. Qed.

Lemma parse_f32_valid s v : parse_f32 s = Some v -> valid v = true.
Proof.
  unfold parse_f32. destruct (take_sign s) as [neg r]. cbv zeta. destruct (_ || _); [by intros [= <-]|].
  destruct (bool_decide _); [by intros [= <-]|]. destruct (take_digits r) as [ip r1].
  destruct (match r1 with [] => _ | _ => _ end) as [fp r2]. destruct (ip ++ fp); [done|].
  destruct (parse_exp r2) as [e|]; [|done]. intros [= <-]. apply of_decimal_valid.
Qed.

(** ** Both consoles read the same numbers *)

Lemma take_digits_app ds r : forallb is_digit ds = true ->
  match r with c :: _ => is_digit c = false | [] => True end -> take_digits (ds ++ r) = (ds, r).
Proof.
  intros Hd Hr. induction ds as [|b ds IH]; cbn [app take_digits].
  - destruct r as [|c r]; [done|]. cbn [take_digits]. by rewrite Hr.
  - cbn in Hd. apply andb_true_iff in Hd as [-> Hd]. by rewrite IH.
Qed.

(** A number that starts with a digit or a point has no sign and is not a word. *)
Lemma plain_number s : match s with c :: _ => 46 <= c <= 57 | [] => False end ->
  take_sign s = (false, s) /\ map lower s <> lit "inf" /\ map lower s <> lit "infinity" /\ map lower s <> lit "nan".
Proof.
  destruct s as [|c s]; [done|]. intros Hc. cbn [take_sign map].
  destruct (Z.eqb_spec c 45); [lia|]. destruct (Z.eqb_spec c 43); [lia|].
  assert (E : lower c = c).
  { unfold lower. destruct (Z.leb_spec 65 c); [lia|done]. }
  rewrite E. split_and!; [done|..]; intros H; apply (f_equal (hd 0)) in H; vm_compute in H; subst c; lia.
Qed.

Lemma of_decimal_fraction n k : 0 <= n < 10 ^ Z.of_nat k -> (1 <= k <= 7)%nat ->
  of_decimal false n (0 - Z.of_nat k) = div (of_int n) (of_int (10 ^ Z.of_nat k)).
Proof.
  intros Hn Hk. assert (Hp : 10 <= 10 ^ Z.of_nat k <= 10 ^ 7).
  { split; [change 10 with (10 ^ 1) at 1|]; apply Z.pow_le_mono_r; lia. }
  destruct (10 ^ Z.of_nat k) as [|w|w] eqn:Ew; [lia| |lia].
  destruct n as [|v|v]; [| |lia]; unfold of_decimal.
  - destruct (of_int_form (Zpos w)) as (m & e & -> & _); [lia|]. done.
  - destruct (Z.leb_spec 0 (0 - Z.of_nat k)); [lia|].
    replace (- (0 - Z.of_nat k)) with (Z.of_nat k) by lia. rewrite Ew. cbn [Z.to_pos].
    rewrite div_of_int by lia. done.
Qed.

Lemma parsers_agree ip fp :
  forallb SafeTerm.is_ascii_digit ip = true -> SafeTerm.dec_value 0 ip = 0 ->
  forallb SafeTerm.is_ascii_digit fp = true -> (1 <= length fp <= 7)%nat ->
  parse_f32 (ip ++ 46 :: fp) = SafeTerm.parse_f32 (ip ++ 46 :: fp).
Proof.
  intros Hip Hz Hfp Hlen. rewrite SafeTerm.parse_f32_short by assumption.
  assert (Hhd : match ip ++ 46 :: fp with c :: _ => 46 <= c <= 57 | [] => False end).
  { destruct ip as [|b ip]; cbn; [lia|]. cbn in Hip. apply andb_true_iff in Hip as [Hb _].
    apply SafeTerm.digit_range in Hb. lia. }
  destruct (plain_number _ Hhd) as (Hs & Hi & Hj & Hn). unfold parse_f32. rewrite Hs. cbv beta iota zeta.
  rewrite !bool_decide_false by assumption. cbn [orb].
  rewrite take_digits_app by done. cbv beta iota. rewrite Z.eqb_refl.
  rewrite <- (app_nil_r fp), take_digits_app, app_nil_r by done.
  assert (Hnn : ip ++ fp <> []) by (destruct fp; [cbn in Hlen; lia|by destruct ip]).
  destruct (ip ++ fp) as [|c ds] eqn:E; [done|]. rewrite <- E, SafeTerm.dec_value_app, Hz. cbn [parse_exp].
  f_equal. apply of_decimal_fraction; [|exact Hlen].
  pose proof (SafeTerm.dec_value_ge fp 0 ltac:(lia) Hfp).
  pose proof (SafeTerm.dec_value_lt fp 0 ltac:(lia) Hfp). lia.
Qed.

Lemma unit_in_range x : in_unit x -> out_of_unit x = false /\ le zero x && le x one = true.
Proof.
  intros (V & F & S). destruct zero_unit as (V0 & F0 & _), one_unit as (V1 & F1 & _).
  unfold out_of_unit. rewrite F, !lt_scaled, !le_scaled by assumption.
  change (scaled zero) with 0. change (scaled one) with unit_scaled.
  destruct (Z.ltb_spec (scaled x) 0), (Z.ltb_spec unit_scaled (scaled x)),
    (Z.leb_spec 0 (scaled x)), (Z.leb_spec (scaled x) unit_scaled); try lia; done.
Qed.

(** C40. The terminal and the console, each with its own decimal parser and its own
    range check, agree: a fraction with a zero integer part and at most seven digits
    is read by the terminal, passes its check, and [set] on the console stores
    exactly the binary32 the terminal reads. *)
Theorem terminal_and_console_read_alike ip fp :
  forallb SafeTerm.is_ascii_digit ip = true -> SafeTerm.dec_value 0 ip = 0 ->
  forallb SafeTerm.is_ascii_digit fp = true -> (1 <= length fp <= 7)%nat ->
  exists x, SafeTerm.parse_f32 (ip ++ 46 :: fp) = Some x /\ le zero x && le x one = true /\
    forall base key f, field_of key = Some f -> apply_set base key (ip ++ 46 :: fp) = Ok (store f x base).
Proof.
  intros Hip Hz Hfp Hlen. pose proof (parsers_agree ip fp Hip Hz Hfp Hlen) as E.
  rewrite SafeTerm.parse_f32_short in * by assumption. eexists. split; [done|].
  assert (U : in_unit (div (of_int (SafeTerm.dec_value 0 fp)) (of_int (10 ^ Z.of_nat (length fp))))).
  { pose proof (SafeTerm.dec_value_ge fp 0 ltac:(lia) Hfp). pose proof (SafeTerm.dec_value_lt fp 0 ltac:(lia) Hfp).
    assert (10 ^ Z.of_nat (length fp) <= 10 ^ 7) by (apply Z.pow_le_mono_r; lia). apply ratio_unit; lia. }
  destruct (unit_in_range _ U) as [Ho Hl]. split; [exact Hl|]. intros base key f Hf. unfold apply_set.
  rewrite bool_decide_false by (intros ->; discriminate Hf). by rewrite Hf, E, Ho.
Qed.

Lemma terminal_and_console_read_alike_witness :
  exists x, SafeTerm.parse_f32 (lit "0.65") = Some x /\
    apply_set default_config (lit "soft") (lit "0.65") = Ok (store SafeTerm.FSoft x default_config).
Proof.
  destruct (terminal_and_console_read_alike [48] [54; 53] eq_refl eq_refl eq_refl ltac:(cbn; lia)) as (x & E & _ & H).
  exists x. split; [exact E|]. exact (H default_config (lit "soft") _ eq_refl).
Defined.

Lemma to_bits_u32 x : valid x = true -> is_u32 (to_bits x).
Proof.
  unfold is_u32, U32. intros V. destruct x as [[]|[]| |s m e]; cbn [to_bits sign_bit]; try lia.
  destruct (valid_finite _ _ _ V) as (E & M & L). assert (0 <= sign_bit s <= 2 ^ 31) by (destruct s; cbn; lia).
  destruct (Z.ltb_spec (Zpos m) 0x800000); lia.
Qed.

Lemma store_wf f v t : valid v = true -> wf_thresholds t -> wf_thresholds (store f v t).
Proof. intros V []. pose proof (to_bits_u32 v V). destruct t, f; constructor; cbn in *; assumption. Qed.

Lemma apply_set_wf t k v t' : wf_thresholds t -> apply_set t k v = Ok t' -> wf_thresholds t'.
Proof.
  intros Ht. unfold apply_set. destruct (bool_decide _).
  - destruct (parse_u32 v) as [w|]; [|done]. destruct (Z.ltb_spec w 1) as [|H1]; [done|].
    destruct (Z.ltb_spec MAX_WINDOW w) as [|H2]; [done|]. cbn [orb]. intros [= <-]. destruct Ht, t.
    constructor; cbn in *; try assumption. unfold is_u32, U32. unfold MAX_WINDOW in H2. lia.
  - destruct (field_of k) as [f|]; [|done]. destruct (parse_f32 v) as [x|] eqn:Hx; [|done].
    destruct (out_of_unit x); [done|]. intros [= <-]. apply store_wf; [by eapply parse_f32_valid|exact Ht].
Qed.

Definition wf_session (s : ConfigSession) : Prop := wf_thresholds (original s) /\ wf_thresholds (working s).

Lemma cmd_set_wf s k v x : wf_session s -> wf_session (snd (cmd_set s k v x)).
Proof.
  intros [Ho Hw]. unfold cmd_set. destruct k as [k|], v as [v|]; [destruct x|..]; try (split; assumption).
  destruct (apply_set (working s) k v) as [t'|e] eqn:E; [|split; assumption]. split; [exact Ho|].
  exact (apply_set_wf _ _ _ _ Hw E).
Qed.

Lemma handle_line_wf s line ts : wf_session s -> wf_session (snd (handle_line s line ts)).
Proof.
  intros Hs. pose proof Hs as [Ho Hw]. unfold handle_line. destruct (pending s).
  - destruct (trim line) as [|c0 l0]; [exact Hs|]. destruct (words [] (c0 :: l0)) as [|cmd parts]; [exact Hs|].
    destruct (bool_decide _); [exact Hs|]. destruct (bool_decide _); [exact Hs|].
    destruct (bool_decide _); [by apply cmd_set_wf|]. destruct (bool_decide _).
    { unfold cmd_save. destruct (negb _); [exact Hs|]. destruct (validate_config _); exact Hs. }
    destruct (_ || _); [|exact Hs]. unfold cmd_exit. destruct (is_dirty s); exact Hs.
  - unfold resolve_save_confirm. destruct (negb _); [exact Hs|]. destruct (validate_config _); [split; exact Hw|exact Hs].
  - unfold resolve_exit_confirm. destruct (negb _); exact Hs.
Qed.

(** ** What the operator confirmed

    A specification over the lines typed: it knows neither the buffer a line
    answers with nor the flag the session keeps. *)

(** The lines a line editor makes of the bytes, with their timestamps. *)
Fixpoint submitted (cur : list Z) (n : Z) (input : list Z) : list (list Z * Z) :=
  match input with
  | [] => []
  | b :: rest =>
      if (b =? 13) || (b =? 10) then (cur, n) :: submitted [] (add64 n 1) rest
      else if (b =? 8) || (b =? 0x7F) then submitted (rev (tail (rev cur))) n rest
      else if is_control b then submitted cur n rest
      else submitted (cur ++ [b]) n rest
  end.

(** Those the session hears: up to the one that ends it. *)
Fixpoint heard (s : ConfigSession) (ls : list (list Z * Z)) : list (list Z * Z) :=
  match ls with
  | [] => []
  | (l, t) :: rest =>
      (l, t) :: match action (fst (handle_line s l t)) with
                | Exit => []
                | _ => heard (snd (handle_line s l t)) rest
                end
  end.

Definition is_save (line : list Z) : bool := bool_decide (head (words [] (trim line)) = Some (lit "save")).
Definition is_yes (line : list Z) : bool := bool_decide (trim line = lit "yes").

Definition at_prompt (s : ConfigSession) : bool := match pending s with PNone => true | _ => false end.

(** A save command, at the prompt, on a configuration there is reason to save. *)
Definition asks (s : ConfigSession) (line : list Z) : bool :=
  at_prompt s && is_save line && is_dirty s && is_ok (validate_config (working s)).

(** The line after it, if it is the word yes, and the configuration confirmed. *)
Definition answer (asked : bool) (t : Thresholds) (rest : list (list Z * Z)) : option (Thresholds * Z) :=
  match rest with
  | (l, ts) :: _ => if asked && is_yes l then Some (t, ts) else None
  | [] => None
  end.

(** The configuration confirmed last, and when. *)
Fixpoint confirmed (s : ConfigSession) (ls : list (list Z * Z)) : option (Thresholds * Z) :=
  match ls with
  | [] => None
  | (l, t) :: rest =>
      match confirmed (snd (handle_line s l t)) rest with
      | Some r => Some r
      | None => answer (asks s l) (working s) rest
      end
  end.

Definition publish (r : option (Thresholds * Z)) (p : list Z) : list Z :=
  match r with
  | Some (t, ts) => write_to_fixed_address (sealed_from_thresholds t true ts) p
  | None => p
  end.

(** ** The console keeps the last confirmed configuration *)

Lemma write_twice a b p : wf_buffer a -> write_to_fixed_address b (write_to_fixed_address a p) = write_to_fixed_address b p.
Proof.
  intros Ha. unfold write_to_fixed_address. f_equal. rewrite <- (encode_length a Ha) at 1. apply drop_app_length.
Qed.

Lemma add64_u64 a b : is_u64 (add64 a b).
Proof. apply Z.mod_pos_bound. reflexivity. Qed.

(** A line leaves a save pending exactly when it asks for one. *)
Lemma asks_pending s line ts :
  let (r, s') := handle_line s line ts in
  match pending s' with SaveConfirm => true | _ => false end = asks s line /\
  (asks s line = true -> working s' = working s).
Proof.
  unfold asks, at_prompt, is_save, handle_line. destruct (pending s) eqn:Hp.
  - destruct (trim line) as [|c0 l0] eqn:Ht; [by rewrite Hp|]. destruct (words [] (c0 :: l0)) as [|cmd parts]; [by rewrite Hp|].
    cbn [head]. destruct (bool_decide (cmd = lit "show")) eqn:E1.
    { apply bool_decide_eq_true in E1 as ->. by rewrite Hp. }
    destruct (bool_decide (cmd = lit "help")) eqn:E2.
    { apply bool_decide_eq_true in E2 as ->. by rewrite Hp. }
    destruct (bool_decide (cmd = lit "set")) eqn:E3.
    { apply bool_decide_eq_true in E3 as ->.
      pose proof (cmd_set_frame s (map lower <$> head parts) (head (tail parts)) (bool_decide (drop 2 parts <> []))) as H.
      destruct (cmd_set _ _ _ _) as [r s']. destruct H as (_ & _ & _ & -> & _). by rewrite Hp. }
    destruct (bool_decide (cmd = lit "save")) eqn:E4.
    { apply bool_decide_eq_true in E4 as ->. unfold cmd_save. rewrite bool_decide_true by reflexivity.
      destruct (is_dirty s); cbn [negb andb]; [|by rewrite Hp]. by destruct (validate_config (working s)); [|rewrite Hp]. }
    rewrite (bool_decide_false (Some cmd = _)) by (rewrite bool_decide_eq_false in E4; congruence). cbn [andb].
    destruct (_ || _); [|by rewrite Hp]. unfold cmd_exit. by destruct (is_dirty s); [|rewrite Hp].
  - unfold resolve_save_confirm. destruct (negb _); [done|]. by destruct (validate_config _).
  - unfold resolve_exit_confirm. by destruct (negb _).
Qed.

Definition after_line (p : list Z) (r : Response) : list Z :=
  match buffer r with Some b => write_to_fixed_address b p | None => p end.

(** The page after some lines. *)
Fixpoint page_after (s : ConfigSession) (p : list Z) (ls : list (list Z * Z)) : list Z :=
  match ls with
  | [] => p
  | (l, t) :: rest => page_after (snd (handle_line s l t)) (after_line p (fst (handle_line s l t))) rest
  end.

(** A line writes exactly when it answers a pending save with yes. *)
Lemma line_writes s line ts p :
  session_inv s ->
  after_line p (fst (handle_line s line ts)) =
    publish (answer (match pending s with SaveConfirm => true | _ => false end) (working s) [(line, ts)]) p /\
  committed (snd (handle_line s line ts)) =
    committed s || bool_decide (is_Some (answer (match pending s with SaveConfirm => true | _ => false end) (working s) [(line, ts)])).
Proof.
  intros Hs. pose proof (handle_line_saves s line ts Hs) as H. unfold answer, is_yes.
  destruct (handle_line s line ts) as [r s'] eqn:E. cbn [fst snd]. destruct H as [_ H]. unfold after_line.
  destruct (buffer r) as [b|] eqn:Eb.
  - destruct H as (-> & -> & _ & -> & _ & _ & _ & ->). rewrite bool_decide_true by reflexivity. cbn [andb].
    rewrite bool_decide_true by (by eexists). by rewrite orb_true_r.
  - destruct H as [_ ->]. destruct (pending s) eqn:Hp; [by rewrite orb_false_r| |by rewrite orb_false_r].
    destruct (bool_decide (trim line = lit "yes")) eqn:Hy; cbn [andb]; [|by rewrite orb_false_r]. exfalso.
    destruct (Hs Hp) as [Hd Hv]. unfold handle_line in E. rewrite Hp in E. unfold resolve_save_confirm in E.
    rewrite Hy in E. cbn [negb set_pending working] in E. rewrite Hv in E.
    apply (f_equal (fun x => buffer (fst x))) in E. cbn [fst buffer] in E. rewrite Eb in E. discriminate E.
Qed.

Lemma publish_twice r r' p :
  match r with Some (t, ts) => wf_thresholds t /\ is_u64 ts | None => True end ->
  publish r' (publish r p) = publish (match r' with Some x => Some x | None => r end) p.
Proof.
  destruct r' as [[t' ts']|]; [|reflexivity]. destruct r as [[t ts]|]; [|reflexivity]. intros [Ht Hts].
  cbn [publish]. apply write_twice. by apply sealed_wf.
Qed.

(** The page is what was confirmed last, a pending save being answered by the
    first line; the flag says whether there was one. *)
Lemma page_is_confirmed ls : forall s p,
  session_inv s -> wf_session s -> Forall (fun l => is_u64 (snd l)) ls ->
  let first := answer (match pending s with SaveConfirm => true | _ => false end) (working s) ls in
  let last := match confirmed s ls with Some r => Some r | None => first end in
  page_after s p ls = publish last p /\ committed (lines s ls) = committed s || bool_decide (is_Some last).
Proof.
  induction ls as [|[l t] ls IH]; intros s p Hs Hw Hts; [cbn; by rewrite orb_false_r|].
  inversion_clear Hts as [|? ? Ht Hts']. cbn [snd] in Ht.
  destruct (line_writes s l t p Hs) as [Hp Hc]. cbn [page_after confirmed lines fold_left fst snd]. rewrite Hp.
  pose proof (handle_line_saves s l t Hs) as H. pose proof (asks_pending s l t) as Ha.
  pose proof (handle_line_wf s l t Hw) as Hw'.
  destruct (handle_line s l t) as [r s']. cbn [fst snd] in *. destruct H as [Hs' _]. destruct Ha as [Ha Hk].
  set (pub := answer _ (working s) [(l, t)]) in *. change (answer _ (working s) ((l, t) :: ls)) with pub.
  destruct (IH s' (publish pub p) Hs' Hw' Hts') as [IHp IHc]. fold (lines s' ls). rewrite IHp, IHc, Hc, Ha. clear IHp IHc.
  assert (Hf : answer (asks s l) (working s') ls = answer (asks s l) (working s) ls).
  { destruct (asks s l); [by rewrite Hk|by destruct ls as [|[? ?] ?]]. }
  rewrite Hf. assert (Hpub : match pub with Some (t', ts) => wf_thresholds t' /\ is_u64 ts | None => True end).
  { unfold pub, answer. destruct (_ && _); [|done]. split; [apply Hw|exact Ht]. }
  rewrite publish_twice by exact Hpub. split; [by destruct (confirmed s' ls)|]. rewrite <- orb_assoc. f_equal.
  destruct (confirmed s' ls), (answer (asks s l) (working s) ls), pub; reflexivity.
Qed.

(** The console is the session run on the lines it hears. *)
Lemma console_hears input : forall c,
  let ls := heard (session c) (submitted (typed c) (monotonic c) input) in
  let '(_, c', _) := console c input in
  session c' = lines (session c) ls /\ page c' = page_after (session c) (page c) ls.
Proof.
  induction input as [|b input IH]; intros c; cbn zeta; [by split|]. cbn [console submitted]. unfold console_byte.
  destruct ((b =? 13) || (b =? 10)).
  - unfold monotonic_now. cbn [heard]. pose proof (fun s p n => IH (mkConsole s [] p n)) as H. cbn [session typed monotonic page] in H.
    destruct (handle_line (session c) (typed c) (monotonic c)) as [r s'] eqn:E. cbn [fst snd].
    change (match buffer r with Some b0 => write_to_fixed_address b0 (page c) | None => page c end)
      with (after_line (page c) r).
    destruct (action r); [specialize (H s' (after_line (page c) r) (add64 (monotonic c) 1))..|];
      try (destruct (console _ input) as [[more c2] g]; destruct H as [-> ->]);
      cbn [lines fold_left page_after fst snd session page]; rewrite E; by split.
  - destruct ((b =? 8) || (b =? 127)).
    + destruct (rev (typed c)) as [|x r] eqn:E; cbn [tail].
      * specialize (IH c). assert (typed c = []) as Hn by (rewrite <- (rev_involutive (typed c)), E; reflexivity).
        rewrite Hn in IH. cbn [rev]. destruct (console c input) as [[more c2] g]. exact IH.
      * specialize (IH (mkConsole (session c) (rev r) (page c) (monotonic c))).
        destruct (console _ input) as [[more c2] g]. exact IH.
    + destruct (is_control b); cbn [negb].
      * specialize (IH c). destruct (console c input) as [[more c2] g]. exact IH.
      * specialize (IH (mkConsole (session c) (typed c ++ [b]) (page c) (monotonic c))).
        destruct (console _ input) as [[more c2] g]. exact IH.
Qed.

Lemma submitted_u64 input : forall cur n, is_u64 n -> Forall (fun l => is_u64 (snd l)) (submitted cur n input).
Proof.
  induction input as [|b input IH]; intros cur n Hn; cbn [submitted]; [constructor|].
  repeat case_match; try (by apply IH). constructor; [exact Hn|apply IH, add64_u64].
Qed.

Lemma heard_u64 ls : forall s, Forall (fun l => is_u64 (snd l)) ls -> Forall (fun l => is_u64 (snd l)) (heard s ls).
Proof.
  induction ls as [|[l t] ls IH]; intros s H; cbn [heard]; [constructor|]. inversion_clear H.
  constructor; [assumption|]. destruct (action _); [by apply IH..|constructor].
Qed.

(** What is confirmed is valid, and fits the buffer. *)
Lemma confirmed_valid ls : forall s t ts, wf_session s -> Forall (fun l => is_u64 (snd l)) ls ->
  confirmed s ls = Some (t, ts) -> wf_thresholds t /\ is_u64 ts /\ validate_config t = Ok tt.
Proof.
  induction ls as [|[l t0] ls IH]; intros s t ts Hs Hl; cbn [confirmed]; [done|].
  inversion_clear Hl as [|? ? _ Hl']. pose proof (handle_line_wf s l t0 Hs) as Hs'.
  destruct (confirmed _ ls) as [[t' ts']|] eqn:E; [intros [= <- <-]; by eapply IH|].
  unfold answer. destruct ls as [|[l1 t1] ls]; [done|]. destruct (asks s l) eqn:Ha; cbn [andb]; [|done].
  destruct (is_yes l1); [|done]. intros [= <- <-]. inversion_clear Hl' as [|? ? Ht1 _].
  split; [apply Hs|]. split; [exact Ht1|]. unfold asks in Ha. apply andb_true_iff in Ha as [_ Ha].
  by destruct (validate_config (working s)) as [[]|].
Qed.

(** C11.  From the keys to the next boot.  Whatever bytes the operator types, the
    migration page changes only by a confirmed save: among the lines they make, up to
    the one that leaves the console, the word yes right after a save command given at
    the prompt on a changed and valid configuration.  Without one the page is as it
    was; otherwise it holds exactly the sealed configuration that was the working
    one at the last of them, which has passed validation, and the next boot accepts
    that page and puts exactly those thresholds in force.  The outcome reported at
    exit says which of the two it was. *)
Theorem confirmed_save_governs_next_boot current p n input cfg0 trail :
  wf_thresholds current -> is_u64 n ->
  let ls := heard (new current) (submitted [] n input) in
  let '(_, c, outcome) := run_safe_mode_console current p n input in
  session c = lines (new current) ls /\
  match confirmed (new current) ls with
  | None => page c = p /\ outcome <> Some ExitedWithSave
  | Some (t, ts) =>
      page c = write_to_fixed_address (sealed_from_thresholds t true ts) p /\ validate_config t = Ok tt /\
      (exists w, Migration.run (Migration.mkWorld (page c) cfg0 trail) = Some (Ok tt, w) /\ Migration.cfg w = t) /\
      outcome <> Some ExitedWithoutSave
  end.
Proof.
  intros Hc Hn ls. unfold run_safe_mode_console. cbv zeta.
  pose proof (console_hears input (mkConsole (new current) [] p n)) as H. cbn [session typed monotonic page] in H.
  fold ls in H. destruct (console _ input) as [[out c] gone]. destruct H as [Hs Hp].
  assert (Hts : Forall (fun l => is_u64 (snd l)) ls) by (by apply heard_u64, submitted_u64).
  destruct (page_is_confirmed ls (new current) p) as [Hpage Hflag]; [done|by split|exact Hts|].
  rewrite Hs, Hp, Hpage, Hflag. split; [reflexivity|].
  assert (Hn' : answer false current ls = None) by (by destruct ls as [|[? ?] ?]).
  cbn [new pending working original ConfigSession.committed]. rewrite Hn'.
  destruct (confirmed (new current) ls) as [[t ts]|] eqn:E.
  - destruct (confirmed_valid ls (new current) t ts) as (Ht & Hu & Hv); [by split|exact Hts|exact E|].
    cbn [publish]. split; [reflexivity|]. split; [exact Hv|]. split.
    + pose proof (sealed_wf t true ts Ht Hu) as Hb. eexists. split.
      * apply Migration.run_valid; [by apply read_after_write|by apply seal_valid].
      * by apply sealed_thresholds.
    + by destruct gone.
  - split; [reflexivity|]. by destruct gone.
Qed.

(** An edit, a save that is cancelled, and one that is confirmed. *)
Definition demo_input : list Z :=
  lit "set soft 0.25" ++ [13] ++ lit "save" ++ [13] ++ lit "no" ++ [13] ++ lit "save" ++ [13] ++ lit "yes" ++ [13].

Lemma confirmed_save_governs_next_boot_witness :
  let '(_, c, _) := run_safe_mode_console default_config (replicate 100 7) 1 demo_input in
  exists w, Migration.run (Migration.mkWorld (page c) default_config Audit.new) = Some (Ok tt, w) /\
            t_soft (Migration.cfg w) = 0x3E800000.
Proof.
  pose proof (confirmed_save_governs_next_boot default_config (replicate 100 7) 1 demo_input default_config Audit.new
                default_config_wf ltac:(split; [lia|reflexivity])) as H. cbn zeta in H.
  destruct (run_safe_mode_console default_config (replicate 100 7) 1 demo_input) as [[out c] o]. destruct H as [_ H].
  assert (Hs : (fun r : option (Thresholds * Z) => (fun x => (t_soft (fst x), snd x)) <$> r)
    (confirmed (new default_config) (heard (new default_config) (submitted [] 1 demo_input))) = Some (0x3E800000, 5))
    by (vm_compute; reflexivity).
  destruct (confirmed _ _) as [[t ts]|]; [|discriminate Hs]. injection Hs as Hs _.
  destruct H as (_ & _ & (w & Hr & Hw) & _). exists w. split; [exact Hr|]. by rewrite Hw.
Defined.

End ConfigSession.
