(* ===== verification/ConsoleIo.v ===== *)
(** The configuration console at its serial port: [mod serial] and
    [run_safe_mode_console] of safemode/sentinel_config.rs as port accesses, in the
    order the code makes them.  The UART is what successive reads of its two
    registers return; a program stops where the device has given nothing more.
    The console of [ConfigSession], which works on bytes, is its specification. *)

From Stdlib Require Import ZArith Lia.
From stdpp Require Import base list strings.
From S2P Require Import Prelude AuditTrail ConfigBuffer Ipc SafeTerm ConfigSession.

Open Scope Z_scope.

Module ConsoleIo.
Import ConfigBuffer Serial ConfigSession.

(** ** The device and the programs *)

(** What the reads of the line status and of the data register return, the accesses
    made so far, and the variables of the console. *)
Record Dev := mkDev { status : list Z; incoming : list Z; trace : list PortOp; con : Console }.

(** [None]: still waiting for the device. *)
Definition io (A : Type) : Type := Dev -> option A * Dev.

Definition ret {A} (a : A) : io A := fun d => (Some a, d).
Definition bind {A B} (m : io A) (k : A -> io B) : io B := fun d =>
  match m d with (Some a, d') => k a d' | (None, d') => (None, d') end.
Notation "'do' x <- m ; k" := (bind m (fun x => k)) (at level 10, x name, m at level 100, k at level 200).
Notation "m ;; k" := (bind m (fun _ => k)) (at level 100, k at level 200, right associativity).

Definition get : io Console := fun d => (Some (con d), d).
Definition put (c : Console) : io unit := fun d => (Some tt, mkDev (status d) (incoming d) (trace d) c).

Definition DATA : Z := 0x3F8.
Definition LSR : Z := 0x3FD.
Definition LSR_DATA_READY : Z := Z.shiftl 1 0.
Definition LSR_THR_EMPTY : Z := Z.shiftl 1 5.

Definition in_status : io Z := fun d =>
  match status d with
  | [] => (None, d)
  | v :: st => (Some v, mkDev st (incoming d) (trace d ++ [In LSR v]) (con d))
  end.

Definition in_data : io Z := fun d =>
  match incoming d with
  | [] => (None, d)
  | b :: rx => (Some b, mkDev (status d) rx (trace d ++ [In DATA b]) (con d))
  end.

Definition out_data (b : Z) : io unit := fun d =>
  (Some tt, mkDev (status d) (incoming d) (trace d ++ [Out DATA b]) (con d)).

(** The polling loop of both routines; one turn per status read. *)
Fixpoint spin (fuel : nat) (mask : Z) : io unit :=
  match fuel with
  | O => fun d => (None, d)
  | S fuel => do v <- in_status; if Z.land v mask =? 0 then spin fuel mask else ret tt
  end.

Definition wait (mask : Z) : io unit := fun d => spin (S (length (status d))) mask d.

Definition write_byte (byte : Z) : io unit := wait LSR_THR_EMPTY ;; out_data byte.

Fixpoint write_str (s : list Z) : io unit :=
  match s with [] => ret tt | b :: s => write_byte b ;; write_str s end.

Definition read_byte : io Z := wait LSR_DATA_READY ;; in_data.

(** The arm of carriage return and line feed: whether the loop is left. *)
Definition on_line : io bool :=
  do c <- get;
  let (ts, n) := monotonic_now (monotonic c) in
  let (resp, s) := handle_line (session c) (typed c) ts in
  put (mkConsole s [] (page c) n) ;;
  write_str [10] ;;
  write_str (text resp) ;;
  put (mkConsole s [] (match buffer resp with Some b => write_to_fixed_address b (page c) | None => page c end) n) ;;
  match action resp with
  | Exit => ret true
  | _ => write_str ([10] ++ lit "> ") ;; ret false
  end.

Definition on_backspace : io bool :=
  do c <- get;
  match rev (typed c) with
  | [] => ret false
  | _ :: r =>
      put (mkConsole (session c) (rev r) (page c) (monotonic c)) ;; write_str [8; 32; 8] ;; ret false
  end.

Definition on_char (byte : Z) : io bool :=
  do c <- get;
  if negb (is_control byte) then
    put (mkConsole (session c) (typed c ++ [byte]) (page c) (monotonic c)) ;; write_byte byte ;; ret false
  else ret false.

Definition dispatch (ch : Z) : io bool :=
  if (ch =? 13) || (ch =? 10) then on_line
  else if (ch =? 8) || (ch =? 0x7F) then on_backspace
  else on_char ch.

Definition turn : io bool := do ch <- read_byte; dispatch ch.

Fixpoint console_loop (fuel : nat) : io unit :=
  match fuel with
  | O => fun d => (None, d)
  | S fuel => do gone <- turn; if gone : bool then ret tt else console_loop fuel
  end.

(** Every turn reads the status at least once. *)
Definition run_console : io SafeModeOutcome := fun d =>
  (write_str ([10] ++ ln "=== Golem Linux Safe Mode — Sentinel configuration ===") ;;
   write_str render_help ;;
   write_str ([10] ++ lit "> ") ;;
   console_loop (S (length (status d))) ;;
   do c <- get;
   ret (if committed (session c) then ExitedWithSave else ExitedWithoutSave)) d.

Definition powered (current : Thresholds) (pg : list Z) (n : Z) (st rx : list Z) : Dev :=
  mkDev st rx [] (mkConsole (new current) [] pg n).

(** ** What a trace shows *)

Definition sent (tr : list PortOp) : list Z :=
  flat_map (fun o => match o with Out _ b => [b] | In _ _ => [] end) tr.

Definition received (tr : list PortOp) : list Z :=
  flat_map (fun o => match o with In p b => if p =? DATA then [b] else [] | Out _ _ => [] end) tr.

(** The data register is accessed right after a status read with the bit for that
    direction set, and not otherwise. *)
Inductive paced : list PortOp -> Prop :=
| paced_nil : paced []
| paced_poll v tr : paced tr -> paced (In LSR v :: tr)
| paced_send v b tr : Z.land v LSR_THR_EMPTY <> 0 -> paced tr -> paced (In LSR v :: Out DATA b :: tr)
| paced_receive v b tr : Z.land v LSR_DATA_READY <> 0 -> paced tr -> paced (In LSR v :: In DATA b :: tr).

Definition blocked (d : Dev) : Prop := status d = [] \/ incoming d = [].

Lemma paced_app a b : paced a -> paced b -> paced (a ++ b).
Proof. induction 1; cbn [app]; eauto using paced. Qed.

(** From [d] to [d'] the bytes [inp] came in and [out] went out. *)
Record does (d d' : Dev) (inp out : list Z) : Prop := {
  do_trace : exists t, trace d' = trace d ++ t /\ paced t /\ sent t = out /\ received t = inp;
  do_incoming : incoming d = inp ++ incoming d';
  do_status : (length (status d') <= length (status d))%nat
}.

Lemma does_refl d d' : status d' = status d -> incoming d' = incoming d -> trace d' = trace d -> does d d' [] [].
Proof.
  intros Hs Hi Ht. split; [exists []|by rewrite Hi|by rewrite Hs].
  rewrite app_nil_r. eauto using paced.
Qed.

Lemma does_trans d d1 d2 i1 o1 i2 o2 : does d d1 i1 o1 -> does d1 d2 i2 o2 -> does d d2 (i1 ++ i2) (o1 ++ o2).
Proof.
  intros [(t1 & E1 & P1 & S1 & R1) I1 L1] [(t2 & E2 & P2 & S2 & R2) I2 L2]. split.
  - exists (t1 ++ t2). rewrite E2, E1, app_assoc. split_and!; [done|by apply paced_app|..].
    + unfold sent in *. by rewrite flat_map_app, S1, S2.
    + unfold received in *. by rewrite flat_map_app, R1, R2.
  - by rewrite I1, I2, app_assoc.
  - lia.
Qed.

(** [m], started in [d], sends [out], answers [a] and leaves the variables [c]; or it
    is stopped somewhere in [out]. *)
Definition outputs {A} (m : io A) (d : Dev) (out : list Z) (a : A) (c : Console) : Prop :=
  match m d with
  | (Some x, d') => x = a /\ con d' = c /\ does d d' [] out
  | (None, d') => blocked d' /\ exists o, o `prefix_of` out /\ does d d' [] o
  end.

Lemma outputs_ret {A} (a : A) d : outputs (ret a) d [] a (con d).
Proof. cbn. split_and!; [done..|by apply does_refl]. Qed.

Lemma outputs_put c d : outputs (put c) d [] tt c.
Proof. cbn. split_and!; [done..|by apply does_refl]. Qed.

Lemma outputs_bind {A B} (m : io A) (k : A -> io B) d o1 a c1 o2 b c2 :
  outputs m d o1 a c1 -> (forall d', con d' = c1 -> outputs (k a) d' o2 b c2) ->
  outputs (bind m k) d (o1 ++ o2) b c2.
Proof.
  intros Hm Hk. unfold outputs, bind in *. destruct (m d) as [[x|] d1].
  - destruct Hm as (-> & Hc & H1). specialize (Hk d1 Hc). destruct (k a d1) as [[y|] d2].
    + destruct Hk as (-> & Hc2 & H2). split_and!; [done..|exact (does_trans _ _ _ _ _ _ _ H1 H2)].
    + destruct Hk as (Hb & o & Ho & H2). split; [done|]. exists (o1 ++ o).
      split; [by apply prefix_app|exact (does_trans _ _ _ _ _ _ _ H1 H2)].
  - destruct Hm as (Hb & o & Ho & H1). split; [done|]. exists o. split; [by apply prefix_app_r|done].
Qed.

(** ** The routines of the port *)

Definition quiet (t : list PortOp) : Prop := paced t /\ sent t = [] /\ received t = [].

Lemma quiet_poll v t : quiet t -> quiet (In LSR v :: t).
Proof. intros (P & S & R). split_and!; [by constructor|exact S|exact R]. Qed.

Lemma spin_spec mask fuel : forall d, (length (status d) < fuel)%nat ->
  match spin fuel mask d with
  | (Some _, d') => exists t v, trace d' = trace d ++ t ++ [In LSR v] /\ quiet t /\ Z.land v mask <> 0 /\
      incoming d' = incoming d /\ con d' = con d /\ (S (length (status d')) <= length (status d))%nat
  | (None, d') => status d' = [] /\ does d d' [] []
  end.
Proof.
  induction fuel as [|fuel IH]; intros d Hf; [lia|]. cbn [spin]. unfold bind, in_status.
  destruct (status d) as [|v st] eqn:Es; [split; [done|by apply does_refl]|].
  destruct (Z.eqb_spec (Z.land v mask) 0) as [Hv|Hv].
  - match goal with |- context [spin fuel mask ?d1] =>
      specialize (IH d1); destruct (spin fuel mask d1) as [[x|] d2] end; cbn in Hf, IH.
    + destruct IH as (t & v' & E & Q & R); [lia|]. exists (In LSR v :: t), v'.
      rewrite E, <- app_assoc. split_and!; [done|by apply quiet_poll|apply R..|]. cbn. lia.
    + destruct IH as (Hst & [(t & E & P & S & R) I L]); [lia|]. split; [done|].
      split; [|exact I|rewrite Es; cbn in *; lia].
      exists (In LSR v :: t). cbn in E. rewrite E, <- app_assoc.
      split_and!; [done|by constructor|exact S|exact R].
  - cbn. exists [], v. split_and!; [done|repeat constructor|done..|lia].
Qed.

Lemma wait_spec mask d :
  match wait mask d with
  | (Some _, d') => exists t v, trace d' = trace d ++ t ++ [In LSR v] /\ quiet t /\ Z.land v mask <> 0 /\
      incoming d' = incoming d /\ con d' = con d /\ (S (length (status d')) <= length (status d))%nat
  | (None, d') => status d' = [] /\ does d d' [] []
  end.
Proof. apply spin_spec. lia. Qed.

Lemma outputs_write_byte b d : outputs (write_byte b) d [b] tt (con d).
Proof.
  unfold outputs, write_byte, bind. pose proof (wait_spec LSR_THR_EMPTY d) as H.
  destruct (wait _ d) as [[x|] d1].
  - destruct H as (t & v & E & (P & S & R) & Hv & Hi & Hc & Hl). cbn. split_and!; [done..|]. split; cbn.
    + exists (t ++ [In LSR v; Out DATA b]). rewrite E, <- !app_assoc. split_and!; [done|..].
      * apply paced_app; [done|by apply paced_send, paced_nil].
      * unfold sent in *. by rewrite flat_map_app, S.
      * unfold received in *. by rewrite flat_map_app, R.
    + by rewrite Hi.
    + lia.
  - destruct H as (Hs & Hd). split; [by left|]. exists []. split; [apply prefix_nil|done].
Qed.

Lemma outputs_write_str s : forall d, outputs (write_str s) d s tt (con d).
Proof.
  induction s as [|b s IH]; intros d; cbn [write_str]; [apply outputs_ret|].
  apply (outputs_bind _ _ _ [b] tt (con d)); [apply outputs_write_byte|]. intros d' <-. apply IH.
Qed.

Lemma read_byte_spec d :
  match read_byte d with
  | (Some b, d') => does d d' [b] [] /\ con d' = con d /\ (S (length (status d')) <= length (status d))%nat
  | (None, d') => blocked d' /\ does d d' [] []
  end.
Proof.
  unfold read_byte, bind. pose proof (wait_spec LSR_DATA_READY d) as H.
  destruct (wait _ d) as [[x|] d1].
  - destruct H as (t & v & E & (P & S & R) & Hv & Hi & Hc & Hl). unfold in_data.
    destruct (incoming d1) as [|b rx] eqn:Er.
    + split; [by right|]. split; [|by rewrite Er|lia]. exists (t ++ [In LSR v]).
      split_and!; [done|apply paced_app; [done|by apply paced_poll, paced_nil]|..].
      * unfold sent in *. by rewrite flat_map_app, S.
      * unfold received in *. by rewrite flat_map_app, R.
    + cbn. split_and!; [|done..]. split; cbn; [|by rewrite <- Hi|lia].
      exists (t ++ [In LSR v; In DATA b]). rewrite E, <- !app_assoc. split_and!; [done|..].
      * apply paced_app; [done|by apply paced_receive, paced_nil].
      * unfold sent in *. by rewrite flat_map_app, S.
      * unfold received in *. by rewrite flat_map_app, R.
  - destruct H as (Hs & Hd). split; [by left|done].
Qed.

(** ** The arms do what the byte-level console does *)

Lemma outputs_get {A} (k : Console -> io A) d out a c :
  outputs (k (con d)) d out a c -> outputs (bind get k) d out a c.
Proof. done. Qed.

Lemma outputs_line d :
  let (r, s) := handle_line (session (con d)) (typed (con d)) (monotonic (con d)) in
  let p := match buffer r with Some b => write_to_fixed_address b (page (con d)) | None => page (con d) end in
  let c := mkConsole s [] p (add64 (monotonic (con d)) 1) in
  match action r with
  | Exit => outputs on_line d ([10] ++ text r) true c
  | _ => outputs on_line d (([10] ++ text r) ++ [10] ++ lit "> ") false c
  end.
Proof.
  destruct (handle_line _ _ _) as [r s] eqn:E. cbv zeta.
  set (c := mkConsole _ _ _ _).
  assert (Hpre : forall tail gone, (forall d', con d' = c -> outputs tail d' (if gone : bool then [] else [10] ++ lit "> ") gone c) ->
    outputs (put (mkConsole s [] (page (con d)) (add64 (monotonic (con d)) 1)) ;;
             write_str [10] ;; write_str (text r) ;; put c ;; tail) d
      (([10] ++ text r) ++ if gone then [] else [10] ++ lit "> ") gone c).
  { intros tail gone Ht. rewrite <- app_assoc.
    apply (outputs_bind _ _ _ [] tt _ _ _ _ (outputs_put _ _)). intros d1 H1.
    apply (outputs_bind _ _ _ [10] tt (con d1) _ _ _ (outputs_write_str _ _)). intros d2 H2.
    apply (outputs_bind _ _ _ (text r) tt (con d2) _ _ _ (outputs_write_str _ _)). intros d3 H3.
    apply (outputs_bind _ _ _ [] tt c _ _ _ (outputs_put _ _)). exact Ht. }
  assert (Hb : forall d', con d' = c -> outputs (write_str ([10] ++ lit "> ") ;; ret false) d' ([10] ++ lit "> ") false c).
  { intros d' Hd. rewrite <- (app_nil_r ([10] ++ lit "> ")) at 2.
    apply (outputs_bind _ _ _ _ tt (con d') _ _ _ (outputs_write_str _ _)). intros d2 H2.
    rewrite <- Hd, <- H2. apply outputs_ret. }
  destruct (action r) eqn:Ea; unfold on_line, outputs, bind at 1, get, monotonic_now; rewrite E, Ea.
  1, 2: apply (Hpre _ false Hb).
  rewrite <- (app_nil_r ([10] ++ text r)). apply (Hpre _ true). intros d' <-. apply outputs_ret.
Qed.

Lemma outputs_dispatch d ch : let '(out, c, gone) := console_byte (con d) ch in outputs (dispatch ch) d out gone c.
Proof.
  unfold console_byte, dispatch. destruct (_ || _).
  - unfold monotonic_now. pose proof (outputs_line d) as H. destruct (handle_line _ _ _) as [r s].
    destruct (action r); exact H.
  - destruct (_ || _).
    + destruct (rev (typed (con d))) as [|x r] eqn:Er; apply outputs_get; rewrite Er; [apply outputs_ret|].
      apply (outputs_bind _ _ _ [] tt _ _ _ _ (outputs_put _ _)). intros d1 <-.
      apply (outputs_bind _ _ _ [8; 32; 8] tt (con d1) [] _ _ (outputs_write_str _ _)). intros d2 <-. apply outputs_ret.
    + destruct (negb _) eqn:En; apply outputs_get; rewrite En; [|apply outputs_ret].
      apply (outputs_bind _ _ _ [] tt _ _ _ _ (outputs_put _ _)). intros d1 <-.
      apply (outputs_bind _ _ _ [ch] tt (con d1) [] _ _ (outputs_write_byte _ _)). intros d2 <-. apply outputs_ret.
Qed.

(** ** The loop *)

Lemma turn_spec d :
  match turn d with
  | (Some gone, d') => exists b out, console_byte (con d) b = (out, con d', gone) /\ does d d' [b] out /\
      (S (length (status d')) <= length (status d))%nat
  | (None, d') => blocked d' /\ exists inp o, does d d' inp o /\ o `prefix_of` fst (fst (console (con d) inp))
  end.
Proof.
  unfold turn, bind. pose proof (read_byte_spec d) as H. destruct (read_byte d) as [[b|] d1].
  - destruct H as (H1 & Hc & Hl). pose proof (outputs_dispatch d1 b) as H. rewrite Hc in H.
    destruct (console_byte (con d) b) as [[out c] gone] eqn:E. unfold outputs in H.
    destruct (dispatch b d1) as [[g|] d2].
    + destruct H as (-> & Hc2 & H2). exists b, out. rewrite Hc2. split_and!; [done| |].
      * exact (does_trans _ _ _ _ _ _ _ H1 H2).
      * pose proof (do_status _ _ _ _ H2). lia.
    + destruct H as (Hb & o & Ho & H2). split; [done|]. exists [b], o.
      split; [exact (does_trans _ _ _ _ _ _ _ H1 H2)|]. cbn [console]. rewrite E.
      destruct gone; cbn; [done|by rewrite app_nil_r].
  - destruct H as (Hb & H1). split; [done|]. exists [], []. split; [done|apply prefix_nil].
Qed.

Lemma loop_spec fuel : forall d, (length (status d) < fuel)%nat ->
  match console_loop fuel d with
  | (Some _, d') => exists inp out, console (con d) inp = (out, con d', true) /\ does d d' inp out
  | (None, d') => blocked d' /\ exists inp o, does d d' inp o /\ o `prefix_of` fst (fst (console (con d) inp))
  end.
Proof.
  induction fuel as [|fuel IH]; intros d Hf; [lia|]. cbn [console_loop]. unfold bind.
  pose proof (turn_spec d) as H. destruct (turn d) as [[gone|] d1]; [|exact H].
  destruct H as (b & out & E & H1 & Hl). destruct gone.
  - exists [b], out. cbn [console ret]. rewrite E. split; [done|exact H1].
  - specialize (IH d1 ltac:(lia)). destruct (console_loop fuel d1) as [[x|] d2].
    + destruct IH as (inp & o & E2 & H2). exists (b :: inp), (out ++ o). cbn [console]. rewrite E, E2.
      split; [done|exact (does_trans _ _ _ [b] _ _ _ H1 H2)].
    + destruct IH as (Hb & inp & o & H2 & Ho). split; [done|]. exists (b :: inp), (out ++ o).
      split; [exact (does_trans _ _ _ [b] _ _ _ H1 H2)|]. cbn [console]. rewrite E.
      destruct (console (con d1) inp) as [[more c2] g]. cbn in Ho |- *. by apply prefix_app.
Qed.

(** What is sent before the loop. *)
Definition banner : list Z :=
  [10] ++ ln "=== Golem Linux Safe Mode — Sentinel configuration ===" ++ render_help ++ [10] ++ lit "> ".

Definition greet : io unit :=
  write_str ([10] ++ ln "=== Golem Linux Safe Mode — Sentinel configuration ===") ;;
  write_str render_help ;; write_str ([10] ++ lit "> ").

Lemma outputs_greet d : outputs greet d banner tt (con d).
Proof.
  unfold banner. rewrite app_assoc.
  apply (outputs_bind _ _ _ _ tt (con d) _ _ _ (outputs_write_str _ _)). intros d1 <-.
  apply (outputs_bind _ _ _ _ tt (con d1) _ _ _ (outputs_write_str _ _)). intros d2 <-.
  apply outputs_write_str.
Qed.

Lemma run_console_greet d :
  run_console d =
    match (greet ;; console_loop (S (length (status d)))) d with
    | (Some _, d') => (Some (if committed (session (con d')) then ExitedWithSave else ExitedWithoutSave), d')
    | (None, d') => (None, d')
    end.
Proof.
  unfold run_console, greet, bind. destruct (write_str _ d) as [[[]|] d1]; [|done].
  destruct (write_str _ d1) as [[[]|] d2]; [|done]. destruct (write_str _ d2) as [[[]|] d3]; [|done].
  by destruct (console_loop _ d3) as [[[]|] d4].
Qed.

Lemma greet_loop_spec fuel d : (length (status d) < fuel)%nat ->
  match (greet ;; console_loop fuel) d with
  | (Some _, d') => exists inp o, console (con d) inp = (o, con d', true) /\ does d d' inp (banner ++ o)
  | (None, d') => blocked d' /\ exists inp o, does d d' inp o /\
      o `prefix_of` banner ++ fst (fst (console (con d) inp))
  end.
Proof.
  intros Hf. pose proof (outputs_greet d) as Hm. unfold outputs, bind in *. destruct (greet d) as [[x|] d1].
  - destruct Hm as (_ & Hc & H1). pose proof (do_status _ _ _ _ H1) as Hl.
    pose proof (loop_spec fuel d1 ltac:(lia)) as H. rewrite Hc in H. destruct (console_loop fuel d1) as [[y|] d2].
    + destruct H as (inp & o & E & H2). exists inp, o. split; [done|exact (does_trans _ _ _ _ _ _ _ H1 H2)].
    + destruct H as (Hb & inp & o & H2 & Ho). split; [done|]. exists inp, (banner ++ o).
      split; [exact (does_trans _ _ _ _ _ _ _ H1 H2)|by apply prefix_app].
  - destruct Hm as (Hb & o & Ho & H1). split; [done|]. exists [], o. split; [done|by apply prefix_app_r].
Qed.

(** C15. The console on its port implements the byte-level console, with every UART:
    whatever the status register answers and whatever arrives, the data register is
    touched only right after a status read that allows it, no byte is lost or read
    twice, and what is sent is what the byte-level console prints for the bytes
    received - all of it, with the same outcome, variables and migration page, when
    the operator leaves; otherwise a prefix, and the code is waiting for the device. *)
Theorem console_on_uart_refines current pg n st rx :
  let (r, d) := run_console (powered current pg n st rx) in
  let '(out, c, outcome) := run_safe_mode_console current pg n (received (trace d)) in
  paced (trace d) /\ rx = received (trace d) ++ incoming d /\
  match r with
  | Some o => outcome = Some o /\ sent (trace d) = out /\ con d = c
  | None => blocked d /\ sent (trace d) `prefix_of` out
  end.
Proof.
  rewrite run_console_greet. set (d0 := powered current pg n st rx).
  pose proof (greet_loop_spec (S (length (status d0))) d0 ltac:(lia)) as H.
  destruct ((greet ;; _) d0) as [[x|] d]; unfold run_safe_mode_console.
  - destruct H as (inp & o & E & [(t & Et & P & S & R) I _]).
    cbn in Et, I, E. rewrite Et, R, E, S. by split_and!.
  - destruct H as (Hb & inp & o & [(t & Et & P & S & R) I _] & Ho).
    cbn in Et, I, Ho. rewrite Et, R, S. destruct (console _ _) as [[out c] gone]. by split_and!.
Qed.

(** A session that saves and leaves, on a UART that makes it wait now and then. *)
Definition demo_status : list Z := concat (replicate 2000 [0; 0x21]).

Example console_on_uart_demo :
  let (r, d) := run_console (powered default_config (replicate 100 7) 1 demo_status
                               (demo_input ++ lit "exit" ++ [13; 65])) in
  r = Some ExitedWithSave /\ incoming d = [65].
Proof. vm_compute. split; reflexivity. Qed.

End ConsoleIo.

