(* ===== verification/UnitTests.v ===== *)
(** The unit tests the sources carry (the [mod tests] blocks of sentinel/,
    safemode/sentinel_config.rs and drivers/cpuid.rs), translated test by test to
    boolean programs over the models and evaluated.  [assert_eq!] is [=?] or
    [bool_decide], [assert!(matches!(..))] a match, [unwrap] on a failure is
    [false]. *)

From Stdlib Require Import ZArith Lia Ascii SpecFloat.
From stdpp Require Import base list gmap strings pretty.
From S2P Require Import Prelude Sha256 AuditTrail ConfigBuffer Migration Sentinel F32 Monitor SafeTerm Ipc Cpuid ConfigSession.

Open Scope Z_scope.

Module UnitTests.

(** A float literal is the nearest binary32, as [parse] reads it. *)
Definition lit32 (s : string) : F32.f32 :=
  match ConfigSession.parse_f32 (Ipc.lit s) with Some x => x | None => S754_nan end.

(** [str::contains]. *)
Definition contains (text : list Z) (s : string) : bool :=
  bool_decide (is_Some (Ipc.find_needle (Ipc.lit s) text)).

Definition hexdigit (b : Z) : bool :=
  Ipc.between 48 57 b || Ipc.between 97 102 b || Ipc.between 65 70 b.

(** ** sentinel/audit.rs *)

Module AuditTests.
Import Audit Sha256.

Definition sha256_known_vectors : bool :=
  bool_decide (sha256_hex (as_bytes "") =
    "e3b0c44298fc1c149afbf4c8996fb92427ae41e4649b934ca495991b7852b855"%string) &&
  bool_decide (sha256_hex (as_bytes "abc") =
    "ba7816bf8f01cfea414140de5dae2223b00361a396177a9cb410ff61f20015ad"%string).

Definition chain_records_and_verifies : bool :=
  let '(_, t) := record 1 "kernel" "handshake" "agent-7" new in
  let '(_, t) := record 2 "kernel" "tier-cross" "agent-7" t in
  let '(_, t) := record 3 "kernel" "deregister" "agent-7" t in
  bool_decide (verify t = Ok 3).

(** [g.entries[0].action = "FORGED"], past the interface. *)
Definition forge (t : AuditInner) : AuditInner :=
  match entries t with
  | e :: es =>
      mkAudit (mkEntry (e_sequence e) (e_timestamp e) (e_actor e) "FORGED" (e_target e) (e_hash e)
                 (e_prev_hash e) :: es) (last_hash t) (sequence t)
  | [] => t
  end.

Definition chain_detects_tampering : bool :=
  let '(_, t) := record 1 "k" "x" "a" new in
  let '(_, t) := record 2 "k" "y" "a" t in
  is_err (verify (forge t)).

Definition hashes_are_unique_per_entry : bool :=
  let '(h1, t) := record 10 "op" "register" "a1" new in
  let '(h2, t) := record 10 "op" "register" "a2" t in
  let '(h3, _) := record 10 "op" "register" "a1" t in
  negb (bool_decide (h1 = h2)) && negb (bool_decide (h1 = h3)).

Definition all : list bool :=
  [sha256_known_vectors; chain_records_and_verifies; chain_detects_tampering; hashes_are_unique_per_entry].
End AuditTests.

(** ** sentinel/invisible.rs *)

Module InvisibleTests.
Import Audit Invisible.

#[local] Instance error_eq_dec : EqDecision InvisibleError.
Proof. solve_decision. Defined.

(** [feature] is the [sentinel-safemode] switch of the build under test. *)
Definition gate_new (feature : bool) (ctx : CallerContext) (op : Operation) (who : string)
  : result unit InvisibleError * AuditInner :=
  let (r, a) := gate feature ctx op who 100 (Some new) in (r, default new a).

Definition agent_cannot_see_sentinel_status (feature : bool) : bool :=
  let (res, audit) := gate_new feature Agent ReadStatus "agent-7" in
  bool_decide (res = Err NotPresent) && (len audit =? 1) &&
  match snapshot audit with
  | e :: _ => bool_decide (e_action e = "invisible_probe"%string) && bool_decide (e_target e = "read_status"%string)
  | [] => false
  end.

Definition agent_can_handshake (feature : bool) : bool :=
  let (res, audit) := gate_new feature Agent Handshake "agent-7" in is_ok res && is_empty audit.

Definition operator_cannot_configure_outside_safe_mode (feature : bool) : bool :=
  let (res, audit) := gate_new feature Operator Configure "op-1" in
  bool_decide (res = Err (Forbidden "configure")) && is_empty audit.

Definition errno_invisibility_collision_is_intentional : bool := to_errno NotPresent =? 38.

Definition agent_config_probe_is_always_invisible (feature : bool) : bool :=
  forallb (fun op =>
    let (res, audit) := gate_new feature Agent op "agent-9" in
    bool_decide (res = Err NotPresent) && (len audit =? 1) &&
    match snapshot audit with e :: _ => bool_decide (e_action e = "invisible_probe"%string) | [] => false end)
    [Configure; ReadAudit].

(** [audit] is one trail for both calls. *)
Definition main_os_build_has_no_config_interface : bool :=
  let (r1, a) := gate_new false SafeMode Configure "operator" in
  let (r2, a') := gate false SafeMode ReadAudit "operator" 100 (Some a) in
  is_err r1 && is_err r2 && is_empty (default new a').

Definition safe_mode_build_exposes_config_interface : bool :=
  let (r1, a) := gate_new true SafeMode Configure "operator" in
  let (r2, _) := gate true SafeMode ReadAudit "operator" 100 (Some a) in
  is_ok r1 && is_ok r2.

Definition safe_mode_can_configure : bool := is_ok (fst (gate_new true SafeMode Configure "operator")).

Definition all : list bool :=
  flat_map (fun feature =>
    [agent_cannot_see_sentinel_status feature; agent_can_handshake feature;
     operator_cannot_configure_outside_safe_mode feature; agent_config_probe_is_always_invisible feature])
    [false; true] ++
  [errno_invisibility_collision_is_intentional; main_os_build_has_no_config_interface;
   safe_mode_build_exposes_config_interface; safe_mode_can_configure].
End InvisibleTests.

(** ** sentinel/handshake.rs *)

Module HandshakeTests.
Import Handshake.

#[local] Instance error_eq_dec : EqDecision HandshakeError.
Proof. solve_decision. Defined.
#[local] Instance record_eq_dec : EqDecision AgentRecord.
Proof. solve_decision. Defined.

Definition req (id : string) : HandshakeRequest := mkRequest id Write 30.

Definition first_registration_succeeds : bool :=
  match fst (register new (req "a1") 100) with
  | Ok r => bool_decide (agent_id r = "a1"%string) && bool_decide (tier r = Write) &&
      bool_decide (original_tier r = Write) && (registered_at r =? 100) && negb (locked r)
  | Err _ => false
  end.

Definition re_registration_is_rejected : bool :=
  let (r1, g) := register new (req "a1") 100 in
  is_ok r1 && bool_decide (fst (register g (req "a1") 101) = Err AlreadyRegistered).

Definition empty_id_rejected : bool := bool_decide (fst (register new (req "") 100) = Err EmptyAgentId).

Definition oversized_id_rejected : bool :=
  let bad := req (String.string_of_list_ascii (replicate (Z.to_nat MAX_AGENT_ID_LEN + 1) "a"%char)) in
  bool_decide (fst (register new bad 100) = Err AgentIdTooLong).

Definition heartbeat_bounds_enforced : bool :=
  let (r1, g) := register new (mkRequest "a1" Write 0) 100 in
  let (r2, _) := register g (mkRequest "a2" Write (MAX_HEARTBEAT_SECS + 1)) 100 in
  bool_decide (r1 = Err HeartbeatOutOfRange) && bool_decide (r2 = Err HeartbeatOutOfRange).

Definition heartbeat_updates_last_seen : bool :=
  let (r1, g) := register new (req "a1") 100 in
  let (beat, g) := heartbeat g "a1" 250 in
  is_ok r1 && beat && match get g "a1" with Some r => last_heartbeat r =? 250 | None => false end.

Definition lock_forces_read_only_and_persists : bool :=
  let (r1, g) := register new (req "a1") 100 in
  let (ok, g) := lock g "a1" in
  is_ok r1 && ok &&
  match get g "a1" with
  | Some r => locked r && bool_decide (tier r = ReadOnly) && bool_decide (original_tier r = Write)
  | None => false
  end.

Definition token_is_truncated_audit_hash : bool :=
  let h := "0123456789abcdef0123456789abcdef0123456789abcdef0123456789abcdef"%string in
  let t := token_from_audit_hash h in
  bool_decide (String.length t = 32%nat) && String.prefix t h.

Definition all : list bool :=
  [first_registration_succeeds; re_registration_is_rejected; empty_id_rejected; oversized_id_rejected;
   heartbeat_bounds_enforced; heartbeat_updates_last_seen; lock_forces_read_only_and_persists;
   token_is_truncated_audit_hash].
End HandshakeTests.

(** ** sentinel/monitor.rs *)

Module MonitorTests.
Import Monitor F32 ConfigBuffer.

#[local] Instance tier_eq_dec : EqDecision ResponseTier.
Proof. solve_decision. Defined.

Definition ob (hash : string) (tokens : Z) (announced : bool) (tool : option string) (advanced : bool)
  : Observation := mkObs hash tokens announced tool advanced.

Definition fresh_agent_is_none_tier : bool :=
  bool_decide (fst (observe new "a1" (ob "h1" 10 false None true)) = TNone).

Definition repetition_can_cross_soft : bool :=
  let m := Nat.iter 10 (fun m => snd (observe m "a1" (ob "same" 50 false None false))) new in
  match scores m "a1" with
  | Some s => lt (lit32 "0.6") (s_repetition s) &&
      match s_tier s with TSoft | TMedium | THard => true | TNone => false end
  | None => false
  end.

Definition forget_drops_state : bool :=
  let m := snd (observe new "a1" (ob "h" 1 false None true)) in
  negb (bool_decide (is_Some (scores (forget m "a1") "a1"))).

Definition tool_retry_detects_repeats : bool :=
  let m := fold_left (fun m i =>
    snd (observe m "a1" (ob ("h" +:+ pretty (Z.of_nat i)) 20 false (Some "same_tool") true))) (seq 0 6) new in
  match scores m "a1" with Some s => lt (lit32 "0.4") (s_tool_retry s) | None => false end.

Definition normalize_output_collapses_whitespace_and_case : bool :=
  let a := normalize_output_hash "Hello   World" in
  let b := normalize_output_hash "hello world" in
  let c := normalize_output_hash "hello world!" in
  bool_decide (is_Some a) && bool_decide (a = b) && negb (bool_decide (a = c)).

Definition tier_thresholds_are_inclusive : bool :=
  let t x := tier_for (lit32 x) default_config in
  bool_decide (t "0.0" = TNone) && bool_decide (t "0.4" = TSoft) && bool_decide (t "0.69" = TSoft) &&
  bool_decide (t "0.7" = TMedium) && bool_decide (t "0.9" = THard) && bool_decide (t "1.0" = THard).

Definition combine_zeros_signals_below_gate : bool :=
  let below x := sub (lit32 x) (lit32 "0.01") in
  let total := combine (below "0.6") (below "0.5") (below "0.5") (below "0.4") default_config in
  le total zero && le zero total.

Definition injected_signal_drives_tier : bool :=
  bool_decide (fst (record_signal new "a1" RepetitionScore one) = THard).

Definition all : list bool :=
  [fresh_agent_is_none_tier; repetition_can_cross_soft; forget_drops_state; tool_retry_detects_repeats;
   normalize_output_collapses_whitespace_and_case; tier_thresholds_are_inclusive;
   combine_zeros_signals_below_gate; injected_signal_drives_tier].
End MonitorTests.

(** ** sentinel/ipc.rs *)

Module IpcTests.
Import Ipc.

#[local] Instance tier_eq_dec : EqDecision PermissionTier.
Proof. solve_decision. Defined.

(** The raw strings of the tests, with ' for the double quote. *)
Definition raw (s : string) : list Z := map (fun b => if b =? 39 then 34 else b) (lit s).

Definition parses_a_well_formed_request : bool :=
  match parse_register_request
    (raw "{'method': 'register', 'agent_id': 'agent-7', 'permission_tier': 'EXECUTE'}") with
  | Ok r => bool_decide (agent_id r = lit "agent-7") && bool_decide (permission_tier r = Execute)
  | Err _ => false
  end.

Definition tolerates_whitespace_and_ordering : bool :=
  match parse_register_request
    (raw "{  'permission_tier':'READ_ONLY' ,'agent_id':'a','method':'register'}") with
  | Ok r => bool_decide (agent_id r = lit "a") && bool_decide (permission_tier r = ReadOnly)
  | Err _ => false
  end.

Definition malformed (r : result RegisterRequest IpcError) : bool :=
  match r with Err MalformedRequest => true | _ => false end.

Definition rejects_wrong_method : bool :=
  malformed (parse_register_request (raw "{'method':'deregister','agent_id':'a','permission_tier':'WRITE'}")).

Definition rejects_unknown_tier : bool :=
  malformed (parse_register_request (raw "{'method':'register','agent_id':'a','permission_tier':'ROOT'}")).

Definition svc : result RegisterRequest IpcError :=
  parse_register_request (raw "{'method':'register','agent_id':'svc','permission_tier':'WRITE'}").

(** [mono] is what the clock's counter holds when the test runs. *)
Definition serializes_response_round_trip (mono : Z) : bool :=
  match svc with
  | Err _ => false
  | Ok req =>
      let (resp, _) := build_response mono req in
      match serialize_response resp (replicate 512 0) with
      | (Ok n, out) =>
          let s := take n out in
          let opening := raw "{'success':true,'agent_id':'svc','audit_hash':'" in
          utf8 s && bool_decide (take (length opening) s = opening) &&
          bool_decide (is_Some (find_needle (raw "'timestamp':'mono+") s)) &&
          match json_string_field s (lit "audit_hash") with
          | Some hash => bool_decide (length hash = 16%nat) && forallb hexdigit hash
          | None => false
          end
      | (Err _, _) => false
      end
  end.

Definition audit_hash_is_deterministic_and_tier_sensitive : bool :=
  match parse_register_request (raw "{'method':'register','agent_id':'x','permission_tier':'READ_ONLY'}"),
        parse_register_request (raw "{'method':'register','agent_id':'x','permission_tier':'EXECUTE'}") with
  | Ok r1, Ok r2 =>
      bool_decide (audit_hash_for r1 = audit_hash_for r1) &&
      negb (bool_decide (audit_hash_for r1 = audit_hash_for r2))
  | _, _ => false
  end.

Definition response_buffer_overflow_is_reported (mono : Z) : bool :=
  match svc with
  | Err _ => false
  | Ok req =>
      match fst (serialize_response (fst (build_response mono req)) (replicate 8 0)) with
      | Err MessageTooLarge => true
      | _ => false
      end
  end.

Definition all : list bool :=
  [parses_a_well_formed_request; tolerates_whitespace_and_ordering; rejects_wrong_method;
   rejects_unknown_tier; serializes_response_round_trip 0; serializes_response_round_trip u64_max;
   audit_hash_is_deterministic_and_tier_sensitive; response_buffer_overflow_is_reported 1].
End IpcTests.

(** ** drivers/cpuid.rs *)

Module CpuidTests.
Import Cpuid.

(** [u32::from_le_bytes]. *)
Definition word (s : string) : Z := ConfigBuffer.from_le_bytes (Ipc.lit s).

Definition vendor_decodes_genuine_intel : bool :=
  let v := decode_vendor (word "Genu") (word "ntel") (word "ineI") in
  bool_decide (v = Ipc.lit "GenuineIntel") && bool_decide (v = EXPECTED_VENDOR).

Definition vendor_matches_expected_flag : bool :=
  let info v := mkInfo 1 v 0 0 0 (mkFeatures false false false) in
  vendor_matches_expected (info (Ipc.lit "GenuineIntel")) &&
  negb (vendor_matches_expected (info (Ipc.lit "AuthenticAMD"))).

Definition version_simple_family_six : bool :=
  bool_decide (decode_version (Z.lor (Z.lor (Z.shiftl 0x6 8) (Z.shiftl 0xA 4)) 0x5) = (0x6, 0xA, 0x5)).

Definition version_extended_model_folds_in_for_family_six : bool :=
  let eax := Z.lor (Z.lor (Z.lor (Z.shiftl 0x3 16) (Z.shiftl 0x6 8)) (Z.shiftl 0xE 4)) 0x2 in
  bool_decide (decode_version eax = (0x6, 0x3E, 0x2)).

Definition version_extended_family_adds_for_family_fifteen : bool :=
  let eax := Z.lor (Z.lor (Z.lor (Z.lor (Z.shiftl 0x02 20) (Z.shiftl 0x1 16)) (Z.shiftl 0xF 8))
               (Z.shiftl 0x7 4)) 0x1 in
  bool_decide (decode_version eax = (0xF + 0x2, 0x17, 0x1)).

Definition features_decode_individual_bits : bool :=
  let has f a b c := Bool.eqb (sse f) a && Bool.eqb (sse2 f) b && Bool.eqb (avx f) c in
  has (decode 0 0) false false false &&
  has (decode 0 (Z.shiftl 1 25)) true false false &&
  has (decode 0 (Z.shiftl 1 26)) false true false &&
  has (decode (Z.shiftl 1 28) 0) false false true &&
  has (decode (Z.shiftl 1 28) (Z.lor (Z.shiftl 1 25) (Z.shiftl 1 26))) true true true.

Definition all : list bool :=
  [vendor_decodes_genuine_intel; vendor_matches_expected_flag; version_simple_family_six;
   version_extended_model_folds_in_for_family_six; version_extended_family_adds_for_family_fifteen;
   features_decode_individual_bits].
End CpuidTests.

(** ** sentinel/migration.rs *)

Module MigrationTests.
Import ConfigBuffer Migration.

Definition cfg0 : Thresholds := default_config.

Definition set_repetition (t : Thresholds) (x : Z) : Thresholds :=
  mkThresholds x (t_self_referential t) (t_token_velocity t) (t_tool_retry t) (t_soft t) (t_medium t)
    (t_hard t) (t_window t).
Definition set_window (t : Thresholds) (w : Z) : Thresholds :=
  mkThresholds (t_repetition t) (t_self_referential t) (t_token_velocity t) (t_tool_retry t) (t_soft t)
    (t_medium t) (t_hard t) w.
Definition set_medium (t : Thresholds) (x : Z) : Thresholds :=
  mkThresholds (t_repetition t) (t_self_referential t) (t_token_velocity t) (t_tool_retry t) (t_soft t)
    x (t_hard t) (t_window t).

(** Assignments to a field of a staged buffer, which leave its seal as it is. *)
Definition with_fields (b : MigrationBuffer) (mg v hd : Z) : MigrationBuffer :=
  mkBuffer mg v (dirty b) (reserved b) (repetition b) (self_referential b) (token_velocity b)
    (tool_retry b) (soft b) (medium b) hd (window b) (timestamp b) (checksum b).
Definition with_magic (b : MigrationBuffer) (mg : Z) := with_fields b mg (version b) (hard b).
Definition with_version (b : MigrationBuffer) (v : Z) := with_fields b (magic b) v (hard b).
Definition with_hard (b : MigrationBuffer) (x : Z) := with_fields b (magic b) (version b) x.

(** The bits of a literal. *)
Definition bits32 (s : string) : Z := F32.to_bits (lit32 s).

Definition cold_boot_garbage_is_no_buffer : bool :=
  match decide_buffer (with_magic (sealed_from_thresholds cfg0 true 1) 0xdeadbeef) with
  | NoBuffer => true | _ => false end.

Definition clean_authenticated_buffer_is_no_change : bool :=
  match decide_buffer (sealed_from_thresholds cfg0 false 7) with NoChange => true | _ => false end.

Definition dirty_authenticated_buffer_applies : bool :=
  let want := set_window (set_repetition cfg0 (bits32 "0.55")) 32 in
  match decide_buffer (sealed_from_thresholds want true 9) with
  | Apply t => thresholds_eq t want
  | _ => false
  end.

Definition tampered_checksum_is_rejected : bool :=
  match decide_buffer (with_hard (sealed_from_thresholds cfg0 true 3) (bits32 "0.123")) with
  | Reject ChecksumMismatch _ => true | _ => false end.

Definition unknown_version_is_rejected : bool :=
  match decide_buffer (seal (with_version (sealed_from_thresholds cfg0 true 4) (MIGRATION_VERSION + 1))) with
  | Reject (UnsupportedVersion _ _) _ => true | _ => false end.

Definition checksum_hex_is_64_lowercase_hex : bool :=
  let hex := Audit.as_bytes (checksum_hex (sealed_from_thresholds cfg0 true 1)) in
  bool_decide (length hex = 64%nat) &&
  forallb (fun b => hexdigit b && negb (Ipc.between 65 90 b)) hex.

Definition thresholds_eq_detects_difference : bool :=
  thresholds_eq cfg0 cfg0 && negb (thresholds_eq cfg0 (set_medium cfg0 (bits32 "0.71"))).

Definition error_reasons_are_stable : bool :=
  contains (Audit.as_bytes (reason ChecksumMismatch)) "checksum" &&
  contains (Audit.as_bytes (reason ApplyFailed)) "did not take effect" &&
  contains (Audit.as_bytes (reason (UnsupportedVersion 2 1))) "version".

Definition all : list bool :=
  [cold_boot_garbage_is_no_buffer; clean_authenticated_buffer_is_no_change;
   dirty_authenticated_buffer_applies; tampered_checksum_is_rejected; unknown_version_is_rejected;
   checksum_hex_is_64_lowercase_hex; thresholds_eq_detects_difference; error_reasons_are_stable].
End MigrationTests.

(** ** safemode/sentinel_config.rs *)

Module ConfigTests.
Import ConfigBuffer MigrationTests.
Import ConfigSession.

#[local] Instance action_eq_dec : EqDecision SessionAction.
Proof. solve_decision. Defined.

Definition line (s : ConfigSession) (l : string) (ts : Z) : Response * ConfigSession :=
  handle_line s (Ipc.lit l) ts.

Definition session0 : ConfigSession := ConfigSession.new default_config.

Definition buffer_layout_is_88_bytes : bool :=
  let size := Z.of_nat (length (encode (from_thresholds default_config true 0))) in
  (size =? 88) && (size <=? MIGRATION_BUFFER_SIZE).

Definition magic_decodes_to_ascii : bool :=
  bool_decide (rev (to_le_bytes 8 MIGRATION_MAGIC) = Ipc.lit "GLMMIGR1").

Definition sealed_buffer_validates : bool :=
  let buf := sealed_from_thresholds default_config true 42 in
  is_valid buf && (magic buf =? MIGRATION_MAGIC) && (version buf =? MIGRATION_VERSION) &&
  (timestamp buf =? 42) && dirty buf.

Definition tampering_breaks_checksum : bool :=
  let buf := sealed_from_thresholds default_config true 1 in
  is_valid buf && negb (is_valid (with_hard buf (bits32 "0.123"))).

Definition wrong_magic_is_invalid : bool :=
  negb (is_valid (with_magic (sealed_from_thresholds default_config false 1) 0)).

Definition roundtrip_thresholds : bool :=
  let cfg := MigrationTests.set_window (set_repetition default_config (bits32 "0.55")) 32 in
  let back := to_thresholds (sealed_from_thresholds cfg true 7) in
  (t_repetition back =? bits32 "0.55") && (t_window back =? 32).

Definition checksum_excludes_itself_and_is_stable : bool :=
  let buf := sealed_from_thresholds default_config true 99 in
  bool_decide (checksum buf = compute_checksum buf).

Definition hex_roundtrip : bool :=
  let hex := Sha256.sha256_hex (Audit.as_bytes "golem") in
  bool_decide (bytes_to_hex (hex64_to_bytes hex) = hex).

Definition set_rejects_out_of_range : bool :=
  let (r, s) := line session0 "set repetition 1.5" 1 in
  contains (text r) "rejected" && negb (is_dirty s).

Definition set_rejects_unknown_key : bool :=
  contains (text (fst (line session0 "set bogus 0.5" 1))) "unknown key".

Definition set_rejects_non_numeric : bool :=
  contains (text (fst (line session0 "set soft high" 1))) "rejected".

Definition set_accepts_valid_and_marks_dirty : bool :=
  let (r, s) := line session0 "set repetition 0.8" 1 in
  contains (text r) "ok" && is_dirty s && (t_repetition (working s) =? bits32 "0.8").

Definition window_bounds_enforced : bool :=
  let (r1, s) := line session0 "set window 0" 1 in
  let (r2, s) := line s "set window 99999" 1 in
  let (r3, s) := line s "set window 64" 1 in
  contains (text r1) "rejected" && contains (text r2) "rejected" && contains (text r3) "ok" &&
  (t_window (working s) =? 64).

Definition save_requires_confirmation_and_writes_buffer : bool :=
  let (_, s) := line session0 "set medium 0.75" 1 in
  let (prompt, s) := line s "save" 2 in
  let (done, s) := line s "yes" 3 in
  bool_decide (action prompt = Continue) && contains (text prompt) "IRREVERSIBLE" &&
  match buffer prompt with None => true | Some _ => false end &&
  bool_decide (action done = Saved) &&
  match buffer done with
  | Some buf => is_valid buf && (medium buf =? bits32 "0.75") && (timestamp buf =? 3) && dirty buf
  | None => false
  end && negb (is_dirty s).

Definition save_can_be_cancelled : bool :=
  let (_, s) := line session0 "set hard 0.95" 1 in
  let (_, s) := line s "save" 2 in
  let (cancel, s) := line s "no" 3 in
  bool_decide (action cancel = Continue) && contains (text cancel) "cancelled" &&
  match buffer cancel with None => true | Some _ => false end && is_dirty s.

Definition save_clean_config_is_noop : bool :=
  let (r, _) := line session0 "save" 1 in
  contains (text r) "nothing to save" && bool_decide (action r = Continue).

Definition save_blocked_when_tiers_out_of_order : bool :=
  let (_, s) := line session0 "set medium 0.95" 1 in
  let (r, _) := line s "save" 2 in
  contains (text r) "cannot save" && contains (text r) "soft <= medium <= hard".

Definition exit_clean_leaves_immediately : bool :=
  bool_decide (action (fst (line session0 "exit" 1)) = Exit).

Definition exit_with_unsaved_changes_requires_confirm : bool :=
  let (_, s) := line session0 "set soft 0.3" 1 in
  let (warn, s) := line s "exit" 2 in
  let (stay, s1) := line s "no" 3 in
  let (_, s) := line s1 "exit" 4 in
  let (leave, _) := line s "yes" 5 in
  bool_decide (action warn = Continue) && contains (text warn) "UNSAVED" &&
  bool_decide (action stay = Continue) && is_dirty s1 && bool_decide (action leave = Exit).

Definition show_reflects_pending_edits : bool :=
  let (_, s) := line session0 "set tool_retry 0.42" 1 in
  let (r, _) := line s "show" 2 in
  contains (text r) "tool_retry" && contains (text r) "MODIFIED" && contains (text r) "*".

Definition unknown_command_is_friendly : bool :=
  contains (text (fst (line session0 "frobnicate" 1))) "unknown command".

Definition validate_config_accepts_defaults : bool := is_ok (validate_config default_config).

Definition all : list bool :=
  [buffer_layout_is_88_bytes; magic_decodes_to_ascii; sealed_buffer_validates; tampering_breaks_checksum;
   wrong_magic_is_invalid; roundtrip_thresholds; checksum_excludes_itself_and_is_stable; hex_roundtrip;
   set_rejects_out_of_range; set_rejects_unknown_key; set_rejects_non_numeric;
   set_accepts_valid_and_marks_dirty; window_bounds_enforced;
   save_requires_confirmation_and_writes_buffer; save_can_be_cancelled; save_clean_config_is_noop;
   save_blocked_when_tiers_out_of_order; exit_clean_leaves_immediately;
   exit_with_unsaved_changes_requires_confirm; show_reflects_pending_edits; unknown_command_is_friendly;
   validate_config_accepts_defaults].
End ConfigTests.

(** Every test of the repository passes on the models. *)
Theorem unit_tests_pass :
  forallb id (AuditTests.all ++ InvisibleTests.all ++ HandshakeTests.all ++ MonitorTests.all ++
              IpcTests.all ++ CpuidTests.all ++ MigrationTests.all ++ ConfigTests.all) = true.
Proof. vm_compute. reflexivity. Qed.

End UnitTests.
